(** * frigate/object_processing.py: the tracked-object processor

    A shallow embedding of [zone_filtered] and of
    [TrackedObjectProcessor] ([get_best], [get_current_frame] and one
    iteration of the body of [run]), followed by the properties of the
    zone classifier, the occupancy debouncer, the best-sighting tracker
    and the frame-handle bookkeeping.

    Conventions of the embedding:
    - Python dicts (and [defaultdict], [Counter]) are association lists
      in insertion order; a [defaultdict] read of a missing key appends
      the default, as in Python.
    - Python floats (scores, areas, timestamps) are rationals: every
      finite float is one, and the comparisons the code performs on
      floats agree with the comparisons on the rationals they denote.
      Arithmetic on floats rounds: the one operation the code performs
      on them, the subtraction of line 171, returns the float nearest to
      the exact difference.
    - a Python exception is an [outcome] [Raise]; state written before
      the exception stays written.
    - the world outside the module (the frame store, the MQTT client,
      the wall clock, OpenCV) appears as the components of [world] and
      the fields of [env].
    - the items of the queue are values of their own (the queue pickles
      them), so what the processor stores of one item is not changed by
      a later one.  Within one item the dict of a tracked object is
      shared: [camera_data[camera]['tracked_objects']] holds the dicts
      the loops of the body walk, so the key 'frame' that lines 172 and
      175 write into such a dict shows there too. *)

From Stdlib Require Import List String Ascii ZArith QArith Qround Bool Lia.
From Stdlib Require Import Permutation.
From Stdlib Require Import DecimalString.
Import ListNotations.

Local Open Scope string_scope.
Local Open Scope list_scope.

(** ** Python dictionaries *)

Module Dict.

Definition t (V : Type) := list (string * V).

Fixpoint get {V} (k : string) (d : t V) : option V :=
  match d with
  | [] => None
  | (k', v) :: d' => if String.eqb k k' then Some v else get k d'
  end.

(** [d[k] = v]: an existing key keeps its position, a new key goes last. *)
Fixpoint set {V} (k : string) (v : V) (d : t V) : t V :=
  match d with
  | [] => [(k, v)]
  | (k', v') :: d' =>
      if String.eqb k k' then (k', v) :: d' else (k', v') :: set k v d'
  end.

Definition mem {V} (k : string) (d : t V) : bool :=
  match get k d with Some _ => true | None => false end.

Definition keys {V} (d : t V) : list string := map fst d.
Definition values {V} (d : t V) : list V := map snd d.

(** [defaultdict.__getitem__]: the value under [k], and the dict, which
    gains [k] with the default when [k] was missing. *)
Definition get_default {V} (dflt : V) (k : string) (d : t V) : V * t V :=
  match get k d with
  | Some v => (v, d)
  | None => (dflt, d ++ [(k, dflt)])
  end.

(** A Python dict holds a key once. *)
Fixpoint uniq_keys {V} (d : t V) : bool :=
  match d with
  | [] => true
  | (k, _) :: d' => negb (mem k d') && uniq_keys d'
  end.

End Dict.

(** ** Exceptions *)

Inductive exn : Type :=
| KeyError (key : string)
| TypeError
| AttributeError
| Other (name : string).   (* an exception of a library, by its class:
                              cv2.error, or what datetime raises *)

Inductive outcome (A : Type) : Type :=
| Ok (a : A)
| Raise (e : exn).

Arguments Ok {A} a.
Arguments Raise {A} e.

Definition obind {A B} (o : outcome A) (f : A -> outcome B) : outcome B :=
  match o with
  | Ok a => f a
  | Raise e => Raise e
  end.

Declare Scope outcome_scope.
Delimit Scope outcome_scope with outcome.
Notation "'let?' x ':=' c 'in' k" := (obind c (fun x => k))
  (at level 10, x pattern, c at level 100, k at level 200) : outcome_scope.

(** [d[k]] on a plain dict. *)
Definition index {V} (k : string) (d : Dict.t V) : outcome V :=
  match Dict.get k d with
  | Some v => Ok v
  | None => Raise (KeyError k)
  end.

(** ** Values of the YAML configuration *)

#[warnings="-register-all"]
Inductive pyval : Type :=
| PyNone
| PyNum (q : Q)
| PyStr (s : string)
| PyList (l : list pyval)
| PyDict (d : list (string * pyval)).

(** [s in hay] on two strings. *)
Fixpoint contains (needle hay : string) : bool :=
  String.prefix needle hay
  || match hay with
     | EmptyString => false
     | String _ hay' => contains needle hay'
     end.

Definition is_str (s : string) (v : pyval) : bool :=
  match v with
  | PyStr s' => String.eqb s s'
  | _ => false
  end.

(** [v.get(k, dflt)]; only dicts have [get]. *)
Definition py_get (v : pyval) (k : string) (dflt : pyval) : outcome pyval :=
  match v with
  | PyDict d => Ok (match Dict.get k d with Some x => x | None => dflt end)
  | _ => Raise AttributeError
  end.

(** [name in v] for a string [name]. *)
Definition py_in (name : string) (v : pyval) : outcome bool :=
  match v with
  | PyDict d => Ok (Dict.mem name d)
  | PyList l => Ok (existsb (is_str name) l)
  | PyStr s => Ok (contains name s)
  | _ => Raise TypeError
  end.

(** [v[name]] for a string [name]. *)
Definition py_index (v : pyval) (name : string) : outcome pyval :=
  match v with
  | PyDict d => index name d
  | _ => Raise TypeError
  end.

Definition Qltb (a b : Q) : bool := negb (Qle_bool b a).

(** [v > x] and [v < x] for a configured value against a number. *)
Definition py_gt (v : pyval) (x : Q) : outcome bool :=
  match v with
  | PyNum q => Ok (Qltb x q)
  | _ => Raise TypeError
  end.

Definition py_lt (v : pyval) (x : Q) : outcome bool :=
  match v with
  | PyNum q => Ok (Qltb q x)
  | _ => Raise TypeError
  end.

(** ** Images *)

Definition point := (Z * Z)%type.
Definition contour := list point.
Definition rect := (Z * Z * Z * Z)%type.
Definition rgb := (Z * Z * Z)%type.

(** Modelled from the spec: [frigate.util.draw_box_with_label] and the
    OpenCV drawing calls, "composite annotations (bounding boxes/regions/
    timestamp overlay/zone outlines) onto the fetched buffer in place": a
    frame keeps what has been drawn on it, in drawing order.  The text of
    a box label is formatted from the score and the area. *)
Inductive drawing : Type :=
| draw_box_with_label (b : rect) (name : string) (score area : Q)
    (thickness : Z) (color : rgb)
| rectangle (r : rect) (color : rgb) (thickness : Z)
| putText (shown : string) (org : point) (color : rgb) (thickness : Z)
| drawContours (c : contour) (color : rgb) (thickness : Z).

(** An array of pixels with what has been drawn on it. *)
Inductive pixels : Type :=
| zeros (rows cols channels : Z)
| raw (data : list Z).

Record image : Type := {
  base : pixels;
  drawn : list drawing
}.

Definition draw (d : drawing) (img : image) : image :=
  {| base := base img; drawn := drawn img ++ [d] |}.

(** ** Tracked objects *)

Record tracked_object : Type := {
  label : string;
  score : Q;
  area : Q;
  box : rect;
  centroid : point;
  region : rect;
  frame_time : Q;
  history : list rect;
  frame : option image   (* the key 'frame', set by the processor *)
}.

Definition set_frame (img : image) (obj : tracked_object) : tracked_object :=
  {| label := label obj; score := score obj; area := area obj;
     box := box obj; centroid := centroid obj; region := region obj;
     frame_time := frame_time obj; history := history obj;
     frame := Some img |}.

(** ** zone_filtered *)

Local Open Scope outcome_scope.

Definition zone_filtered (obj : tracked_object) (object_config : pyval)
  : outcome bool :=
  let object_name := label obj in
  let? object_filters := py_get object_config "filters" (PyDict []) in
  let? present := py_in object_name object_filters in
  if present then
    let? obj_settings := py_index object_filters object_name in
    let? min_area := py_get obj_settings "min_area" (PyNum (-1)) in
    let? too_small := py_gt min_area (area obj) in
    if too_small then Ok true else
    let? max_area := py_get obj_settings "max_area" (PyNum 24000000) in
    let? too_big := py_lt max_area (area obj) in
    if too_big then Ok true else
    let? threshold := py_get obj_settings "threshold" (PyNum 0) in
    let? too_low := py_gt threshold (score obj) in
    if too_low then Ok true else
    Ok false
  else Ok false.

(** ** The processor's state *)

Inductive status : Type := ON | OFF.

Definition status_eqb (a b : status) : bool :=
  match a, b with
  | ON, ON | OFF, OFF => true
  | _, _ => false
  end.

Definition is_on (s : status) : bool := status_eqb s ON.

Module Camera.

(** One entry of [camera_data]. *)
Record data : Type := {
  best_objects : Dict.t tracked_object;
  object_status : Dict.t status;
  tracked_objects : Dict.t tracked_object;
  current_frame : image;
  current_frame_time : Q;
  object_id : option string
}.

(** The default factory of [camera_data]. *)
Definition fresh : data := {|
  best_objects := [];
  object_status := [];
  tracked_objects := [];
  current_frame := {| base := zeros 720 1280 3; drawn := [] |};
  current_frame_time := 0;
  object_id := None
|}.

Definition set_best_objects (v : Dict.t tracked_object) (d : data) : data :=
  {| best_objects := v; object_status := object_status d;
     tracked_objects := tracked_objects d; current_frame := current_frame d;
     current_frame_time := current_frame_time d; object_id := object_id d |}.

Definition set_object_status (v : Dict.t status) (d : data) : data :=
  {| best_objects := best_objects d; object_status := v;
     tracked_objects := tracked_objects d; current_frame := current_frame d;
     current_frame_time := current_frame_time d; object_id := object_id d |}.

Definition set_tracked_objects (v : Dict.t tracked_object) (d : data) : data :=
  {| best_objects := best_objects d; object_status := object_status d;
     tracked_objects := v; current_frame := current_frame d;
     current_frame_time := current_frame_time d; object_id := object_id d |}.

Definition set_current_frame (v : image) (d : data) : data :=
  {| best_objects := best_objects d; object_status := object_status d;
     tracked_objects := tracked_objects d; current_frame := v;
     current_frame_time := current_frame_time d; object_id := object_id d |}.

Definition set_current_frame_time (v : Q) (d : data) : data :=
  {| best_objects := best_objects d; object_status := object_status d;
     tracked_objects := tracked_objects d; current_frame := current_frame d;
     current_frame_time := v; object_id := object_id d |}.

Definition set_object_id (v : option string) (d : data) : data :=
  {| best_objects := best_objects d; object_status := object_status d;
     tracked_objects := tracked_objects d; current_frame := current_frame d;
     current_frame_time := current_frame_time d; object_id := v |}.

End Camera.

Module Zone.

(** One entry of [zone_data]; [color] is set by [__init__] for the
    zones known then, and missing in an entry the default factory
    makes later. *)
Record data : Type := {
  object_status : Dict.t (Dict.t status);
  contours : Dict.t contour;
  color : option rgb
}.

Definition fresh : data :=
  {| object_status := []; contours := []; color := None |}.

Definition set_object_status (v : Dict.t (Dict.t status)) (d : data) : data :=
  {| object_status := v; contours := contours d; color := color d |}.

End Zone.

Inductive payload : Type :=
| text (s : string)
| bytes (b : list Byte.byte).

(** One call of [client.publish(topic, payload, retain=...)]. *)
Record message : Type := {
  topic : string;
  body : payload;
  retain : bool
}.

(** Modelled from the spec: the shared frame store of
    [frigate.util.PlasmaManager], "get(key) -> raw_image | unavailable,
    delete(key)": a partial map from keys to frames. *)
Definition frame_store := string -> option image.

Definition store_delete (key : string) (s : frame_store) : frame_store :=
  fun k => if String.eqb k key then None else s k.

Record world : Type := {
  camera_data : Dict.t Camera.data;
  zone_data : Dict.t Zone.data;
  plasma : frame_store;
  published : list message;     (* oldest first *)
  clock_reads : nat             (* calls of datetime.now() so far *)
}.

Definition set_camera_data (v : Dict.t Camera.data) (w : world) : world :=
  {| camera_data := v; zone_data := zone_data w; plasma := plasma w;
     published := published w; clock_reads := clock_reads w |}.

Definition set_zone_data (v : Dict.t Zone.data) (w : world) : world :=
  {| camera_data := camera_data w; zone_data := v; plasma := plasma w;
     published := published w; clock_reads := clock_reads w |}.

Definition set_plasma (v : frame_store) (w : world) : world :=
  {| camera_data := camera_data w; zone_data := zone_data w; plasma := v;
     published := published w; clock_reads := clock_reads w |}.

Definition set_published (v : list message) (w : world) : world :=
  {| camera_data := camera_data w; zone_data := zone_data w;
     plasma := plasma w; published := v; clock_reads := clock_reads w |}.

Definition set_clock_reads (v : nat) (w : world) : world :=
  {| camera_data := camera_data w; zone_data := zone_data w;
     plasma := plasma w; published := published w; clock_reads := v |}.

(** ** What the processor is constructed with and what it calls *)

Record camera_settings : Type := {
  show_timestamp : bool;        (* camera_config[c]['snapshots']['show_timestamp'] *)
  draw_zones : bool             (* camera_config[c]['snapshots']['draw_zones'] *)
}.

Record env : Type := {
  camera_config : Dict.t camera_settings;
  zone_config : Dict.t (Dict.t (Dict.t pyval));   (* zone -> camera -> settings *)
  topic_prefix : string;
  COLOR_MAP : Dict.t rgb;
  (* cv2.pointPolygonTest(contour, point, False): +1, 0 or -1; None
     when OpenCV raises cv2.error, as it does on an empty contour *)
  pointPolygonTest : contour -> point -> option Q;
  cvtColor : image -> image;                      (* COLOR_RGB2BGR *)
  imencode : image -> option (list Byte.byte);    (* '.jpg'; None when ret is false *)
  format_float : Q -> string;                     (* a float inside an f-string *)
  (* datetime.datetime.fromtimestamp(t).strftime("%m/%d/%Y %H:%M:%S"):
     the text, or what fromtimestamp raises on a time out of range *)
  time_to_show : Q -> outcome string;
  now : nat -> Q;               (* the n-th reading of datetime.now().timestamp() *)
  (* the float nearest to a real number; rounding keeps the order, and
     60 is a float *)
  nearest_float : Q -> Q;
  nearest_float_monotone :
    forall a b : Q, a <= b -> nearest_float a <= nearest_float b;
  nearest_float_60 : nearest_float 60 == 60;
  (* decides the iteration order of the set made of a list of strings *)
  set_order : list string -> string -> nat
}.

(** ** The monad of the loop body: state that survives an exception *)

Definition M (A : Type) : Type := world -> outcome A * world.

Definition ret {A} (a : A) : M A := fun w => (Ok a, w).

Definition bind {A B} (m : M A) (f : A -> M B) : M B :=
  fun w =>
    match m w with
    | (Ok a, w') => f a w'
    | (Raise e, w') => (Raise e, w')
    end.

Definition lift {A} (o : outcome A) : M A := fun w => (o, w).
Definition gets {A} (f : world -> A) : M A := fun w => (Ok (f w), w).
Definition modify (f : world -> world) : M unit := fun w => (Ok tt, f w).

Declare Scope monad_scope.
Delimit Scope monad_scope with monad.
Notation "x <- c ;; k" := (bind c (fun x => k))
  (at level 61, c at next level, right associativity) : monad_scope.
Notation "' p <- c ;; k" := (bind c (fun x => let 'p := x in k))
  (at level 61, p pattern, c at next level, right associativity) : monad_scope.
Notation "c ;; k" := (bind c (fun _ => k))
  (at level 61, right associativity) : monad_scope.

Local Open Scope monad_scope.

(** [for x in l: body(x)] *)
Fixpoint for_each {A} (l : list A) (body : A -> M unit) : M unit :=
  match l with
  | [] => ret tt
  | x :: l' => body x ;; for_each l' body
  end.

(** A loop over [l] that threads a local variable and may raise. *)
Fixpoint ofold {A S} (body : S -> A -> outcome S) (l : list A) (s : S)
  : outcome S :=
  match l with
  | [] => Ok s
  | x :: l' => obind (body s x) (ofold body l')
  end.

(** *** Accessors of [camera_data] and [zone_data] (both [defaultdict]s) *)

(** [self.camera_data[camera]] *)
Definition camera_entry (camera : string) : M Camera.data :=
  fun w =>
    let '(d, cd) := Dict.get_default Camera.fresh camera (camera_data w) in
    (Ok d, set_camera_data cd w).

(** [self.camera_data[camera][field] = v], [f] being the field's setter. *)
Definition update_camera (camera : string) (f : Camera.data -> Camera.data)
  : M unit :=
  d <- camera_entry camera ;;
  modify (fun w => set_camera_data (Dict.set camera (f d) (camera_data w)) w).

(** [self.zone_data[zone]] *)
Definition zone_entry (zone : string) : M Zone.data :=
  fun w =>
    let '(d, zd) := Dict.get_default Zone.fresh zone (zone_data w) in
    (Ok d, set_zone_data zd w).

(** Read and update [self.zone_data[zone]['object_status']] in place. *)
Definition with_zone_status {A} (zone : string)
    (f : Dict.t (Dict.t status) -> A * Dict.t (Dict.t status)) : M A :=
  d <- zone_entry zone ;;
  let '(a, os) := f (Zone.object_status d) in
  modify (fun w =>
    set_zone_data
      (Dict.set zone (Zone.set_object_status os d) (zone_data w)) w) ;;
  ret a.

Definition publish (t : string) (p : payload) (r : bool) : M unit :=
  modify (fun w =>
    set_published
      (published w ++ [{| topic := t; body := p; retain := r |}]) w).

(** Modelled from the spec: [self.plasma_client.get(key)], "get(key) ->
    raw_image | unavailable"; None is [plasma.ObjectNotAvailable]. *)
Definition plasma_get (key : string) : M (option image) :=
  gets (fun w => plasma w key).

(** Modelled from the spec: [self.plasma_client.delete(key)],
    "delete(key)". *)
Definition plasma_delete (key : string) : M unit :=
  modify (fun w => set_plasma (store_delete key (plasma w)) w).

Section Processor.

Variable E : env.

(** [datetime.datetime.now().timestamp()] *)
Definition read_clock : M Q :=
  fun w => (Ok (now E (clock_reads w)), set_clock_reads (S (clock_reads w)) w).

(** *** Lines 108-116: the objects in each zone *)

(** [box[3]] of a box [(x_min, y_min, x_max, y_max)] *)
Definition y_max (b : rect) : Z := snd b.

Definition bottom_center (obj : tracked_object) : point :=
  (fst (centroid obj), y_max (box obj)).

(** [current_objects_in_zones[name].append(l)] on a
    [defaultdict(lambda: [])] *)
Definition append_label (name l : string) (coiz : Dict.t (list string))
  : Dict.t (list string) :=
  let '(ls, coiz') := Dict.get_default [] name coiz in
  Dict.set name (ls ++ [l]) coiz'.

(** [current_objects_in_zones[name]] read; the entry the read may add
    to this local dict is never observed, so it is left out. *)
Definition labels_in (name : string) (coiz : Dict.t (list string))
  : list string :=
  match Dict.get name coiz with Some ls => ls | None => [] end.

(** The loops thread the dict being built and the variable [camera],
    which the innermost [for camera, contour in ...] assigns. *)
Definition loop_vars := (Dict.t (list string) * string)%type.

Definition classify_contour (obj : tracked_object) (name : string)
    (vars : loop_vars) (item : string * contour) : outcome loop_vars :=
  let '(coiz, _) := vars in
  let '(camera, contour) := item in
  match pointPolygonTest E contour (bottom_center obj) with
  | None => Raise (Other "cv2.error")
  | Some side =>
      if Qle_bool 0 side then
        (let? zone_cfg := index name (zone_config E) in
         let? camera_zone_config := index camera zone_cfg in
         let filters :=
           match Dict.get "filters" camera_zone_config with
           | Some v => v
           | None => PyDict []
           end in
         let? filtered := zone_filtered obj filters in
         if negb filtered
         then Ok (append_label name (label obj) coiz, camera)
         else Ok (coiz, camera))%outcome
      else Ok (coiz, camera)
  end.

Definition classify_zone (obj : tracked_object) (vars : loop_vars)
    (item : string * Zone.data) : outcome loop_vars :=
  let '(name, zone) := item in
  ofold (classify_contour obj name) (Zone.contours zone) vars.

Definition classify_object (zones : Dict.t Zone.data) (vars : loop_vars)
    (obj : tracked_object) : outcome loop_vars :=
  ofold (classify_zone obj) zones vars.

Definition classify (zones : Dict.t Zone.data)
    (tracked_objects : Dict.t tracked_object) (camera : string)
  : outcome loop_vars :=
  ofold (classify_object zones) (Dict.values tracked_objects) ([], camera).

(** *** Lines 121-158: annotate the frame and make it current *)

(** [f"{camera}{frame_time}"] *)
Definition frame_key (camera : string) (frame_time : Q) : string :=
  camera ++ format_float E frame_time.

Definition annotate_object (current_frame_time : Q) (img : image)
    (obj : tracked_object) : outcome image :=
  (let? color := index (label obj) (COLOR_MAP E) in
   let '(thickness, color) :=
     if negb (Qeq_bool (frame_time obj) current_frame_time)
     then (1%Z, (255, 0, 0)%Z)
     else (2%Z, color) in
   let img :=
     draw (draw_box_with_label (box obj) (label obj) (score obj) (area obj)
             thickness color) img in
   Ok (draw (rectangle (region obj) (0, 255, 0)%Z 1) img))%outcome.

Definition annotate_zone (camera : string) (coiz : Dict.t (list string))
    (img : image) (item : string * Zone.data) : outcome image :=
  let '(name, zone) := item in
  let thickness :=
    if Nat.eqb (List.length (labels_in name coiz)) 0 then 2%Z else 8%Z in
  if Dict.mem camera (Zone.contours zone) then
    (let? c := index camera (Zone.contours zone) in
     let? color :=
       match Zone.color zone with
       | Some col => Ok col
       | None => Raise (KeyError "color")
       end in
     Ok (draw (drawContours c color thickness) img))%outcome
  else Ok img.

Definition annotate (settings : camera_settings) (zones : Dict.t Zone.data)
    (camera : string) (current_frame_time : Q)
    (tracked_objects : Dict.t tracked_object)
    (coiz : Dict.t (list string)) (img : image) : outcome image :=
  (let? img :=
     ofold (annotate_object current_frame_time)
       (Dict.values tracked_objects) img in
   let? img :=
     if show_timestamp settings
     then (let? shown := time_to_show E current_frame_time in
           Ok (draw (putText shown (10, 30)%Z (255, 255, 255)%Z 2) img))
     else Ok img in
   if draw_zones settings
   then ofold (annotate_zone camera coiz) zones img
   else Ok img)%outcome.

Definition update_current_frame (settings : camera_settings)
    (camera : string) (current_frame_time : Q)
    (tracked_objects : Dict.t tracked_object)
    (coiz : Dict.t (list string)) : M unit :=
  current_frame <- plasma_get (frame_key camera current_frame_time) ;;
  match current_frame with
  | None => ret tt
  | Some img =>
      zones <- gets zone_data ;;
      img <- lift (annotate settings zones camera current_frame_time
                     tracked_objects coiz img) ;;
      update_camera camera (Camera.set_current_frame img) ;;
      d <- camera_entry camera ;;
      match Camera.object_id d with
      | Some previous => plasma_delete previous
      | None => ret tt
      end ;;
      update_camera camera
        (Camera.set_object_id (Some (frame_key camera current_frame_time)))
  end.

(** *** Lines 163-176: the best object of each label *)

(** [obj['frame'] = np.copy(self.camera_data[camera]['current_frame'])]
    and [best_objects[obj['label']] = obj].  [obj] is the dict that
    [tracked_objects], the dict stored on line 104 for the camera the
    item came from, [owner], holds under [key]: the first assignment
    writes to that entry.  [best_objects] is the dict of [owner]. *)
Definition store_best (owner camera key : string) (obj : tracked_object)
  : M unit :=
  d <- camera_entry camera ;;
  let obj := set_frame (Camera.current_frame d) obj in
  update_camera owner (fun o =>
    Camera.set_tracked_objects
      (Dict.set key obj (Camera.tracked_objects o)) o) ;;
  update_camera owner (fun o =>
    Camera.set_best_objects
      (Dict.set (label obj) obj (Camera.best_objects o)) o).

(** [a - b] on two floats. *)
Definition float_sub (a b : Q) : Q := nearest_float E (a - b).

(** The body of [for obj in tracked_objects.values()] for the object
    that [tracked_objects] holds under [key]. *)
Definition update_best (owner camera : string) (current_frame_time : Q)
    (entry : string * tracked_object) : M unit :=
  let '(key, obj) := entry in
  if negb (Qeq_bool (frame_time obj) current_frame_time) then ret tt
  else
    o <- camera_entry owner ;;
    match Dict.get (label obj) (Camera.best_objects o) with
    | Some best =>
        clock <- read_clock ;;
        if Qltb (score best) (score obj)
           || Qltb 60 (float_sub clock (frame_time best))
        then store_best owner camera key obj
        else ret tt
    | None => store_best owner camera key obj
    end.

(** *** Lines 182-197: zone occupancy over MQTT *)

(** The order in which Python walks a set of strings is not fixed by
    the language, and two sets of the same strings may be walked in two
    orders; here the set made of the list [l] is walked in the order of
    [set_order E l], which any order can be obtained from. *)
Fixpoint insert_by (h : string -> nat) (x : string) (l : list string)
  : list string :=
  match l with
  | [] => [x]
  | y :: l' => if (h x <=? h y)%nat then x :: l else y :: insert_by h x l'
  end.

Definition set_iter (l : list string) : list string :=
  fold_right (insert_by (set_order E l)) [] (nodup string_dec l).

(** [any([camera[label] == 'ON' for camera in object_status.values()])];
    every inner [defaultdict] is read at [l], and so gains [l]. *)
Definition any_on (l : string) (os : Dict.t (Dict.t status))
  : bool * Dict.t (Dict.t status) :=
  (existsb (fun cm => is_on (fst (Dict.get_default OFF l (snd cm)))) os,
   map (fun cm => (fst cm, snd (Dict.get_default OFF l (snd cm)))) os).

(** [object_status[camera][l] = v] *)
Definition set_status (camera l : string) (v : status)
    (os : Dict.t (Dict.t status)) : unit * Dict.t (Dict.t status) :=
  let '(m, os) := Dict.get_default [] camera os in
  (tt, Dict.set camera (Dict.set l v m) os).

(** [list(object_status[camera].keys())] *)
Definition status_keys (camera : string) (os : Dict.t (Dict.t status))
  : list string * Dict.t (Dict.t status) :=
  let '(m, os) := Dict.get_default [] camera os in
  (Dict.keys m, os).

Definition zone_topic (zone l : string) : string :=
  topic_prefix E ++ "/" ++ zone ++ "/" ++ l.

Definition report_label (camera zone : string) (present : list string)
    (l : string) : M unit :=
  previous_state <- with_zone_status zone (any_on l) ;;
  with_zone_status zone
    (set_status camera l
       (if existsb (String.eqb l) present then ON else OFF)) ;;
  new_state <- with_zone_status zone (any_on l) ;;
  if negb previous_state && new_state
  then publish (zone_topic zone l) (text "ON") false
  else if previous_state && negb new_state
  then publish (zone_topic zone l) (text "OFF") false
  else ret tt.

Definition report_zone (camera : string) (coiz : Dict.t (list string))
    (zone : string) : M unit :=
  known <- with_zone_status zone (status_keys camera) ;;
  let labels_for_zone := set_iter (labels_in zone coiz ++ known) in
  for_each labels_for_zone (report_label camera zone (labels_in zone coiz)).

Definition relevant_zones (camera : string) : list string :=
  map fst (filter (fun zc => Dict.mem camera (snd zc)) (zone_config E)).

Definition report_zones (camera : string) (coiz : Dict.t (list string))
  : M unit :=
  for_each (relevant_zones camera) (report_zone camera coiz).

(** *** Lines 199-228: whole-frame presence over MQTT *)

(** [obj_counter[l] += 1] on a [Counter] *)
Definition count_label (l : string) (c : Dict.t nat) : Dict.t nat :=
  Dict.set l (S (match Dict.get l c with Some n => n | None => O end)) c.

Definition count_objects (tracked_objects : Dict.t tracked_object)
  : Dict.t nat :=
  fold_left
    (fun c obj =>
       if (1 <? List.length (history obj))%nat
       then count_label (label obj) c else c)
    (Dict.values tracked_objects) [].

Definition status_text (s : status) : payload :=
  match s with ON => text "ON" | OFF => text "OFF" end.

Definition presence_topic (camera obj_name : string) : string :=
  topic_prefix E ++ "/" ++ camera ++ "/" ++ obj_name.

Definition snapshot_topic (camera obj_name : string) : string :=
  topic_prefix E ++ "/" ++ camera ++ "/" ++ obj_name ++ "/snapshot".

(** The four lines that follow each presence publish. *)
Definition publish_snapshot (owner camera obj_name : string) : M unit :=
  o <- camera_entry owner ;;
  best <- lift (index obj_name (Camera.best_objects o)) ;;
  img <- lift (match frame best with
               | Some img => Ok img
               | None => Raise (KeyError "frame")
               end) ;;
  let best_frame := cvtColor E img in
  match imencode E best_frame with
  | Some jpg_bytes =>
      publish (snapshot_topic camera obj_name) (bytes jpg_bytes) true
  | None => ret tt
  end.

Definition set_presence (owner obj_name : string) (s : status) : M unit :=
  update_camera owner (fun o =>
    Camera.set_object_status
      (Dict.set obj_name s (Camera.object_status o)) o).

(** [new_status != current_object_status[obj_name]]: a missing key
    reads as the default of the outer [defaultdict], an empty
    [defaultdict], which differs from both strings; the entry that
    read creates is overwritten by the assignment that follows. *)
Definition status_differs (new_status : status) (current : option status)
  : bool :=
  match current with
  | Some s => negb (status_eqb new_status s)
  | None => true
  end.

Definition report_detected (owner camera : string) (item : string * nat)
  : M unit :=
  let '(obj_name, count) := item in
  let new_status := if (0 <? count)%nat then ON else OFF in
  o <- camera_entry owner ;;
  if status_differs new_status (Dict.get obj_name (Camera.object_status o))
  then
    set_presence owner obj_name new_status ;;
    publish (presence_topic camera obj_name) (status_text new_status) false ;;
    publish_snapshot owner camera obj_name
  else ret tt.

Definition report_expired (owner camera obj_name : string) : M unit :=
  set_presence owner obj_name OFF ;;
  publish (presence_topic camera obj_name) (text "OFF") false ;;
  publish_snapshot owner camera obj_name.

Definition expired_objects (current_object_status : Dict.t status)
    (obj_counter : Dict.t nat) : list string :=
  map fst
    (filter (fun e => is_on (snd e) && negb (Dict.mem (fst e) obj_counter))
       current_object_status).

Definition report_presence (owner camera : string)
    (tracked_objects : Dict.t tracked_object) : M unit :=
  let obj_counter := count_objects tracked_objects in
  for_each obj_counter (report_detected owner camera) ;;
  o <- camera_entry owner ;;
  for_each (expired_objects (Camera.object_status o) obj_counter)
    (report_expired owner camera).

(** *** One iteration of [run] *)

(** An item of [tracked_objects_queue]. *)
Definition snapshot := (string * Q * Dict.t tracked_object)%type.

(** Lines 101-105.  [best_objects] and [current_object_status] are
    taken here, from the entry of the camera the item names; the later
    stages reach them through that name, [owner]. *)
Definition begin_item (owner : string) (current_frame_time : Q)
    (tracked_objects : Dict.t tracked_object) : M camera_settings :=
  settings <- lift (index owner (camera_config E)) ;;
  _ <- camera_entry owner ;;
  update_camera owner (Camera.set_tracked_objects tracked_objects) ;;
  update_camera owner (Camera.set_current_frame_time current_frame_time) ;;
  ret settings.

(** Lines 99-228.  After the classification loops the variable
    [camera] holds what the innermost loop assigned to it last. *)
Definition process (item : snapshot) : M unit :=
  let '(owner, current_frame_time, tracked_objects) := item in
  settings <- begin_item owner current_frame_time tracked_objects ;;
  zones <- gets zone_data ;;
  '(coiz, camera) <- lift (classify zones tracked_objects owner) ;;
  update_current_frame settings camera current_frame_time
    tracked_objects coiz ;;
  for_each tracked_objects (update_best owner camera current_frame_time) ;;
  report_zones camera coiz ;;
  report_presence owner camera tracked_objects.

(** [while True:] over the items the queue delivers; an exception
    ends the thread. *)
Definition run (items : list snapshot) : M unit :=
  for_each items process.

(** *** The accessors *)

Definition get_best (camera l : string) : M (option image) :=
  d <- camera_entry camera ;;
  if Dict.mem l (Camera.best_objects d) then
    d <- camera_entry camera ;;
    best <- lift (index l (Camera.best_objects d)) ;;
    match frame best with
    | Some img => ret (Some img)
    | None => lift (Raise (KeyError "frame"))
    end
  else ret None.

Definition get_current_frame (camera : string) : M image :=
  d <- camera_entry camera ;;
  ret (Camera.current_frame d).
End Processor.

(** ** A concrete environment, for running the model *)

Module Sample.

Definition on_segment (p a b : point) : bool :=
  let '(px, py) := p in
  let '(ax, ay) := a in
  let '(bx, by_) := b in
  (((bx - ax) * (py - ay) - (by_ - ay) * (px - ax) =? 0)
   && (Z.min ax bx <=? px) && (px <=? Z.max ax bx)
   && (Z.min ay by_ <=? py) && (py <=? Z.max ay by_))%Z.

(** Does the ray from [p] towards +x cross the edge [a]-[b]? *)
Definition crosses (p a b : point) : bool :=
  let '(px, py) := p in
  let '(ax, ay) := a in
  let '(bx, by_) := b in
  (if negb (Bool.eqb (py <? ay) (py <? by_)) then
     let d := by_ - ay in
     let lhs := (px - ax) * d in
     let rhs := (py - ay) * (bx - ax) in
     if 0 <? d then lhs <? rhs else rhs <? lhs
   else false)%Z.

Definition edges (c : contour) : list (point * point) :=
  combine c (tl c ++ firstn 1 c).

(** Even-odd rule, the boundary counting as inside: +1, 0 or -1, as
    [cv2.pointPolygonTest] with [measureDist=False]; an empty contour
    is refused. *)
Definition point_polygon_test (c : contour) (p : point) : option Q :=
  match c with
  | [] => None
  | _ =>
      Some (if existsb (fun e => on_segment p (fst e) (snd e)) (edges c) then 0
            else if Nat.odd
                      (List.length
                         (filter (fun e => crosses p (fst e) (snd e)) (edges c)))
            then 1 else -1)
  end.

Definition square : contour := [(0, 0); (10, 0); (10, 10); (0, 10)]%Z.

(** How Python prints a float that is a whole number, as the timestamps
    of the scenarios are. *)
Definition whole_seconds (q : Q) : string :=
  NilEmpty.string_of_int (Z.to_int (Qnum q / Zpos (Qden q))) ++ ".0".

(** The timestamps of the scenarios are whole numbers of seconds; the
    text drawn for one stands for what [strftime] makes of it, which
    depends on the time zone. *)
Definition seconds_text (q : Q) : outcome string :=
  Ok ("t=" ++ whole_seconds q)%string.

(** An environment whose cameras are [configured], with one zone,
    "yard", configured for the cameras given, each with the polygon of
    [coordinates] and the zone-level filters of [filters].  The
    differences the scenarios take are of whole numbers of seconds,
    which are floats: rounding leaves them. *)
Definition environment_with (configured cameras : list string)
    (coordinates filters : pyval)
    (encoder : image -> option (list Byte.byte)) : env := {|
  camera_config :=
    map (fun c => (c, {| show_timestamp := true; draw_zones := true |}))
      configured;
  zone_config :=
    [("yard",
      map (fun c => (c, [("coordinates", coordinates); ("filters", filters)]))
        cameras)];
  topic_prefix := "frigate";
  COLOR_MAP := [("person", (31, 119, 180)%Z); ("car", (255, 127, 14)%Z)];
  pointPolygonTest := point_polygon_test;
  cvtColor := fun img => img;
  imencode := encoder;
  format_float := whole_seconds;
  time_to_show := seconds_text;
  now := fun n => 1000 + inject_Z (Z.of_nat n);
  nearest_float := fun q => q;
  nearest_float_monotone := fun a b H => H;
  nearest_float_60 := Qeq_refl 60;
  set_order := fun _ => String.length
|}.

(** The polygon [square]. *)
Definition environment_of (configured cameras : list string)
  : pyval -> (image -> option (list Byte.byte)) -> env :=
  environment_with configured cameras (PyStr "0,0,10,0,10,10,0,10").

(** The cameras "front" and "back". *)
Definition environment : list string -> pyval ->
    (image -> option (list Byte.byte)) -> env :=
  environment_of ["front"; "back"].

(** The state [__init__] leaves for that configuration. *)
Definition initial (cameras : list string) : world := {|
  camera_data := [];
  zone_data :=
    [("yard", {| Zone.object_status := [];
                 Zone.contours := map (fun c => (c, square)) cameras;
                 Zone.color := Some (31, 119, 180)%Z |})];
  plasma := fun _ => None;
  published := [];
  clock_reads := 0
|}.

Definition person (x y : Z) (s a t : Q) (seen : nat) : tracked_object := {|
  label := "person"; score := s; area := a;
  box := (x - 2, y - 8, x + 2, y)%Z; centroid := (x, y - 4)%Z;
  region := (0, 0, 300, 300)%Z; frame_time := t;
  history := List.repeat (x - 2, y - 8, x + 2, y)%Z seen;
  frame := None
|}.

Definition jpeg (img : image) : option (list Byte.byte) :=
  Some [Byte.xff; Byte.xd8; Byte.xff; Byte.xd9].

End Sample.

(** ** Reading the state *)

(** The entry of a camera as a reader of [camera_data] finds it: the
    stored one, or what the default factory would make. *)
Definition camera_view (w : world) (camera : string) : Camera.data :=
  match Dict.get camera (camera_data w) with
  | Some d => d
  | None => Camera.fresh
  end.

Definition zone_view (w : world) (zone : string) : Zone.data :=
  match Dict.get zone (zone_data w) with
  | Some d => d
  | None => Zone.fresh
  end.

(** The aggregate occupancy of a zone for a label: the OR, over the
    cameras with an entry for the zone, of "the camera's entry for the
    label is ON" (a missing entry reads OFF). *)
Definition zone_or (w : world) (zone l : string) : bool :=
  fst (any_on l (Zone.object_status (zone_view w zone))).

(** A component of the world is the same after a computation, whatever
    its outcome. *)
Definition unchanged {X A} (p : world -> X) (m : M A) : Prop :=
  forall w, p (snd (m w)) = p w.


(** The best record of a label for a camera. *)
Definition best_of (w : world) (camera l : string) : option tracked_object :=
  Dict.get l (Camera.best_objects (camera_view w camera)).

(** The readings of the clock numbered from [lo] to below [hi] are at
    most 60 seconds past the time [tau]. *)
Definition within_60 (E : env) (lo hi : nat) (tau : Q) : Prop :=
  forall n, (lo <= n < hi)%nat -> now E n - tau <= 60.

(** Whether an object was seen on the frame of time [t]. *)
Definition seen_at (t : Q) (obj : tracked_object) : bool :=
  Qeq_bool (frame_time obj) t.

(** The whole-frame presence status of a label for a camera; None when
    the label has no entry yet. *)
Definition presence_of (w : world) (camera l : string) : option status :=
  Dict.get l (Camera.object_status (camera_view w camera)).

(** An invariant holds after a computation, whatever its outcome. *)
Definition preserves {A} (I : world -> Prop) (m : M A) : Prop :=
  forall w, I w -> I (snd (m w)).

(** Every best-sighting record carries its frame. *)
Definition framed (records : Dict.t tracked_object) : Prop :=
  Forall (fun r => frame (snd r) <> None) records.

Definition all_framed (w : world) : Prop :=
  Forall (fun c => framed (Camera.best_objects (snd c))) (camera_data w).

(** The states the processor can be in: [__init__] leaves [camera_data]
    empty; the thread runs the loop body on the items of the queue; other
    threads call the accessors; other processes fill the frame store. *)
Inductive reachable (E : env) : world -> Prop :=
| reach_init w :
    camera_data w = [] -> reachable E w
| reach_process item w :
    reachable E w -> reachable E (snd (process E item w))
| reach_get_best camera l w :
    reachable E w -> reachable E (snd (get_best camera l w))
| reach_get_current_frame camera w :
    reachable E w -> reachable E (snd (get_current_frame camera w))
| reach_store s w :
    reachable E w -> reachable E (set_plasma s w).

(** The messages of the presence stage: the JPEG, retained, on
    [{prefix}/{camera}/{label}/snapshot], and ON or OFF, not retained, on
    [{prefix}/{camera}/{label}]. *)
Definition snapshot_message (E : env) (camera l : string)
    (jpg : list Byte.byte) : message :=
  {| topic := topic_prefix E ++ "/" ++ camera ++ "/" ++ l ++ "/snapshot";
     body := bytes jpg; retain := true |}.

Definition presence_message (E : env) (camera l : string) (s : status)
  : message :=
  {| topic := topic_prefix E ++ "/" ++ camera ++ "/" ++ l;
     body := text (match s with ON => "ON" | OFF => "OFF" end);
     retain := false |}.

(** What the lines after a presence publish add to the messages, given
    the best record of the label: the retained JPEG of its frame, nothing
    when the encoder fails, and a [KeyError] without a record. *)
Definition snapshot_outcome (E : env) (best : option tracked_object)
    (camera l : string) : outcome (list message) :=
  match best with
  | None => Raise (KeyError l)
  | Some b =>
      match frame b with
      | None => Raise (KeyError "frame")
      | Some img =>
          match imencode E (cvtColor E img) with
          | Some jpg => Ok [snapshot_message E camera l jpg]
          | None => Ok []
          end
      end
  end.

(** A presence publish and what follows it: the outcome and the messages. *)
Definition transition_outcome (E : env) (best : option tracked_object)
    (camera l : string) (s : status) : outcome unit * list message :=
  match snapshot_outcome E best camera l with
  | Ok msgs => (Ok tt, presence_message E camera l s :: msgs)
  | Raise e => (Raise e, [presence_message E camera l s])
  end.

(** A label has a tracked object with more than one entry of history. *)
Definition stably_seen (tracked_objects : Dict.t tracked_object) (l : string)
  : Prop :=
  exists obj, In obj (Dict.values tracked_objects) /\
              label obj = l /\ (1 < List.length (history obj))%nat.

(** The snapshot that goes with a presence publish: the retained JPEG of
    the frame of the label's best record, when there is a record and the
    encoder succeeds. *)
Definition snapshot_messages (E : env) (w : world) (owner camera l : string)
  : list message :=
  match snapshot_outcome E (best_of w owner l) camera l with
  | Ok msgs => msgs
  | Raise _ => []
  end.

(** The messages of a label that is counted, and of a label that expired. *)
Definition detected_messages (E : env) (w : world) (owner camera : string)
    (item : string * nat) : list message :=
  if status_differs ON (presence_of w owner (fst item))
  then presence_message E camera (fst item) ON
       :: snapshot_messages E w owner camera (fst item)
  else [].

Definition expired_messages (E : env) (w : world) (owner camera l : string)
  : list message :=
  presence_message E camera l OFF :: snapshot_messages E w owner camera l.

(** The frame an item gets composited, with the camera it is made the
    current frame of: there is one when the item's camera is configured,
    the classification loops return, the store has the frame under the
    key of line 121 and drawing on it returns. *)
Definition composite (E : env) (item : snapshot) (w : world)
  : option (string * image) :=
  let '(owner, current_frame_time, tracked_objects) := item in
  match index owner (camera_config E),
        classify E (zone_data w) tracked_objects owner with
  | Ok settings, Ok (coiz, camera) =>
      match plasma w (frame_key E camera current_frame_time) with
      | Some img =>
          match annotate E settings (zone_data w) camera current_frame_time
                  tracked_objects coiz img with
          | Ok img' => Some (camera, img')
          | Raise _ => None
          end
      | None => None
      end
  | _, _ => None
  end.

(** The store once the handle a camera held is released. *)
Definition release (handle : option string) (s : frame_store) : frame_store :=
  match handle with
  | Some previous => store_delete previous s
  | None => s
  end.

(** The messages of the zone stage: ON or OFF, not retained, on
    [{prefix}/{zone}/{label}]. *)
Definition zone_message (E : env) (zone l s : string) : message :=
  {| topic := topic_prefix E ++ "/" ++ zone ++ "/" ++ l; body := text s;
     retain := false |}.

(** What a change of the aggregate from [before] to [after] publishes. *)
Definition edge_messages (E : env) (zone l : string) (before after : bool)
  : list message :=
  if negb before && after then [zone_message E zone l "ON"]
  else if before && negb after then [zone_message E zone l "OFF"]
  else [].

(** The labels the zone stage examines for a zone, in its order: those
    in the zone on this snapshot and those this camera has an entry for. *)
Definition labels_for_zone (E : env) (w : world) (camera : string)
    (coiz : Dict.t (list string)) (zone : string) : list string :=
  set_iter E
    (labels_in zone coiz
     ++ Dict.keys
          (match Dict.get camera (Zone.object_status (zone_view w zone)) with
           | Some m => m
           | None => []
           end)).

(** The (zone, label) pairs the zone stage examines, in its order. *)
Definition examined (E : env) (w : world) (camera : string)
    (coiz : Dict.t (list string)) : list (string * string) :=
  flat_map
    (fun zone => map (pair zone) (labels_for_zone E w camera coiz zone))
    (relevant_zones E camera).

(** A status entry read as the aggregate reads it. *)
Definition reads_on (l : string) (m : Dict.t status) : bool :=
  is_on (fst (Dict.get_default OFF l m)).

(** A best record that carries its frame. *)
Definition has_frame (best : option tracked_object) : bool :=
  match best with
  | Some b => match frame b with Some _ => true | None => false end
  | None => false
  end.

(** The labels whose presence status the presence stage changes: the
    counted ones whose status is not ON, then the ones that are ON and
    not counted. *)
Definition in_transition (w : world) (owner : string)
    (tracked_objects : Dict.t tracked_object) : list string :=
  map fst
    (filter (fun e => status_differs ON (presence_of w owner (fst e)))
       (count_objects tracked_objects))
  ++ expired_objects (Camera.object_status (camera_view w owner))
       (count_objects tracked_objects).

(** A numeric setting of a label's filter: its value, the default of
    [zone_filtered] when the key is absent, and nothing when the value is
    not a number. *)
Definition setting (settings : Dict.t pyval) (key : string) (dflt : Q)
  : option Q :=
  match Dict.get key settings with
  | Some (PyNum q) => Some q
  | Some _ => None
  | None => Some dflt
  end.

(** Whether the loop body gets as far as the zone stage (line 182), and
    then with which membership map and which value of [camera]: it does
    unless the item's camera is not configured, the classification
    raises, or the drawing on an available frame raises. *)
Definition reaches_zones (E : env) (item : snapshot) (w : world)
  : option (Dict.t (list string) * string) :=
  let '(owner, current_frame_time, tracked_objects) := item in
  match index owner (camera_config E),
        classify E (zone_data w) tracked_objects owner with
  | Ok settings, Ok (coiz, camera) =>
      match plasma w (frame_key E camera current_frame_time) with
      | Some img =>
          match annotate E settings (zone_data w) camera current_frame_time
                  tracked_objects coiz img with
          | Ok _ => Some (coiz, camera)
          | Raise _ => None
          end
      | None => Some (coiz, camera)
      end
  | _, _ => None
  end.

(** A message of the presence stage for the camera name [camera]. *)
Definition presence_stage_message (E : env) (camera : string) (m : message)
  : Prop :=
  exists l, (exists s, m = presence_message E camera l s)
            \/ (exists jpg, m = snapshot_message E camera l jpg).

(** A computation only appends messages, each of them satisfying [P]. *)
Definition appends {A} (P : message -> Prop) (m : M A) : Prop :=
  forall w, exists rest,
    published (snd (m w)) = published w ++ rest /\ Forall P rest.


(** ** Scenarios *)

Module Scenario.

Import Sample.

(** A person of 100 pixels with score 0.9, seen at time 1000 with its
    bottom centre at (5, 5), inside [square], for the second time. *)
Definition small_person : tracked_object := person 5 5 (9 # 10) 100 1000 2.

(** The person on a later frame on which the tracker did not see it:
    its own [frame_time] stays behind. *)
Definition stale_person : tracked_object := person 5 5 (9 # 10) 100 990 2.

(** The person seen again at time 1000, with a lower score. *)
Definition faint_person : tracked_object := person 5 5 (1 # 2) 100 1000 3.

(** The queue item of a camera at time 1000 with one tracked object. *)
Definition item_of (camera : string) (obj : tracked_object) : snapshot :=
  (camera, 1000, [("1000.0-0", obj)]).

(** Zone-level filters as the configuration file gives them: persons of
    less than 5000 pixels do not count. *)
Definition min_area_5000 : pyval :=
  PyDict [("person", PyDict [("min_area", PyNum 5000)])].

(** One camera, "back", whose zone "yard" has that filter. *)
Definition filtered_yard : env := environment ["back"] min_area_5000 jpeg.

(** The zone "yard" has a polygon for the camera "back" only. *)
Definition back_yard : env := environment ["back"] (PyDict []) jpeg.

(** One camera, "front", and an encoder that fails. *)
Definition failing_encoder : env :=
  environment ["front"] (PyDict []) (fun _ => None).

(** Two cameras on the zone "yard". *)
Definition two_cameras : env := environment ["front"; "back"] (PyDict []) jpeg.

(** One camera, "front", on the zone "yard". *)
Definition front_yard : env := environment ["front"] (PyDict []) jpeg.

(** The state after the first item of the camera "front", with the
    encoder given. *)
Definition seen (E : env) : world :=
  snd (process E (item_of "front" small_person) (initial ["front"])).

End Scenario.

(** ** Construction: the colour table of the module and [__init__] *)

(** What the construction calls outside the module:
    - [int_of s] is [int(s)] on a string; None when it raises
      [ValueError];
    - [tab10 n i] is [tuple(int(round(255 * c)) for c in cmap(i)[:3])]
      for [cmap = plt.cm.get_cmap('tab10', n)]. *)
Record builtins : Type := {
  int_of : string -> option Z;
  tab10 : nat -> Z -> rgb
}.

(** The exceptions of the construction: those of [exn], and two more. *)
Inductive init_exn : Type :=
| Plain (e : exn)
| IndexError
| ValueError.

Inductive attempt (A : Type) : Type :=
| Done (a : A)
| Failed (e : init_exn).

Arguments Done {A} a.
Arguments Failed {A} e.

Definition abind {A B} (o : attempt A) (f : A -> attempt B) : attempt B :=
  match o with
  | Done a => f a
  | Failed e => Failed e
  end.

Declare Scope attempt_scope.
Delimit Scope attempt_scope with attempt.
Notation "'let!' x ':=' c 'in' k" := (abind c (fun x => k))
  (at level 10, x pattern, c at level 100, k at level 200) : attempt_scope.

(** [[f(x) for x in l]] when [f] may raise. *)
Fixpoint each {A B} (f : A -> attempt B) (l : list A) : attempt (list B) :=
  match l with
  | [] => Done []
  | x :: l' =>
      (let! y := f x in
       let! ys := each f l' in
       Done (y :: ys))%attempt
  end.

(** A loop over [l] that threads a local variable and may raise. *)
Fixpoint afold {A S} (body : S -> A -> attempt S) (l : list A) (s : S)
  : attempt S :=
  match l with
  | [] => Done s
  | x :: l' => abind (body s x) (afold body l')
  end.

(** [s.split(sep)] for a separator of one character: the fields between
    its occurrences, of which there is always one at least. *)
Fixpoint str_split (sep : ascii) (s : string) : list string :=
  match s with
  | EmptyString => [EmptyString]
  | String c s' =>
      if Ascii.eqb c sep then EmptyString :: str_split sep s'
      else match str_split sep s' with
           | field :: fields => String c field :: fields
           | [] => [String c EmptyString]
           end
  end.

(** [range(0, n, 2)] *)
Definition range_by_2 (n : nat) : list nat :=
  map (fun k => 2 * k)%nat (seq 0 (Nat.div2 (S n))).

Definition set_contours (v : Dict.t contour) (d : Zone.data) : Zone.data :=
  {| Zone.object_status := Zone.object_status d; Zone.contours := v;
     Zone.color := Zone.color d |}.

Definition set_color (v : option rgb) (d : Zone.data) : Zone.data :=
  {| Zone.object_status := Zone.object_status d;
     Zone.contours := Zone.contours d; Zone.color := v |}.

(** [self.zone_data[name]['contours'][camera] = c] *)
Definition add_contour (name camera : string) (c : contour)
    (zd : Dict.t Zone.data) : Dict.t Zone.data :=
  let '(z, zd) := Dict.get_default Zone.fresh name zd in
  Dict.set name (set_contours (Dict.set camera c (Zone.contours z)) z) zd.

(** Lines 70-79 thread [zone_data] and what has been printed. *)
Definition init_vars := (Dict.t Zone.data * list string)%type.

Section Construction.

Variable E : env.
Variable B : builtins.

(** Lines 19-23, for the label map [LABELS] that [load_labels] returned,
    as its items. *)
Definition color_map (LABELS : list (Z * string)) : Dict.t rgb :=
  fold_left
    (fun m kv => Dict.set (snd kv) (tab10 B (List.length LABELS) (fst kv)) m)
    LABELS [].

(** [int(fields[i])] *)
Definition int_at (fields : list string) (i : nat) : attempt Z :=
  match nth_error fields i with
  | Some field =>
      match int_of B field with
      | Some z => Done z
      | None => Failed ValueError
      end
  | None => Failed IndexError
  end.

(** Line 74, one element:
    [[int(p.split(',')[0]), int(p.split(',')[1])]] *)
Definition point_of (p : pyval) : attempt point :=
  match p with
  | PyStr s =>
      (let! x := int_at (str_split "," s) 0 in
       let! y := int_at (str_split "," s) 1 in
       Done (x, y))%attempt
  | _ => Failed (Plain AttributeError)
  end.

(** Lines 76-77:
    [[[int(points[i]), int(points[i+1])] for i in range(0, len(points), 2)]] *)
Definition points_of (coordinates : string) : attempt contour :=
  let points := str_split "," coordinates in
  each (fun i =>
          (let! x := int_at points i in
           let! y := int_at points (i + 1) in
           Done (x, y))%attempt)
    (range_by_2 (List.length points)).

(** Lines 73-79: the contour of a list or of a string, and nothing for
    coordinates of another type. *)
Definition parse_coordinates (coordinates : pyval) : option (attempt contour) :=
  match coordinates with
  | PyList l => Some (each point_of l)
  | PyStr s => Some (points_of s)
  | _ => None
  end.

Definition init_camera (name : string) (vars : init_vars)
    (item : string * Dict.t pyval) : attempt init_vars :=
  let '(zd, printed) := vars in
  let '(camera, camera_zone_config) := item in
  match Dict.get "coordinates" camera_zone_config with
  | Some coordinates =>
      match parse_coordinates coordinates with
      | Some parsed =>
          (let! c := parsed in
           Done (add_contour name camera c zd, printed))%attempt
      | None =>
          Done (zd,
                printed ++ [("Unable to parse zone coordinates for "
                             ++ name ++ " - " ++ camera)%string])
      end
  | None => Failed (Plain (KeyError "coordinates"))
  end.

Definition init_zone (vars : init_vars)
    (item : string * Dict.t (Dict.t pyval)) : attempt init_vars :=
  let '(name, config) := item in
  afold (init_camera name) config vars.

(** Lines 82-84 *)
Definition set_colors (zd : Dict.t Zone.data) : Dict.t Zone.data :=
  map (fun iz =>
         (fst (snd iz),
          set_color (Some (tab10 B (List.length zd) (Z.of_nat (fst iz))))
            (snd (snd iz))))
    (combine (seq 0 (List.length zd)) zd).

(** [__init__]: the state of the new processor and what was printed;
    [store] is the frame store [PlasmaManager()] connects to. *)
Definition init (store : frame_store) : attempt (world * list string) :=
  (let! vars := afold init_zone (zone_config E) ([], []) in
   let '(zd, printed) := vars in
   Done ({| camera_data := []; zone_data := set_colors zd; plasma := store;
            published := []; clock_reads := 0 |},
         printed))%attempt.

End Construction.

(** The states of a processor that [__init__] made: the thread runs the
    loop body on the items of the queue; other threads call the
    accessors; other processes fill the frame store. *)
Inductive live (E : env) (B : builtins) : world -> Prop :=
| live_init store w printed :
    init E B store = Done (w, printed) -> live E B w
| live_process item w :
    live E B w -> live E B (snd (process E item w))
| live_get_best camera l w :
    live E B w -> live E B (snd (get_best camera l w))
| live_get_current_frame camera w :
    live E B w -> live E B (snd (get_current_frame camera w))
| live_store s w :
    live E B w -> live E B (set_plasma s w).

(** ** Reading the construction *)

(** The coordinates the configuration gives a camera for a zone. *)
Definition configured_coordinates (E : env) (name camera : string)
  : option pyval :=
  match Dict.get name (zone_config E) with
  | Some config =>
      match Dict.get camera config with
      | Some camera_zone_config => Dict.get "coordinates" camera_zone_config
      | None => None
      end
  | None => None
  end.

(** The contour [__init__] makes of a camera's coordinates: there is
    one when they are a list or a string, and parse. *)
Definition parsed_contour (B : builtins) (coordinates : option pyval)
  : option contour :=
  match coordinates with
  | Some v =>
      match parse_coordinates B v with
      | Some (Done c) => Some c
      | _ => None
      end
  | None => None
  end.

(** What the settings of a camera for a zone make [__init__] raise, if
    anything: the KeyError of missing coordinates, or what the parsing
    of the coordinates raises. *)
Definition failure_of (B : builtins) (camera_zone_config : Dict.t pyval)
  : option init_exn :=
  match Dict.get "coordinates" camera_zone_config with
  | Some v =>
      match parse_coordinates B v with
      | Some (Failed e) => Some e
      | _ => None
      end
  | None => Some (Plain (KeyError "coordinates"))
  end.

Fixpoint first_some {A} (l : list (option A)) : option A :=
  match l with
  | [] => None
  | Some a :: _ => Some a
  | None :: l' => first_some l'
  end.

(** The failure of the first camera, in the order of the configuration,
    whose settings have one. *)
Definition first_failure (E : env) (B : builtins) : option init_exn :=
  first_some
    (flat_map (fun zc => map (fun cc => failure_of B (snd cc)) (snd zc))
       (zone_config E)).

(** What [__init__] prints: a line for each camera of each zone whose
    coordinates are neither a list nor a string. *)
Definition complaints_of (B : builtins) (name : string)
    (config : Dict.t (Dict.t pyval)) : list string :=
  flat_map
    (fun cc =>
       match Dict.get "coordinates" (snd cc) with
       | Some v =>
           match parse_coordinates B v with
           | None =>
               [("Unable to parse zone coordinates for "
                 ++ name ++ " - " ++ fst cc)%string]
           | Some _ => []
           end
       | None => []
       end)
    config.

Definition complaints (E : env) (B : builtins) : list string :=
  flat_map (fun zc => complaints_of B (fst zc) (snd zc)) (zone_config E).

(** The configuration names each zone once, and each camera once in a
    zone: it is a dict of dicts. *)
Definition config_keys_unique (E : env) : bool :=
  Dict.uniq_keys (zone_config E)
  && forallb (fun zc => Dict.uniq_keys (snd zc)) (zone_config E).

(** The contour a zone has for a camera. *)
Definition contour_of (zd : Dict.t Zone.data) (name camera : string)
  : option contour :=
  Dict.get camera
    (Zone.contours
       (match Dict.get name zd with Some z => z | None => Zone.fresh end)).

(** An entry of [zone_data] whose contours are for cameras the
    configuration names under the zone, and which has a colour unless it
    has no contour. *)
Definition zone_configured (E : env) (item : string * Zone.data) : Prop :=
  (forall camera, Dict.mem camera (Zone.contours (snd item)) = true ->
     exists config, Dict.get (fst item) (zone_config E) = Some config /\
                    Dict.mem camera config = true) /\
  (Zone.contours (snd item) <> [] -> Zone.color (snd item) <> None).

Definition zones_configured (E : env) (zd : Dict.t Zone.data) : Prop :=
  Forall (zone_configured E) zd.

(** ** A stand-in for the builtins, for running the construction *)

Module Builtins.

Definition digit (c : ascii) : option Z :=
  let n := nat_of_ascii c in
  if ((48 <=? n) && (n <=? 57))%nat then Some (Z.of_nat (n - 48)) else None.

Fixpoint digits (acc : Z) (s : string) : option Z :=
  match s with
  | EmptyString => Some acc
  | String c s' =>
      match digit c with
      | Some d => digits (10 * acc + d) s'
      | None => None
      end
  end.

(** [int] on the strings the scenarios hand to it, which are runs of
    decimal digits; Python's [int] accepts more (a sign, blanks around,
    underscores between digits), which nothing here depends on. *)
Definition decimal (s : string) : option Z :=
  match s with
  | EmptyString => None
  | _ => digits 0 s
  end.

(** The colour of index 0 of 'tab10', which is what a map of one entry
    asks for. *)
Definition sample : builtins :=
  {| int_of := decimal; tab10 := fun _ _ => (31, 119, 180)%Z |}.

End Builtins.

(** ** What is drawn on a frame *)

(** The box and the region of an object (lines 126-138), [color] being
    the colour of its label. *)
Definition object_drawings (t : Q) (obj : tracked_object) (color : rgb)
  : list drawing :=
  [draw_box_with_label (box obj) (label obj) (score obj) (area obj)
     (if seen_at t obj then 2 else 1)%Z
     (if seen_at t obj then color else (255, 0, 0)%Z);
   rectangle (region obj) (0, 255, 0)%Z 1].

Definition box_drawings (E : env) (t : Q) (objs : Dict.t tracked_object)
  : list drawing :=
  flat_map
    (fun obj =>
       match Dict.get (label obj) (COLOR_MAP E) with
       | Some color => object_drawings t obj color
       | None => []
       end)
    (Dict.values objs).

(** The outlines of the zones that have a contour for the camera (lines
    145-148), thick when the zone has an object in it. *)
Definition zone_outlines (zones : Dict.t Zone.data) (camera : string)
    (coiz : Dict.t (list string)) : list drawing :=
  flat_map
    (fun item =>
       match Dict.get camera (Zone.contours (snd item)),
             Zone.color (snd item) with
       | Some c, Some col =>
           [drawContours c col
              (if Nat.eqb (List.length (labels_in (fst item) coiz)) 0
               then 2 else 8)%Z]
       | _, _ => []
       end)
    zones.

(** The timestamp (lines 140-142), when it is asked for and the frame
    time has a text. *)
Definition timestamp_drawing (E : env) (settings : camera_settings) (t : Q)
  : list drawing :=
  if show_timestamp settings then
    match time_to_show E t with
    | Ok shown => [putText shown (10, 30)%Z (255, 255, 255)%Z 2]
    | Raise _ => []
    end
  else [].

(** What line 141 raises, if anything: what [fromtimestamp] raises on
    the frame time, when the timestamp is asked for. *)
Definition timestamp_failure (E : env) (settings : camera_settings) (t : Q)
  : option exn :=
  if show_timestamp settings then
    match time_to_show E t with
    | Ok _ => None
    | Raise e => Some e
    end
  else None.

Definition annotations (E : env) (settings : camera_settings)
    (zones : Dict.t Zone.data) (camera : string) (t : Q)
    (objs : Dict.t tracked_object) (coiz : Dict.t (list string))
  : list drawing :=
  box_drawings E t objs
  ++ timestamp_drawing E settings t
  ++ (if draw_zones settings then zone_outlines zones camera coiz else []).

(** The first tracked object whose label has no colour. *)
Definition uncoloured (E : env) (objs : Dict.t tracked_object)
  : option tracked_object :=
  find (fun obj => negb (Dict.mem (label obj) (COLOR_MAP E)))
    (Dict.values objs).

(** ** Reading the classification *)

(** The cameras whose contours the classification tests for one object,
    in its order: those of every zone. *)
Definition contour_cameras (zones : Dict.t Zone.data) : list string :=
  flat_map (fun z => Dict.keys (Zone.contours (snd z))) zones.

(** What line 115 hands to [zone_filtered] for a zone and a camera. *)
Definition zone_filters (E : env) (name camera : string) : pyval :=
  match Dict.get name (zone_config E) with
  | Some config =>
      match Dict.get camera config with
      | Some camera_zone_config =>
          match Dict.get "filters" camera_zone_config with
          | Some v => v
          | None => PyDict []
          end
      | None => PyDict []
      end
  | None => PyDict []
  end.

(** The condition of line 115 for an object and one contour of a zone. *)
(** The first half of the condition of line 115: the point test returns
    0 or more. *)
Definition inside (E : env) (obj : tracked_object) (c : contour) : bool :=
  match pointPolygonTest E c (bottom_center obj) with
  | Some side => Qle_bool 0 side
  | None => false
  end.

Definition counts_in (E : env) (obj : tracked_object) (name : string)
    (cc : string * contour) : bool :=
  inside E obj (snd cc)
  && match zone_filtered obj (zone_filters E name (fst cc)) with
     | Ok false => true
     | _ => false
     end.

(** Every point test the classification can make returns: that of each
    tracked object against each contour of each zone. *)
Definition tests_return (E : env) (zones : Dict.t Zone.data)
    (objs : Dict.t tracked_object) : bool :=
  forallb
    (fun obj =>
       forallb
         (fun z =>
            forallb
              (fun cc =>
                 match pointPolygonTest E (snd cc) (bottom_center obj) with
                 | Some _ => true
                 | None => false
                 end)
              (Zone.contours (snd z)))
         zones)
    (Dict.values objs).

(** The labels line 116 appends for a zone: one for each object and each
    contour of the zone that the object counts in, object by object. *)
Definition objects_in_zone (E : env) (zones : Dict.t Zone.data)
    (objs : Dict.t tracked_object) (name : string) : list string :=
  flat_map
    (fun obj =>
       flat_map
         (fun z =>
            if String.eqb name (fst z) then
              flat_map
                (fun cc => if counts_in E obj (fst z) cc then [label obj] else [])
                (Zone.contours (snd z))
            else [])
         zones)
    (Dict.values objs).

(** ** Reading the zone status *)

(** The entry a camera has for a label in the status of a zone, as the
    aggregate reads it: ON or not, a missing entry reading OFF. *)
Definition entry_on (os : Dict.t (Dict.t status)) (camera l : string) : bool :=
  reads_on l (match Dict.get camera os with Some m => m | None => [] end).

Definition camera_reads_on (w : world) (zone camera l : string) : bool :=
  entry_on (Zone.object_status (zone_view w zone)) camera l.

(** ** The entries of [camera_data] *)

(** A camera's entry as the loop body keeps it: every best-sighting
    record is stored under its own label, and the dict of records and
    the dict of presence status hold each key once. *)
Definition entry_ok (d : Camera.data) : Prop :=
  Forall (fun r => label (snd r) = fst r) (Camera.best_objects d) /\
  NoDup (Dict.keys (Camera.best_objects d)) /\
  NoDup (Dict.keys (Camera.object_status d)).

(** ** Reading the messages *)

(** A message of the loop body: ON or OFF for a zone and a label, or a
    message of the presence stage for some camera name. *)
Definition loop_message (E : env) (m : message) : Prop :=
  (exists zone l s, (s = "ON" \/ s = "OFF") /\ m = zone_message E zone l s) \/
  (exists camera, presence_stage_message E camera m).

(** The number of tracked objects of a label with more than one entry of
    history. *)
Definition stable_count (objs : list tracked_object) (l : string) : nat :=
  List.length
    (filter (fun obj => (1 <? List.length (history obj))%nat
                        && String.eqb l (label obj)) objs).

(** ** The picture of a best-sighting record *)

(** The frame the best-sighting loop of an item copies into the records
    it stores, [camera] being the value of that variable after the
    classification loops: the frame composited for the item when there
    is one, and what was the current frame of [camera] otherwise. *)
Definition record_frame (E : env) (item : snapshot) (w : world)
    (camera : string) : image :=
  match composite E item w with
  | Some (_, img) => img
  | None => Camera.current_frame (camera_view w camera)
  end.

(** ** Further scenarios *)

Module Cases.

Import Sample.

(** One camera, "front", whose zone "yard" has a number where the
    filters should be. *)
Definition number_for_filters : env := environment ["front"] (PyNum 1) jpeg.

(** The polygon of "yard" as a list of points. *)
Definition square_as_list : list string := ["0,0"; "10,0"; "10,10"; "0,10"].

(** A frame as the store holds it, nothing drawn on it. *)
Definition raw_frame : image := {| base := raw [0; 0; 0]%Z; drawn := [] |}.

(** One camera, "front", whose zone "yard" has an empty list of
    coordinates, and the state [__init__] leaves for it: the zone has
    the contour of no points. *)
Definition no_points : env :=
  environment_with ["front"; "back"] ["front"] (PyList []) (PyDict []) jpeg.

Definition pointless : world := {|
  camera_data := [];
  zone_data :=
    [("yard", {| Zone.object_status := [];
                 Zone.contours := [("front", [])];
                 Zone.color := Some (31, 119, 180)%Z |})];
  plasma := fun _ => None;
  published := [];
  clock_reads := 0
|}.

(** One camera that has the name of its zone, "yard". *)
Definition yard_camera : env := environment_of ["yard"] ["yard"] (PyDict []) jpeg.

(** A person seen for the second time at time 1000, with its bottom
    centre at (50, 50), outside [square]. *)
Definition passer_by : tracked_object := person 50 50 (9 # 10) 100 1000 2.


(** *** Floats within two minutes of the epoch *)

(** The floats that Python reads [60.1] and [0.1] as. *)
Definition float_60_1 : Q := 8458323050155213 # 140737488355328.
Definition float_0_1 : Q := 3602879701896397 # 36028797018963968.

(** The float nearest to a number from 32 to below 64: the floats there
    are the multiples of 2^-47 (a number half way between two of them,
    which the scenario does not meet, goes up).  The other numbers are
    left: the scenario takes no difference among them. *)
Definition binade_round (q : Q) : Q :=
  if Qle_bool 32 q && Qltb q 64
  then Qfloor (q * inject_Z (2 ^ 47) + (1 # 2)) # 2 ^ 47
  else q.

Definition binade_bounds (q : Q) :
  32 <= q -> q < 64 ->
  32 <= Qfloor (q * inject_Z (2 ^ 47) + (1 # 2)) # 2 ^ 47 /\
  Qfloor (q * inject_Z (2 ^ 47) + (1 # 2)) # 2 ^ 47 <= 64.
Proof.
  intros Hlo Hhi.
  assert (H1 : (Qfloor (32 * inject_Z (2 ^ 47)) <=
                Qfloor (q * inject_Z (2 ^ 47) + (1 # 2)))%Z).
  { apply Qfloor_resp_le.
    apply Qle_trans with (q * inject_Z (2 ^ 47)).
    - apply Qmult_le_compat_r; [assumption | discriminate].
    - rewrite <- (Qplus_0_r (q * inject_Z (2 ^ 47))) at 1.
      apply Qplus_le_r. discriminate. }
  assert (H2 : (Qfloor (q * inject_Z (2 ^ 47) + (1 # 2)) <=
                Qfloor (64 * inject_Z (2 ^ 47) + (1 # 2)))%Z).
  { apply Qfloor_resp_le. apply Qplus_le_l.
    apply Qmult_le_compat_r; [now apply Qlt_le_weak | discriminate]. }
  change (Qfloor (32 * inject_Z (2 ^ 47))) with (32 * 2 ^ 47)%Z in H1.
  change (Qfloor (64 * inject_Z (2 ^ 47) + (1 # 2))) with (64 * 2 ^ 47)%Z in H2.
  unfold Qle. cbn [Qnum Qden]. split; lia.
Defined.

Definition binade_round_monotone (a b : Q) :
  a <= b -> binade_round a <= binade_round b.
Proof.
  intros Hab. unfold binade_round, Qltb.
  assert (Hf : forall x y, Qle_bool x y = false -> y < x).
  { intros x y H. apply Qnot_le_lt. intros Hle.
    apply Qle_bool_iff in Hle. congruence. }
  destruct (Qle_bool 32 a) eqn:Ha1; destruct (Qle_bool 64 a) eqn:Ha2;
    destruct (Qle_bool 32 b) eqn:Hb1; destruct (Qle_bool 64 b) eqn:Hb2;
    cbn [andb negb];
    repeat match goal with
           | H : Qle_bool _ _ = true |- _ => apply Qle_bool_iff in H
           | H : Qle_bool _ _ = false |- _ => apply Hf in H
           end;
    try exact Hab;
    try (exfalso;
         first [ apply (Qlt_irrefl 64);
                 apply Qle_lt_trans with a; [assumption|];
                 now apply Qle_lt_trans with b
               | apply (Qlt_irrefl 32);
                 apply Qle_lt_trans with a; [assumption|];
                 now apply Qle_lt_trans with b ]).
  - apply Qle_trans with 64; [|assumption].
    now apply binade_bounds.
  - pose proof (Qfloor_resp_le (a * inject_Z (2 ^ 47) + (1 # 2))
                  (b * inject_Z (2 ^ 47) + (1 # 2))) as H.
    unfold Qle. cbn [Qnum Qden].
    apply Z.mul_le_mono_nonneg_r; [discriminate|]. apply H.
    apply Qplus_le_l. apply Qmult_le_compat_r; [assumption | discriminate].
  - apply Qle_trans with 32; [now apply Qlt_le_weak|].
    now apply binade_bounds.
Defined.

(** The camera "front" with the clock at [60.1] and differences rounded
    as above. *)
Definition near_epoch : env := {|
  camera_config := camera_config Scenario.front_yard;
  zone_config := zone_config Scenario.front_yard;
  topic_prefix := topic_prefix Scenario.front_yard;
  COLOR_MAP := COLOR_MAP Scenario.front_yard;
  pointPolygonTest := pointPolygonTest Scenario.front_yard;
  cvtColor := cvtColor Scenario.front_yard;
  imencode := imencode Scenario.front_yard;
  format_float := format_float Scenario.front_yard;
  time_to_show := time_to_show Scenario.front_yard;
  now := fun _ => float_60_1;
  nearest_float := binade_round;
  nearest_float_monotone := binade_round_monotone;
  nearest_float_60 := eq_refl : binade_round 60 == 60;
  set_order := set_order Scenario.front_yard
|}.

(** A person seen at time [0.1] with score 0.9, and the state in which
    it is the record of "person" for the camera "front". *)
Definition early_sighting : tracked_object :=
  set_frame raw_frame (person 5 5 (9 # 10) 100 float_0_1 2).

Definition early_record : world := {|
  camera_data :=
    [("front",
      Camera.set_best_objects [("person", early_sighting)] Camera.fresh)];
  zone_data := zone_data (initial ["front"]);
  plasma := fun _ => None;
  published := [];
  clock_reads := 0
|}.

(** The person seen again at time 60, with score 0.5. *)
Definition late_sighting : tracked_object := person 5 5 (1 # 2) 100 60 2.

End Cases.

(** ** States that a snapshot leaves as they are *)

(** The zone status already records the membership map for the camera:
    for every pair the zone stage would examine, the camera's entry reads
    ON exactly when the label is in the zone's list. *)
Definition zones_settled (E : env) (w : world) (camera : string)
    (coiz : Dict.t (list string)) : Prop :=
  forall z l,
    In z (relevant_zones E camera) ->
    In l (labels_for_zone E w camera coiz z) ->
    camera_reads_on w z camera l = existsb (String.eqb l) (labels_in z coiz).

(** The presence status already records the tracked objects: the labels
    that read ON are the counted ones. *)
Definition presence_settled (w : world) (owner : string)
    (objs : Dict.t tracked_object) : Prop :=
  forall l, presence_of w owner l = Some ON <->
            Dict.mem l (count_objects objs) = true.

(** ** Filters as the configuration file gives them *)

(** The settings of a camera for a zone have no 'filters', or a dict
    keyed by label, none of the labels being the word 'filters'. *)
Definition plain_filters (camera_zone_config : Dict.t pyval) : bool :=
  match Dict.get "filters" camera_zone_config with
  | None => true
  | Some (PyDict f) => negb (Dict.mem "filters" f)
  | Some _ => false
  end.

Definition filters_plain (E : env) : bool :=
  forallb (fun zc => forallb (fun cc => plain_filters (snd cc)) (snd zc))
    (zone_config E).

(** The labels of the objects whose bottom centre is inside or on the
    edge of a contour of the zone, once for each such contour, object by
    object. *)
Definition objects_inside (E : env) (zones : Dict.t Zone.data)
    (objs : Dict.t tracked_object) (name : string) : list string :=
  flat_map
    (fun obj =>
       flat_map
         (fun z =>
            if String.eqb name (fst z) then
              flat_map
                (fun cc => if inside E obj (snd cc) then [label obj] else [])
                (Zone.contours (snd z))
            else [])
         zones)
    (Dict.values objs).

(** ** Reading the string form of the coordinates *)

(** The numbers of a comma-separated string taken two by two. *)
Fixpoint pair_up (l : list Z) : contour :=
  match l with
  | x :: y :: l' => (x, y) :: pair_up l'
  | _ => []
  end.

(** ** Topics *)

(** The message is on the topic [t]. *)
Definition on_topic (t : string) (m : message) : bool :=
  String.eqb (topic m) t.

(** Two names that keep their topics apart: neither name followed by
    '/' begins the other followed by '/' (as with two different names
    that have no '/'). *)
Definition apart (a b : string) : bool :=
  negb (String.prefix (a ++ "/") (b ++ "/"))
  && negb (String.prefix (b ++ "/") (a ++ "/")).

(** The topics of a zone are its own, among those the loop body
    publishes on for the camera name [camera]: the name of the zone is
    apart from that name and from the names of the other configured
    zones. *)
Definition topics_own (E : env) (zone camera : string) : bool :=
  apart zone camera
  && forallb (fun z => String.eqb z zone || apart zone z)
       (Dict.keys (zone_config E)).

(** The ON and OFF messages that the changes of the aggregate of a
    (zone, label) pair call for along the items the thread takes: one
    for each item across which the OR changes, until an item raises. *)
Fixpoint aggregate_edges (E : env) (zone l : string) (items : list snapshot)
    (w : world) : list message :=
  match items with
  | [] => []
  | item :: rest =>
      let r := process E item w in
      edge_messages E zone l (zone_or w zone l) (zone_or (snd r) zone l)
      ++ match fst r with
         | Ok _ => aggregate_edges E zone l rest (snd r)
         | Raise _ => []
         end
  end.

(** ** The presence stage as a list of transitions *)

(** The presence transitions of a snapshot, in the order of lines
    206-228: the counted labels whose status is not ON, to ON; then the
    labels whose status is ON and that are not counted, to OFF. *)
Definition transitions (before : Dict.t status)
    (objs : Dict.t tracked_object) : list (string * status) :=
  map (fun e => (fst e, ON))
    (filter (fun e => status_differs ON (Dict.get (fst e) before))
       (count_objects objs))
  ++ map (fun l => (l, OFF)) (expired_objects before (count_objects objs)).

(** What a list of transitions publishes and how it ends, given the
    best-sighting records: each transition publishes what
    [transition_outcome] says, and the first that raises is the last. *)
Fixpoint publish_until (E : env) (records : Dict.t tracked_object)
    (camera : string) (ts : list (string * status))
  : outcome unit * list message :=
  match ts with
  | [] => (Ok tt, [])
  | (l, s) :: ts' =>
      match transition_outcome E (Dict.get l records) camera l s with
      | (Ok _, msgs) =>
          (fst (publish_until E records camera ts'),
           msgs ++ snd (publish_until E records camera ts'))
      | (Raise e, msgs) => (Raise e, msgs)
      end
  end.

(** ** The tracked objects after a loop body *)

(** An entry of [tracked_objects] after the best-sighting loop, against
    the entry of the item: the same key and the same object, but that an
    object seen on the frame of time [t] may have gained the key 'frame',
    with the picture [img]. *)
Definition same_but_frame (t : Q) (img : image)
    (before after : string * tracked_object) : Prop :=
  fst after = fst before /\
  (snd after = snd before \/
   (frame_time (snd before) == t /\ snd after = set_frame img (snd before))).

(** * Properties *)

(** ** Dictionaries *)

Lemma get_set_same {V} k (v : V) d : Dict.get k (Dict.set k v d) = Some v.
Proof.
  induction d as [|[k' v'] d IH]; simpl.
  - now rewrite String.eqb_refl.
  - destruct (String.eqb k k') eqn:Hk; simpl; rewrite Hk; auto.
Qed.

Lemma get_set_other {V} k k' (v : V) d :
  k <> k' -> Dict.get k' (Dict.set k v d) = Dict.get k' d.
Proof.
  intros Hne. induction d as [|[k0 v0] d IH]; simpl.
  - destruct (String.eqb_spec k' k); congruence.
  - destruct (String.eqb_spec k k0) as [->|Hk]; simpl.
    + destruct (String.eqb_spec k' k0); congruence.
    + destruct (String.eqb_spec k' k0); auto.
Qed.

Lemma get_app {V} k (d1 d2 : Dict.t V) :
  Dict.get k (d1 ++ d2) =
  match Dict.get k d1 with Some v => Some v | None => Dict.get k d2 end.
Proof.
  induction d1 as [|[k' v'] d1 IH]; simpl; auto.
  destruct (String.eqb k k'); auto.
Qed.

Lemma get_get_default {V} (dflt : V) k k' d :
  Dict.get k' (snd (Dict.get_default dflt k d)) =
  match Dict.get k' d with
  | Some v => Some v
  | None => if String.eqb k' k then Some dflt else None
  end.
Proof.
  unfold Dict.get_default. destruct (Dict.get k d) eqn:Hk; simpl.
  - destruct (Dict.get k' d) eqn:Hk'; auto.
    destruct (String.eqb_spec k' k); congruence.
  - rewrite get_app. simpl. destruct (Dict.get k' d); auto.
Qed.

Lemma fst_get_default {V} (dflt : V) k d :
  fst (Dict.get_default dflt k d) =
  match Dict.get k d with Some v => v | None => dflt end.
Proof. unfold Dict.get_default. now destruct (Dict.get k d). Qed.

Lemma get_default_present {V} (dflt : V) k d :
  Dict.get k (snd (Dict.get_default dflt k d)) =
  Some (fst (Dict.get_default dflt k d)).
Proof.
  rewrite get_get_default, fst_get_default, String.eqb_refl.
  now destruct (Dict.get k d).
Qed.

Lemma mem_keys {V} k (d : Dict.t V) :
  Dict.mem k d = true <-> In k (Dict.keys d).
Proof.
  unfold Dict.mem, Dict.keys.
  induction d as [|[k' v'] d IH]; simpl.
  - split; [discriminate | tauto].
  - destruct (String.eqb_spec k k') as [->|Hne].
    + split; auto.
    + rewrite IH. split; auto. intros [H|H]; congruence.
Qed.

Lemma keys_set {V} k (v : V) d :
  Dict.keys (Dict.set k v d) =
  if Dict.mem k d then Dict.keys d else Dict.keys d ++ [k].
Proof.
  unfold Dict.mem, Dict.keys. induction d as [|[k' v'] d IH]; simpl; auto.
  destruct (String.eqb k k') eqn:Hk; simpl; auto.
  rewrite IH. now destruct (Dict.get k d).
Qed.

Lemma uniq_keys_NoDup {V} (d : Dict.t V) :
  Dict.uniq_keys d = true <-> NoDup (Dict.keys d).
Proof.
  induction d as [|[k v] d IH]; simpl.
  - split; auto. constructor.
  - rewrite andb_true_iff, negb_true_iff, IH. split.
    + intros [Hm Hd]. constructor; auto.
      intros Hin. apply mem_keys in Hin. congruence.
    + intros H. inversion H as [|? ? Hn Hd]; subst. split; auto.
      destruct (Dict.mem k d) eqn:Hm; auto.
      apply mem_keys in Hm. contradiction.
Qed.

Lemma NoDup_keys_set {V} k (v : V) d :
  NoDup (Dict.keys d) -> NoDup (Dict.keys (Dict.set k v d)).
Proof.
  intros H. rewrite keys_set. destruct (Dict.mem k d) eqn:Hm; auto.
  apply NoDup_app; auto.
  - repeat constructor. simpl. tauto.
  - intros x Hx [<-|[]]. apply mem_keys in Hx. congruence.
Qed.

Lemma mem_set {V} k k' (v : V) d :
  Dict.mem k' (Dict.set k v d) = String.eqb k' k || Dict.mem k' d.
Proof.
  unfold Dict.mem. destruct (String.eqb_spec k' k) as [->|Hne]; simpl.
  - now rewrite get_set_same.
  - rewrite get_set_other; congruence.
Qed.

Lemma set_same {V} k (v : V) d : Dict.get k d = Some v -> Dict.set k v d = d.
Proof.
  induction d as [|[k' v'] d IH]; simpl; [discriminate|].
  destruct (String.eqb_spec k k') as [->|Hne].
  - now intros [= ->].
  - intros H. now rewrite IH.
Qed.

(** With unique keys, the items are what [get] finds. *)
Lemma get_In {V} k (v : V) d :
  NoDup (Dict.keys d) -> (Dict.get k d = Some v <-> In (k, v) d).
Proof.
  induction d as [|[k' v'] d IH]; simpl; intros Hnd.
  - split; [discriminate | tauto].
  - inversion Hnd as [|? ? Hn Hd]; subst.
    destruct (String.eqb_spec k k') as [->|Hne].
    + split.
      * intros [= ->]. now left.
      * intros [[= ->]|Hin]; auto.
        exfalso. apply Hn. unfold Dict.keys. apply in_map_iff.
        now exists (k', v).
    + rewrite IH by assumption. split; auto.
      intros [[= -> ->]|Hin]; [congruence | auto].
Qed.

Lemma flat_map_ext_In {A B} (f g : A -> list B) l :
  (forall x, In x l -> f x = g x) -> flat_map f l = flat_map g l.
Proof.
  induction l as [|x l IH]; intros H; simpl; auto.
  rewrite H by now left. f_equal. apply IH. intros y Hy. apply H. now right.
Qed.

Lemma get_fold_set {A V} (key : A -> string) (v : V) (xs : list A) d l :
  Dict.get l (fold_left (fun st x => Dict.set (key x) v st) xs d) =
  if existsb (fun x => String.eqb l (key x)) xs then Some v else Dict.get l d.
Proof.
  revert d. induction xs as [|x xs IH]; intros d; simpl; auto.
  rewrite IH. destruct (existsb _ xs); [now rewrite orb_true_r|].
  rewrite orb_false_r. destruct (String.eqb_spec l (key x)) as [->|Hne].
  - apply get_set_same.
  - apply get_set_other. congruence.
Qed.

Lemma NoDup_keys_filter {V} (f : string * V -> bool) (d : Dict.t V) :
  NoDup (Dict.keys d) -> NoDup (map fst (filter f d)).
Proof.
  unfold Dict.keys. induction d as [|[k v] d IH]; simpl; intros H; auto.
  inversion H as [|? ? Hn Hd]; subst.
  destruct (f (k, v)); simpl; auto. constructor; auto.
  intros Hin. apply Hn. apply in_map_iff in Hin as ([k' v'] & <- & Hin).
  apply filter_In in Hin as [Hin _]. apply in_map_iff. now exists (k', v').
Qed.

(** ** The monad *)

Lemma bind_ok {A B} (m : M A) (f : A -> M B) w a w' :
  m w = (Ok a, w') -> bind m f w = f a w'.
Proof. unfold bind. now intros ->. Qed.

Lemma for_each_cons_run {A} (x : A) l (body : A -> M unit) w :
  fst (body x w) = Ok tt ->
  for_each (x :: l) body w = for_each l body (snd (body x w)).
Proof.
  intros H. simpl. unfold bind. destruct (body x w) as [o w1].
  simpl in H. now subst.
Qed.

Section Unchanged.

Context {X : Type} (p : world -> X).

Lemma unchanged_ret {A} (a : A) : unchanged p (ret a).
Proof. now intros w. Qed.

Lemma unchanged_lift {A} (o : outcome A) : unchanged p (lift o).
Proof. now intros w. Qed.

Lemma unchanged_gets {A} (f : world -> A) : unchanged p (gets f).
Proof. now intros w. Qed.

Lemma unchanged_modify (f : world -> world) :
  (forall w, p (f w) = p w) -> unchanged p (modify f).
Proof. intros H w. apply H. Qed.

Lemma unchanged_bind {A B} (m : M A) (f : A -> M B) :
  unchanged p m -> (forall a, unchanged p (f a)) -> unchanged p (bind m f).
Proof.
  intros Hm Hf w. unfold bind. specialize (Hm w).
  destruct (m w) as [[a|e] w']; simpl in *; auto.
  now rewrite Hf.
Qed.

Lemma unchanged_for_each {A} (l : list A) (body : A -> M unit) :
  (forall x, In x l -> unchanged p (body x)) -> unchanged p (for_each l body).
Proof.
  induction l as [|x l IH]; intros H; simpl.
  - apply unchanged_ret.
  - apply unchanged_bind; [apply H; now left|].
    intros _. apply IH. intros y Hy. apply H. now right.
Qed.

End Unchanged.

(** ** Computations that only append messages *)

Section Appends.

Context (P : message -> Prop).

Lemma appends_unchanged {A} (m : M A) : unchanged published m -> appends P m.
Proof. intros H w. exists []. rewrite H, app_nil_r. auto. Qed.

Lemma appends_bind {A B} (m : M A) (f : A -> M B) :
  appends P m -> (forall a, appends P (f a)) -> appends P (bind m f).
Proof.
  intros Hm Hf w. unfold bind. destruct (Hm w) as (r1 & H1 & F1).
  destruct (m w) as [[a|e] w']; simpl in *.
  - destruct (Hf a w') as (r2 & H2 & F2). exists (r1 ++ r2).
    rewrite H2, H1, app_assoc. split; auto. apply Forall_app. auto.
  - eauto.
Qed.

Lemma appends_for_each {A} (l : list A) (body : A -> M unit) :
  (forall x, appends P (body x)) -> appends P (for_each l body).
Proof.
  intros H. induction l as [|x l IH]; simpl.
  - apply appends_unchanged. apply unchanged_ret.
  - apply appends_bind; auto.
Qed.

Lemma appends_publish t b r :
  P {| topic := t; body := b; retain := r |} -> appends P (publish t b r).
Proof. intros H w. eexists. split; [reflexivity|]. auto. Qed.

End Appends.

(** ** What each primitive leaves alone *)

Lemma camera_view_entry w camera c :
  camera_view (snd (camera_entry camera w)) c = camera_view w c.
Proof.
  unfold camera_entry, camera_view.
  destruct (Dict.get_default Camera.fresh camera (camera_data w)) as [d cd] eqn:H.
  simpl. replace cd with (snd (Dict.get_default Camera.fresh camera (camera_data w)))
    by now rewrite H.
  rewrite get_get_default. destruct (Dict.get c (camera_data w)); auto.
  now destruct (String.eqb c camera).
Qed.

Lemma camera_entry_value w camera :
  camera_entry camera w =
  (Ok (camera_view w camera), snd (camera_entry camera w)).
Proof.
  unfold camera_entry, camera_view, Dict.get_default.
  now destruct (Dict.get camera (camera_data w)).
Qed.

Lemma camera_view_update w camera f c :
  camera_view (snd (update_camera camera f w)) c =
  if String.eqb c camera then f (camera_view w camera) else camera_view w c.
Proof.
  unfold update_camera.
  rewrite (bind_ok _ _ _ _ _ (camera_entry_value w camera)).
  unfold modify. simpl.
  pose proof (camera_view_entry w camera c) as Hv.
  unfold camera_view in *. simpl.
  destruct (String.eqb_spec c camera) as [->|Hne].
  - now rewrite get_set_same.
  - rewrite get_set_other by congruence. exact Hv.
Qed.

Lemma update_camera_ok w camera f :
  fst (update_camera camera f w) = Ok tt.
Proof.
  unfold update_camera.
  now rewrite (bind_ok _ _ _ _ _ (camera_entry_value w camera)).
Qed.

Section Frames.

Context {X : Type} (p : world -> X).

Lemma unchanged_camera_entry camera :
  (forall v w, p (set_camera_data v w) = p w) ->
  unchanged p (camera_entry camera).
Proof.
  intros H w. unfold camera_entry.
  destruct (Dict.get_default Camera.fresh camera (camera_data w)). apply H.
Qed.

Lemma unchanged_update_camera camera f :
  (forall v w, p (set_camera_data v w) = p w) ->
  unchanged p (update_camera camera f).
Proof.
  intros H. unfold update_camera. apply unchanged_bind.
  - now apply unchanged_camera_entry.
  - intros d. apply unchanged_modify. intros w. apply H.
Qed.

Lemma unchanged_zone_entry zone :
  (forall v w, p (set_zone_data v w) = p w) ->
  unchanged p (zone_entry zone).
Proof.
  intros H w. unfold zone_entry.
  destruct (Dict.get_default Zone.fresh zone (zone_data w)). apply H.
Qed.

Lemma unchanged_with_zone_status {A} zone
    (f : Dict.t (Dict.t status) -> A * Dict.t (Dict.t status)) :
  (forall v w, p (set_zone_data v w) = p w) ->
  unchanged p (with_zone_status zone f).
Proof.
  intros H. unfold with_zone_status. apply unchanged_bind.
  - now apply unchanged_zone_entry.
  - intros d. destruct (f (Zone.object_status d)).
    apply unchanged_bind; [|intros; apply unchanged_ret].
    apply unchanged_modify. intros w. apply H.
Qed.

Lemma unchanged_publish t b r :
  (forall v w, p (set_published v w) = p w) ->
  unchanged p (publish t b r).
Proof. intros H. apply unchanged_modify. intros w. apply H. Qed.

Lemma unchanged_plasma_get key : unchanged p (plasma_get key).
Proof. apply unchanged_gets. Qed.

Lemma unchanged_plasma_delete key :
  (forall v w, p (set_plasma v w) = p w) ->
  unchanged p (plasma_delete key).
Proof. intros H. apply unchanged_modify. intros w. apply H. Qed.

Lemma unchanged_read_clock E :
  (forall v w, p (set_clock_reads v w) = p w) ->
  unchanged p (read_clock E).
Proof. intros H w. apply H. Qed.

End Frames.

(** A field of a camera's entry, as [camera_view] shows it. *)
Lemma unchanged_view_entry {X} (q : Camera.data -> X) c camera :
  unchanged (fun w => q (camera_view w c)) (camera_entry camera).
Proof. intros w. now rewrite camera_view_entry. Qed.

Lemma unchanged_view_update {X} (q : Camera.data -> X) c camera f :
  (forall d, q (f d) = q d) ->
  unchanged (fun w => q (camera_view w c)) (update_camera camera f).
Proof.
  intros H w. rewrite camera_view_update.
  destruct (String.eqb_spec c camera) as [->|]; auto.
Qed.

(** Decompose a computation down to its primitives. *)
Ltac keep_step :=
  lazymatch goal with
  | |- unchanged _ (ret _) => apply unchanged_ret
  | |- unchanged _ (lift _) => apply unchanged_lift
  | |- unchanged _ (gets _) => apply unchanged_gets
  | |- unchanged _ (plasma_get _) => apply unchanged_plasma_get
  | |- unchanged _ (bind _ _) => apply unchanged_bind; [|intros]
  | |- unchanged _ (for_each _ _) => apply unchanged_for_each; intros
  | |- unchanged _ (camera_entry _) =>
      first [ apply unchanged_view_entry
            | apply unchanged_camera_entry; intros; reflexivity ]
  | |- unchanged _ (update_camera _ _) =>
      first [ apply unchanged_view_update; intros; reflexivity
            | apply unchanged_update_camera; intros; reflexivity ]
  | |- unchanged _ (zone_entry _) =>
      apply unchanged_zone_entry; intros; reflexivity
  | |- unchanged _ (with_zone_status _ _) =>
      apply unchanged_with_zone_status; intros; reflexivity
  | |- unchanged _ (publish _ _ _) =>
      apply unchanged_publish; intros; reflexivity
  | |- unchanged _ (plasma_delete _) =>
      apply unchanged_plasma_delete; intros; reflexivity
  | |- unchanged _ (read_clock _) =>
      apply unchanged_read_clock; intros; reflexivity
  | |- unchanged _ (modify _) => apply unchanged_modify; intros; reflexivity
  | |- unchanged _ (match ?x with _ => _ end) => destruct x
  end.

Ltac keep := repeat keep_step.

Lemma Qltb_lt a b : Qltb a b = true <-> a < b.
Proof.
  unfold Qltb. rewrite negb_true_iff. split.
  - intros H. apply Qnot_le_lt. intros Hle.
    apply Qle_bool_iff in Hle. congruence.
  - intros H. destruct (Qle_bool b a) eqn:Hb; auto.
    apply Qle_bool_iff in Hb. apply Qlt_not_le in H. contradiction.
Qed.

Lemma Qltb_ge a b : Qltb a b = false <-> b <= a.
Proof.
  unfold Qltb. rewrite negb_false_iff. apply Qle_bool_iff.
Qed.

(** ** Invariants of [camera_data] *)

Lemma run_ok {A} (m : M A) w a : fst (m w) = Ok a -> m w = (Ok a, snd (m w)).
Proof. destruct (m w); simpl; now intros ->. Qed.

Lemma update_camera_run camera f w :
  update_camera camera f w = (Ok tt, snd (update_camera camera f w)).
Proof. apply run_ok, update_camera_ok. Qed.

Section Preserves.

Context (I : world -> Prop).

Lemma preserves_ret {A} (a : A) : preserves I (ret a).
Proof. now intros w. Qed.

Lemma preserves_lift {A} (o : outcome A) : preserves I (lift o).
Proof. now intros w. Qed.

Lemma preserves_gets {A} (f : world -> A) : preserves I (gets f).
Proof. now intros w. Qed.

Lemma preserves_bind {A B} (m : M A) (f : A -> M B) :
  preserves I m -> (forall a, preserves I (f a)) -> preserves I (bind m f).
Proof.
  intros Hm Hf w Hw. unfold bind. specialize (Hm w Hw).
  destruct (m w) as [[a|e] w']; simpl in *; auto.
  now apply Hf.
Qed.

Lemma preserves_for_each {A} (l : list A) (body : A -> M unit) :
  (forall x, preserves I (body x)) -> preserves I (for_each l body).
Proof.
  intros H. induction l as [|x l IH]; simpl.
  - apply preserves_ret.
  - apply preserves_bind; auto.
Qed.

End Preserves.

(** An invariant of [camera_data] survives what leaves [camera_data]. *)
Lemma preserves_unchanged {A} (J : Dict.t Camera.data -> Prop) (m : M A) :
  unchanged camera_data m -> preserves (fun w => J (camera_data w)) m.
Proof. intros H w Hw. now rewrite H. Qed.

Lemma Forall_set {V} (P : string * V -> Prop) k v (d : Dict.t V) :
  (forall k', P (k', v)) -> Forall P d -> Forall P (Dict.set k v d).
Proof.
  intros Hv. induction 1 as [|[k' v'] d' Hx Hd IH]; simpl.
  - constructor; auto.
  - destruct (String.eqb k k'); constructor; auto.
Qed.

Lemma Forall_get {V} (P : string * V -> Prop) k v (d : Dict.t V) :
  Forall P d -> Dict.get k d = Some v -> exists k', P (k', v).
Proof.
  induction 1 as [|[k' v'] d' Hx Hd IH]; simpl; [discriminate|].
  destruct (String.eqb k k'); auto.
  intros [= ->]. eauto.
Qed.

Lemma all_framed_view w c : all_framed w -> framed (Camera.best_objects (camera_view w c)).
Proof.
  unfold all_framed, camera_view. intros H.
  destruct (Dict.get c (camera_data w)) as [d|] eqn:Hd.
  - destruct (Forall_get _ _ _ _ H Hd) as [k' Hk]. exact Hk.
  - constructor.
Qed.

Lemma preserves_framed_entry camera : preserves all_framed (camera_entry camera).
Proof.
  intros w Hw. unfold camera_entry, Dict.get_default, all_framed in *.
  destruct (Dict.get camera (camera_data w)); simpl; auto.
  apply Forall_app. split; auto. repeat constructor.
Qed.

Lemma preserves_framed_update camera f :
  (forall d, framed (Camera.best_objects d) -> framed (Camera.best_objects (f d))) ->
  preserves all_framed (update_camera camera f).
Proof.
  intros Hf w Hw. unfold update_camera.
  rewrite (bind_ok _ _ _ _ _ (camera_entry_value w camera)).
  pose proof (preserves_framed_entry camera w Hw) as H1.
  unfold modify, all_framed in *. simpl.
  apply Forall_set; auto. intros k'. simpl. apply Hf.
  now apply all_framed_view.
Qed.

Ltac inv_step :=
  lazymatch goal with
  | |- preserves _ (ret _) => apply preserves_ret
  | |- preserves _ (lift _) => apply preserves_lift
  | |- preserves _ (gets _) => apply preserves_gets
  | |- preserves _ (bind _ _) => apply preserves_bind; [|intros]
  | |- preserves _ (for_each _ _) => apply preserves_for_each; intros
  | |- preserves _ (camera_entry _) => apply preserves_framed_entry
  | |- preserves _ (update_camera _ _) =>
      apply preserves_framed_update; intros; assumption
  | |- preserves _ (match ?x with _ => _ end) => destruct x
  | |- preserves _ _ =>
      apply (preserves_unchanged
               (fun cd => Forall (fun c => framed (Camera.best_objects (snd c))) cd));
      solve [keep]
  end.

Ltac inv := repeat inv_step.

Section Properties.

Variable E : env.

(** ** The best-sighting tracker (lines 163-176) *)

Lemma update_best_stale owner camera t key obj w :
  seen_at t obj = false ->
  update_best E owner camera t (key, obj) w = (Ok tt, w).
Proof. unfold update_best, seen_at. now intros ->. Qed.

(** C5: an object whose own [frame_time] differs from the frame time of
    the snapshot being processed is skipped by the best-sighting loop:
    processing it returns normally and leaves the whole state, hence
    every best-sighting record, as it was; and the loop over the tracked
    objects of a snapshot does what the loop over only the objects seen
    on the current frame does. *)
Theorem stale_object_leaves_best_records owner camera t objs w :
  (forall key obj, ~ frame_time obj == t ->
     update_best E owner camera t (key, obj) w = (Ok tt, w)) /\
  for_each objs (update_best E owner camera t) w =
  for_each (filter (fun entry => seen_at t (snd entry)) objs)
    (update_best E owner camera t) w.
Proof.
  split.
  - intros key obj Hne. apply update_best_stale. unfold seen_at.
    destruct (Qeq_bool (frame_time obj) t) eqn:Heq; auto.
    apply Qeq_bool_iff in Heq. contradiction.
  - revert w. induction objs as [|[key obj] objs IH]; intros w;
      cbn [for_each filter snd]; auto.
    destruct (seen_at t obj) eqn:Hs; cbn [for_each].
    + unfold bind.
      destruct (update_best E owner camera t (key, obj) w) as [[[]|e] w'];
        auto.
    + unfold bind. rewrite update_best_stale by assumption. apply IH.
Qed.

Lemma read_clock_value w :
  read_clock E w = (Ok (now E (clock_reads w)), set_clock_reads (S (clock_reads w)) w).
Proof. reflexivity. Qed.

Lemma store_best_spec owner camera key obj w :
  let w' := snd (store_best owner camera key obj w) in
  let new := set_frame (Camera.current_frame (camera_view w camera)) obj in
  fst (store_best owner camera key obj w) = Ok tt /\
  best_of w' owner (label obj) = Some new /\
  (forall c l, c <> owner \/ l <> label obj -> best_of w' c l = best_of w c l) /\
  (forall c, Camera.tracked_objects (camera_view w' c) =
             if String.eqb c owner
             then Dict.set key new (Camera.tracked_objects (camera_view w owner))
             else Camera.tracked_objects (camera_view w c)).
Proof.
  unfold store_best.
  rewrite (bind_ok _ _ _ _ _ (camera_entry_value w camera)).
  cbv zeta. set (w1 := snd (camera_entry camera w)).
  rewrite (bind_ok _ _ _ _ _ (update_camera_run _ _ w1)).
  set (new := set_frame (Camera.current_frame (camera_view w camera)) obj).
  set (w2 := snd (update_camera owner _ w1)).
  assert (Hv1 : forall c, camera_view w1 c = camera_view w c)
    by (intros c; apply camera_view_entry).
  assert (Hv2 : forall c, camera_view w2 c =
                  if String.eqb c owner
                  then Camera.set_tracked_objects
                         (Dict.set key new
                            (Camera.tracked_objects (camera_view w owner)))
                         (camera_view w owner)
                  else camera_view w c).
  { intros c. unfold w2. rewrite camera_view_update, !Hv1. reflexivity. }
  split; [apply update_camera_ok|]. unfold best_of. split; [|split].
  - rewrite camera_view_update, String.eqb_refl, Hv2, String.eqb_refl. simpl.
    now rewrite get_set_same.
  - intros c l Hcl. rewrite camera_view_update, !Hv2, String.eqb_refl.
    destruct (String.eqb_spec c owner) as [->|Hc]; auto. simpl.
    rewrite get_set_other; auto. simpl. destruct Hcl; congruence.
  - intros c. rewrite camera_view_update, !Hv2, String.eqb_refl.
    destruct (String.eqb_spec c owner) as [->|Hc]; reflexivity.
Qed.

Lemma update_best_seen owner camera t key obj w :
  seen_at t obj = true ->
  let w1 := snd (camera_entry owner w) in
  let w2 := set_clock_reads (S (clock_reads w)) w1 in
  update_best E owner camera t (key, obj) w =
  match best_of w owner (label obj) with
  | Some old =>
      if Qltb (score old) (score obj)
         || Qltb 60 (nearest_float E (now E (clock_reads w) - frame_time old))
      then store_best owner camera key obj w2
      else (Ok tt, w2)
  | None => store_best owner camera key obj w1
  end.
Proof.
  unfold update_best, seen_at, best_of, float_sub. intros ->. cbn [negb].
  rewrite (bind_ok _ _ _ _ _ (camera_entry_value w owner)).
  destruct (Dict.get (label obj) (Camera.best_objects (camera_view w owner)));
    auto.
  rewrite (bind_ok _ _ _ _ _ (read_clock_value _)).
  replace (clock_reads (snd (camera_entry owner w))) with (clock_reads w).
  - now destruct (Qltb _ _ || Qltb _ _).
  - symmetry. apply (unchanged_camera_entry clock_reads). reflexivity.
Qed.

(** A difference of at most 60 is at most 60 as a float too. *)
Lemma nearest_float_within d : d <= 60 -> nearest_float E d <= 60.
Proof.
  intros H. rewrite <- (nearest_float_60 E).
  now apply nearest_float_monotone.
Qed.

(** The replacement policy for one sighting; [elapsed] is the difference
    of line 171 as the floats give it. *)
Lemma update_best_policy owner camera t key obj w :
  frame_time obj == t ->
  let w' := snd (update_best E owner camera t (key, obj) w) in
  let new := set_frame (Camera.current_frame (camera_view w camera)) obj in
  let clock := now E (clock_reads w) in
  fst (update_best E owner camera t (key, obj) w) = Ok tt /\
  match best_of w owner (label obj) with
  | None => best_of w' owner (label obj) = Some new
  | Some old =>
      let elapsed := nearest_float E (clock - frame_time old) in
      (score old < score obj \/ 60 < elapsed ->
       best_of w' owner (label obj) = Some new) /\
      (~ (score old < score obj \/ 60 < elapsed) ->
       best_of w' owner (label obj) = Some old) /\
      (clock - frame_time old <= 60 ->
       exists kept, best_of w' owner (label obj) = Some kept /\
                    score old <= score kept) /\
      (60 < elapsed -> best_of w' owner (label obj) = Some new)
  end /\
  forall c l, c <> owner \/ l <> label obj -> best_of w' c l = best_of w c l.
Proof.
  intros Hseen w' new clock. apply Qeq_bool_iff in Hseen.
  subst w' clock. rewrite (update_best_seen owner camera t key obj w Hseen).
  set (w1 := snd (camera_entry owner w)).
  set (w2 := set_clock_reads (S (clock_reads w)) w1).
  assert (Hv : forall c, camera_view w1 c = camera_view w c)
    by (intros c; apply camera_view_entry).
  assert (Hv2 : forall c, camera_view w2 c = camera_view w c)
    by (intros c; rewrite <- Hv; reflexivity).
  destruct (best_of w owner (label obj)) as [old|] eqn:Hold.
  - pose proof (store_best_spec owner camera key obj w2) as (Hok & Hnew & Hoth & _).
    rewrite Hv2 in Hnew. fold new in Hnew.
    assert (Hoth' : forall c l, c <> owner \/ l <> label obj ->
              best_of (snd (store_best owner camera key obj w2)) c l =
              best_of w c l).
    { intros c l H. rewrite Hoth by assumption. unfold best_of. now rewrite Hv2. }
    assert (Hkeep : forall c l, best_of w2 c l = best_of w c l).
    { intros c l. unfold best_of. now rewrite Hv2. }
    cbv zeta.
    destruct (Qltb (score old) (score obj)) eqn:Hs;
      [|destruct (Qltb 60 (nearest_float E
                             (now E (clock_reads w) - frame_time old))) eqn:Hg];
      cbn [orb]; (split; [|split]); auto.
    + apply Qltb_lt in Hs. split; [|split; [|split]]; auto.
      * intros Hn. exfalso. apply Hn. now left.
      * intros _. eexists. split; [exact Hnew|]. simpl. now apply Qlt_le_weak.
    + apply Qltb_lt in Hg. split; [|split; [|split]]; auto.
      * intros Hn. exfalso. apply Hn. now right.
      * intros Hle. exfalso. apply nearest_float_within in Hle.
        apply Qle_not_lt in Hle. contradiction.
    + apply Qltb_ge in Hs, Hg. cbn [fst snd]. rewrite Hkeep.
      split; [|split; [|split]]; auto.
      * intros [H|H];
          [exact (False_ind _ (Qle_not_lt _ _ Hs H))
          |exact (False_ind _ (Qle_not_lt _ _ Hg H))].
      * intros _. exists old. split; auto. apply Qle_refl.
      * intros H. exact (False_ind _ (Qle_not_lt _ _ Hg H)).
  - pose proof (store_best_spec owner camera key obj w1) as (Hok & Hnew & Hoth & _).
    rewrite Hv in Hnew. repeat split; auto.
    intros c l H. rewrite Hoth by assumption. unfold best_of. now rewrite Hv.
Qed.

Lemma update_best_ok owner camera t entry w :
  fst (update_best E owner camera t entry w) = Ok tt.
Proof.
  destruct entry as [key obj]. destruct (seen_at t obj) eqn:Hs.
  - rewrite (update_best_seen owner camera t key obj w Hs).
    destruct (best_of w owner (label obj)) as [old|];
      [destruct (Qltb _ _ || Qltb _ _)|]; try apply store_best_spec.
    reflexivity.
  - now rewrite update_best_stale.
Qed.

Lemma update_best_clock owner camera t entry w :
  let n := clock_reads (snd (update_best E owner camera t entry w)) in
  (clock_reads w <= n <= S (clock_reads w))%nat.
Proof.
  cbv zeta. destruct entry as [key obj]. destruct (seen_at t obj) eqn:Hs.
  - rewrite (update_best_seen owner camera t key obj w Hs).
    assert (Hst : forall w0,
              clock_reads (snd (store_best owner camera key obj w0)) =
              clock_reads w0).
    { enough (H : unchanged clock_reads (store_best owner camera key obj))
        by apply H.
      unfold store_best. keep. }
    assert (H1 : clock_reads (snd (camera_entry owner w)) = clock_reads w).
    { apply (unchanged_camera_entry clock_reads). reflexivity. }
    destruct (best_of w owner (label obj)) as [old|];
      [destruct (Qltb _ _ || Qltb _ _)|]; rewrite ?Hst; simpl; lia.
  - rewrite update_best_stale by assumption. simpl. lia.
Qed.

Lemma best_loop_clock owner camera t objs : forall w,
  let n := clock_reads (snd (for_each objs (update_best E owner camera t) w)) in
  (clock_reads w <= n <= clock_reads w + List.length objs)%nat.
Proof.
  induction objs as [|entry objs IH]; intros w; cbv zeta.
  - simpl. lia.
  - rewrite (for_each_cons_run _ _ _ _ (update_best_ok owner camera t entry w)).
    pose proof (update_best_clock owner camera t entry w) as H1.
    pose proof (IH (snd (update_best E owner camera t entry w))) as H2.
    cbv zeta in H1, H2. simpl List.length. lia.
Qed.

Lemma within_60_eq lo hi a b : a == b -> within_60 E lo hi a -> within_60 E lo hi b.
Proof. intros Hab H n Hn. rewrite <- Hab. now apply H. Qed.

Lemma within_60_sub lo hi lo' hi' tau :
  (lo <= lo')%nat -> (hi' <= hi)%nat ->
  within_60 E lo hi tau -> within_60 E lo' hi' tau.
Proof. intros H1 H2 H n Hn. apply H. lia. Qed.

(** Over the best-sighting loop of one snapshot: while the readings of
    the clock the loop makes are within 60 seconds of the record's time
    and of the frame's, the score of the record of a label does not
    decrease, and the record kept is of one of these two times. *)
Lemma best_loop_window owner camera t l objs : forall w old,
  best_of w owner l = Some old ->
  let w' := snd (for_each objs (update_best E owner camera t) w) in
  within_60 E (clock_reads w) (clock_reads w') (frame_time old) ->
  within_60 E (clock_reads w) (clock_reads w') t ->
  exists kept,
    best_of w' owner l = Some kept /\ score old <= score kept /\
    (frame_time kept == frame_time old \/ frame_time kept == t).
Proof.
  induction objs as [|[key obj] objs IH]; intros w old Hold w' Hwo Hwt.
  - exists old. split; [assumption|]. split; [apply Qle_refl|]. now left.
  - subst w'. revert Hwo Hwt.
    rewrite (for_each_cons_run _ _ _ _
               (update_best_ok owner camera t (key, obj) w)).
    set (w1 := snd (update_best E owner camera t (key, obj) w)).
    set (w' := snd (for_each objs (update_best E owner camera t) w1)).
    intros Hwo Hwt.
    pose proof (update_best_clock owner camera t (key, obj) w) as Hclock.
    pose proof (best_loop_clock owner camera t objs w1) as Hclock'.
    cbv zeta in Hclock, Hclock'. fold w1 in Hclock, Hclock'. fold w' in Hclock'.
    assert (Hmid : exists mid,
              best_of w1 owner l = Some mid /\ score old <= score mid /\
              (frame_time mid == frame_time old \/ frame_time mid == t)).
    { destruct (seen_at t obj) eqn:Hs.
      - destruct (string_dec l (label obj)) as [->|Hne].
        + pose proof (update_best_policy owner camera t key obj w
                        (proj1 (Qeq_bool_iff _ _) Hs)) as H.
          cbv zeta in H. fold w1 in H. rewrite Hold in H.
          destruct H as (_ & (Hnew & Hkeep & Hmono & _) & _).
          destruct (Qlt_le_dec (score old) (score obj)) as [Hlt|Hle].
          * eexists. split; [apply Hnew; now left|]. split.
            -- simpl. now apply Qlt_le_weak.
            -- right. simpl. now apply Qeq_bool_iff.
          * destruct (Qlt_le_dec 60
                        (nearest_float E
                           (now E (clock_reads w) - frame_time old)))
              as [Hgap|Hin].
            -- (* the loop read the clock: the reading is in the window *)
               exfalso.
               assert (Hread : clock_reads w1 = S (clock_reads w)).
               { unfold w1.
                 rewrite (update_best_seen owner camera t key obj w Hs), Hold.
                 apply Qltb_lt in Hgap. rewrite Hgap, orb_true_r.
                 enough (H : unchanged clock_reads
                               (store_best owner camera key obj))
                   by (rewrite H; reflexivity).
                 unfold store_best. keep. }
               assert (Hle60 : now E (clock_reads w) - frame_time old <= 60).
               { apply Hwo. lia. }
               apply nearest_float_within in Hle60.
               exact (Qle_not_lt _ _ Hle60 Hgap).
            -- exists old. split; [|split; [apply Qle_refl | left; reflexivity]].
               apply Hkeep. intros [H|H].
               ++ exact (Qle_not_lt _ _ Hle H).
               ++ exact (Qle_not_lt _ _ Hin H).
        + exists old. split; [|split; [apply Qle_refl | left; reflexivity]].
          unfold w1. destruct (update_best_policy owner camera t key obj w
                                 (proj1 (Qeq_bool_iff _ _) Hs)) as (_ & _ & Ho).
          rewrite Ho; auto.
      - exists old. unfold w1. rewrite update_best_stale by assumption.
        split; [assumption|]. split; [apply Qle_refl | left; reflexivity]. }
    destruct Hmid as (mid & Hbest & Hscore & Htime).
    destruct (IH w1 mid Hbest) as (kept & Hk & Hs & Ht).
    + fold w'. destruct Htime as [Heq|Heq].
      * apply (within_60_eq _ _ (frame_time old)); [now symmetry|].
        apply (within_60_sub (clock_reads w) (clock_reads w')); auto; lia.
      * apply (within_60_eq _ _ t); [now symmetry|].
        apply (within_60_sub (clock_reads w) (clock_reads w')); auto; lia.
    + fold w'. apply (within_60_sub (clock_reads w) (clock_reads w')); auto; lia.
    + exists kept. split; [exact Hk|]. split.
      * now apply Qle_trans with (score mid).
      * destruct Ht as [Ht|Ht]; [|now right].
        destruct Htime as [Heq|Heq]; [left | right]; now rewrite Ht.
Qed.

(** Over the best-sighting loop of one snapshot (lines 163-176): while
    every reading of the clock in the loop is within 60 seconds of the
    record's time and of the frame's, the score of the record of a label
    does not decrease. *)
Theorem best_loop_within_window owner camera t l objs : forall w old,
  best_of w owner l = Some old ->
  (forall n, (clock_reads w <= n < clock_reads w + List.length objs)%nat ->
             now E n - frame_time old <= 60 /\ now E n - t <= 60) ->
  exists kept,
    best_of (snd (for_each objs (update_best E owner camera t) w)) owner l =
    Some kept /\ score old <= score kept.
Proof.
  intros w old Hold Hwin.
  pose proof (best_loop_clock owner camera t objs w) as Hclock.
  cbv zeta in Hclock.
  destruct (best_loop_window owner camera t l objs w old Hold)
    as (kept & Hk & Hs & _).
  - intros n Hn. apply Hwin. lia.
  - intros n Hn. apply Hwin. lia.
  - exists kept. auto.
Qed.

(** ** The accessors ([get_best], lines 88-92) *)

Lemma preserves_framed_store_best owner camera key obj :
  preserves all_framed (store_best owner camera key obj).
Proof.
  unfold store_best. apply preserves_bind; [inv|]. intros a.
  apply preserves_bind; [|intros _].
  - apply preserves_framed_update. intros d Hd. exact Hd.
  - apply preserves_framed_update. intros d Hd. simpl.
    apply Forall_set; auto. intros k'. simpl. discriminate.
Qed.

Lemma preserves_framed_process item :
  preserves all_framed (process E item).
Proof.
  destruct item as [[owner t] objs].
  unfold process, begin_item, update_current_frame, update_best,
    report_zones, report_zone, report_label, report_presence, report_detected,
    report_expired, publish_snapshot, set_presence.
  repeat first [apply preserves_framed_store_best | inv_step].
Qed.

Lemma preserves_framed_get_best camera l :
  preserves all_framed (get_best camera l).
Proof. unfold get_best. inv. Qed.

Lemma preserves_framed_get_current_frame camera :
  preserves all_framed (get_current_frame camera).
Proof. unfold get_current_frame. inv. Qed.

(** Every record carries its frame, in every state the processor can
    be in. *)
Lemma reachable_all_framed w : reachable E w -> all_framed w.
Proof.
  induction 1 as [w H| | | |].
  - unfold all_framed. rewrite H. constructor.
  - now apply preserves_framed_process.
  - now apply preserves_framed_get_best.
  - now apply preserves_framed_get_current_frame.
  - assumption.
Qed.

(** C10: in every state the processor can reach, [get_best] returns
    without raising; it returns None when the camera has no record for
    the label and the frame of the record when it has one (so None
    exactly when there is no record); and it leaves the best-sighting
    records of every camera as they were. *)
Theorem get_best_returns_record_frame camera l w :
  reachable E w ->
  match best_of w camera l with
  | None => fst (get_best camera l w) = Ok None
  | Some record =>
      exists img, frame record = Some img /\
                  fst (get_best camera l w) = Ok (Some img)
  end /\
  forall c l', best_of (snd (get_best camera l w)) c l' = best_of w c l'.
Proof.
  intros Hr. apply reachable_all_framed in Hr.
  split.
  - unfold get_best.
    rewrite (bind_ok _ _ _ _ _ (camera_entry_value w camera)).
    set (w1 := snd (camera_entry camera w)).
    assert (Hv : camera_view w1 camera = camera_view w camera)
      by apply camera_view_entry.
    unfold best_of, Dict.mem.
    destruct (Dict.get l (Camera.best_objects (camera_view w camera)))
      as [record|] eqn:Hrec; [|reflexivity].
    rewrite (bind_ok _ _ _ _ _ (camera_entry_value w1 camera)), Hv.
    unfold lift at 1, index, bind at 1. rewrite Hrec.
    pose proof (all_framed_view w camera Hr) as Hf.
    destruct (Forall_get _ _ _ _ Hf Hrec) as [k' Hk]. simpl in Hk.
    destruct (frame record) as [img|]; [|congruence].
    exists img. auto.
  - intros c l'. unfold best_of.
    assert (H : unchanged (fun w => Camera.best_objects (camera_view w c))
                  (get_best camera l)) by (unfold get_best; repeat keep_step).
    specialize (H w). cbv beta in H. now rewrite H.
Qed.

(** ** Whole-frame presence (lines 199-228) *)

Lemma publish_snapshot_run owner camera l w :
  let w1 := snd (camera_entry owner w) in
  publish_snapshot E owner camera l w =
  match best_of w owner l with
  | None => (Raise (KeyError l), w1)
  | Some best =>
      match frame best with
      | None => (Raise (KeyError "frame"), w1)
      | Some img =>
          match imencode E (cvtColor E img) with
          | Some jpg =>
              (Ok tt,
               set_published (published w1 ++ [snapshot_message E camera l jpg]) w1)
          | None => (Ok tt, w1)
          end
      end
  end.
Proof.
  unfold publish_snapshot, best_of.
  rewrite (bind_ok _ _ _ _ _ (camera_entry_value w owner)).
  unfold lift at 1, index, bind at 1.
  destruct (Dict.get l (Camera.best_objects (camera_view w owner)))
    as [best|]; [|reflexivity].
  unfold lift, bind. destruct (frame best); [|reflexivity].
  now destruct (imencode E (cvtColor E i)).
Qed.

Lemma set_presence_run owner l s w :
  set_presence owner l s w = (Ok tt, snd (set_presence owner l s w)).
Proof. apply update_camera_run. Qed.

Lemma set_presence_view owner l s w c :
  camera_view (snd (set_presence owner l s w)) c =
  if String.eqb c owner
  then Camera.set_object_status
         (Dict.set l s (Camera.object_status (camera_view w owner)))
         (camera_view w owner)
  else camera_view w c.
Proof.
  unfold set_presence.
  exact (camera_view_update w owner
           (fun o => Camera.set_object_status
                       (Dict.set l s (Camera.object_status o)) o) c).
Qed.

Lemma set_presence_published owner l s w :
  published (snd (set_presence owner l s w)) = published w.
Proof.
  apply (unchanged_update_camera published). reflexivity.
Qed.

Lemma camera_entry_published camera w :
  published (snd (camera_entry camera w)) = published w.
Proof. apply (unchanged_camera_entry published). reflexivity. Qed.

Lemma publish_snapshot_spec owner camera l w :
  let r := publish_snapshot E owner camera l w in
  (forall c, camera_view (snd r) c = camera_view w c) /\
  match snapshot_outcome E (best_of w owner l) camera l with
  | Ok msgs => fst r = Ok tt /\ published (snd r) = published w ++ msgs
  | Raise e => fst r = Raise e /\ published (snd r) = published w
  end.
Proof.
  cbv zeta. rewrite publish_snapshot_run. unfold snapshot_outcome.
  pose proof (camera_view_entry w owner) as Hv.
  pose proof (camera_entry_published owner w) as Hp.
  destruct (best_of w owner l) as [best|]; [|simpl; auto].
  destruct (frame best) as [img|]; [|simpl; auto].
  destruct (imencode E (cvtColor E img)); simpl; rewrite ?Hp, ?app_nil_r; auto.
Qed.

Lemma publish_run t b r w :
  publish t b r w =
  (Ok tt, set_published (published w ++ [{| topic := t; body := b; retain := r |}]) w).
Proof. reflexivity. Qed.

(** The presence publish of line 210 or 222, as a message. *)
Lemma presence_message_eq camera l s :
  {| topic := presence_topic E camera l; body := status_text s;
     retain := false |} = presence_message E camera l s.
Proof. now destruct s. Qed.

(** A presence publish with the lines after it, from a state in which
    the status of the label has just been written. *)
Lemma transition_spec owner camera l s w :
  let r := (set_presence owner l s ;;
            publish (presence_topic E camera l) (status_text s) false ;;
            publish_snapshot E owner camera l)%monad w in
  (forall c, camera_view (snd r) c =
             if String.eqb c owner
             then Camera.set_object_status
                    (Dict.set l s (Camera.object_status (camera_view w owner)))
                    (camera_view w owner)
             else camera_view w c) /\
  fst r = fst (transition_outcome E (best_of w owner l) camera l s) /\
  published (snd r) =
  published w ++ snd (transition_outcome E (best_of w owner l) camera l s).
Proof.
  cbv zeta. rewrite (bind_ok _ _ _ _ _ (set_presence_run owner l s w)).
  set (w1 := snd (set_presence owner l s w)).
  rewrite (bind_ok _ _ _ _ _ (publish_run _ _ _ w1)).
  set (w2 := set_published _ w1).
  pose proof (publish_snapshot_spec owner camera l w2) as [Hv Hs].
  cbv zeta in Hv, Hs.
  assert (Hb : best_of w2 owner l = best_of w owner l).
  { unfold best_of. change (camera_view w2 owner) with (camera_view w1 owner).
    unfold w1. rewrite set_presence_view, String.eqb_refl. reflexivity. }
  rewrite Hb in Hs. split; [|unfold transition_outcome].
  - intros c. rewrite Hv. change (camera_view w2 c) with (camera_view w1 c).
    apply set_presence_view.
  - assert (Hp : published w2 = published w ++ [presence_message E camera l s]).
    { unfold w2. simpl. unfold w1.
      now rewrite set_presence_published, presence_message_eq. }
    destruct (snapshot_outcome E (best_of w owner l) camera l) as [msgs|e];
      destruct Hs as [Hf Hs]; rewrite Hf, Hs, Hp; simpl; split; auto.
    now rewrite <- app_assoc.
Qed.

Lemma report_expired_spec owner camera l w :
  let r := report_expired E owner camera l w in
  (forall c, camera_view (snd r) c =
             if String.eqb c owner
             then Camera.set_object_status
                    (Dict.set l OFF (Camera.object_status (camera_view w owner)))
                    (camera_view w owner)
             else camera_view w c) /\
  fst r = fst (transition_outcome E (best_of w owner l) camera l OFF) /\
  published (snd r) =
  published w ++ snd (transition_outcome E (best_of w owner l) camera l OFF).
Proof. exact (transition_spec owner camera l OFF w). Qed.

Lemma report_detected_spec owner camera l count w :
  let s := if (0 <? count)%nat then ON else OFF in
  let r := report_detected E owner camera (l, count) w in
  if status_differs s (presence_of w owner l) then
    (forall c, camera_view (snd r) c =
               if String.eqb c owner
               then Camera.set_object_status
                      (Dict.set l s (Camera.object_status (camera_view w owner)))
                      (camera_view w owner)
               else camera_view w c) /\
    fst r = fst (transition_outcome E (best_of w owner l) camera l s) /\
    published (snd r) =
    published w ++ snd (transition_outcome E (best_of w owner l) camera l s)
  else
    (forall c, camera_view (snd r) c = camera_view w c) /\
    fst r = Ok tt /\ published (snd r) = published w.
Proof.
  cbv zeta. unfold report_detected, presence_of.
  rewrite (bind_ok _ _ _ _ _ (camera_entry_value w owner)).
  set (w1 := snd (camera_entry owner w)).
  assert (Hv : forall c, camera_view w1 c = camera_view w c)
    by (intros c; apply camera_view_entry).
  assert (Hp : published w1 = published w) by apply camera_entry_published.
  destruct (status_differs _ _).
  - pose proof (transition_spec owner camera l
                  (if (0 <? count)%nat then ON else OFF) w1) as (H1 & H2 & H3).
    cbv zeta in H1, H2, H3. unfold best_of in *. rewrite !Hv, Hp in *.
    split; [|split]; auto.
    intros c. rewrite H1, Hv. reflexivity.
  - simpl. auto.
Qed.

(** C9: when the JPEG encoder fails on the frame of the label's best
    record, each of the two presence transitions (a detected label whose
    status differs, lines 206-216; an expired label, lines 218-228)
    returns normally, publishes exactly its ON/OFF message and no
    snapshot, and leaves the new status stored. *)
Theorem encoding_failure_skips_only_snapshot owner camera l best img w :
  best_of w owner l = Some best ->
  frame best = Some img ->
  imencode E (cvtColor E img) = None ->
  (forall count,
     let s := if (0 <? count)%nat then ON else OFF in
     let r := report_detected E owner camera (l, count) w in
     status_differs s (presence_of w owner l) = true ->
     fst r = Ok tt /\
     published (snd r) = published w ++ [presence_message E camera l s] /\
     presence_of (snd r) owner l = Some s) /\
  (let r := report_expired E owner camera l w in
   fst r = Ok tt /\
   published (snd r) = published w ++ [presence_message E camera l OFF] /\
   presence_of (snd r) owner l = Some OFF).
Proof.
  intros Hbest Hframe Henc.
  assert (Ht : forall s, transition_outcome E (best_of w owner l) camera l s =
                         (Ok tt, [presence_message E camera l s])).
  { intros s. unfold transition_outcome, snapshot_outcome.
    now rewrite Hbest, Hframe, Henc. }
  split.
  - intros count s r Hd. subst s r.
    pose proof (report_detected_spec owner camera l count w) as H.
    cbv zeta in H. rewrite Hd, Ht in H. destruct H as (Hv & Hf & Hp).
    repeat split; auto.
    unfold presence_of. rewrite Hv, String.eqb_refl. simpl.
    apply get_set_same.
  - pose proof (report_expired_spec owner camera l w) as H.
    cbv zeta in *. rewrite Ht in H. destruct H as (Hv & Hf & Hp).
    repeat split; auto.
    unfold presence_of. rewrite Hv, String.eqb_refl. simpl.
    apply get_set_same.
Qed.

(** *** The counter of line 199-203 *)

Lemma count_label_keys l c :
  NoDup (Dict.keys c) -> NoDup (Dict.keys (count_label l c)).
Proof. apply NoDup_keys_set. Qed.

Lemma count_objects_fold (objs : list tracked_object) c :
  let c' :=
    fold_left
      (fun c obj =>
         if (1 <? List.length (history obj))%nat
         then count_label (label obj) c else c) objs c in
  (NoDup (Dict.keys c) -> NoDup (Dict.keys c')) /\
  (Forall (fun e => (0 < snd e)%nat) c -> Forall (fun e => (0 < snd e)%nat) c') /\
  (forall l, Dict.mem l c' =
             Dict.mem l c
             || existsb (fun obj => (1 <? List.length (history obj))%nat
                                    && String.eqb l (label obj)) objs).
Proof.
  revert c. induction objs as [|obj objs IH]; intros c; simpl.
  - repeat split; auto. intros l. now rewrite orb_false_r.
  - destruct (IH (if (1 <? List.length (history obj))%nat
                  then count_label (label obj) c else c)) as (H1 & H2 & H3).
    destruct (1 <? List.length (history obj))%nat; simpl in *.
    + split; [|split].
      * intros H. apply H1. now apply count_label_keys.
      * intros H. apply H2. unfold count_label. apply Forall_set; auto.
        intros k'. simpl. lia.
      * intros l. rewrite H3. unfold count_label. rewrite mem_set.
        rewrite orb_assoc. f_equal. apply orb_comm.
    + auto.
Qed.

Lemma count_objects_keys objs : NoDup (Dict.keys (count_objects objs)).
Proof. apply count_objects_fold. constructor. Qed.

Lemma count_objects_positive objs :
  Forall (fun e => (0 < snd e)%nat) (count_objects objs).
Proof. apply count_objects_fold. constructor. Qed.

Lemma count_objects_mem objs l :
  Dict.mem l (count_objects objs) = true <-> stably_seen objs l.
Proof.
  unfold count_objects.
  destruct (count_objects_fold (Dict.values objs) []) as (_ & _ & H).
  cbv zeta in H. rewrite H. simpl. rewrite existsb_exists.
  unfold stably_seen. split.
  - intros (obj & Hin & Hb). apply andb_true_iff in Hb as [Hh Hl].
    apply Nat.ltb_lt in Hh. apply String.eqb_eq in Hl. eauto.
  - intros (obj & Hin & Hl & Hh). exists obj. split; auto.
    apply andb_true_iff. split; [now apply Nat.ltb_lt|].
    subst. apply String.eqb_refl.
Qed.

(** *** The two loops of the presence stage *)

Lemma set_object_status_eta d :
  Camera.set_object_status (Camera.object_status d) d = d.
Proof. now destruct d. Qed.

Lemma for_each_cons_ok {A} (x : A) l body w :
  fst (for_each (x :: l) body w) = Ok tt ->
  fst (body x w) = Ok tt /\
  for_each (x :: l) body w = for_each l body (snd (body x w)).
Proof.
  simpl. unfold bind. destruct (body x w) as [[[]|e] w1]; simpl; auto.
  discriminate.
Qed.

Lemma transition_ok best camera l s :
  fst (transition_outcome E best camera l s) = Ok tt ->
  exists msgs, snapshot_outcome E best camera l = Ok msgs /\
               snd (transition_outcome E best camera l s) =
               presence_message E camera l s :: msgs.
Proof.
  unfold transition_outcome.
  destruct (snapshot_outcome E best camera l) as [msgs|e]; simpl.
  - eauto.
  - discriminate.
Qed.

Lemma report_detected_step owner camera l n w :
  (0 < n)%nat ->
  let r := report_detected E owner camera (l, n) w in
  fst r = Ok tt ->
  published (snd r) =
  published w ++ detected_messages E w owner camera (l, n) /\
  forall c, camera_view (snd r) c =
            if String.eqb c owner
            then Camera.set_object_status
                   (Dict.set l ON (Camera.object_status (camera_view w owner)))
                   (camera_view w owner)
            else camera_view w c.
Proof.
  intros Hn r Hok. subst r.
  pose proof (report_detected_spec owner camera l n w) as H. cbv zeta in H.
  apply Nat.ltb_lt in Hn. rewrite Hn in H.
  unfold detected_messages, snapshot_messages. simpl fst.
  destruct (status_differs ON (presence_of w owner l)) eqn:Hd.
  - destruct H as (Hv & Hf & Hp). rewrite Hok in Hf. symmetry in Hf.
    apply transition_ok in Hf as (msgs & Hs & Ht).
    rewrite Hp, Ht, Hs. auto.
  - destruct H as (Hv & Hf & Hp). rewrite Hp, app_nil_r. split; auto.
    intros c. rewrite Hv. destruct (String.eqb_spec c owner) as [->|]; auto.
    unfold status_differs, presence_of in Hd.
    destruct (Dict.get l (Camera.object_status (camera_view w owner)))
      as [[]|] eqn:Hg; try discriminate.
    now rewrite (set_same _ _ _ Hg), set_object_status_eta.
Qed.

Lemma report_expired_step owner camera l w :
  let r := report_expired E owner camera l w in
  fst r = Ok tt ->
  published (snd r) = published w ++ expired_messages E w owner camera l /\
  forall c, camera_view (snd r) c =
            if String.eqb c owner
            then Camera.set_object_status
                   (Dict.set l OFF (Camera.object_status (camera_view w owner)))
                   (camera_view w owner)
            else camera_view w c.
Proof.
  intros r Hok. subst r.
  pose proof (report_expired_spec owner camera l w) as (Hv & Hf & Hp).
  rewrite Hok in Hf. symmetry in Hf.
  apply transition_ok in Hf as (msgs & Hs & Ht).
  unfold expired_messages, snapshot_messages. rewrite Hp, Ht, Hs. auto.
Qed.

(** The messages of a label are the same from two states with the same
    status and the same best record for it. *)
Lemma detected_messages_ext w1 w owner camera item :
  presence_of w1 owner (fst item) = presence_of w owner (fst item) ->
  best_of w1 owner (fst item) = best_of w owner (fst item) ->
  detected_messages E w1 owner camera item =
  detected_messages E w owner camera item.
Proof.
  unfold detected_messages, snapshot_messages. now intros -> ->.
Qed.

Lemma expired_messages_ext w1 w owner camera l :
  best_of w1 owner l = best_of w owner l ->
  expired_messages E w1 owner camera l = expired_messages E w owner camera l.
Proof. unfold expired_messages, snapshot_messages. now intros ->. Qed.

Lemma detect_loop owner camera items : forall w,
  NoDup (map fst items) ->
  Forall (fun e => (0 < snd e)%nat) items ->
  let r := for_each items (report_detected E owner camera) w in
  fst r = Ok tt ->
  published (snd r) =
  published w ++ flat_map (detected_messages E w owner camera) items /\
  forall c, camera_view (snd r) c =
            if String.eqb c owner
            then Camera.set_object_status
                   (fold_left (fun st e => Dict.set (fst e) ON st) items
                      (Camera.object_status (camera_view w owner)))
                   (camera_view w owner)
            else camera_view w c.
Proof.
  induction items as [|[l n] items IH]; intros w Hnd Hpos r Hok; subst r.
  - simpl. rewrite app_nil_r. split; auto. intros c.
    destruct (String.eqb c owner) eqn:Hc; auto.
    apply String.eqb_eq in Hc. subst. now rewrite set_object_status_eta.
  - apply for_each_cons_ok in Hok as Hstep. destruct Hstep as [H1 Heq].
    rewrite Heq in *. inversion Hnd as [|? ? Hnotin Hnd']; subst.
    inversion Hpos as [|? ? Hn Hpos']; subst. simpl in Hn.
    destruct (report_detected_step owner camera l n w Hn H1) as [Hp1 Hv1].
    set (w1 := snd (report_detected E owner camera (l, n) w)) in *.
    destruct (IH w1 Hnd' Hpos' Hok) as [Hp Hv]. split.
    + rewrite Hp, Hp1. cbn [flat_map]. rewrite <- app_assoc. do 2 f_equal.
      apply flat_map_ext_In. intros [l' n'] Hin.
      assert (Hne : l <> l').
      { intros ->. apply Hnotin. apply in_map_iff. now exists (l', n'). }
      apply detected_messages_ext; simpl.
      * unfold presence_of. rewrite Hv1, String.eqb_refl. simpl.
        now apply get_set_other.
      * unfold best_of. rewrite Hv1, String.eqb_refl. reflexivity.
    + intros c. rewrite Hv, !Hv1, String.eqb_refl.
      destruct (String.eqb c owner); auto.
Qed.

Lemma expire_loop owner camera ls : forall w,
  let r := for_each ls (report_expired E owner camera) w in
  fst r = Ok tt ->
  published (snd r) =
  published w ++ flat_map (expired_messages E w owner camera) ls /\
  forall c, camera_view (snd r) c =
            if String.eqb c owner
            then Camera.set_object_status
                   (fold_left (fun st l => Dict.set l OFF st) ls
                      (Camera.object_status (camera_view w owner)))
                   (camera_view w owner)
            else camera_view w c.
Proof.
  induction ls as [|l ls IH]; intros w r Hok; subst r.
  - simpl. rewrite app_nil_r. split; auto. intros c.
    destruct (String.eqb c owner) eqn:Hc; auto.
    apply String.eqb_eq in Hc. subst. now rewrite set_object_status_eta.
  - apply for_each_cons_ok in Hok as Hstep. destruct Hstep as [H1 Heq].
    rewrite Heq in *.
    destruct (report_expired_step owner camera l w H1) as [Hp1 Hv1].
    set (w1 := snd (report_expired E owner camera l w)) in *.
    destruct (IH w1 Hok) as [Hp Hv]. split.
    + rewrite Hp, Hp1. cbn [flat_map]. rewrite <- app_assoc. do 2 f_equal.
      apply flat_map_ext. intros l'. apply expired_messages_ext.
      unfold best_of. rewrite Hv1.
      destruct (String.eqb owner owner); reflexivity.
    + intros c. rewrite Hv, !Hv1, String.eqb_refl.
      destruct (String.eqb c owner); auto.
Qed.

Lemma expired_objects_set l s st counter :
  Dict.mem l counter = true ->
  expired_objects (Dict.set l s st) counter = expired_objects st counter.
Proof.
  intros Hm. unfold expired_objects.
  induction st as [|[k v] st IH]; simpl.
  - now rewrite Hm, andb_false_r.
  - destruct (String.eqb_spec l k) as [->|Hne]; simpl.
    + now rewrite Hm, !andb_false_r.
    + destruct (is_on v && negb (Dict.mem k counter)); simpl; now rewrite IH.
Qed.

Lemma expired_objects_fold (items : Dict.t nat) st counter :
  (forall e, In e items -> Dict.mem (fst e) counter = true) ->
  expired_objects (fold_left (fun st e => Dict.set (fst e) ON st) items st)
    counter = expired_objects st counter.
Proof.
  revert st. induction items as [|e items IH]; intros st H; simpl; auto.
  rewrite IH by (intros e' He'; apply H; now right).
  apply expired_objects_set, H. now left.
Qed.

Lemma in_expired_objects l st counter :
  NoDup (Dict.keys st) ->
  In l (expired_objects st counter) <->
  Dict.get l st = Some ON /\ Dict.mem l counter = false.
Proof.
  intros Hnd. unfold expired_objects. rewrite in_map_iff. split.
  - intros ([k v] & <- & Hin). apply filter_In in Hin as [Hin Hb].
    simpl in *. apply andb_true_iff in Hb as [Hon Hm].
    destruct v; try discriminate. apply negb_true_iff in Hm.
    split; auto. now apply get_In.
  - intros [Hg Hm]. exists (l, ON). split; auto. apply filter_In.
    split; [now apply get_In|]. simpl. now rewrite Hm.
Qed.

(** The presence stage when it returns normally. *)
Lemma report_presence_spec owner camera objs w :
  Dict.uniq_keys (Camera.object_status (camera_view w owner)) = true ->
  fst (report_presence E owner camera objs w) = Ok tt ->
  let w' := snd (report_presence E owner camera objs w) in
  let counter := count_objects objs in
  let expired :=
    expired_objects (Camera.object_status (camera_view w owner)) counter in
  (forall l, Dict.mem l counter = true <-> stably_seen objs l) /\
  (forall l, presence_of w' owner l =
             if Dict.mem l counter then Some ON
             else match presence_of w owner l with
                  | Some ON => Some OFF
                  | s => s
                  end) /\
  published w' =
  published w ++ flat_map (detected_messages E w owner camera) counter
              ++ flat_map (expired_messages E w owner camera) expired /\
  NoDup (Dict.keys counter) /\ NoDup expired.
Proof.
  intros Huniq Hok w' counter expired. apply uniq_keys_NoDup in Huniq.
  split; [intros l; apply count_objects_mem|].
  assert (Hkeys : NoDup (Dict.keys counter)) by apply count_objects_keys.
  assert (Hexp : NoDup expired) by now apply NoDup_keys_filter.
  cut ((forall c, camera_view w' c =
          if String.eqb c owner
          then Camera.set_object_status
                 (fold_left (fun st l => Dict.set l OFF st) expired
                    (fold_left (fun st e => Dict.set (fst e) ON st) counter
                       (Camera.object_status (camera_view w owner))))
                 (camera_view w owner)
          else camera_view w c) /\
       published w' =
       published w ++ flat_map (detected_messages E w owner camera) counter
                   ++ flat_map (expired_messages E w owner camera) expired).
  { intros [Hv Hp]. repeat split; auto. intros l.
    unfold presence_of. rewrite Hv, String.eqb_refl. simpl.
    rewrite (get_fold_set (fun l => l)), (get_fold_set fst).
    destruct (existsb (fun x => String.eqb l x) expired) eqn:He.
    - apply existsb_exists in He as (l' & Hin & Heq).
      apply String.eqb_eq in Heq. subst l'.
      apply in_expired_objects in Hin as [Hg Hm]; auto.
      now rewrite Hm, Hg.
    - assert (Hmem : existsb (fun x => String.eqb l (fst x)) counter =
                     Dict.mem l counter).
      { apply eq_true_iff_eq. rewrite mem_keys, existsb_exists.
        unfold Dict.keys. rewrite in_map_iff. split.
        - intros (x & Hin & Heq). apply String.eqb_eq in Heq. eauto.
        - intros (x & Heq & Hin). exists x. split; auto.
          subst. apply String.eqb_refl. }
      rewrite Hmem. destruct (Dict.mem l counter) eqn:Hm; auto.
      destruct (Dict.get l (Camera.object_status (camera_view w owner)))
        as [[]|] eqn:Hg; auto.
      exfalso. assert (Hin : In l expired) by now apply in_expired_objects.
      assert (Hx : existsb (fun x => String.eqb l x) expired = true).
      { apply existsb_exists. exists l. split; auto. apply String.eqb_refl. }
      congruence. }
  assert (Hrun : exists w1,
            for_each counter (report_detected E owner camera) w = (Ok tt, w1) /\
            report_presence E owner camera objs w =
            for_each
              (expired_objects (Camera.object_status (camera_view w1 owner))
                 counter)
              (report_expired E owner camera) (snd (camera_entry owner w1))).
  { unfold report_presence in *. fold counter in Hok |- *.
    unfold bind at 1 in Hok. unfold bind at 1.
    destruct (for_each counter (report_detected E owner camera) w)
      as [[[]|e] w1] eqn:Hloop; [|discriminate].
    exists w1. split; auto.
    now rewrite (bind_ok _ _ _ _ _ (camera_entry_value w1 owner)). }
  destruct Hrun as (w1 & Hloop & Hrun). subst w'. rewrite Hrun in *.
  destruct (detect_loop owner camera counter w Hkeys
              (count_objects_positive objs)) as [Hp1 Hv1].
  { now rewrite Hloop. }
  rewrite Hloop in Hp1, Hv1. simpl in Hp1, Hv1.
  set (w2 := snd (camera_entry owner w1)) in *.
  assert (Hv2 : forall c, camera_view w2 c = camera_view w1 c)
    by (intros c; apply camera_view_entry).
  assert (Hp2 : published w2 = published w1) by apply camera_entry_published.
  assert (Hlist : expired_objects (Camera.object_status (camera_view w1 owner))
                    counter = expired).
  { rewrite Hv1, String.eqb_refl. simpl. apply expired_objects_fold.
    intros e He. apply mem_keys. unfold Dict.keys. now apply in_map. }
  rewrite Hlist in *.
  destruct (expire_loop owner camera expired w2 Hok) as [Hp3 Hv3]. split.
  - intros c. rewrite Hv3, !Hv2, !Hv1, String.eqb_refl.
    destruct (String.eqb c owner); auto.
  - rewrite Hp3, Hp2, Hp1, <- app_assoc. do 2 f_equal.
    apply flat_map_ext. intros l. apply expired_messages_ext.
    unfold best_of. rewrite Hv2, Hv1, String.eqb_refl. reflexivity.
Qed.

Lemma has_frame_outcome best camera l :
  has_frame best = true ->
  exists msgs, snapshot_outcome E best camera l = Ok msgs.
Proof.
  unfold has_frame, snapshot_outcome. destruct best as [b|]; [|discriminate].
  destruct (frame b) as [img|]; [|discriminate]. intros _.
  destruct (imencode E (cvtColor E img)); eauto.
Qed.

Lemma transition_outcome_ok best camera l s :
  has_frame best = true -> fst (transition_outcome E best camera l s) = Ok tt.
Proof.
  intros H. destruct (has_frame_outcome best camera l H) as [msgs Hm].
  unfold transition_outcome. now rewrite Hm.
Qed.

Lemma detect_loop_ok owner camera items : forall w,
  NoDup (map fst items) ->
  Forall (fun e => (0 < snd e)%nat) items ->
  (forall e, In e items ->
     status_differs ON (presence_of w owner (fst e)) = true ->
     has_frame (best_of w owner (fst e)) = true) ->
  fst (for_each items (report_detected E owner camera) w) = Ok tt.
Proof.
  induction items as [|[l n] items IH]; intros w Hnd Hpos Hready; auto.
  inversion Hnd as [|? ? Hnotin Hnd']; subst.
  inversion Hpos as [|? ? Hn Hpos']; subst. simpl in Hn.
  assert (H1 : fst (report_detected E owner camera (l, n) w) = Ok tt).
  { pose proof (report_detected_spec owner camera l n w) as H. cbv zeta in H.
    apply Nat.ltb_lt in Hn. rewrite Hn in H.
    destruct (status_differs ON (presence_of w owner l)) eqn:Hd.
    - destruct H as (_ & Hf & _). rewrite Hf.
      apply transition_outcome_ok. apply (Hready (l, n)); auto. now left.
    - apply H. }
  rewrite (for_each_cons_run _ _ _ _ H1).
  destruct (report_detected_step owner camera l n w Hn H1) as [_ Hv1].
  apply IH; auto. intros [l' n'] Hin.
  assert (Hne : l <> l').
  { intros ->. apply Hnotin. apply in_map_iff. now exists (l', n'). }
  unfold presence_of, best_of. rewrite Hv1, String.eqb_refl. simpl.
  rewrite get_set_other by assumption. apply (Hready (l', n')). now right.
Qed.

Lemma expire_loop_ok owner camera ls : forall w,
  (forall l, In l ls -> has_frame (best_of w owner l) = true) ->
  fst (for_each ls (report_expired E owner camera) w) = Ok tt.
Proof.
  induction ls as [|l ls IH]; intros w Hready; auto.
  assert (H1 : fst (report_expired E owner camera l w) = Ok tt).
  { destruct (report_expired_spec owner camera l w) as (_ & Hf & _).
    rewrite Hf. apply transition_outcome_ok, Hready. now left. }
  rewrite (for_each_cons_run _ _ _ _ H1).
  destruct (report_expired_step owner camera l w H1) as [_ Hv1].
  apply IH. intros l' Hin. unfold best_of. rewrite Hv1, String.eqb_refl.
  simpl. apply Hready. now right.
Qed.

Lemma report_presence_ok owner camera objs w :
  forallb (fun l => has_frame (best_of w owner l)) (in_transition w owner objs)
  = true ->
  fst (report_presence E owner camera objs w) = Ok tt.
Proof.
  intros Hready. rewrite forallb_forall in Hready. unfold in_transition in Hready.
  set (counter := count_objects objs) in *.
  assert (Hkeys : NoDup (Dict.keys counter)) by apply count_objects_keys.
  assert (H1 : fst (for_each counter (report_detected E owner camera) w) = Ok tt).
  { apply detect_loop_ok; auto; [apply count_objects_positive|].
    intros e Hin Hd. apply Hready. apply in_or_app. left.
    apply in_map. apply filter_In. auto. }
  destruct (detect_loop owner camera counter w Hkeys
              (count_objects_positive objs) H1) as [_ Hv1].
  unfold report_presence. fold counter.
  rewrite (bind_ok _ _ _ _ _ (run_ok _ _ _ H1)).
  set (w1 := snd (for_each counter (report_detected E owner camera) w)) in *.
  rewrite (bind_ok _ _ _ _ _ (camera_entry_value w1 owner)).
  apply expire_loop_ok. intros l Hin.
  unfold best_of. rewrite camera_view_entry, Hv1, String.eqb_refl. simpl.
  apply Hready. apply in_or_app. right.
  rewrite Hv1, String.eqb_refl in Hin. simpl in Hin.
  rewrite expired_objects_fold in Hin; auto.
  intros e He. apply mem_keys. unfold Dict.keys. now apply in_map.
Qed.

(** ** The current frame and its handle (lines 121-158) *)

Lemma begin_item_fst owner t objs w :
  fst (begin_item E owner t objs w) = index owner (camera_config E).
Proof.
  unfold begin_item, lift. unfold bind at 1.
  destruct (index owner (camera_config E)) as [settings|e]; [|reflexivity].
  rewrite (bind_ok _ _ _ _ _ (camera_entry_value w owner)).
  rewrite (bind_ok _ _ _ _ _ (update_camera_run _ _ _)).
  rewrite (bind_ok _ _ _ _ _ (update_camera_run _ _ _)).
  reflexivity.
Qed.

Lemma begin_item_keeps {X} (p : world -> X) owner t objs :
  (forall v w, p (set_camera_data v w) = p w) ->
  unchanged p (begin_item E owner t objs).
Proof.
  intros H. unfold begin_item.
  repeat first [ apply unchanged_camera_entry; assumption
               | apply unchanged_update_camera; assumption
               | keep_step ].
Qed.

Lemma begin_item_keeps_view {X} (q : Camera.data -> X) owner t objs c :
  (forall v d, q (Camera.set_tracked_objects v d) = q d) ->
  (forall v d, q (Camera.set_current_frame_time v d) = q d) ->
  unchanged (fun w => q (camera_view w c)) (begin_item E owner t objs).
Proof.
  intros H1 H2. unfold begin_item.
  repeat first [ apply unchanged_view_update; intros; auto
               | keep_step ].
Qed.

(** The stages after line 158 leave the frame, its handle and the store. *)
Lemma later_stages_keep {X} (p : world -> X) owner camera t objs coiz :
  (forall v w, p (set_zone_data v w) = p w) ->
  (forall v w, p (set_published v w) = p w) ->
  (forall v w, p (set_clock_reads v w) = p w) ->
  (forall c, unchanged p (camera_entry c)) ->
  (forall c v, unchanged p (update_camera c (fun o => Camera.set_tracked_objects (v o) o))) ->
  (forall c v, unchanged p (update_camera c (fun o => Camera.set_best_objects (v o) o))) ->
  (forall c v, unchanged p (update_camera c (fun o => Camera.set_object_status (v o) o))) ->
  unchanged p
    (for_each objs (update_best E owner camera t) ;;
     report_zones E camera coiz ;;
     report_presence E owner camera objs).
Proof.
  intros Hz Hp Hc He Ht Hb Hs.
  unfold update_best, store_best, report_zones, report_zone, report_label,
    report_presence, report_detected, report_expired, publish_snapshot,
    set_presence.
  repeat first
    [ apply He
    | apply (Ht _ (fun o => Dict.set _ _ (Camera.tracked_objects o)))
    | apply (Hb _ (fun o => Dict.set _ _ (Camera.best_objects o)))
    | apply (Hs _ (fun o => Dict.set _ _ (Camera.object_status o)))
    | apply unchanged_with_zone_status; assumption
    | apply unchanged_publish; assumption
    | apply unchanged_read_clock; assumption
    | keep_step ].
Qed.

Lemma update_current_frame_unavailable settings camera t objs coiz w :
  plasma w (frame_key E camera t) = None ->
  update_current_frame E settings camera t objs coiz w = (Ok tt, w).
Proof.
  intros H. unfold update_current_frame, plasma_get, gets, bind at 1.
  now rewrite H.
Qed.

Lemma update_current_frame_raises settings camera t objs coiz w img e :
  plasma w (frame_key E camera t) = Some img ->
  annotate E settings (zone_data w) camera t objs coiz img = Raise e ->
  update_current_frame E settings camera t objs coiz w = (Raise e, w).
Proof.
  intros H Ha. unfold update_current_frame, plasma_get, gets, bind at 1.
  rewrite H. unfold bind at 1. unfold lift, bind at 1. now rewrite Ha.
Qed.

Lemma update_current_frame_composites settings camera t objs coiz w img img' :
  plasma w (frame_key E camera t) = Some img ->
  annotate E settings (zone_data w) camera t objs coiz img = Ok img' ->
  let r := update_current_frame E settings camera t objs coiz w in
  fst r = Ok tt /\
  (forall c, camera_view (snd r) c =
             if String.eqb c camera
             then Camera.set_object_id (Some (frame_key E camera t))
                    (Camera.set_current_frame img' (camera_view w camera))
             else camera_view w c) /\
  plasma (snd r) =
  release (Camera.object_id (camera_view w camera)) (plasma w) /\
  zone_data (snd r) = zone_data w /\
  published (snd r) = published w /\
  clock_reads (snd r) = clock_reads w.
Proof.
  intros H Ha. cbv zeta.
  set (w1 := snd (update_camera camera (Camera.set_current_frame img') w)).
  set (w2 := snd (camera_entry camera w1)).
  set (w3 := match Camera.object_id (camera_view w camera) with
             | Some previous => set_plasma (store_delete previous (plasma w2)) w2
             | None => w2
             end).
  assert (Hv1 : forall c, camera_view w1 c =
                  if String.eqb c camera
                  then Camera.set_current_frame img' (camera_view w camera)
                  else camera_view w c)
    by (intros c; apply camera_view_update).
  assert (Hk1 : forall {X} (p : world -> X),
            (forall v w, p (set_camera_data v w) = p w) -> p w1 = p w).
  { intros X p Hp. now apply (unchanged_update_camera p). }
  assert (Hv2 : forall c, camera_view w2 c = camera_view w1 c)
    by (intros c; apply camera_view_entry).
  assert (Hk2 : forall {X} (p : world -> X),
            (forall v w, p (set_camera_data v w) = p w) -> p w2 = p w).
  { intros X p Hp. rewrite <- (Hk1 _ p Hp).
    now apply (unchanged_camera_entry p). }
  assert (Hv3 : forall c, camera_view w3 c = camera_view w2 c).
  { intros c. unfold w3.
    now destruct (Camera.object_id (camera_view w camera)). }
  assert (Heq : update_current_frame E settings camera t objs coiz w =
                update_camera camera
                  (Camera.set_object_id (Some (frame_key E camera t))) w3).
  { unfold update_current_frame, plasma_get, gets, bind at 1.
    rewrite H. unfold bind at 1. unfold lift, bind at 1. rewrite Ha.
    rewrite (bind_ok _ _ _ _ _ (update_camera_run _ _ _)). fold w1.
    rewrite (bind_ok _ _ _ _ _ (camera_entry_value w1 camera)). fold w2.
    rewrite Hv1, String.eqb_refl. simpl Camera.object_id.
    assert (H3 : (match Camera.object_id (camera_view w camera) with
                  | Some previous => plasma_delete previous
                  | None => ret tt
                  end) w2 = (Ok tt, w3)).
    { unfold w3. now destruct (Camera.object_id (camera_view w camera)). }
    now rewrite (bind_ok _ _ _ _ _ H3). }
  rewrite Heq.
  split; [apply update_camera_ok|]. split; [|split; [|split; [|split]]].
  - intros c. rewrite camera_view_update, !Hv3, !Hv2, !Hv1, String.eqb_refl.
    destruct (String.eqb c camera); reflexivity.
  - rewrite (unchanged_update_camera plasma) by reflexivity.
    unfold w3, release.
    destruct (Camera.object_id (camera_view w camera)); simpl;
      now rewrite (Hk2 _ plasma).
  - rewrite (unchanged_update_camera zone_data) by reflexivity.
    unfold w3. destruct (Camera.object_id (camera_view w camera)); simpl;
      now rewrite (Hk2 _ zone_data).
  - rewrite (unchanged_update_camera published) by reflexivity.
    unfold w3. destruct (Camera.object_id (camera_view w camera)); simpl;
      now rewrite (Hk2 _ published).
  - rewrite (unchanged_update_camera clock_reads) by reflexivity.
    unfold w3. destruct (Camera.object_id (camera_view w camera)); simpl;
      now rewrite (Hk2 _ clock_reads).
Qed.

(** The loop body, stage by stage. *)
Lemma process_stages owner t objs w :
  process E (owner, t, objs) w =
  match begin_item E owner t objs w with
  | (Raise e, w0) => (Raise e, w0)
  | (Ok settings, w0) =>
      match classify E (zone_data w0) objs owner with
      | Raise e => (Raise e, w0)
      | Ok (coiz, camera) =>
          match update_current_frame E settings camera t objs coiz w0 with
          | (Raise e, w1) => (Raise e, w1)
          | (Ok _, w1) =>
              (for_each objs (update_best E owner camera t) ;;
               report_zones E camera coiz ;;
               report_presence E owner camera objs) w1
          end
      end
  end.
Proof.
  unfold process. unfold bind at 1.
  destruct (begin_item E owner t objs w) as [[settings|e] w0]; [|reflexivity].
  unfold gets at 1, bind at 1. unfold lift at 1, bind at 1.
  destruct (classify E (zone_data w0) objs owner) as [[coiz camera]|e];
    [|reflexivity].
  unfold bind at 1.
  now destruct (update_current_frame E settings camera t objs coiz w0)
    as [[[]|e] w1].
Qed.

(** What the loop body does to the frame, the handle and the store. *)
Lemma process_frame owner t objs w c :
  let w' := snd (process E (owner, t, objs) w) in
  match composite E (owner, t, objs) w with
  | Some (camera, img) =>
      (if String.eqb c camera
       then Camera.object_id (camera_view w' c) =
            Some (frame_key E camera t) /\
            Camera.current_frame (camera_view w' c) = img
       else Camera.object_id (camera_view w' c) =
            Camera.object_id (camera_view w c) /\
            Camera.current_frame (camera_view w' c) =
            Camera.current_frame (camera_view w c)) /\
      plasma w' = release (Camera.object_id (camera_view w camera)) (plasma w)
  | None =>
      Camera.object_id (camera_view w' c) = Camera.object_id (camera_view w c) /\
      Camera.current_frame (camera_view w' c) =
      Camera.current_frame (camera_view w c) /\
      plasma w' = plasma w
  end.
Proof.
  cbv zeta. rewrite process_stages. unfold composite.
  pose proof (begin_item_fst owner t objs w) as Hfst.
  pose proof (begin_item_keeps zone_data owner t objs (fun _ _ => eq_refl) w) as Hz.
  pose proof (begin_item_keeps plasma owner t objs (fun _ _ => eq_refl) w) as Hpl.
  pose proof (begin_item_keeps_view Camera.object_id owner t objs c
                (fun _ _ => eq_refl) (fun _ _ => eq_refl) w) as Hid.
  pose proof (begin_item_keeps_view Camera.current_frame owner t objs c
                (fun _ _ => eq_refl) (fun _ _ => eq_refl) w) as Hcf.
  assert (Hid' : forall c', Camera.object_id
                   (camera_view (snd (begin_item E owner t objs w)) c') =
                 Camera.object_id (camera_view w c')).
  { intros c'. exact (begin_item_keeps_view Camera.object_id owner t objs c'
                        (fun _ _ => eq_refl) (fun _ _ => eq_refl) w). }
  cbv beta in Hid, Hcf.
  destruct (begin_item E owner t objs w) as [[settings|e] w0]; simpl in *;
    rewrite <- Hfst; [|auto].
  rewrite Hz.
  destruct (classify E (zone_data w) objs owner) as [[coiz camera]|e];
    [|simpl; auto].
  assert (Hlater : forall {X} (q : Camera.data -> X) w1,
            (forall v d, q (Camera.set_tracked_objects v d) = q d) ->
            (forall v d, q (Camera.set_best_objects v d) = q d) ->
            (forall v d, q (Camera.set_object_status v d) = q d) ->
            q (camera_view
                 (snd ((for_each objs (update_best E owner camera t) ;;
                        report_zones E camera coiz ;;
                        report_presence E owner camera objs) w1)) c) =
            q (camera_view w1 c)).
  { intros X q w1 Ht Hb Hs.
    apply (later_stages_keep (fun w => q (camera_view w c))); auto; intros.
    - apply unchanged_view_entry.
    - apply unchanged_view_update. intros; apply Ht.
    - apply unchanged_view_update. intros; apply Hb.
    - apply unchanged_view_update. intros; apply Hs. }
  assert (Hlaterp : forall w1,
            plasma (snd ((for_each objs (update_best E owner camera t) ;;
                          report_zones E camera coiz ;;
                          report_presence E owner camera objs) w1)) =
            plasma w1).
  { intros w1. apply (later_stages_keep plasma); auto; intros.
    - apply unchanged_camera_entry; reflexivity.
    - apply unchanged_update_camera; reflexivity.
    - apply unchanged_update_camera; reflexivity.
    - apply unchanged_update_camera; reflexivity. }
  destruct (plasma w (frame_key E camera t)) as [img|] eqn:Hget.
  - rewrite <- Hpl, <- Hz in *.
    destruct (annotate E settings (zone_data w0) camera t objs coiz img)
      as [img'|e] eqn:Hann.
    + destruct (update_current_frame_composites settings camera t objs coiz
                  w0 img img' Hget Hann) as (Hok & Hv & Hp & _).
      destruct (update_current_frame E settings camera t objs coiz w0)
        as [[[]|e] w1]; simpl in *; [|discriminate].
      rewrite Hlaterp, Hp, Hid'. split; auto.
      rewrite !Hlater by reflexivity. rewrite Hv.
      destruct (String.eqb c camera); auto.
    + rewrite (update_current_frame_raises settings camera t objs coiz
                 w0 img e Hget Hann). simpl. auto.
  - rewrite <- Hpl in Hget.
    rewrite (update_current_frame_unavailable settings camera t objs coiz
               w0 Hget).
    rewrite !Hlater by reflexivity. rewrite Hlaterp. auto.
Qed.


(** ** Zone occupancy (lines 182-197) *)

(** *** The status dict of one zone *)

Lemma reads_on_get l m :
  reads_on l m = match Dict.get l m with Some s => is_on s | None => false end.
Proof.
  unfold reads_on. rewrite fst_get_default. now destruct (Dict.get l m).
Qed.

Lemma reads_on_touch l l' m :
  reads_on l (snd (Dict.get_default OFF l' m)) = reads_on l m.
Proof.
  rewrite !reads_on_get, get_get_default.
  destruct (Dict.get l m); auto. now destruct (String.eqb l l').
Qed.

Lemma reads_on_set l l' v m :
  l <> l' -> reads_on l (Dict.set l' v m) = reads_on l m.
Proof.
  intros H. rewrite !reads_on_get, get_set_other; auto.
Qed.

Lemma any_on_fst l os :
  fst (any_on l os) = existsb (fun cm => reads_on l (snd cm)) os.
Proof. reflexivity. Qed.

Lemma any_on_touch l l' os :
  fst (any_on l (snd (any_on l' os))) = fst (any_on l os).
Proof.
  rewrite !any_on_fst. simpl. induction os as [|[c m] os IH]; simpl; auto.
  now rewrite reads_on_touch, IH.
Qed.

Lemma existsb_values_set {V} (P : V -> bool) c x (d : Dict.t V) :
  P x = match Dict.get c d with Some m => P m | None => false end ->
  existsb (fun cm => P (snd cm)) (Dict.set c x d) =
  existsb (fun cm => P (snd cm)) d.
Proof.
  induction d as [|[c' m'] d IH]; simpl; intros H.
  - now rewrite H.
  - destruct (String.eqb c c'); simpl.
    + now rewrite H.
    + now rewrite IH.
Qed.

Lemma existsb_values_default {V} (P : V -> bool) c dflt (d : Dict.t V) :
  P dflt = false ->
  existsb (fun cm => P (snd cm)) (snd (Dict.get_default dflt c d)) =
  existsb (fun cm => P (snd cm)) d.
Proof.
  intros H. unfold Dict.get_default. destruct (Dict.get c d); simpl; auto.
  rewrite existsb_app. simpl. now rewrite H, !orb_false_r.
Qed.

Lemma status_keys_eq camera os :
  status_keys camera os =
  (Dict.keys (fst (Dict.get_default [] camera os)),
   snd (Dict.get_default [] camera os)).
Proof. unfold status_keys. now destruct (Dict.get_default [] camera os). Qed.

Lemma set_status_eq camera l v os :
  set_status camera l v os =
  (tt, Dict.set camera (Dict.set l v (fst (Dict.get_default [] camera os)))
         (snd (Dict.get_default [] camera os))).
Proof. unfold set_status. now destruct (Dict.get_default [] camera os). Qed.

Lemma any_on_status_keys l camera os :
  fst (any_on l (snd (status_keys camera os))) = fst (any_on l os).
Proof.
  rewrite status_keys_eq, !any_on_fst. simpl snd.
  now apply existsb_values_default.
Qed.

Lemma any_on_set_status l l' camera v os :
  l <> l' ->
  fst (any_on l (snd (set_status camera l' v os))) = fst (any_on l os).
Proof.
  intros Hne. rewrite set_status_eq, !any_on_fst. simpl snd.
  rewrite existsb_values_set.
  - now apply existsb_values_default.
  - rewrite get_default_present. now apply reads_on_set.
Qed.

(** *** The zone stage on the world *)

Lemma zone_entry_value zone w :
  zone_entry zone w = (Ok (zone_view w zone), snd (zone_entry zone w)).
Proof.
  unfold zone_entry, zone_view, Dict.get_default.
  now destruct (Dict.get zone (zone_data w)).
Qed.

Lemma zone_view_entry w zone z :
  zone_view (snd (zone_entry zone w)) z = zone_view w z.
Proof.
  unfold zone_entry, zone_view.
  rewrite (surjective_pairing (Dict.get_default Zone.fresh zone (zone_data w))).
  simpl. rewrite get_get_default. destruct (Dict.get z (zone_data w)); auto.
  now destruct (String.eqb z zone).
Qed.

Lemma with_zone_status_spec {A} zone
    (f : Dict.t (Dict.t status) -> A * Dict.t (Dict.t status)) w :
  let os := Zone.object_status (zone_view w zone) in
  let r := with_zone_status zone f w in
  r = (Ok (fst (f os)), snd r) /\
  (forall z, zone_view (snd r) z =
             if String.eqb z zone
             then Zone.set_object_status (snd (f os)) (zone_view w zone)
             else zone_view w z) /\
  published (snd r) = published w.
Proof.
  cbv zeta. unfold with_zone_status.
  rewrite (bind_ok _ _ _ _ _ (zone_entry_value zone w)).
  destruct (f (Zone.object_status (zone_view w zone))) as [a os'] eqn:Hf.
  unfold modify, ret, bind. simpl. split; [reflexivity|]. split.
  - intros z. pose proof (zone_view_entry w zone z) as Hv.
    unfold zone_view in *. simpl.
    destruct (String.eqb_spec z zone) as [->|Hne].
    + now rewrite get_set_same.
    + rewrite get_set_other by congruence. exact Hv.
  - apply (unchanged_zone_entry published). reflexivity.
Qed.

Lemma zone_or_view w w' zone l :
  Zone.object_status (zone_view w' zone) = Zone.object_status (zone_view w zone) ->
  zone_or w' zone l = zone_or w zone l.
Proof. unfold zone_or. now intros ->. Qed.

Lemma report_label_spec camera zone present l w :
  let r := report_label E camera zone present l w in
  fst r = Ok tt /\
  published (snd r) =
  published w ++ edge_messages E zone l (zone_or w zone l)
                   (zone_or (snd r) zone l) /\
  (forall l', l' <> l -> zone_or (snd r) zone l' = zone_or w zone l') /\
  (forall z, z <> zone -> zone_view (snd r) z = zone_view w z).
Proof.
  cbv zeta. unfold report_label.
  destruct (with_zone_status_spec zone (any_on l) w) as (H1 & Hv1 & Hp1).
  cbv zeta in *. rewrite (bind_ok _ _ _ _ _ H1).
  set (w1 := snd (with_zone_status zone (any_on l) w)) in *.
  set (v := if existsb (String.eqb l) present then ON else OFF).
  destruct (with_zone_status_spec zone (set_status camera l v) w1)
    as (H2 & Hv2 & Hp2).
  cbv zeta in *. rewrite (bind_ok _ _ _ _ _ H2).
  set (w2 := snd (with_zone_status zone (set_status camera l v) w1)) in *.
  destruct (with_zone_status_spec zone (any_on l) w2) as (H3 & Hv3 & Hp3).
  cbv zeta in *. rewrite (bind_ok _ _ _ _ _ H3).
  set (w3 := snd (with_zone_status zone (any_on l) w2)) in *.
  set (os0 := Zone.object_status (zone_view w zone)) in *.
  assert (Hos1 : Zone.object_status (zone_view w1 zone) = snd (any_on l os0)).
  { rewrite Hv1, String.eqb_refl. reflexivity. }
  assert (Hos2 : Zone.object_status (zone_view w2 zone) =
                 snd (set_status camera l v (snd (any_on l os0)))).
  { rewrite Hv2, String.eqb_refl. simpl. now rewrite Hos1. }
  assert (Hos3 : Zone.object_status (zone_view w3 zone) =
                 snd (any_on l (snd (set_status camera l v (snd (any_on l os0)))))).
  { rewrite Hv3, String.eqb_refl. simpl. now rewrite Hos2. }
  set (prev := fst (any_on l os0)).
  set (new := fst (any_on l (snd (set_status camera l v (snd (any_on l os0)))))).
  assert (Hrun : (if negb prev && fst (any_on l (Zone.object_status (zone_view w2 zone)))
                  then publish (zone_topic E zone l) (text "ON") false
                  else if prev && negb (fst (any_on l (Zone.object_status (zone_view w2 zone))))
                  then publish (zone_topic E zone l) (text "OFF") false
                  else ret tt) w3 =
                 (Ok tt, set_published
                           (published w3 ++ edge_messages E zone l prev new) w3)).
  { rewrite Hos2. fold new. unfold edge_messages.
    destruct (negb prev && new); [reflexivity|].
    destruct (prev && negb new); [reflexivity|].
    unfold ret. rewrite app_nil_r. now destruct w3. }
  fold prev. rewrite Hrun. simpl fst. simpl snd.
  set (wf := set_published _ w3).
  assert (Hzf : forall z l', zone_or wf z l' = zone_or w3 z l') by reflexivity.
  assert (Hvf : forall z, zone_view wf z = zone_view w3 z) by reflexivity.
  assert (Hor : forall l', zone_or w3 zone l' =
            fst (any_on l' (snd (any_on l
                   (snd (set_status camera l v (snd (any_on l os0)))))))).
  { intros l'. unfold zone_or. now rewrite Hos3. }
  split; [reflexivity|]. split; [|split].
  - rewrite Hzf, Hor, any_on_touch. fold new.
    unfold wf. simpl published. now rewrite Hp3, Hp2, Hp1.
  - intros l' Hne. rewrite Hzf, Hor.
    rewrite any_on_touch, any_on_set_status, any_on_touch by assumption.
    reflexivity.
  - intros z Hne. rewrite Hvf. apply String.eqb_neq in Hne.
    pose proof (Hv3 z) as A3. pose proof (Hv2 z) as A2.
    pose proof (Hv1 z) as A1. rewrite Hne in A1, A2, A3. congruence.
Qed.

Lemma label_loop camera zone present ls : forall w,
  NoDup ls ->
  let r := for_each ls (report_label E camera zone present) w in
  fst r = Ok tt /\
  published (snd r) =
  published w ++
  flat_map (fun l => edge_messages E zone l (zone_or w zone l)
                       (zone_or (snd r) zone l)) ls /\
  (forall l', ~ In l' ls -> zone_or (snd r) zone l' = zone_or w zone l') /\
  (forall z, z <> zone -> zone_view (snd r) z = zone_view w z).
Proof.
  induction ls as [|l ls IH]; intros w Hnd; cbv zeta.
  - simpl. rewrite app_nil_r. auto.
  - inversion Hnd as [|? ? Hnotin Hnd']; subst.
    destruct (report_label_spec camera zone present l w) as (H1 & Hp1 & Ho1 & Hv1).
    rewrite (for_each_cons_run _ _ _ _ H1).
    set (w1 := snd (report_label E camera zone present l w)) in *.
    destruct (IH w1 Hnd') as (H2 & Hp2 & Ho2 & Hv2).
    set (wf := snd (for_each ls (report_label E camera zone present) w1)) in *.
    split; [assumption|]. split; [|split].
    + rewrite Hp2, Hp1. cbn [flat_map]. rewrite <- app_assoc.
      rewrite (Ho2 l Hnotin). do 2 f_equal.
      apply flat_map_ext_In. intros l' Hin. rewrite Ho1; auto.
      intros ->. contradiction.
    + intros l' Hn. rewrite Ho2, Ho1; auto.
      * intros ->. apply Hn. now left.
      * intros Hin. apply Hn. now right.
    + intros z Hne. now rewrite Hv2, Hv1.
Qed.

(** *** The order of a set *)

Lemma insert_by_perm h x l : Permutation (insert_by h x l) (x :: l).
Proof.
  induction l as [|y l IH]; simpl; auto.
  destruct (h x <=? h y)%nat; auto.
  rewrite IH. apply perm_swap.
Qed.

Lemma set_iter_perm l : Permutation (set_iter E l) (nodup string_dec l).
Proof.
  unfold set_iter. induction (nodup string_dec l) as [|x xs IH]; simpl; auto.
  rewrite insert_by_perm. now constructor.
Qed.

Lemma set_iter_NoDup l : NoDup (set_iter E l).
Proof.
  eapply Permutation_NoDup; [symmetry; apply set_iter_perm|].
  apply NoDup_nodup.
Qed.

Lemma set_iter_In l x : In x (set_iter E l) <-> In x l.
Proof.
  etransitivity; [|apply (nodup_In string_dec)].
  split; apply Permutation_in.
  - apply set_iter_perm.
  - symmetry. apply set_iter_perm.
Qed.

Lemma report_zone_spec camera coiz zone w :
  let r := report_zone E camera coiz zone w in
  let ls := labels_for_zone E w camera coiz zone in
  fst r = Ok tt /\
  published (snd r) =
  published w ++
  flat_map (fun l => edge_messages E zone l (zone_or w zone l)
                       (zone_or (snd r) zone l)) ls /\
  (forall l', ~ In l' ls -> zone_or (snd r) zone l' = zone_or w zone l') /\
  (forall z, z <> zone -> zone_view (snd r) z = zone_view w z).
Proof.
  cbv zeta. unfold report_zone.
  destruct (with_zone_status_spec zone (status_keys camera) w) as (H0 & Hv0 & Hp0).
  cbv zeta in *. rewrite (bind_ok _ _ _ _ _ H0).
  set (w0 := snd (with_zone_status zone (status_keys camera) w)) in *.
  rewrite status_keys_eq in Hv0 |- *. simpl fst. simpl snd in Hv0.
  rewrite fst_get_default.
  match goal with
  | |- context [for_each ?ls _ w0] =>
      change ls with (labels_for_zone E w camera coiz zone)
  end.
  assert (Hor : forall l, zone_or w0 zone l = zone_or w zone l).
  { intros l. unfold zone_or. rewrite Hv0, String.eqb_refl. simpl.
    pose proof (any_on_status_keys l camera
                  (Zone.object_status (zone_view w zone))) as H.
    now rewrite status_keys_eq in H. }
  destruct (label_loop camera zone (labels_in zone coiz)
              (labels_for_zone E w camera coiz zone) w0 (set_iter_NoDup _))
    as (H1 & Hp1 & Ho1 & Hv1).
  split; [assumption|]. split; [|split].
  - rewrite Hp1, Hp0. f_equal. apply flat_map_ext. intros l. now rewrite Hor.
  - intros l' Hn. now rewrite Ho1, Hor.
  - intros z Hne. rewrite Hv1, Hv0 by assumption.
    apply String.eqb_neq in Hne. now rewrite Hne.
Qed.

Lemma labels_for_zone_view w1 w camera coiz zone :
  zone_view w1 zone = zone_view w zone ->
  labels_for_zone E w1 camera coiz zone = labels_for_zone E w camera coiz zone.
Proof. unfold labels_for_zone. now intros ->. Qed.

Lemma zone_loop camera coiz zs : forall w,
  NoDup zs ->
  let r := for_each zs (report_zone E camera coiz) w in
  fst r = Ok tt /\
  published (snd r) =
  published w ++
  flat_map
    (fun z =>
       flat_map (fun l => edge_messages E z l (zone_or w z l)
                            (zone_or (snd r) z l))
         (labels_for_zone E w camera coiz z)) zs /\
  (forall z l, ~ (In z zs /\ In l (labels_for_zone E w camera coiz z)) ->
               zone_or (snd r) z l = zone_or w z l) /\
  (forall z, ~ In z zs -> zone_view (snd r) z = zone_view w z).
Proof.
  induction zs as [|z0 zs IH]; intros w Hnd; cbv zeta.
  - simpl. rewrite app_nil_r. auto.
  - inversion Hnd as [|? ? Hnotin Hnd']; subst.
    destruct (report_zone_spec camera coiz z0 w) as (H1 & Hp1 & Ho1 & Hv1).
    rewrite (for_each_cons_run _ _ _ _ H1).
    set (w1 := snd (report_zone E camera coiz z0 w)) in *.
    destruct (IH w1 Hnd') as (H2 & Hp2 & Ho2 & Hv2).
    set (wf := snd (for_each zs (report_zone E camera coiz) w1)) in *.
    assert (Hz0 : forall l, zone_or wf z0 l = zone_or w1 z0 l).
    { intros l. apply Ho2. intros [Hin _]. contradiction. }
    assert (Hrest : forall z, z <> z0 -> zone_view w1 z = zone_view w z)
      by (intros z Hne; now apply Hv1).
    split; [assumption|]. split; [|split].
    + rewrite Hp2, Hp1. cbn [flat_map]. rewrite <- app_assoc. do 2 f_equal.
      * apply flat_map_ext. intros l. now rewrite Hz0.
      * apply flat_map_ext_In. intros z Hin.
        assert (Hne : z <> z0) by (intros ->; contradiction).
        rewrite (labels_for_zone_view w1 w) by now apply Hrest.
        apply flat_map_ext. intros l. f_equal.
        apply zone_or_view. now rewrite Hrest.
    + intros z l Hn. destruct (string_dec z z0) as [->|Hne].
      * rewrite Hz0. apply Ho1. intros Hin. apply Hn. split; auto. now left.
      * rewrite Ho2.
        -- apply zone_or_view. now rewrite Hrest.
        -- intros [Hin Hl]. apply Hn. split; [now right|].
           now rewrite <- (labels_for_zone_view w1 w) by now apply Hrest.
    + intros z Hn. rewrite Hv2, Hv1.
      * reflexivity.
      * intros ->. apply Hn. now left.
      * intros Hin. apply Hn. now right.
Qed.

Lemma flat_map_pairs {A B C} (ls : A -> list B) (f : A * B -> list C) zs :
  flat_map f (flat_map (fun z => map (pair z) (ls z)) zs) =
  flat_map (fun z => flat_map (fun l => f (z, l)) (ls z)) zs.
Proof.
  induction zs as [|z zs IH]; simpl; auto.
  rewrite flat_map_app, IH. f_equal.
  induction (ls z) as [|l l' IHl]; simpl; auto. now rewrite IHl.
Qed.

Lemma NoDup_map_pair {A B} (z : A) (l : list B) :
  NoDup l -> NoDup (map (pair z) l).
Proof.
  induction 1 as [|x l' Hn Hnd IH]; simpl; constructor; auto.
  intros Hin. apply in_map_iff in Hin as (y & [= ->] & Hy). contradiction.
Qed.

Lemma NoDup_pairs {A B} (ls : A -> list B) zs :
  NoDup zs -> (forall z, NoDup (ls z)) ->
  NoDup (flat_map (fun z => map (pair z) (ls z)) zs).
Proof.
  intros Hzs Hls. induction Hzs as [|z zs Hn Hnd IH]; simpl.
  - constructor.
  - apply NoDup_app.
    + apply NoDup_map_pair, Hls.
    + exact IH.
    + intros [z' l] Hin1 Hin2. apply in_map_iff in Hin1 as (l0 & [= <- <-] & _).
      apply in_flat_map in Hin2 as (z2 & Hz2 & Hin2).
      apply in_map_iff in Hin2 as (l2 & [= <- <-] & _). contradiction.
Qed.

Lemma in_pairs {A B} (ls : A -> list B) zs z l :
  In (z, l) (flat_map (fun z => map (pair z) (ls z)) zs) <->
  In z zs /\ In l (ls z).
Proof.
  rewrite in_flat_map. split.
  - intros (z' & Hz & Hin). apply in_map_iff in Hin as (l' & [= <- <-] & Hl).
    auto.
  - intros [Hz Hl]. exists z. split; auto. now apply in_map.
Qed.

Lemma relevant_zones_NoDup camera :
  Dict.uniq_keys (zone_config E) = true -> NoDup (relevant_zones E camera).
Proof.
  intros H. apply uniq_keys_NoDup in H. now apply NoDup_keys_filter.
Qed.

(** The zone stage, for a configuration that names each zone once. *)
Lemma report_zones_spec camera coiz w :
  Dict.uniq_keys (zone_config E) = true ->
  let r := report_zones E camera coiz w in
  let w' := snd r in
  let pairs := examined E w camera coiz in
  fst r = Ok tt /\
  published w' =
  published w ++
  flat_map (fun zl => edge_messages E (fst zl) (snd zl)
                        (zone_or w (fst zl) (snd zl))
                        (zone_or w' (fst zl) (snd zl))) pairs /\
  NoDup pairs /\
  (forall zone l, ~ In (zone, l) pairs -> zone_or w' zone l = zone_or w zone l).
Proof.
  intros Huniq. cbv zeta. unfold report_zones, examined.
  destruct (zone_loop camera coiz (relevant_zones E camera) w
              (relevant_zones_NoDup camera Huniq)) as (H1 & Hp & Ho & _).
  split; [assumption|]. split; [|split].
  - rewrite Hp. f_equal. symmetry.
    exact (flat_map_pairs (labels_for_zone E w camera coiz)
             (fun zl => edge_messages E (fst zl) (snd zl)
                          (zone_or w (fst zl) (snd zl))
                          (zone_or _ (fst zl) (snd zl)))
             (relevant_zones E camera)).
  - apply NoDup_pairs.
    + now apply relevant_zones_NoDup.
    + intros z. apply set_iter_NoDup.
  - intros zone l Hn. apply Ho. intros H. apply Hn. now apply in_pairs.
Qed.

(** *** The zone stage within the loop body *)

Lemma zone_view_data w1 w z :
  zone_data w1 = zone_data w -> zone_view w1 z = zone_view w z.
Proof. unfold zone_view. now intros ->. Qed.

Lemma zone_or_data w1 w z l :
  zone_data w1 = zone_data w -> zone_or w1 z l = zone_or w z l.
Proof. intros H. apply zone_or_view. now rewrite (zone_view_data w1 w z H). Qed.

Lemma examined_data w1 w camera coiz :
  zone_data w1 = zone_data w ->
  examined E w1 camera coiz = examined E w camera coiz.
Proof.
  intros H. unfold examined. apply flat_map_ext. intros z. f_equal.
  apply labels_for_zone_view. now apply zone_view_data.
Qed.

Lemma for_each_ok {A} (l : list A) (body : A -> M unit) :
  (forall x w, fst (body x w) = Ok tt) ->
  forall w, fst (for_each l body w) = Ok tt.
Proof.
  intros H. induction l as [|x l IH]; intros w; auto.
  rewrite (for_each_cons_run _ _ _ _ (H x w)). apply IH.
Qed.

Lemma report_presence_appends owner camera objs :
  appends (presence_stage_message E camera)
    (report_presence E owner camera objs).
Proof.
  assert (Hp : forall l s, presence_stage_message E camera
                             {| topic := presence_topic E camera l;
                                body := status_text s; retain := false |}).
  { intros l s. exists l. left. exists s. apply presence_message_eq. }
  assert (Hs : forall l jpg, presence_stage_message E camera
                               {| topic := snapshot_topic E camera l;
                                  body := bytes jpg; retain := true |}).
  { intros l jpg. exists l. right. now exists jpg. }
  unfold report_presence, report_detected, report_expired, publish_snapshot,
    set_presence.
  repeat
    lazymatch goal with
    | |- appends _ (bind _ _) => apply appends_bind; [|intros]
    | |- appends _ (for_each _ _) => apply appends_for_each; intros
    | |- appends _ (publish _ (status_text _) _) =>
        apply appends_publish, Hp
    | |- appends _ (publish _ (text "OFF") _) =>
        apply appends_publish, (Hp _ OFF)
    | |- appends _ (publish _ (bytes _) _) => apply appends_publish, Hs
    | |- appends _ (match ?x with _ => _ end) => destruct x
    | |- appends _ _ => apply appends_unchanged; solve [keep]
    end.
Qed.

(** The stages from line 163 on, from the state lines 99-158 leave. *)
Lemma zones_within_later_stages owner camera t objs coiz w1 :
  Dict.uniq_keys (zone_config E) = true ->
  let wf :=
    snd ((for_each objs (update_best E owner camera t) ;;
          report_zones E camera coiz ;;
          report_presence E owner camera objs) w1) in
  let pairs := examined E w1 camera coiz in
  (exists rest,
     published wf =
     published w1 ++
     flat_map (fun zl => edge_messages E (fst zl) (snd zl)
                           (zone_or w1 (fst zl) (snd zl))
                           (zone_or wf (fst zl) (snd zl))) pairs ++ rest /\
     Forall (presence_stage_message E camera) rest) /\
  NoDup pairs /\
  (forall zone l, ~ In (zone, l) pairs -> zone_or wf zone l = zone_or w1 zone l).
Proof.
  intros Huniq. cbv zeta.
  assert (Hb : fst (for_each objs (update_best E owner camera t) w1)
               = Ok tt) by (apply for_each_ok; intros; apply update_best_ok).
  rewrite (bind_ok _ _ _ _ _ (run_ok _ _ _ Hb)).
  set (w2 := snd (for_each objs (update_best E owner camera t) w1)).
  assert (Hz2 : zone_data w2 = zone_data w1).
  { enough (H : unchanged zone_data
                 (for_each objs (update_best E owner camera t))) by apply H.
    unfold update_best, store_best. keep. }
  assert (Hp2 : published w2 = published w1).
  { enough (H : unchanged published
                 (for_each objs (update_best E owner camera t))) by apply H.
    unfold update_best, store_best. keep. }
  destruct (report_zones_spec camera coiz w2 Huniq) as (H3 & Hp3 & Hnd & Ho3).
  rewrite (bind_ok _ _ _ _ _ (run_ok _ _ _ H3)).
  set (w3 := snd (report_zones E camera coiz w2)) in *.
  destruct (report_presence_appends owner camera objs w3) as (rest & Hp4 & Hrest).
  set (wf := snd (report_presence E owner camera objs w3)) in *.
  assert (Hz4 : zone_data wf = zone_data w3).
  { enough (H : unchanged zone_data (report_presence E owner camera objs))
      by apply H.
    unfold report_presence, report_detected, report_expired, publish_snapshot,
      set_presence. keep. }
  rewrite (examined_data w2 w1) in * by assumption.
  split; [|split; [assumption|]].
  - exists rest. split; auto. rewrite Hp4, Hp3, Hp2, <- app_assoc.
    do 2 f_equal. apply flat_map_ext. intros [z l]. simpl.
    now rewrite (zone_or_data wf w3), (zone_or_data w2 w1).
  - intros zone l Hn.
    now rewrite (zone_or_data wf w3), Ho3, (zone_or_data w2 w1).
Qed.

(** In every state the processor can reach, each best-sighting record
    of each camera has the key 'frame' (lines 172-176 set it before the
    record is stored, and nothing removes it). *)
Theorem reachable_records_framed w : reachable E w -> all_framed w.
Proof. exact (reachable_all_framed w). Qed.

End Properties.

(** ** The two defects of the classification (lines 108-116) *)

(** What [zone_filtered] does with the filters of a zone when it is
    handed the dict that holds them under 'filters': for a label with
    numeric settings it returns True exactly when the area is below the
    minimum, or above the maximum, or the score below the threshold. *)
Lemma zone_filtered_decides obj cfg filters settings m M s :
  Dict.get "filters" cfg = Some (PyDict filters) ->
  Dict.get (label obj) filters = Some (PyDict settings) ->
  setting settings "min_area" (-1) = Some m ->
  setting settings "max_area" 24000000 = Some M ->
  setting settings "threshold" 0 = Some s ->
  zone_filtered obj (PyDict cfg) =
  Ok (Qltb (area obj) m || Qltb M (area obj) || Qltb (score obj) s).
Proof.
  intros Hf Hl Hm HM Hs. unfold zone_filtered. simpl. rewrite Hf. simpl.
  unfold Dict.mem, index. rewrite Hl. simpl. unfold setting in *.
  destruct (Dict.get "min_area" settings) as [[]|]; try discriminate;
    injection Hm as <-; simpl;
    (destruct (Qltb (area obj) _); [reflexivity|]);
    (destruct (Dict.get "max_area" settings) as [[]|]; try discriminate;
     injection HM as <-; simpl;
     (destruct (Qltb _ (area obj)); [reflexivity|]);
     (destruct (Dict.get "threshold" settings) as [[]|]; try discriminate;
      injection Hs as <-; simpl; now destruct (Qltb (score obj) _))).
Qed.

(** What it does at line 115, where it is handed the filters themselves:
    unless a label is called "filters", nothing is rejected. *)
Lemma zone_filtered_on_filters obj filters :
  Dict.get "filters" filters = None ->
  zone_filtered obj (PyDict filters) = Ok false.
Proof. intros H. unfold zone_filtered. simpl. now rewrite H. Qed.

(** C2 fails on the code.  The zone "yard" has, for the camera "back",
    the filter [min_area: 5000] for persons; a person of 100 pixels
    standing in the polygon is a member of the zone all the same.  Line
    115 hands [zone_filtered] the value of 'filters', in which line 27
    looks up 'filters' again and finds no filter; handed the settings of
    the zone for the camera, [zone_filtered] rejects the person. *)
Theorem zone_filter_of_configuration_ignored :
  let zones := zone_data (Sample.initial ["back"]) in
  let objs := [("1000.0-0", Scenario.small_person)] in
  classify Scenario.filtered_yard zones objs "back" =
  Ok ([("yard", ["person"])], "back") /\
  zone_filtered Scenario.small_person Scenario.min_area_5000 = Ok false /\
  zone_filtered Scenario.small_person
    (PyDict [("coordinates", PyStr "0,0,10,0,10,10,0,10");
             ("filters", Scenario.min_area_5000)]) = Ok true.
Proof. repeat split; reflexivity. Qed.

(** C3 fails on the code.  The zone "yard" has a polygon for the camera
    "back" and none for the camera "front"; a person on a snapshot of
    "front" whose bottom centre lies in the polygon of "back" is made a
    member of "yard", the loop leaves "back" in the variable [camera],
    and the rest of the body reports the person for "back". *)
Theorem other_cameras_polygon_is_tested :
  let w := Sample.initial ["back"] in
  let item := Scenario.item_of "front" Scenario.small_person in
  Dict.get "front" (Zone.contours (zone_view w "yard")) = None /\
  classify Scenario.back_yard (zone_data w)
    [("1000.0-0", Scenario.small_person)] "front" =
  Ok ([("yard", ["person"])], "back") /\
  published (snd (process Scenario.back_yard item w)) =
  [zone_message Scenario.back_yard "yard" "person" "ON";
   presence_message Scenario.back_yard "back" "person" ON;
   snapshot_message Scenario.back_yard "back" "person"
     [Byte.xff; Byte.xd8; Byte.xff; Byte.xd9]].
Proof. repeat split; reflexivity. Qed.

(** ** The properties on the scenarios *)

Lemma stale_object_leaves_best_records_witness :
  ~ frame_time Scenario.stale_person == 1000 /\
  update_best Scenario.front_yard "front" "front" 1000
    ("1000.0-0", Scenario.stale_person) (Scenario.seen Scenario.front_yard) =
  (Ok tt, Scenario.seen Scenario.front_yard).
Proof.
  assert (H : ~ frame_time Scenario.stale_person == 1000)
    by (intros H; vm_compute in H; discriminate H).
  split; [exact H|].
  exact (proj1 (stale_object_leaves_best_records Scenario.front_yard "front"
                  "front" 1000 [] (Scenario.seen Scenario.front_yard))
           "1000.0-0" Scenario.stale_person H).
Defined.

Lemma encoding_failure_skips_only_snapshot_witness :
  let E := Scenario.failing_encoder in
  let w := Scenario.seen E in
  let best :=
    set_frame (Camera.current_frame Camera.fresh) Scenario.small_person in
  best_of w "front" "person" = Some best /\
  frame best = Some (Camera.current_frame Camera.fresh) /\
  imencode E (cvtColor E (Camera.current_frame Camera.fresh)) = None /\
  published (snd (report_expired E "front" "front" "person" w)) =
  published w ++ [presence_message E "front" "person" OFF].
Proof.
  split; [reflexivity|]. split; [reflexivity|]. split; [reflexivity|].
  exact (proj1 (proj2 (proj2
           (encoding_failure_skips_only_snapshot Scenario.failing_encoder
              "front" "front" "person"
              (set_frame (Camera.current_frame Camera.fresh)
                 Scenario.small_person)
              (Camera.current_frame Camera.fresh)
              (Scenario.seen Scenario.failing_encoder)
              eq_refl eq_refl eq_refl)))).
Defined.

Lemma get_best_returns_record_frame_witness :
  reachable Scenario.front_yard (Scenario.seen Scenario.front_yard) /\
  fst (get_best "front" "person" (Scenario.seen Scenario.front_yard)) =
  Ok (Some (Camera.current_frame Camera.fresh)).
Proof.
  assert (H : reachable Scenario.front_yard (Scenario.seen Scenario.front_yard)).
  { apply reach_process, reach_init. reflexivity. }
  split; [exact H|].
  destruct (proj1 (get_best_returns_record_frame Scenario.front_yard "front"
                     "person" (Scenario.seen Scenario.front_yard) H))
    as (img & Himg & Hget).
  rewrite Hget. f_equal. f_equal. injection Himg as <-. reflexivity.
Defined.

Lemma best_loop_within_window_witness :
  let E := Scenario.front_yard in
  let w := Scenario.seen E in
  exists kept,
    best_of
      (snd (for_each [("1000.0-0", Scenario.faint_person)]
              (update_best E "front" "front" 1000) w))
      "front" "person" = Some kept /\
    score Scenario.small_person <= score kept.
Proof.
  apply (best_loop_within_window Scenario.front_yard "front" "front" 1000
           "person" [("1000.0-0", Scenario.faint_person)]
           (Scenario.seen Scenario.front_yard)
           (set_frame (Camera.current_frame Camera.fresh) Scenario.small_person)).
  - reflexivity.
  - intros n Hn. assert (n = O) as -> by (vm_compute in Hn; lia).
    split; vm_compute; discriminate.
Defined.

Lemma zone_filtered_decides_witness :
  zone_filtered Scenario.small_person
    (PyDict [("coordinates", PyStr "0,0,10,0,10,10,0,10");
             ("filters", Scenario.min_area_5000)]) = Ok true.
Proof.
  exact (zone_filtered_decides Scenario.small_person
           [("coordinates", PyStr "0,0,10,0,10,10,0,10");
            ("filters", Scenario.min_area_5000)]
           [("person", PyDict [("min_area", PyNum 5000)])]
           [("min_area", PyNum 5000)] 5000 24000000 0
           eq_refl eq_refl eq_refl eq_refl eq_refl).
Defined.

Lemma zone_filtered_on_filters_witness :
  zone_filtered Scenario.small_person Scenario.min_area_5000 = Ok false.
Proof.
  exact (zone_filtered_on_filters Scenario.small_person
           [("person", PyDict [("min_area", PyNum 5000)])] eq_refl).
Defined.

Lemma reachable_records_framed_witness :
  all_framed (Scenario.seen Scenario.front_yard).
Proof.
  apply (reachable_records_framed Scenario.front_yard).
  apply reach_process, reach_init. reflexivity.
Defined.

(** Two cameras hand a person over inside the zone "yard": the zone
    stage publishes when the first camera sees the person and when the
    last one loses it, and nothing in between. *)
Example handoff_publishes_nothing :
  let E := Scenario.two_cameras in
  let here := [("yard", ["person"])] in
  let w1 := snd (report_zones E "front" here (Sample.initial ["front"; "back"])) in
  let w2 := snd (report_zones E "back" here w1) in
  let w3 := snd (report_zones E "front" [] w2) in
  let w4 := snd (report_zones E "back" [] w3) in
  published w1 = [zone_message E "yard" "person" "ON"] /\
  published w2 = published w1 /\
  published w3 = published w1 /\
  published w4 = [zone_message E "yard" "person" "ON";
                  zone_message E "yard" "person" "OFF"].
Proof. repeat split; reflexivity. Qed.

(** * Construction and further properties of the loop body *)

(** ** The two forms of zone coordinates (lines 73-77) *)

Lemma str_split_nonempty sep s : str_split sep s <> [].
Proof.
  destruct s as [|c s]; simpl; [discriminate|].
  destruct (Ascii.eqb c sep); [discriminate|].
  destruct (str_split sep s); discriminate.
Qed.

Lemma str_split_app sep a b :
  str_split sep (a ++ String sep b) = str_split sep a ++ str_split sep b.
Proof.
  induction a as [|c a IH]; simpl.
  - now rewrite Ascii.eqb_refl.
  - destruct (Ascii.eqb c sep); [now rewrite IH|].
    rewrite IH. pose proof (str_split_nonempty sep a) as Hne.
    destruct (str_split sep a); [contradiction | reflexivity].
Qed.

Lemma str_split_concat sep l :
  l <> [] ->
  str_split sep (String.concat (String sep EmptyString) l) =
  flat_map (str_split sep) l.
Proof.
  induction l as [|p l IH]; [contradiction|]. intros _.
  destruct l as [|q l].
  - simpl. now rewrite app_nil_r.
  - change (String.concat (String sep EmptyString) (p :: q :: l))
      with (p ++ String sep (String.concat (String sep EmptyString) (q :: l)))%string.
    rewrite str_split_app, IH by discriminate. reflexivity.
Qed.

Lemma each_ext {A B} (f g : A -> attempt B) l :
  (forall x, f x = g x) -> each f l = each g l.
Proof. intros H. induction l as [|x l IH]; simpl; now rewrite ?H, ?IH. Qed.

Lemma each_map {A B C} (f : B -> attempt C) (g : A -> B) l :
  each f (map g l) = each (fun x => f (g x)) l.
Proof. induction l as [|x l IH]; simpl; now rewrite ?IH. Qed.

Lemma range_by_2_step n :
  range_by_2 (S (S n)) = O :: map (fun i => S (S i)) (range_by_2 n).
Proof.
  unfold range_by_2.
  change (Nat.div2 (S (S (S n)))) with (S (Nat.div2 (S n))).
  cbn [seq map]. f_equal.
  rewrite <- seq_shift, !map_map. apply map_ext. intros k. lia.
Qed.

(** The comprehension of line 77 takes the fields two by two. *)
Lemma points_two_by_two B a b fields :
  each (fun i =>
          (let! x := int_at B (a :: b :: fields) i in
           let! y := int_at B (a :: b :: fields) (i + 1) in
           Done (x, y))%attempt)
    (range_by_2 (List.length (a :: b :: fields))) =
  (let! x := int_at B [a] 0 in
   let! y := int_at B [b] 0 in
   let! ps :=
     each (fun i =>
             (let! x := int_at B fields i in
              let! y := int_at B fields (i + 1) in
              Done (x, y))%attempt)
       (range_by_2 (List.length fields)) in
   Done ((x, y) :: ps))%attempt.
Proof.
  cbn [List.length]. rewrite range_by_2_step. cbn [each].
  rewrite each_map.
  rewrite (each_ext _
             (fun i =>
                (let! x := int_at B fields i in
                 let! y := int_at B fields (i + 1) in
                 Done (x, y))%attempt))
    by (intros i; reflexivity).
  unfold int_at. cbn [nth_error Nat.add].
  destruct (int_of B a); [|reflexivity]. cbn [abind].
  destruct (int_of B b); reflexivity.
Qed.

Lemma points_of_fields B l :
  Forall (fun p => List.length (str_split "," p) = 2%nat) l ->
  each (fun i =>
          (let! x := int_at B (flat_map (str_split ",") l) i in
           let! y := int_at B (flat_map (str_split ",") l) (i + 1) in
           Done (x, y))%attempt)
    (range_by_2 (List.length (flat_map (str_split ",") l))) =
  each (point_of B) (map PyStr l).
Proof.
  induction 1 as [|p l Hp Hl IH]; [reflexivity|].
  cbn [flat_map map each].
  destruct (str_split "," p) as [|a [|b [|c fs]]] eqn:Hs; try discriminate.
  cbn [app]. rewrite points_two_by_two, IH.
  unfold point_of at 2. rewrite Hs. unfold int_at. cbn [nth_error].
  destruct (int_of B a); [|reflexivity]. cbn [abind].
  destruct (int_of B b); reflexivity.
Qed.

(** A polygon written as a list of "x,y" strings and the same
    polygon written as one comma-separated string are read alike by
    [__init__]: for a non-empty list whose elements have one comma each,
    the string form of the elements joined by commas gives the contour
    of the list form, or raises as the list form does. *)
Theorem coordinate_formats_agree B (l : list string) :
  l <> [] ->
  Forall (fun p => List.length (str_split "," p) = 2%nat) l ->
  parse_coordinates B (PyStr (String.concat "," l)) =
  parse_coordinates B (PyList (map PyStr l)).
Proof.
  intros Hne Hl. cbn [parse_coordinates]. f_equal. unfold points_of.
  rewrite (str_split_concat "," l Hne). now apply points_of_fields.
Qed.

Lemma points_by_parity B : forall zs fields,
  map (int_of B) fields = map Some zs ->
  each (fun i =>
          (let! x := int_at B fields i in
           let! y := int_at B fields (i + 1) in
           Done (x, y))%attempt)
    (range_by_2 (List.length fields)) =
  if Nat.even (List.length zs) then Done (pair_up zs) else Failed IndexError.
Proof.
  assert (H : forall zs,
            (forall fields, map (int_of B) fields = map Some zs ->
               each (fun i =>
                       (let! x := int_at B fields i in
                        let! y := int_at B fields (i + 1) in
                        Done (x, y))%attempt)
                 (range_by_2 (List.length fields)) =
               if Nat.even (List.length zs) then Done (pair_up zs)
               else Failed IndexError) /\
            (forall z fields, map (int_of B) fields = map Some (z :: zs) ->
               each (fun i =>
                       (let! x := int_at B fields i in
                        let! y := int_at B fields (i + 1) in
                        Done (x, y))%attempt)
                 (range_by_2 (List.length fields)) =
               if Nat.even (List.length (z :: zs)) then Done (pair_up (z :: zs))
               else Failed IndexError)).
  { induction zs as [|z1 zs [IH0 IH1]].
    - split.
      + intros [|f fields]; [reflexivity | discriminate].
      + intros z [|f [|g fields]]; try discriminate.
        cbn [map]. intros [= Hf]. cbn. unfold int_at. cbn [nth_error].
        now rewrite Hf.
    - split; [apply IH1|].
      intros z [|f [|g fields]]; try discriminate.
      cbn [map]. intros [= Hf Hg Hrest].
      rewrite points_two_by_two. unfold int_at at 1 2. cbn [nth_error].
      rewrite Hf, Hg. cbn [abind]. rewrite (IH0 fields Hrest).
      change (Nat.even (List.length (z :: z1 :: zs)))
        with (Nat.even (List.length zs)).
      now destruct (Nat.even (List.length zs)). }
  intros zs. apply H.
Qed.

(** The string form of the coordinates when every field is an integer:
    an even number of fields gives the points, the fields taken two by
    two; an odd number raises the IndexError of [points[i+1]], after the
    last field has been converted. *)
Theorem string_coordinates_by_parity B s zs :
  map (int_of B) (str_split "," s) = map Some zs ->
  parse_coordinates B (PyStr s) =
  Some (if Nat.even (List.length zs) then Done (pair_up zs)
        else Failed IndexError).
Proof.
  intros H. cbn [parse_coordinates]. f_equal. unfold points_of.
  now apply points_by_parity.
Qed.

(** ** [__init__] (lines 49-86) *)

Lemma contour_of_add name camera c zd n k :
  contour_of (add_contour name camera c zd) n k =
  if String.eqb n name && String.eqb k camera then Some c
  else contour_of zd n k.
Proof.
  unfold add_contour, contour_of.
  pose proof (get_get_default Zone.fresh name n zd) as Hn.
  pose proof (fst_get_default Zone.fresh name zd) as Hf.
  destruct (Dict.get_default Zone.fresh name zd) as [z zd1].
  cbn [fst snd] in Hn, Hf.
  destruct (String.eqb_spec n name) as [->|Hne]; cbn [andb].
  - rewrite get_set_same. cbn [Zone.contours set_contours].
    destruct (String.eqb_spec k camera) as [->|Hk].
    + apply get_set_same.
    + rewrite get_set_other by congruence. rewrite Hf.
      now destruct (Dict.get name zd).
  - rewrite get_set_other by congruence. rewrite Hn.
    destruct (Dict.get n zd); [reflexivity|].
    destruct (String.eqb_spec n name); [contradiction | reflexivity].
Qed.

Lemma init_camera_contour B name zd printed camera czc zd' printed' :
  init_camera B name (zd, printed) (camera, czc) = Done (zd', printed') ->
  forall n k,
    contour_of zd' n k =
    if String.eqb n name && String.eqb k camera then
      match parsed_contour B (Dict.get "coordinates" czc) with
      | Some c => Some c
      | None => contour_of zd n k
      end
    else contour_of zd n k.
Proof.
  unfold init_camera, parsed_contour.
  destruct (Dict.get "coordinates" czc) as [v|]; [|discriminate].
  destruct (parse_coordinates B v) as [[c|e]|]; cbn [abind].
  - intros [= <- <-] n k. apply contour_of_add.
  - discriminate.
  - intros [= <- <-] n k. now destruct (_ && _).
Qed.

Lemma init_cameras_contour B name config : forall zd printed zd' printed',
  NoDup (Dict.keys config) ->
  afold (init_camera B name) config (zd, printed) = Done (zd', printed') ->
  forall n k,
    contour_of zd' n k =
    if String.eqb n name then
      match Dict.get k config with
      | Some czc =>
          match parsed_contour B (Dict.get "coordinates" czc) with
          | Some c => Some c
          | None => contour_of zd n k
          end
      | None => contour_of zd n k
      end
    else contour_of zd n k.
Proof.
  induction config as [|[camera czc] config IH];
    intros zd printed zd' printed' Hnd; cbn [afold].
  - intros [= <- <-] n k. now destruct (String.eqb n name).
  - destruct (init_camera B name (zd, printed) (camera, czc))
      as [[zd1 printed1]|e] eqn:H1; cbn [abind]; [|discriminate].
    intros H2 n k. inversion Hnd as [|? ? Hn Hd]; subst.
    rewrite (IH _ _ _ _ Hd H2 n k).
    rewrite !(init_camera_contour _ _ _ _ _ _ _ _ H1).
    destruct (String.eqb_spec n name) as [->|Hne]; cbn [andb]; [|reflexivity].
    cbn [Dict.get].
    destruct (String.eqb_spec k camera) as [->|Hk].
    + destruct (Dict.get camera config) eqn:Hg; [|reflexivity].
      exfalso. apply Hn. apply mem_keys. unfold Dict.mem. now rewrite Hg.
    + reflexivity.
Qed.

Lemma init_zones_contour B zc : forall zd printed zd' printed',
  NoDup (Dict.keys zc) ->
  forallb (fun z => Dict.uniq_keys (snd z)) zc = true ->
  afold (init_zone B) zc (zd, printed) = Done (zd', printed') ->
  forall n k,
    contour_of zd' n k =
    match Dict.get n zc with
    | Some config =>
        match Dict.get k config with
        | Some czc =>
            match parsed_contour B (Dict.get "coordinates" czc) with
            | Some c => Some c
            | None => contour_of zd n k
            end
        | None => contour_of zd n k
        end
    | None => contour_of zd n k
    end.
Proof.
  induction zc as [|[name config] zc IH];
    intros zd printed zd' printed' Hnd Hin; cbn [afold].
  - now intros [= <- <-] n k.
  - cbn [forallb snd] in Hin. apply andb_true_iff in Hin as [Hc Hin].
    change (init_zone B (zd, printed) (name, config))
      with (afold (init_camera B name) config (zd, printed)).
    destruct (afold (init_camera B name) config (zd, printed))
      as [[zd1 printed1]|e] eqn:H1; cbn [abind]; [|discriminate].
    intros H2 n k. inversion Hnd as [|? ? Hn Hd]; subst.
    rewrite (IH _ _ _ _ Hd Hin H2 n k).
    rewrite !(init_cameras_contour _ _ _ _ _ _ _
                (proj1 (uniq_keys_NoDup _) Hc) H1).
    cbn [Dict.get].
    destruct (String.eqb_spec n name) as [->|Hne]; [|reflexivity].
    destruct (Dict.get name zc) eqn:Hg; [|reflexivity].
    exfalso. apply Hn. apply mem_keys. unfold Dict.mem. now rewrite Hg.
Qed.

(** [set_colors] changes the colours only. *)
Lemma get_recoloured (g : nat -> Zone.data -> Zone.data) n :
  forall (d : Dict.t Zone.data) (idx : list nat),
  List.length idx = List.length d ->
  match Dict.get n
          (map (fun iz => (fst (snd iz), g (fst iz) (snd (snd iz))))
             (combine idx d)),
        Dict.get n d with
  | Some z', Some z => exists i, z' = g i z
  | None, None => True
  | _, _ => False
  end.
Proof.
  induction d as [|[k z] d IH]; intros [|i idx] Hlen; try discriminate;
    cbn [combine map Dict.get fst snd]; auto.
  destruct (String.eqb n k); [now exists i|].
  apply IH. now injection Hlen.
Qed.

Lemma keys_recoloured (g : nat -> Zone.data -> Zone.data) :
  forall (d : Dict.t Zone.data) (idx : list nat),
  List.length idx = List.length d ->
  Dict.keys
    (map (fun iz => (fst (snd iz), g (fst iz) (snd (snd iz))))
       (combine idx d)) = Dict.keys d.
Proof.
  induction d as [|[k z] d IH]; intros [|i idx] Hlen; try discriminate;
    cbn [combine map Dict.keys fst snd]; auto.
  f_equal. apply IH. now injection Hlen.
Qed.

Lemma contour_of_set_colors B zd n k :
  contour_of (set_colors B zd) n k = contour_of zd n k.
Proof.
  unfold contour_of, set_colors.
  pose proof (get_recoloured
                (fun i => set_color (Some (tab10 B (List.length zd) (Z.of_nat i))))
                n zd (seq 0 (List.length zd)) (length_seq _ _)) as H.
  cbv beta in H.
  destruct (Dict.get n (map _ _)) as [z'|], (Dict.get n zd) as [z|];
    try contradiction; auto.
  now destruct H as [i ->].
Qed.

Lemma set_colors_coloured B zd :
  Forall (fun z => Zone.color (snd z) <> None) (set_colors B zd).
Proof.
  unfold set_colors. apply Forall_forall. intros x Hx.
  apply in_map_iff in Hx as (iz & <- & _). discriminate.
Qed.

Lemma set_colors_items B zd x :
  In x (set_colors B zd) ->
  exists z, In (fst x, z) zd /\
            Zone.contours (snd x) = Zone.contours z /\
            Zone.object_status (snd x) = Zone.object_status z.
Proof.
  unfold set_colors. intros Hx.
  apply in_map_iff in Hx as ([i [k z]] & <- & Hin).
  apply in_combine_r in Hin. exists z. auto.
Qed.

Lemma nth_combine_seq {X} (l : list X) : forall n k i j x,
  nth_error (combine (seq k n) l) i = Some (j, x) -> j = (k + i)%nat.
Proof.
  induction l as [|y l IH]; intros [|n] k [|i] j x; cbn [seq combine nth_error];
    try discriminate.
  - intros [= <- <-]. lia.
  - intros H. apply IH in H. lia.
Qed.

Lemma nth_set_colors B zd i name z :
  nth_error (set_colors B zd) i = Some (name, z) ->
  Zone.color z = Some (tab10 B (List.length zd) (Z.of_nat i)).
Proof.
  unfold set_colors. rewrite nth_error_map.
  destruct (nth_error (combine (seq 0 (List.length zd)) zd) i)
    as [[j [k d]]|] eqn:Hn; cbn [option_map fst snd]; [|discriminate].
  apply nth_combine_seq in Hn. cbn [Nat.add] in Hn. subst j.
  now intros [= <- <-].
Qed.

Lemma length_set_colors B zd : List.length (set_colors B zd) = List.length zd.
Proof.
  unfold set_colors. rewrite length_map, length_combine, length_seq.
  apply Nat.min_id.
Qed.

(** The state [__init__] leaves, for a configuration that is a dict
    of dicts: a zone has a contour for a camera exactly when the
    configuration gives that camera, under that zone, coordinates that
    are a list or a string, and the contour is what they parse to;
    coordinates of another type leave no contour.  The zone at position
    [i] of [zone_data] has the colour of index [i] of a palette of as
    many entries as [zone_data] has zones.  Nothing else of the state is
    set: no camera has an entry, nothing is published. *)
Theorem init_contours E B store w printed :
  config_keys_unique E = true ->
  init E B store = Done (w, printed) ->
  (forall name camera,
     contour_of (zone_data w) name camera =
     parsed_contour B (configured_coordinates E name camera)) /\
  (forall i name z,
     nth_error (zone_data w) i = Some (name, z) ->
     Zone.color z =
     Some (tab10 B (List.length (zone_data w)) (Z.of_nat i))) /\
  camera_data w = [] /\ published w = [] /\ plasma w = store /\
  clock_reads w = O.
Proof.
  unfold config_keys_unique, init. intros Hu.
  apply andb_true_iff in Hu as [Hz Hc].
  destruct (afold (init_zone B) (zone_config E) ([], []))
    as [[zd pr]|e] eqn:Hf; cbn [abind]; [|discriminate].
  intros [= <- <-]. cbn [zone_data camera_data published plasma clock_reads].
  split; [|split; [|repeat split]].
  - intros name camera.
    rewrite contour_of_set_colors.
    rewrite (init_zones_contour _ _ _ _ _ _
               (proj1 (uniq_keys_NoDup _) Hz) Hc Hf).
    unfold configured_coordinates.
    destruct (Dict.get name (zone_config E)) as [config|]; [|reflexivity].
    destruct (Dict.get camera config) as [czc|]; [|reflexivity].
    now destruct (parsed_contour B (Dict.get "coordinates" czc)).
  - intros i name z Hn. rewrite length_set_colors.
    eapply nth_set_colors; eauto.
Qed.

Lemma init_camera_cases B name zd printed camera czc :
  init_camera B name (zd, printed) (camera, czc) =
  match Dict.get "coordinates" czc with
  | Some v =>
      match parse_coordinates B v with
      | Some (Done c) => Done (add_contour name camera c zd, printed)
      | Some (Failed e) => Failed e
      | None =>
          Done (zd,
                printed ++ [("Unable to parse zone coordinates for "
                             ++ name ++ " - " ++ camera)%string])
      end
  | None => Failed (Plain (KeyError "coordinates"))
  end.
Proof.
  unfold init_camera. destruct (Dict.get "coordinates" czc) as [v|]; auto.
Qed.

Lemma first_some_app {A} (l1 l2 : list (option A)) :
  first_some (l1 ++ l2) =
  match first_some l1 with Some a => Some a | None => first_some l2 end.
Proof.
  induction l1 as [|[a|] l1 IH]; cbn [app first_some]; auto.
Qed.

Lemma init_cameras_returns B name config : forall zd printed,
  match afold (init_camera B name) config (zd, printed) with
  | Done (_, printed') =>
      first_some (map (fun cc => failure_of B (snd cc)) config) = None /\
      printed' = printed ++ complaints_of B name config
  | Failed e =>
      first_some (map (fun cc => failure_of B (snd cc)) config) = Some e
  end.
Proof.
  induction config as [|[camera czc] config IH]; intros zd printed;
    cbn [afold map first_some snd].
  - unfold complaints_of. cbn [flat_map]. now rewrite app_nil_r.
  - rewrite init_camera_cases.
    change (complaints_of B name ((camera, czc) :: config))
      with (match Dict.get "coordinates" czc with
            | Some v =>
                match parse_coordinates B v with
                | None =>
                    [("Unable to parse zone coordinates for "
                      ++ name ++ " - " ++ camera)%string]
                | Some _ => []
                end
            | None => []
            end ++ complaints_of B name config).
    unfold failure_of at 1 3.
    destruct (Dict.get "coordinates" czc) as [v|]; [|reflexivity].
    destruct (parse_coordinates B v) as [[c|e]|]; cbn [abind app];
      try reflexivity.
    + apply IH.
    + specialize (IH zd (printed ++
        [("Unable to parse zone coordinates for " ++ name ++ " - " ++ camera)%string])).
      destruct (afold _ _ _) as [[zd' pr']|]; auto.
      destruct IH as [-> ->]. split; auto. now rewrite <- app_assoc.
Qed.

(** When [__init__] returns and what it raises: it returns exactly when
    every camera of every zone has coordinates whose parsing does not
    raise, and then it has printed one line for each camera of each zone
    whose coordinates are neither a list nor a string, in the order of
    the configuration; otherwise it raises what the first camera, in
    that order, with missing coordinates (a KeyError) or with
    coordinates that do not parse makes it raise. *)
Theorem init_returns E B store :
  match init E B store with
  | Done (_, printed) =>
      first_failure E B = None /\ printed = complaints E B
  | Failed e => first_failure E B = Some e
  end.
Proof.
  unfold init, first_failure, complaints.
  assert (H : forall zc zd printed,
    match afold (init_zone B) zc (zd, printed) with
    | Done (_, printed') =>
        first_some
          (flat_map (fun z => map (fun cc => failure_of B (snd cc)) (snd z)) zc)
        = None /\
        printed' =
        printed ++ flat_map (fun z => complaints_of B (fst z) (snd z)) zc
    | Failed e =>
        first_some
          (flat_map (fun z => map (fun cc => failure_of B (snd cc)) (snd z)) zc)
        = Some e
    end).
  { induction zc as [|[name config] zc IH]; intros zd printed;
      cbn [afold flat_map fst snd].
    - now rewrite app_nil_r.
    - change (init_zone B (zd, printed) (name, config))
        with (afold (init_camera B name) config (zd, printed)).
      rewrite first_some_app.
      pose proof (init_cameras_returns B name config zd printed) as H1.
      destruct (afold (init_camera B name) config (zd, printed))
        as [[zd1 pr1]|e]; cbn [abind].
      + destruct H1 as [-> ->].
        specialize (IH zd1 (printed ++ complaints_of B name config)).
        destruct (afold _ zc _) as [[zd2 pr2]|]; auto.
        destruct IH as [-> ->]. split; auto. now rewrite <- app_assoc.
      + now rewrite H1. }
  specialize (H (zone_config E) [] []).
  destruct (afold _ _ _) as [[zd pr]|e]; cbn [abind]; auto.
Qed.

(** ** Invariants of [zone_data] *)

Lemma Forall_get_key {V} (P : string * V -> Prop) k v (d : Dict.t V) :
  Forall P d -> Dict.get k d = Some v -> P (k, v).
Proof.
  induction 1 as [|[k' v'] d' Hx Hd IH]; simpl; [discriminate|].
  destruct (String.eqb_spec k k') as [->|]; auto.
  now intros [= ->].
Qed.

Lemma Forall_set_key {V} (P : string * V -> Prop) k v (d : Dict.t V) :
  P (k, v) -> Forall P d -> Forall P (Dict.set k v d).
Proof.
  intros Hv. induction 1 as [|[k' v'] d' Hx Hd IH]; simpl.
  - constructor; auto.
  - destruct (String.eqb_spec k k') as [->|]; constructor; auto.
Qed.

Lemma Forall_get_default {V} (P : string * V -> Prop) k dflt (d : Dict.t V) :
  Forall P d -> P (k, dflt) ->
  P (k, fst (Dict.get_default dflt k d)) /\
  Forall P (snd (Dict.get_default dflt k d)).
Proof.
  intros Hd Hdflt. unfold Dict.get_default.
  destruct (Dict.get k d) as [v|] eqn:Hg; cbn [fst snd].
  - split; auto. eapply Forall_get_key; eauto.
  - split; auto. apply Forall_app. split; auto.
Qed.

Ltac pres_step prim :=
  lazymatch goal with
  | |- preserves _ (ret _) => apply preserves_ret
  | |- preserves _ (lift _) => apply preserves_lift
  | |- preserves _ (gets _) => apply preserves_gets
  | |- preserves _ (bind _ _) => apply preserves_bind; [|intros]
  | |- preserves _ (for_each _ _) => apply preserves_for_each; intros
  | |- preserves _ (let _ := _ in _) => cbv zeta
  | |- preserves _ (match ?x with _ => _ end) => destruct x
  | |- preserves _ _ => prim
  end.

Ltac unfold_process :=
  unfold process, begin_item, update_current_frame, update_best, store_best,
    report_zones, report_zone, report_label, report_presence, report_detected,
    report_expired, publish_snapshot, set_presence.

Section ZoneInvariant.

Variable J : string * Zone.data -> Prop.
Hypothesis J_fresh : forall z, J (z, Zone.fresh).
Hypothesis J_status :
  forall z d os, J (z, d) -> J (z, Zone.set_object_status os d).

Lemma preserves_zones_with_status {A} zone
    (f : Dict.t (Dict.t status) -> A * Dict.t (Dict.t status)) :
  preserves (fun w => Forall J (zone_data w)) (with_zone_status zone f).
Proof.
  intros w Hw. unfold with_zone_status, zone_entry, bind, modify, ret.
  destruct (Forall_get_default J zone Zone.fresh (zone_data w) Hw (J_fresh zone))
    as [Hd Hzd].
  destruct (Dict.get_default Zone.fresh zone (zone_data w)) as [d zd].
  cbn [fst snd] in *.
  destruct (f (Zone.object_status d)) as [a os]. cbn [snd zone_data set_zone_data].
  apply Forall_set_key; auto.
Qed.

Lemma preserves_zones_unchanged {A} (m : M A) :
  unchanged zone_data m -> preserves (fun w => Forall J (zone_data w)) m.
Proof. intros H w Hw. now rewrite H. Qed.

Lemma preserves_zones_process E item :
  preserves (fun w => Forall J (zone_data w)) (process E item).
Proof.
  destruct item as [[owner t] objs]. unfold_process.
  repeat pres_step
    ltac:(first [ apply preserves_zones_with_status
                | apply preserves_zones_unchanged; solve [keep] ]).
Qed.

Lemma preserves_zones_get_best camera l :
  preserves (fun w => Forall J (zone_data w)) (get_best camera l).
Proof.
  unfold get_best.
  repeat pres_step ltac:(apply preserves_zones_unchanged; solve [keep]).
Qed.

Lemma preserves_zones_get_current_frame camera :
  preserves (fun w => Forall J (zone_data w)) (get_current_frame camera).
Proof.
  unfold get_current_frame.
  repeat pres_step ltac:(apply preserves_zones_unchanged; solve [keep]).
Qed.

End ZoneInvariant.

Lemma add_contour_configured E name camera c zd config :
  Dict.get name (zone_config E) = Some config ->
  Dict.mem camera config = true ->
  Forall (fun item =>
            forall k, Dict.mem k (Zone.contours (snd item)) = true ->
              exists config, Dict.get (fst item) (zone_config E) = Some config /\
                             Dict.mem k config = true) zd ->
  Forall (fun item =>
            forall k, Dict.mem k (Zone.contours (snd item)) = true ->
              exists config, Dict.get (fst item) (zone_config E) = Some config /\
                             Dict.mem k config = true)
    (add_contour name camera c zd).
Proof.
  intros Hn Hc Hzd. unfold add_contour.
  destruct (Forall_get_default _ name Zone.fresh zd Hzd) as [Hz Hzd1].
  { intros k. discriminate. }
  destruct (Dict.get_default Zone.fresh name zd) as [z zd1].
  cbn [fst snd] in *. apply Forall_set_key; auto.
  cbn [fst snd set_contours Zone.contours]. intros k.
  rewrite mem_set. destruct (String.eqb_spec k camera) as [->|Hk]; cbn [orb].
  - intros _. eauto.
  - apply Hz.
Qed.

Lemma init_cameras_configured E B name config : forall cs zd printed zd' printed',
  Dict.get name (zone_config E) = Some config ->
  (forall cc, In cc cs -> Dict.mem (fst cc) config = true) ->
  Forall (fun item =>
            forall k, Dict.mem k (Zone.contours (snd item)) = true ->
              exists config, Dict.get (fst item) (zone_config E) = Some config /\
                             Dict.mem k config = true) zd ->
  afold (init_camera B name) cs (zd, printed) = Done (zd', printed') ->
  Forall (fun item =>
            forall k, Dict.mem k (Zone.contours (snd item)) = true ->
              exists config, Dict.get (fst item) (zone_config E) = Some config /\
                             Dict.mem k config = true) zd'.
Proof.
  induction cs as [|[camera czc] cs IH]; intros zd printed zd' printed' Hn Hsub Hzd;
    cbn [afold].
  - now intros [= <- <-].
  - rewrite init_camera_cases.
    destruct (Dict.get "coordinates" czc) as [v|]; [|discriminate].
    destruct (parse_coordinates B v) as [[c|e]|]; cbn [abind];
      try discriminate; intros H1.
    + eapply IH; [exact Hn | | | exact H1].
      * intros cc Hcc. apply Hsub. now right.
      * eapply add_contour_configured; eauto.
        apply (Hsub (camera, czc)). now left.
    + eapply IH; [exact Hn | | exact Hzd | exact H1].
      intros cc Hcc. apply Hsub. now right.
Qed.

Lemma init_zones_configured E B : forall zc zd printed zd' printed',
  (forall name config, In (name, config) zc ->
     Dict.get name (zone_config E) = Some config) ->
  Forall (fun item =>
            forall k, Dict.mem k (Zone.contours (snd item)) = true ->
              exists config, Dict.get (fst item) (zone_config E) = Some config /\
                             Dict.mem k config = true) zd ->
  afold (init_zone B) zc (zd, printed) = Done (zd', printed') ->
  Forall (fun item =>
            forall k, Dict.mem k (Zone.contours (snd item)) = true ->
              exists config, Dict.get (fst item) (zone_config E) = Some config /\
                             Dict.mem k config = true) zd'.
Proof.
  induction zc as [|[name config] zc IH]; intros zd printed zd' printed' Hzc Hzd;
    cbn [afold].
  - now intros [= <- <-].
  - change (init_zone B (zd, printed) (name, config))
      with (afold (init_camera B name) config (zd, printed)).
    destruct (afold (init_camera B name) config (zd, printed))
      as [[zd1 printed1]|e] eqn:H1; cbn [abind]; [|discriminate].
    apply IH.
    + intros n c Hin. apply Hzc. now right.
    + eapply init_cameras_configured; [| | exact Hzd | exact H1].
      * apply Hzc. now left.
      * intros [k v] Hin. apply mem_keys. unfold Dict.keys.
        apply in_map_iff. now exists (k, v).
Qed.

Lemma init_configured E B store w printed :
  Dict.uniq_keys (zone_config E) = true ->
  init E B store = Done (w, printed) ->
  zones_configured E (zone_data w).
Proof.
  unfold init. intros Hu.
  destruct (afold (init_zone B) (zone_config E) ([], []))
    as [[zd pr]|e] eqn:Hf; cbn [abind]; [|discriminate].
  intros [= <- <-]. cbn [zone_data].
  pose proof (init_zones_configured E B _ _ _ _ _
                (fun name config Hin =>
                   proj2 (get_In name config _
                            (proj1 (uniq_keys_NoDup _) Hu)) Hin)
                (Forall_nil _) Hf) as Hzd.
  unfold zones_configured. apply Forall_forall. intros x Hx. split.
  - destruct (set_colors_items B zd x Hx) as (z & Hin & Hc & _).
    rewrite Hc. intros k Hk.
    exact (proj1 (Forall_forall _ _) Hzd (fst x, z) Hin k Hk).
  - intros _. exact (proj1 (Forall_forall _ _) (set_colors_coloured B zd) x Hx).
Qed.

Lemma live_configured E B w :
  Dict.uniq_keys (zone_config E) = true ->
  live E B w -> zones_configured E (zone_data w).
Proof.
  intros Hu.
  assert (Hfresh : forall z, zone_configured E (z, Zone.fresh)).
  { intros z. split; [intros k; discriminate | intros H; now elim H]. }
  assert (Hstatus : forall z d os,
            zone_configured E (z, d) ->
            zone_configured E (z, Zone.set_object_status os d)).
  { intros z d os H. exact H. }
  induction 1 as [store w printed Hi| | | |].
  - eapply init_configured; eauto.
  - now apply (preserves_zones_process _ Hfresh Hstatus).
  - now apply (preserves_zones_get_best _).
  - now apply (preserves_zones_get_current_frame _).
  - assumption.
Qed.

(** ** What the classification can raise (lines 108-116) *)

Lemma zone_filtered_raises obj cfg e :
  zone_filtered obj cfg = Raise e -> e = TypeError \/ e = AttributeError.
Proof.
  unfold zone_filtered, py_get, py_in, py_index, py_gt, py_lt, index, Dict.mem.
  repeat (match goal with
          | |- context [match ?x with _ => _ end] =>
              lazymatch x with
              | context [match _ with _ => _ end] => fail
              | _ => destruct x eqn:?
              end
          end; cbn [obind]);
    try discriminate; intros [= <-]; auto.
Qed.

Lemma ofold_raises {A S} (P : exn -> Prop) (body : S -> A -> outcome S) l :
  (forall s x e, In x l -> body s x = Raise e -> P e) ->
  forall s e, ofold body l s = Raise e -> P e.
Proof.
  induction l as [|x l IH]; intros Hb s e; cbn [ofold]; [discriminate|].
  destruct (body s x) as [s1|e1] eqn:H1; cbn [obind].
  - apply IH. intros s0 y e0 Hy. apply Hb. now right.
  - intros [= <-]. eapply Hb; eauto. now left.
Qed.

Lemma classify_contour_raises E obj name zone vars item e :
  zone_configured E (name, zone) ->
  In item (Zone.contours zone) ->
  classify_contour E obj name vars item = Raise e ->
  e = TypeError \/ e = AttributeError \/
  (e = Other "cv2.error" /\
   pointPolygonTest E (snd item) (bottom_center obj) = None).
Proof.
  intros [Hc _] Hin. destruct vars as [coiz cam], item as [camera c].
  unfold classify_contour. cbn [snd].
  destruct (pointPolygonTest E c (bottom_center obj)) as [side|];
    [|intros [= <-]; auto].
  destruct (Qle_bool 0 side); [|discriminate].
  destruct (Hc camera) as (config & Hn & Hm).
  { apply mem_keys. unfold Dict.keys. apply in_map_iff. now exists (camera, c). }
  cbn [fst] in Hn. unfold index. rewrite Hn. cbn [obind].
  unfold Dict.mem in Hm.
  destruct (Dict.get camera config) as [czc|]; [|discriminate]. cbn [obind].
  destruct (zone_filtered obj _) as [b|e1] eqn:Hf; cbn [obind].
  - destruct (negb b); discriminate.
  - intros [= <-]. destruct (zone_filtered_raises _ _ _ Hf); auto.
Qed.

Lemma tests_return_all E zones objs obj z cc :
  tests_return E zones objs = true ->
  In obj (Dict.values objs) -> In z zones -> In cc (Zone.contours (snd z)) ->
  pointPolygonTest E (snd cc) (bottom_center obj) <> None.
Proof.
  unfold tests_return. intros H Hobj Hz Hcc.
  rewrite forallb_forall in H. specialize (H _ Hobj).
  rewrite forallb_forall in H. specialize (H _ Hz).
  rewrite forallb_forall in H. specialize (H _ Hcc).
  now destruct (pointPolygonTest E (snd cc) (bottom_center obj)).
Qed.

Lemma classify_raises E zones objs owner e :
  zones_configured E zones ->
  classify E zones objs owner = Raise e ->
  e = TypeError \/ e = AttributeError \/
  (e = Other "cv2.error" /\ tests_return E zones objs = false).
Proof.
  intros Hz Hc. unfold classify in Hc.
  refine (ofold_raises
            (fun e => e = TypeError \/ e = AttributeError \/
                      (e = Other "cv2.error" /\
                       tests_return E zones objs = false))
            _ _ _ _ _ Hc).
  intros vars obj e1 Hobj H1. unfold classify_object in H1.
  refine (ofold_raises
            (fun e => e = TypeError \/ e = AttributeError \/
                      (e = Other "cv2.error" /\
                       tests_return E zones objs = false))
            _ _ _ _ _ H1).
  intros vars1 [name zone] e2 Hin H2. unfold classify_zone in H2.
  refine (ofold_raises
            (fun e => e = TypeError \/ e = AttributeError \/
                      (e = Other "cv2.error" /\
                       tests_return E zones objs = false))
            _ _ _ _ _ H2).
  intros vars2 item e3 Hitem H3.
  destruct (classify_contour_raises E obj name zone vars2 item e3
              (proj1 (Forall_forall _ _) Hz _ Hin) Hitem H3)
    as [H|[H|[H Hpt]]]; auto.
  right. right. split; auto.
  destruct (tests_return E zones objs) eqn:Ht; auto.
  exfalso.
  exact (tests_return_all E zones objs obj (name, zone) item Ht Hobj Hin Hitem
           Hpt).
Qed.

(** In every state of a processor that [__init__] made from a
    configuration naming each zone once, the classification loops raise
    no KeyError: the lookups [self.zone_config[name][camera]] of line
    115 find their keys, because a zone has contours only for cameras
    configured under it.  What the loops can raise is the cv2.error of a
    point test that OpenCV refuses (as it does the empty contour that
    [__init__] makes of an empty list of coordinates), and then some
    test of a tracked object against a contour does raise, or what
    [zone_filtered] raises on malformed filters, a TypeError or an
    AttributeError. *)
Theorem classification_raises_no_key_error E B w objs owner e :
  Dict.uniq_keys (zone_config E) = true ->
  live E B w ->
  classify E (zone_data w) objs owner = Raise e ->
  e = TypeError \/ e = AttributeError \/
  (e = Other "cv2.error" /\ tests_return E (zone_data w) objs = false).
Proof.
  intros Hu Hw. apply classify_raises. eapply live_configured; eauto.
Qed.

(** ** What is drawn on the frame (lines 125-148) *)

Lemma image_eta img : {| base := base img; drawn := drawn img ++ [] |} = img.
Proof. destruct img. cbn. now rewrite app_nil_r. Qed.

Lemma annotate_objects E t objs : forall img,
  ofold (annotate_object E t) objs img =
  match find (fun obj => negb (Dict.mem (label obj) (COLOR_MAP E))) objs with
  | Some obj => Raise (KeyError (label obj))
  | None =>
      Ok {| base := base img;
            drawn := drawn img ++
                     flat_map
                       (fun obj =>
                          match Dict.get (label obj) (COLOR_MAP E) with
                          | Some color => object_drawings t obj color
                          | None => []
                          end) objs |}
  end.
Proof.
  induction objs as [|obj objs IH]; intros img; cbn [ofold find flat_map].
  - now rewrite image_eta.
  - assert (Hmem : Dict.mem (label obj) (COLOR_MAP E) =
                   match Dict.get (label obj) (COLOR_MAP E) with
                   | Some _ => true
                   | None => false
                   end) by reflexivity.
    rewrite Hmem. clear Hmem. unfold annotate_object at 1, index.
    destruct (Dict.get (label obj) (COLOR_MAP E)) as [color|]; cbn [obind negb];
      [|reflexivity].
    change (Qeq_bool (frame_time obj) t) with (seen_at t obj).
    unfold object_drawings.
    destruct (seen_at t obj); cbn [negb obind]; rewrite IH;
      (destruct (find _ objs); [reflexivity|]);
      cbn [draw base drawn]; rewrite <- !app_assoc; reflexivity.
Qed.

Lemma annotate_zones camera coiz zones : forall img,
  Forall (fun z => Zone.contours (snd z) <> [] -> Zone.color (snd z) <> None)
    zones ->
  ofold (annotate_zone camera coiz) zones img =
  Ok {| base := base img;
        drawn := drawn img ++ zone_outlines zones camera coiz |}.
Proof.
  unfold zone_outlines.
  induction zones as [|[name zone] zones IH]; intros img Hz;
    cbn [ofold flat_map].
  - now rewrite image_eta.
  - inversion Hz as [|? ? Hc Hzs]; subst. cbn [fst snd] in *.
    unfold annotate_zone at 1, index, Dict.mem.
    destruct (Dict.get camera (Zone.contours zone)) as [c|] eqn:Hg;
      cbn [obind].
    + destruct (Zone.color zone) as [col|] eqn:Hcol.
      * cbn [obind]. rewrite IH by assumption. cbn [draw base drawn].
        now rewrite <- app_assoc.
      * exfalso. apply Hc; auto. intros Hnil. rewrite Hnil in Hg. discriminate.
    + destruct (Zone.color zone); rewrite IH by assumption; reflexivity.
Qed.

(** What the drawing stage does to a frame (lines 125-148), in a
    state whose zones with a contour have a colour.  When the label of
    some tracked object has no entry in COLOR_MAP, it raises the KeyError
    of the first such label (also for an object that is drawn in the
    fixed colour of stale objects).  Otherwise, when show_timestamp is
    set and [datetime.fromtimestamp] raises on the frame time (a time
    out of its range), it raises that exception.  Otherwise it returns
    the frame with, appended in this order, the box and the region of
    each object (box of thickness 2 in the label's colour for an object
    seen on this frame, of thickness 1 in (255,0,0) for a stale one),
    the text of the frame time when show_timestamp is set, and when
    draw_zones is set the outline of each zone that has a contour for
    the camera (thickness 8 when the zone has an object, else 2).  The
    pixels below are not touched. *)
Theorem annotate_draws E settings zones camera t objs coiz img :
  zones_configured E zones ->
  annotate E settings zones camera t objs coiz img =
  match uncoloured E objs with
  | Some obj => Raise (KeyError (label obj))
  | None =>
      match timestamp_failure E settings t with
      | Some e => Raise e
      | None =>
          Ok {| base := base img;
                drawn := drawn img ++
                         annotations E settings zones camera t objs coiz |}
      end
  end.
Proof.
  intros Hz.
  unfold annotate, uncoloured, annotations, box_drawings, timestamp_failure,
    timestamp_drawing.
  rewrite annotate_objects.
  destruct (find _ (Dict.values objs)); cbn [obind]; [reflexivity|].
  assert (Hcol : Forall (fun z => Zone.contours (snd z) <> [] ->
                                  Zone.color (snd z) <> None) zones).
  { eapply Forall_impl; [|exact Hz]. intros z [_ H]. exact H. }
  destruct (show_timestamp settings);
    [destruct (time_to_show E t) as [shown|e]|]; cbn [obind];
    try reflexivity;
    destruct (draw_zones settings);
    rewrite ?annotate_zones by assumption; unfold draw; cbn [base drawn];
    rewrite ?app_nil_r, <- ?app_assoc; reflexivity.
Qed.

(** ** What the classification returns (lines 108-116) *)

Lemma ofold_app {A S X} (body : S -> A -> outcome S) (view : S -> list X)
    (contrib : A -> list X) l :
  (forall s x s', In x l -> body s x = Ok s' -> view s' = view s ++ contrib x) ->
  forall s s', ofold body l s = Ok s' -> view s' = view s ++ flat_map contrib l.
Proof.
  induction l as [|x l IH]; intros Hb s s'; cbn [ofold flat_map].
  - intros [= <-]. now rewrite app_nil_r.
  - destruct (body s x) as [s1|e] eqn:H1; cbn [obind]; [|discriminate].
    intros H2. rewrite (IH (fun s0 y s0' Hy => Hb s0 y s0' (or_intror Hy)) _ _ H2).
    rewrite (Hb _ _ _ (or_introl eq_refl) H1). now rewrite app_assoc.
Qed.

Lemma last_cons {X} (x : X) l d : last (x :: l) d = last l x.
Proof.
  revert x d. induction l as [|y l IH]; intros x d; [reflexivity|].
  change (last (x :: y :: l) d) with (last (y :: l) d). now rewrite !IH.
Qed.

Lemma last_app {X} (a b : list X) d : last (a ++ b) d = last b (last a d).
Proof.
  revert d. induction a as [|x a IH]; intros d; [reflexivity|].
  rewrite <- app_comm_cons, !last_cons. apply IH.
Qed.

Lemma ofold_last {A S} (body : S -> A -> outcome S) (cam : S -> string)
    (keys : A -> list string) l :
  (forall s x s', In x l -> body s x = Ok s' -> cam s' = last (keys x) (cam s)) ->
  forall s s', ofold body l s = Ok s' -> cam s' = last (flat_map keys l) (cam s).
Proof.
  induction l as [|x l IH]; intros Hb s s'; cbn [ofold flat_map].
  - now intros [= <-].
  - destruct (body s x) as [s1|e] eqn:H1; cbn [obind]; [|discriminate].
    intros H2. rewrite (IH (fun s0 y s0' Hy => Hb s0 y s0' (or_intror Hy)) _ _ H2).
    rewrite (Hb _ _ _ (or_introl eq_refl) H1). now rewrite last_app.
Qed.

Lemma labels_in_append n name l coiz :
  labels_in n (append_label name l coiz) =
  labels_in n coiz ++ (if String.eqb n name then [l] else []).
Proof.
  unfold append_label, labels_in.
  pose proof (get_get_default (@nil string) name n coiz) as Hn.
  pose proof (fst_get_default (@nil string) name coiz) as Hf.
  destruct (Dict.get_default [] name coiz) as [ls coiz1].
  cbn [fst snd] in Hn, Hf.
  destruct (String.eqb_spec n name) as [->|Hne].
  - rewrite get_set_same, Hf. now destruct (Dict.get name coiz).
  - rewrite get_set_other by congruence. rewrite Hn, app_nil_r.
    destruct (Dict.get n coiz); [reflexivity|].
    destruct (String.eqb_spec n name); [contradiction | reflexivity].
Qed.

Lemma classify_contour_ok E obj name vars cc vars' :
  classify_contour E obj name vars cc = Ok vars' ->
  snd vars' = fst cc /\
  forall n, labels_in n (fst vars') =
            labels_in n (fst vars) ++
            (if String.eqb n name
             then if counts_in E obj name cc then [label obj] else []
             else []).
Proof.
  destruct vars as [coiz cam], cc as [camera c].
  unfold classify_contour, counts_in, inside, zone_filters, index.
  cbn [fst snd].
  assert (Hnil : forall n,
            labels_in n coiz =
            labels_in n coiz ++ (if String.eqb n name then [] else [])).
  { intros n. destruct (String.eqb n name); now rewrite app_nil_r. }
  destruct (pointPolygonTest E c (bottom_center obj)) as [side|];
    [|discriminate].
  destruct (Qle_bool 0 side); cbn [andb].
  - destruct (Dict.get name (zone_config E)) as [config|]; cbn [obind];
      [|discriminate].
    destruct (Dict.get camera config) as [czc|]; cbn [obind]; [|discriminate].
    destruct (zone_filtered obj _) as [[|]|e]; cbn [obind negb];
      try discriminate; intros [= <-]; cbn [fst snd]; split; auto.
    intros n. apply labels_in_append.
  - intros [= <-]. cbn [fst snd]. split; auto.
Qed.

Lemma flat_map_singleton {A B} (f : A -> B) l :
  flat_map (fun x => [f x]) l = map f l.
Proof. induction l as [|x l IH]; cbn; congruence. Qed.

Lemma flat_map_nil {A B} (l : list A) :
  flat_map (fun _ => @nil B) l = [].
Proof. induction l as [|x l IH]; cbn; auto. Qed.

Lemma classify_zone_ok E obj vars z vars' :
  classify_zone E obj vars z = Ok vars' ->
  snd vars' = last (Dict.keys (Zone.contours (snd z))) (snd vars) /\
  forall n, labels_in n (fst vars') =
            labels_in n (fst vars) ++
            (if String.eqb n (fst z) then
               flat_map
                 (fun cc => if counts_in E obj (fst z) cc then [label obj] else [])
                 (Zone.contours (snd z))
             else []).
Proof.
  destruct z as [name zone]. cbn [fst snd].
  unfold classify_zone. intros H. split.
  - rewrite (ofold_last _ snd (fun cc => [fst cc]) _
               (fun s x s' _ Hx => proj1 (classify_contour_ok _ _ _ _ _ _ Hx))
               _ _ H).
    now rewrite flat_map_singleton.
  - intros n.
    rewrite (ofold_app _ (fun s => labels_in n (fst s))
               (fun cc => if String.eqb n name
                          then if counts_in E obj name cc then [label obj] else []
                          else [])
               _ (fun s x s' _ Hx => proj2 (classify_contour_ok _ _ _ _ _ _ Hx) n)
               _ _ H).
    f_equal. destruct (String.eqb n name); [reflexivity|].
    apply flat_map_nil.
Qed.

Lemma classify_object_ok E zones vars obj vars' :
  classify_object E zones vars obj = Ok vars' ->
  snd vars' = last (contour_cameras zones) (snd vars) /\
  forall n, labels_in n (fst vars') =
            labels_in n (fst vars) ++
            flat_map
              (fun z =>
                 if String.eqb n (fst z) then
                   flat_map
                     (fun cc =>
                        if counts_in E obj (fst z) cc then [label obj] else [])
                     (Zone.contours (snd z))
                 else [])
              zones.
Proof.
  unfold classify_object, contour_cameras. intros H. split.
  - apply (ofold_last _ snd (fun z => Dict.keys (Zone.contours (snd z))) _
             (fun s x s' _ Hx => proj1 (classify_zone_ok _ _ _ _ _ Hx)) _ _ H).
  - intros n.
    apply (ofold_app _ (fun s => labels_in n (fst s)) _ _
             (fun s x s' _ Hx => proj2 (classify_zone_ok _ _ _ _ _ Hx) n)
             _ _ H).
Qed.

Lemma last_twice {X} (l : list X) d : last l (last l d) = last l d.
Proof. destruct l as [|x l]; [reflexivity|]. now rewrite !last_cons. Qed.

Lemma classify_objects_camera E zones objs : forall vars vars',
  ofold (classify_object E zones) objs vars = Ok vars' ->
  snd vars' =
  match objs with
  | [] => snd vars
  | _ => last (contour_cameras zones) (snd vars)
  end.
Proof.
  induction objs as [|obj objs IH]; intros vars vars'; cbn [ofold].
  - now intros [= <-].
  - destruct (classify_object E zones vars obj) as [v1|e] eqn:H1; cbn [obind];
      [|discriminate].
    intros H2. rewrite (IH _ _ H2).
    rewrite (proj1 (classify_object_ok _ _ _ _ _ H1)).
    destruct objs; [reflexivity | apply last_twice].
Qed.

(** The value the variable [camera] has after the classification
    loops: the name of the item's camera when there is no tracked object
    or no zone has a contour, and otherwise the camera of the last
    contour of the last zone that has one, whichever camera the item
    came from.  In particular it is still the item's camera when every
    contour of every zone is for that camera. *)
Theorem classification_leaves_camera E zones objs owner coiz camera :
  classify E zones objs owner = Ok (coiz, camera) ->
  camera =
  match Dict.values objs with
  | [] => owner
  | _ => last (contour_cameras zones) owner
  end /\
  (Forall (eq owner) (contour_cameras zones) -> camera = owner).
Proof.
  unfold classify. intros H.
  pose proof (classify_objects_camera _ _ _ _ _ H) as Hc. cbn [snd] in Hc.
  split; [exact Hc|]. intros Hall. rewrite Hc.
  destruct (Dict.values objs); [reflexivity|].
  clear - Hall. induction Hall as [|x l <- Hl IH]; [reflexivity|].
  now rewrite last_cons.
Qed.

(** The membership map the classification returns: the list of
    a zone holds, object by object in the order of [tracked_objects],
    the object's label once for each contour of the zone (of whichever
    camera) that has the object's bottom centre inside or on its edge
    and for which [zone_filtered], handed the 'filters' of that zone and
    camera, returns False. *)
Theorem classification_lists_objects E zones objs owner coiz camera :
  classify E zones objs owner = Ok (coiz, camera) ->
  forall name, labels_in name coiz = objects_in_zone E zones objs name.
Proof.
  unfold classify, objects_in_zone. intros H name.
  apply (ofold_app _ (fun s => labels_in name (fst s)) _ _
           (fun s x s' _ Hx => proj2 (classify_object_ok _ _ _ _ _ Hx) name)
           _ _ H).
Qed.

(** ** What one loop body does to the entries of the cameras *)

Lemma unchanged_view_update_other {X} (q : Camera.data -> X) c camera f :
  c <> camera ->
  unchanged (fun w => q (camera_view w c)) (update_camera camera f).
Proof.
  intros Hne w. rewrite camera_view_update.
  destruct (String.eqb_spec c camera); [contradiction | reflexivity].
Qed.

Lemma later_stages_keep_owner {X} E (p : world -> X) owner camera t objs coiz :
  (forall v w, p (set_zone_data v w) = p w) ->
  (forall v w, p (set_published v w) = p w) ->
  (forall v w, p (set_clock_reads v w) = p w) ->
  (forall c, unchanged p (camera_entry c)) ->
  (forall v, unchanged p
               (update_camera owner
                  (fun o => Camera.set_tracked_objects (v o) o))) ->
  (forall v, unchanged p
               (update_camera owner (fun o => Camera.set_best_objects (v o) o))) ->
  (forall v, unchanged p
               (update_camera owner (fun o => Camera.set_object_status (v o) o))) ->
  unchanged p
    (for_each objs (update_best E owner camera t) ;;
     report_zones E camera coiz ;;
     report_presence E owner camera objs).
Proof.
  intros Hz Hp Hc He Ht Hb Hs.
  unfold update_best, store_best, report_zones, report_zone, report_label,
    report_presence, report_detected, report_expired, publish_snapshot,
    set_presence.
  repeat first
    [ apply He
    | apply (Ht (fun o => Dict.set _ _ (Camera.tracked_objects o)))
    | apply (Hb (fun o => Dict.set _ _ (Camera.best_objects o)))
    | apply (Hs (fun o => Dict.set _ _ (Camera.object_status o)))
    | apply unchanged_with_zone_status; assumption
    | apply unchanged_publish; assumption
    | apply unchanged_read_clock; assumption
    | keep_step ].
Qed.

Lemma update_current_frame_keeps_view {X} E (q : Camera.data -> X)
    settings camera t objs coiz c :
  (forall v d, q (Camera.set_current_frame v d) = q d) ->
  (forall v d, q (Camera.set_object_id v d) = q d) ->
  unchanged (fun w => q (camera_view w c))
    (update_current_frame E settings camera t objs coiz).
Proof.
  intros H1 H2. unfold update_current_frame.
  repeat first [ apply unchanged_view_update; intros; auto
               | keep_step ].
Qed.

(** The entry of a camera after the stages that follow lines 101-105. *)
Lemma after_begin_view {X} E (q : Camera.data -> X) owner t objs w c :
  (forall v d, q (Camera.set_current_frame v d) = q d) ->
  (forall v d, q (Camera.set_object_id v d) = q d) ->
  (c = owner ->
   (forall v d, q (Camera.set_tracked_objects v d) = q d) /\
   (forall v d, q (Camera.set_best_objects v d) = q d) /\
   (forall v d, q (Camera.set_object_status v d) = q d)) ->
  q (camera_view (snd (process E (owner, t, objs) w)) c) =
  q (camera_view (snd (begin_item E owner t objs w)) c).
Proof.
  intros Hf Hi Ho. rewrite process_stages.
  destruct (begin_item E owner t objs w) as [[settings|e] w0]; [|reflexivity].
  cbn [snd].
  destruct (classify E (zone_data w0) objs owner) as [[coiz camera]|e];
    [|reflexivity].
  pose proof (update_current_frame_keeps_view E q settings camera t objs coiz c
                Hf Hi w0) as H1. cbv beta in H1.
  destruct (update_current_frame E settings camera t objs coiz w0)
    as [[[]|e] w1]; cbn [snd] in *; [|exact H1].
  rewrite <- H1.
  apply (later_stages_keep_owner E (fun w => q (camera_view w c))); auto; intros.
  - apply unchanged_view_entry.
  - destruct (string_dec c owner) as [Heq|Hne].
    + apply unchanged_view_update. intros d. apply (proj1 (Ho Heq)).
    + now apply unchanged_view_update_other.
  - destruct (string_dec c owner) as [Heq|Hne].
    + apply unchanged_view_update. intros d. apply (proj1 (proj2 (Ho Heq))).
    + now apply unchanged_view_update_other.
  - destruct (string_dec c owner) as [Heq|Hne].
    + apply unchanged_view_update. intros d. apply (proj2 (proj2 (Ho Heq))).
    + now apply unchanged_view_update_other.
Qed.

Lemma begin_item_view E owner t objs w settings :
  Dict.get owner (camera_config E) = Some settings ->
  fst (begin_item E owner t objs w) = Ok settings /\
  forall c, camera_view (snd (begin_item E owner t objs w)) c =
            if String.eqb c owner
            then Camera.set_current_frame_time t
                   (Camera.set_tracked_objects objs (camera_view w owner))
            else camera_view w c.
Proof.
  intros Hs. split.
  - rewrite begin_item_fst. unfold index. now rewrite Hs.
  - intros c. unfold begin_item, lift, index. rewrite Hs. unfold bind at 1.
    rewrite (bind_ok _ _ _ _ _ (camera_entry_value w owner)).
    rewrite (bind_ok _ _ _ _ _ (update_camera_run _ _ _)).
    rewrite (bind_ok _ _ _ _ _ (update_camera_run _ _ _)).
    cbn [ret snd]. rewrite !camera_view_update, !camera_view_entry.
    rewrite String.eqb_refl. now destruct (String.eqb c owner).
Qed.

(** A loop body writes the best-sighting records, the presence
    status, the tracked objects and the frame time of the camera the
    item came from only: those of every other camera are as before,
    also when the classification loops have rebound [camera] to another
    camera. *)
Theorem item_leaves_other_cameras E owner t objs w c :
  c <> owner ->
  let w' := snd (process E (owner, t, objs) w) in
  Camera.best_objects (camera_view w' c) = Camera.best_objects (camera_view w c) /\
  Camera.object_status (camera_view w' c) =
  Camera.object_status (camera_view w c) /\
  Camera.tracked_objects (camera_view w' c) =
  Camera.tracked_objects (camera_view w c) /\
  Camera.current_frame_time (camera_view w' c) =
  Camera.current_frame_time (camera_view w c).
Proof.
  intros Hne. cbv zeta.
  assert (Hb : forall {X} (q : Camera.data -> X),
            q (camera_view (snd (begin_item E owner t objs w)) c) =
            q (camera_view w c)).
  { intros X q. unfold begin_item.
    enough (H : unchanged (fun w => q (camera_view w c))
                  (begin_item E owner t objs)) by apply H.
    unfold begin_item.
    repeat first [ apply unchanged_view_update_other; assumption | keep_step ]. }
  rewrite !after_begin_view, !Hb;
    try (intros; first [reflexivity | contradiction]).
  repeat split.
Qed.

(** ** [get_current_frame] (lines 94-95) *)

Lemma get_current_frame_value c w :
  fst (get_current_frame c w) = Ok (Camera.current_frame (camera_view w c)).
Proof.
  unfold get_current_frame.
  now rewrite (bind_ok _ _ _ _ _ (camera_entry_value w c)).
Qed.

(** [get_current_frame] never raises.  For a camera without an
    entry it returns the black 720x1280 frame of the default factory;
    after a loop body it returns the frame that body composited when it
    composited one for that camera, and otherwise what it returned
    before the body.  The call changes no entry of [camera_data] as a
    reader finds it, and nothing else of the state. *)
Theorem current_frame_follows_composite E owner t objs w c :
  let w' := snd (process E (owner, t, objs) w) in
  fst (get_current_frame c w) =
  Ok (match Dict.get c (camera_data w) with
      | Some d => Camera.current_frame d
      | None => {| base := zeros 720 1280 3; drawn := [] |}
      end) /\
  fst (get_current_frame c w') =
  match composite E (owner, t, objs) w with
  | Some (camera, img) =>
      if String.eqb c camera then Ok img else fst (get_current_frame c w)
  | None => fst (get_current_frame c w)
  end /\
  (forall c', camera_view (snd (get_current_frame c w)) c' = camera_view w c') /\
  zone_data (snd (get_current_frame c w)) = zone_data w /\
  plasma (snd (get_current_frame c w)) = plasma w /\
  published (snd (get_current_frame c w)) = published w.
Proof.
  cbv zeta. rewrite !get_current_frame_value. split; [|split; [|split]].
  - unfold camera_view. now destruct (Dict.get c (camera_data w)).
  - pose proof (process_frame E owner t objs w c) as H. cbv zeta in H.
    destruct (composite E (owner, t, objs) w) as [[camera img]|].
    + destruct H as [H _]. destruct (String.eqb c camera).
      * now rewrite (proj2 H).
      * now rewrite (proj2 H).
    + now rewrite (proj1 (proj2 H)).
  - intros c'.
    enough (H : unchanged (fun w => camera_view w c') (get_current_frame c))
      by apply H.
    unfold get_current_frame.
    apply unchanged_bind; [|intros; apply unchanged_ret].
    apply (unchanged_view_entry (fun d => d)).
  - repeat split.
    + enough (H : unchanged zone_data (get_current_frame c)) by apply H.
      unfold get_current_frame. keep.
    + enough (H : unchanged plasma (get_current_frame c)) by apply H.
      unfold get_current_frame. keep.
    + enough (H : unchanged published (get_current_frame c)) by apply H.
      unfold get_current_frame. keep.
Qed.

(** ** The entries the zone stage writes (line 191) *)

Lemma get_any_on l c os :
  Dict.get c (snd (any_on l os)) =
  match Dict.get c os with
  | Some m => Some (snd (Dict.get_default OFF l m))
  | None => None
  end.
Proof.
  cbn [any_on snd]. induction os as [|[c' m'] os IH]; cbn [map Dict.get fst snd].
  - reflexivity.
  - destruct (String.eqb c c'); auto.
Qed.

Lemma entry_on_any_on l' os c l :
  entry_on (snd (any_on l' os)) c l = entry_on os c l.
Proof.
  unfold entry_on. rewrite get_any_on.
  destruct (Dict.get c os); [apply reads_on_touch | reflexivity].
Qed.

Lemma entry_on_status_keys camera os c l :
  entry_on (snd (status_keys camera os)) c l = entry_on os c l.
Proof.
  unfold entry_on. rewrite status_keys_eq. cbn [snd].
  rewrite get_get_default. destruct (Dict.get c os); auto.
  now destruct (String.eqb c camera).
Qed.

Lemma entry_on_set_status camera l' v os c l :
  entry_on (snd (set_status camera l' v os)) c l =
  if String.eqb c camera && String.eqb l l' then is_on v else entry_on os c l.
Proof.
  unfold entry_on. rewrite set_status_eq. cbn [snd].
  destruct (String.eqb_spec c camera) as [->|Hc]; cbn [andb].
  - rewrite get_set_same, fst_get_default.
    destruct (String.eqb_spec l l') as [->|Hl].
    + now rewrite reads_on_get, get_set_same.
    + now rewrite reads_on_set by assumption.
  - rewrite get_set_other by congruence. rewrite get_get_default.
    destruct (Dict.get c os); auto.
    destruct (String.eqb_spec c camera); [contradiction | reflexivity].
Qed.

(** The status of the zone after [report_label]. *)
Lemma report_label_status E camera zone present l w :
  let v := if existsb (String.eqb l) present then ON else OFF in
  Zone.object_status (zone_view (snd (report_label E camera zone present l w)) zone) =
  snd (any_on l (snd (set_status camera l v
                        (snd (any_on l (Zone.object_status (zone_view w zone))))))).
Proof.
  cbv zeta. unfold report_label.
  destruct (with_zone_status_spec zone (any_on l) w) as (H1 & Hv1 & _).
  cbv zeta in *. rewrite (bind_ok _ _ _ _ _ H1).
  set (w1 := snd (with_zone_status zone (any_on l) w)) in *.
  set (v := if existsb (String.eqb l) present then ON else OFF).
  destruct (with_zone_status_spec zone (set_status camera l v) w1)
    as (H2 & Hv2 & _).
  cbv zeta in *. rewrite (bind_ok _ _ _ _ _ H2).
  set (w2 := snd (with_zone_status zone (set_status camera l v) w1)) in *.
  destruct (with_zone_status_spec zone (any_on l) w2) as (H3 & Hv3 & _).
  cbv zeta in *. rewrite (bind_ok _ _ _ _ _ H3).
  set (w3 := snd (with_zone_status zone (any_on l) w2)) in *.
  assert (Hfin : forall m : M unit,
            unchanged zone_data m -> zone_view (snd (m w3)) zone = zone_view w3 zone).
  { intros m Hm. apply zone_view_data. apply Hm. }
  rewrite Hfin.
  - rewrite Hv3, String.eqb_refl. cbn [Zone.object_status Zone.set_object_status].
    rewrite Hv2, String.eqb_refl. cbn [Zone.object_status Zone.set_object_status].
    rewrite Hv1, String.eqb_refl. reflexivity.
  - keep.
Qed.

Lemma report_label_entries E camera zone present l w c l' :
  camera_reads_on (snd (report_label E camera zone present l w)) zone c l' =
  if String.eqb c camera && String.eqb l' l
  then existsb (String.eqb l) present
  else camera_reads_on w zone c l'.
Proof.
  unfold camera_reads_on. rewrite report_label_status.
  rewrite entry_on_any_on, entry_on_set_status, entry_on_any_on.
  destruct (String.eqb c camera && String.eqb l' l); [|reflexivity].
  now destruct (existsb (String.eqb l) present).
Qed.

(** When the entry already has the value that is written, the aggregate
    stays. *)
Lemma report_label_settled E camera zone present l w :
  camera_reads_on w zone camera l = existsb (String.eqb l) present ->
  zone_or (snd (report_label E camera zone present l w)) zone l =
  zone_or w zone l.
Proof.
  intros Hsame. unfold zone_or at 1. rewrite report_label_status.
  rewrite any_on_touch. unfold zone_or.
  set (os0 := Zone.object_status (zone_view w zone)).
  rewrite <- (any_on_touch l l os0).
  set (os1 := snd (any_on l os0)).
  rewrite set_status_eq, !any_on_fst. cbn [snd].
  rewrite existsb_values_set.
  - now apply existsb_values_default.
  - rewrite get_default_present, reads_on_get, get_set_same, fst_get_default.
    symmetry.
    change (entry_on os1 camera l =
            is_on (if existsb (String.eqb l) present then ON else OFF)).
    unfold os1. rewrite entry_on_any_on.
    change (entry_on os0 camera l) with (camera_reads_on w zone camera l).
    rewrite Hsame. now destruct (existsb (String.eqb l) present).
Qed.

Lemma existsb_eqb_In l ls : existsb (String.eqb l) ls = true <-> In l ls.
Proof.
  rewrite existsb_exists. split.
  - intros (x & Hin & Heq). apply String.eqb_eq in Heq. now subst.
  - intros Hin. exists l. split; auto. apply String.eqb_refl.
Qed.

Lemma label_loop_entries E camera zone present ls : forall w,
  let r := for_each ls (report_label E camera zone present) w in
  (forall l, In l ls ->
     camera_reads_on (snd r) zone camera l = existsb (String.eqb l) present) /\
  (forall c l, c <> camera \/ ~ In l ls ->
     camera_reads_on (snd r) zone c l = camera_reads_on w zone c l).
Proof.
  induction ls as [|l0 ls IH]; intros w; cbv zeta.
  - split; [intros l []|reflexivity].
  - destruct (report_label_spec E camera zone present l0 w) as (H1 & _).
    rewrite (for_each_cons_run _ _ _ _ H1).
    set (w1 := snd (report_label E camera zone present l0 w)) in *.
    destruct (IH w1) as [Hin Hout]. cbv zeta in Hin, Hout.
    assert (Hstep : forall c l,
              camera_reads_on w1 zone c l =
              if String.eqb c camera && String.eqb l l0
              then existsb (String.eqb l0) present
              else camera_reads_on w zone c l)
      by (intros; apply report_label_entries).
    split.
    + intros l Hl. destruct (in_dec string_dec l ls) as [Hls|Hls]; auto.
      destruct Hl as [->|Hl]; [|contradiction].
      rewrite Hout by auto. rewrite Hstep, !String.eqb_refl. reflexivity.
    + intros c l Hcl. rewrite Hout.
      * rewrite Hstep.
        destruct (String.eqb_spec c camera) as [->|]; auto.
        destruct (String.eqb_spec l l0) as [->|]; auto.
        exfalso. destruct Hcl as [H|H]; [now apply H | apply H; now left].
      * destruct Hcl as [H|H]; auto. right. intros Hin'. apply H. now right.
Qed.

Lemma report_zone_start E camera coiz zone w :
  let w0 := snd (with_zone_status zone (status_keys camera) w) in
  report_zone E camera coiz zone w =
  for_each (labels_for_zone E w camera coiz zone)
    (report_label E camera zone (labels_in zone coiz)) w0 /\
  (forall c l, camera_reads_on w0 zone c l = camera_reads_on w zone c l) /\
  (forall l, zone_or w0 zone l = zone_or w zone l) /\
  (forall z, z <> zone -> zone_view w0 z = zone_view w z) /\
  published w0 = published w.
Proof.
  cbv zeta. unfold report_zone.
  destruct (with_zone_status_spec zone (status_keys camera) w) as (H0 & Hv0 & Hp0).
  cbv zeta in *. rewrite (bind_ok _ _ _ _ _ H0).
  set (w0 := snd (with_zone_status zone (status_keys camera) w)) in *.
  split; [|split; [|split; [|split]]].
  - rewrite status_keys_eq. cbn [fst]. rewrite fst_get_default. reflexivity.
  - intros c l. unfold camera_reads_on. rewrite Hv0, String.eqb_refl.
    cbn [Zone.object_status Zone.set_object_status].
    apply entry_on_status_keys.
  - intros l. unfold zone_or. rewrite Hv0, String.eqb_refl.
    cbn [Zone.object_status Zone.set_object_status].
    apply any_on_status_keys.
  - intros z Hne. rewrite Hv0. apply String.eqb_neq in Hne. now rewrite Hne.
  - exact Hp0.
Qed.

Lemma report_zone_entries E camera coiz zone w :
  let r := report_zone E camera coiz zone w in
  let ls := labels_for_zone E w camera coiz zone in
  (forall l, In l ls ->
     camera_reads_on (snd r) zone camera l =
     existsb (String.eqb l) (labels_in zone coiz)) /\
  (forall c l, c <> camera \/ ~ In l ls ->
     camera_reads_on (snd r) zone c l = camera_reads_on w zone c l).
Proof.
  cbv zeta.
  destruct (report_zone_start E camera coiz zone w) as (-> & He & _).
  destruct (label_loop_entries E camera zone (labels_in zone coiz)
              (labels_for_zone E w camera coiz zone)
              (snd (with_zone_status zone (status_keys camera) w)))
    as [Hin Hout].
  cbv zeta in *. split; auto.
  intros c l Hcl. now rewrite Hout, He.
Qed.

Lemma camera_reads_on_view w1 w zone c l :
  zone_view w1 zone = zone_view w zone ->
  camera_reads_on w1 zone c l = camera_reads_on w zone c l.
Proof. unfold camera_reads_on. now intros ->. Qed.

Lemma zone_loop_entries E camera coiz zs : forall w,
  NoDup zs ->
  let r := for_each zs (report_zone E camera coiz) w in
  (forall z l, In z zs -> In l (labels_for_zone E w camera coiz z) ->
     camera_reads_on (snd r) z camera l =
     existsb (String.eqb l) (labels_in z coiz)) /\
  (forall z c l,
     c <> camera \/ ~ (In z zs /\ In l (labels_for_zone E w camera coiz z)) ->
     camera_reads_on (snd r) z c l = camera_reads_on w z c l).
Proof.
  induction zs as [|z0 zs IH]; intros w Hnd; cbv zeta.
  - split; [intros z l []|reflexivity].
  - inversion Hnd as [|? ? Hnotin Hnd']; subst.
    destruct (report_zone_spec E camera coiz z0 w) as (H1 & _ & _ & Hv1).
    rewrite (for_each_cons_run _ _ _ _ H1).
    destruct (report_zone_entries E camera coiz z0 w) as [Hin1 Hout1].
    cbv zeta in *.
    set (w1 := snd (report_zone E camera coiz z0 w)) in *.
    destruct (IH w1 Hnd') as [Hin2 Hout2]. cbv zeta in *.
    set (wf := snd (for_each zs (report_zone E camera coiz) w1)) in *.
    assert (Hls : forall z, z <> z0 ->
              labels_for_zone E w1 camera coiz z =
              labels_for_zone E w camera coiz z).
    { intros z Hne. apply labels_for_zone_view. now apply Hv1. }
    split.
    + intros z l [<-|Hz] Hl.
      * rewrite Hout2; [now apply Hin1|].
        right. intros [Hin _]. contradiction.
      * assert (Hne : z <> z0) by (intros ->; contradiction).
        apply Hin2; auto. now rewrite Hls.
    + intros z c l Hcl.
      destruct (string_dec z z0) as [->|Hne].
      * rewrite Hout2 by (right; intros [Hin _]; contradiction).
        apply Hout1. destruct Hcl as [H|H]; auto.
        right. intros Hl. apply H. split; auto. now left.
      * rewrite Hout2.
        -- apply camera_reads_on_view. now apply Hv1.
        -- destruct Hcl as [H|H]; auto. right. intros [Hz Hl]. apply H.
           split; [now right|]. now rewrite <- Hls.
Qed.

(** What the zone stage leaves in [zone_data], for a
    configuration that names each zone once: for every (zone, label)
    pair it examines, the entry of the camera reads ON exactly when the
    label is in the zone's list for this snapshot; its entries for the
    other pairs, and all entries of the other cameras, read as before.
    Entries are read as the aggregate reads them, a missing one as OFF. *)
Theorem zone_stage_records_membership E camera coiz w :
  Dict.uniq_keys (zone_config E) = true ->
  let w' := snd (report_zones E camera coiz w) in
  let pairs := examined E w camera coiz in
  (forall zone l, In (zone, l) pairs ->
     camera_reads_on w' zone camera l =
     existsb (String.eqb l) (labels_in zone coiz)) /\
  (forall zone l, ~ In (zone, l) pairs ->
     camera_reads_on w' zone camera l = camera_reads_on w zone camera l) /\
  (forall zone c l, c <> camera ->
     camera_reads_on w' zone c l = camera_reads_on w zone c l).
Proof.
  intros Hu. cbv zeta. unfold report_zones, examined.
  destruct (zone_loop_entries E camera coiz (relevant_zones E camera) w
              (relevant_zones_NoDup E camera Hu)) as [Hin Hout].
  cbv zeta in *. split; [|split].
  - intros zone l Hp. apply in_pairs in Hp as [Hz Hl]. now apply Hin.
  - intros zone l Hp. apply Hout. right. intros H. apply Hp.
    now apply in_pairs.
  - intros zone c l Hne. apply Hout. now left.
Qed.

(** ** A snapshot that changes no membership *)

Lemma edge_messages_same E zone l b : edge_messages E zone l b b = [].
Proof. unfold edge_messages. now destruct b. Qed.

Lemma label_loop_settled E camera zone present ls : forall w,
  (forall l, In l ls ->
     camera_reads_on w zone camera l = existsb (String.eqb l) present) ->
  let r := for_each ls (report_label E camera zone present) w in
  published (snd r) = published w /\
  (forall l, zone_or (snd r) zone l = zone_or w zone l) /\
  (forall c l, camera_reads_on (snd r) zone c l = camera_reads_on w zone c l) /\
  (forall z, z <> zone -> zone_view (snd r) z = zone_view w z).
Proof.
  induction ls as [|l0 ls IH]; intros w Hset; cbv zeta.
  - repeat split; reflexivity.
  - destruct (report_label_spec E camera zone present l0 w)
      as (H1 & Hp1 & Ho1 & Hv1).
    rewrite (for_each_cons_run _ _ _ _ H1).
    pose proof (report_label_settled E camera zone present l0 w
                  (Hset l0 (or_introl eq_refl))) as Hl0.
    assert (He1 : forall c l,
              camera_reads_on (snd (report_label E camera zone present l0 w))
                zone c l = camera_reads_on w zone c l).
    { intros c l. rewrite report_label_entries.
      destruct (String.eqb_spec c camera) as [->|]; auto.
      destruct (String.eqb_spec l l0) as [->|]; auto.
      cbn [andb]. symmetry. apply Hset. now left. }
    set (w1 := snd (report_label E camera zone present l0 w)) in *.
    destruct (IH w1) as (Hp2 & Ho2 & He2 & Hv2).
    { intros l Hl. rewrite He1. apply Hset. now right. }
    cbv zeta in *. split; [|split; [|split]].
    + rewrite Hp2, Hp1, Hl0, edge_messages_same. apply app_nil_r.
    + intros l. rewrite Ho2. destruct (string_dec l l0) as [->|Hne]; auto.
    + intros c l. now rewrite He2, He1.
    + intros z Hne. now rewrite Hv2, Hv1.
Qed.

Lemma report_zone_settled E camera coiz zone w :
  (forall l, In l (labels_for_zone E w camera coiz zone) ->
     camera_reads_on w zone camera l =
     existsb (String.eqb l) (labels_in zone coiz)) ->
  let r := report_zone E camera coiz zone w in
  published (snd r) = published w /\
  (forall l, zone_or (snd r) zone l = zone_or w zone l) /\
  (forall c l, camera_reads_on (snd r) zone c l = camera_reads_on w zone c l) /\
  (forall z, z <> zone -> zone_view (snd r) z = zone_view w z).
Proof.
  intros Hset. cbv zeta.
  destruct (report_zone_start E camera coiz zone w)
    as (-> & He & Ho & Hv & Hp).
  cbv zeta in *.
  destruct (label_loop_settled E camera zone (labels_in zone coiz)
              (labels_for_zone E w camera coiz zone)
              (snd (with_zone_status zone (status_keys camera) w)))
    as (Hp2 & Ho2 & He2 & Hv2).
  { intros l Hl. rewrite He. now apply Hset. }
  cbv zeta in *. split; [|split; [|split]].
  - now rewrite Hp2.
  - intros l. now rewrite Ho2.
  - intros c l. now rewrite He2.
  - intros z Hne. now rewrite Hv2, Hv.
Qed.

Lemma zone_loop_settled E camera coiz zs : forall w,
  NoDup zs ->
  (forall z l, In z zs -> In l (labels_for_zone E w camera coiz z) ->
     camera_reads_on w z camera l = existsb (String.eqb l) (labels_in z coiz)) ->
  let r := for_each zs (report_zone E camera coiz) w in
  published (snd r) = published w /\
  (forall z l, zone_or (snd r) z l = zone_or w z l) /\
  (forall z c l, camera_reads_on (snd r) z c l = camera_reads_on w z c l).
Proof.
  induction zs as [|z0 zs IH]; intros w Hnd Hset; cbv zeta.
  - repeat split; reflexivity.
  - inversion Hnd as [|? ? Hnotin Hnd']; subst.
    destruct (report_zone_spec E camera coiz z0 w) as (H1 & _).
    rewrite (for_each_cons_run _ _ _ _ H1).
    destruct (report_zone_settled E camera coiz z0 w)
      as (Hp1 & Ho1 & He1 & Hv1).
    { intros l Hl. apply Hset; auto. now left. }
    cbv zeta in *.
    set (w1 := snd (report_zone E camera coiz z0 w)) in *.
    assert (Hor : forall z l, zone_or w1 z l = zone_or w z l).
    { intros z l. destruct (string_dec z z0) as [->|Hne]; auto.
      apply zone_or_view. now rewrite Hv1. }
    assert (Hen : forall z c l, camera_reads_on w1 z c l = camera_reads_on w z c l).
    { intros z c l. destruct (string_dec z z0) as [->|Hne]; auto.
      apply camera_reads_on_view. now apply Hv1. }
    destruct (IH w1 Hnd') as (Hp2 & Ho2 & He2).
    { intros z l Hz Hl.
      assert (Hne : z <> z0) by (intros ->; contradiction).
      rewrite Hen. apply Hset; [now right|].
      now rewrite <- (labels_for_zone_view E w1 w) by now apply Hv1. }
    cbv zeta in *. split; [|split].
    + now rewrite Hp2.
    + intros z l. now rewrite Ho2.
    + intros z c l. now rewrite He2.
Qed.

Lemma unlisted_reads_off l (m : Dict.t status) :
  ~ In l (Dict.keys m) -> reads_on l m = false.
Proof.
  intros Hn. rewrite reads_on_get.
  destruct (Dict.get l m) eqn:Hg; auto.
  exfalso. apply Hn. apply mem_keys. unfold Dict.mem. now rewrite Hg.
Qed.

Lemma zones_settled_data E w1 w camera coiz :
  zone_data w1 = zone_data w ->
  zones_settled E w camera coiz -> zones_settled E w1 camera coiz.
Proof.
  intros Hd Hs z l Hz Hl.
  rewrite (camera_reads_on_view w1 w) by now apply zone_view_data.
  apply Hs; auto.
  now rewrite <- (labels_for_zone_view E w1 w) by now apply zone_view_data.
Qed.

Lemma report_zones_settled E camera coiz w :
  Dict.uniq_keys (zone_config E) = true ->
  zones_settled E w camera coiz ->
  let r := report_zones E camera coiz w in
  fst r = Ok tt /\
  published (snd r) = published w /\
  (forall z l, zone_or (snd r) z l = zone_or w z l) /\
  (forall z c l, camera_reads_on (snd r) z c l = camera_reads_on w z c l).
Proof.
  intros Hu Hs. cbv zeta. split.
  - apply (report_zones_spec E camera coiz w Hu).
  - unfold report_zones. apply zone_loop_settled; auto.
    now apply relevant_zones_NoDup.
Qed.

(** The zone stage leaves the status settled. *)
Lemma report_zones_settles E camera coiz w :
  Dict.uniq_keys (zone_config E) = true ->
  zones_settled E (snd (report_zones E camera coiz w)) camera coiz.
Proof.
  intros Hu. unfold report_zones.
  pose proof (relevant_zones_NoDup E camera Hu) as Hnd.
  destruct (zone_loop_entries E camera coiz (relevant_zones E camera) w Hnd)
    as [Hin Hout].
  cbv zeta in *.
  set (w1 := snd (for_each (relevant_zones E camera)
                    (report_zone E camera coiz) w)) in *.
  intros z l Hz Hl.
  destruct (in_dec string_dec l (labels_for_zone E w camera coiz z)) as [H|H].
  - now apply Hin.
  - rewrite Hout by (right; intros [_ H']; contradiction).
    unfold labels_for_zone in H. rewrite set_iter_In, in_app_iff in H.
    assert (Hlist : existsb (String.eqb l) (labels_in z coiz) = false).
    { destruct (existsb (String.eqb l) (labels_in z coiz)) eqn:Hx; auto.
      apply existsb_eqb_In in Hx. exfalso. apply H. now left. }
    rewrite Hlist. unfold camera_reads_on, entry_on.
    apply unlisted_reads_off. intros Hk. apply H. now right.
Qed.

(** The zone stage is idempotent, for a configuration that names each
    zone once: run again on the state it left, for the same camera and
    the same membership map, it publishes nothing and changes no entry
    and no aggregate. *)
Theorem zone_stage_idempotent E camera coiz w :
  Dict.uniq_keys (zone_config E) = true ->
  let w1 := snd (report_zones E camera coiz w) in
  let w2 := snd (report_zones E camera coiz w1) in
  published w2 = published w1 /\
  (forall zone l, zone_or w2 zone l = zone_or w1 zone l) /\
  (forall zone c l, camera_reads_on w2 zone c l = camera_reads_on w1 zone c l).
Proof.
  intros Hu. cbv zeta.
  apply (report_zones_settled E camera coiz _ Hu).
  now apply report_zones_settles.
Qed.

(** ** Invariants of a camera's entry *)

Section ViewInvariant.

Variable K : Camera.data -> Prop.
Variable c : string.

Lemma preserves_view_entry camera :
  preserves (fun w => K (camera_view w c)) (camera_entry camera).
Proof. intros w Hw. now rewrite camera_view_entry. Qed.

Lemma preserves_view_update camera f :
  (forall d, K d -> K (f d)) ->
  preserves (fun w => K (camera_view w c)) (update_camera camera f).
Proof.
  intros Hf w Hw. rewrite camera_view_update.
  destruct (String.eqb_spec c camera) as [->|]; auto.
Qed.

Lemma preserves_view_unchanged {A} (m : M A) :
  unchanged camera_data m -> preserves (fun w => K (camera_view w c)) m.
Proof. intros H w Hw. unfold camera_view. rewrite H. exact Hw. Qed.

Hypothesis K_tracked : forall v d, K d -> K (Camera.set_tracked_objects v d).
Hypothesis K_time : forall v d, K d -> K (Camera.set_current_frame_time v d).
Hypothesis K_frame : forall v d, K d -> K (Camera.set_current_frame v d).
Hypothesis K_id : forall v d, K d -> K (Camera.set_object_id v d).
Hypothesis K_best : forall r d,
  K d ->
  K (Camera.set_best_objects (Dict.set (label r) r (Camera.best_objects d)) d).
Hypothesis K_status : forall l s d,
  K d ->
  K (Camera.set_object_status (Dict.set l s (Camera.object_status d)) d).

Lemma preserves_view_presence E owner camera objs :
  preserves (fun w => K (camera_view w c)) (report_presence E owner camera objs).
Proof.
  unfold report_presence, report_detected, report_expired, publish_snapshot,
    set_presence.
  repeat pres_step
    ltac:(first [ apply preserves_view_entry
                | apply preserves_view_update; intros d Hd; cbv beta;
                  apply K_status; exact Hd
                | apply preserves_view_unchanged; solve [keep] ]).
Qed.

Lemma preserves_view_process E item :
  preserves (fun w => K (camera_view w c)) (process E item).
Proof.
  destruct item as [[owner t] objs]. unfold_process.
  repeat pres_step
    ltac:(first [ apply preserves_view_entry
                | apply preserves_view_update; intros d Hd; cbv beta;
                  first [ apply K_tracked | apply K_time | apply K_frame
                        | apply K_id | apply K_best | apply K_status ];
                  exact Hd
                | apply preserves_view_unchanged; solve [keep] ]).
Qed.

Lemma preserves_view_get_best camera l :
  preserves (fun w => K (camera_view w c)) (get_best camera l).
Proof.
  unfold get_best.
  repeat pres_step
    ltac:(first [ apply preserves_view_entry
                | apply preserves_view_unchanged; solve [keep] ]).
Qed.

Lemma preserves_view_get_current_frame camera :
  preserves (fun w => K (camera_view w c)) (get_current_frame camera).
Proof.
  unfold get_current_frame.
  repeat pres_step
    ltac:(first [ apply preserves_view_entry
                | apply preserves_view_unchanged; solve [keep] ]).
Qed.

End ViewInvariant.

Lemma entry_ok_best r d :
  entry_ok d ->
  entry_ok (Camera.set_best_objects
              (Dict.set (label r) r (Camera.best_objects d)) d).
Proof.
  intros (Hl & Hb & Hs). unfold entry_ok. cbn. repeat split; auto.
  - apply Forall_set_key; auto.
  - now apply NoDup_keys_set.
Qed.

Lemma entry_ok_status l s d :
  entry_ok d ->
  entry_ok (Camera.set_object_status
              (Dict.set l s (Camera.object_status d)) d).
Proof.
  intros (Hl & Hb & Hs). unfold entry_ok. cbn. repeat split; auto.
  now apply NoDup_keys_set.
Qed.

(** In every state the processor can reach, each camera's entry
    holds every best-sighting record under the record's own label, and
    its dict of records and its dict of presence status hold each key
    once (so the presence stage always finds the status dict as it
    needs it). *)
Theorem reachable_entries_ok E w :
  reachable E w -> forall c, entry_ok (camera_view w c).
Proof.
  intros Hw c. induction Hw as [w H| | | |].
  - unfold camera_view. rewrite H. cbn. repeat split; constructor.
  - apply (preserves_view_process entry_ok c); auto.
    + apply entry_ok_best.
    + apply entry_ok_status.
  - now apply (preserves_view_get_best entry_ok c).
  - now apply (preserves_view_get_current_frame entry_ok c).
  - exact IHHw.
Qed.

(** ** The presence stage on an unchanged snapshot *)

Lemma flat_map_all_nil {A B} (f : A -> list B) l :
  (forall x, In x l -> f x = []) -> flat_map f l = [].
Proof.
  induction l as [|x l IH]; intros H; cbn [flat_map]; auto.
  rewrite H by now left. apply IH. intros y Hy. apply H. now right.
Qed.

Lemma filter_all_false {A} (f : A -> bool) l :
  (forall x, In x l -> f x = false) -> filter f l = [].
Proof.
  induction l as [|x l IH]; intros H; cbn [filter]; auto.
  rewrite H by now left. apply IH. intros y Hy. apply H. now right.
Qed.

Lemma report_presence_settled E owner camera objs w :
  Dict.uniq_keys (Camera.object_status (camera_view w owner)) = true ->
  presence_settled w owner objs ->
  let r := report_presence E owner camera objs w in
  fst r = Ok tt /\
  published (snd r) = published w /\
  forall l, presence_of (snd r) owner l = presence_of w owner l.
Proof.
  intros Hu Hset. cbv zeta.
  set (counter := count_objects objs) in *.
  assert (Hnd : NoDup (Dict.keys (Camera.object_status (camera_view w owner))))
    by now apply uniq_keys_NoDup.
  assert (Hcounted : forall e, In e counter ->
            presence_of w owner (fst e) = Some ON).
  { intros [l n] Hin. apply Hset. cbn [fst].
    apply mem_keys. unfold Dict.keys. apply in_map_iff. now exists (l, n). }
  assert (Hexp : expired_objects (Camera.object_status (camera_view w owner))
                   counter = []).
  { destruct (expired_objects _ counter) as [|l ls] eqn:Hx; auto.
    assert (Hin : In l (expired_objects
                          (Camera.object_status (camera_view w owner)) counter))
      by (rewrite Hx; now left).
    apply in_expired_objects in Hin as [Hg Hm]; auto.
    apply Hset in Hg. unfold counter in Hm. congruence. }
  assert (Hdet : forall e, In e counter ->
            status_differs ON (presence_of w owner (fst e)) = false).
  { intros e He. now rewrite Hcounted. }
  assert (Hok : fst (report_presence E owner camera objs w) = Ok tt).
  { apply report_presence_ok. unfold in_transition. fold counter.
    rewrite Hexp, filter_all_false by assumption. reflexivity. }
  destruct (report_presence_spec E owner camera objs w Hu Hok)
    as (_ & Hpres & Hpub & _).
  cbv zeta in Hpres, Hpub. fold counter in Hpres, Hpub.
  split; [assumption|]. split.
  - rewrite Hpub, Hexp. cbn [flat_map]. rewrite app_nil_r.
    rewrite flat_map_all_nil; [apply app_nil_r|].
    intros e He. unfold detected_messages. now rewrite Hdet.
  - intros l. rewrite Hpres.
    destruct (Dict.mem l counter) eqn:Hm.
    + symmetry. now apply Hset.
    + destruct (presence_of w owner l) as [[|]|] eqn:Hp; auto.
      apply Hset in Hp. unfold counter in Hm. congruence.
Qed.

(** The presence stage, when it returns, leaves the status settled. *)
Lemma report_presence_settles E owner camera objs w :
  Dict.uniq_keys (Camera.object_status (camera_view w owner)) = true ->
  fst (report_presence E owner camera objs w) = Ok tt ->
  presence_settled (snd (report_presence E owner camera objs w)) owner objs.
Proof.
  intros Hu Hok l.
  destruct (report_presence_spec E owner camera objs w Hu Hok)
    as (_ & Hpres & _).
  cbv zeta in Hpres. rewrite Hpres.
  destruct (Dict.mem l (count_objects objs)); [tauto|].
  destruct (presence_of w owner l) as [[|]|]; split; discriminate.
Qed.

Lemma report_presence_keeps_keys E owner camera objs w :
  Dict.uniq_keys (Camera.object_status (camera_view w owner)) = true ->
  Dict.uniq_keys
    (Camera.object_status
       (camera_view (snd (report_presence E owner camera objs w)) owner)) = true.
Proof.
  intros Hu. apply uniq_keys_NoDup.
  apply (preserves_view_presence
           (fun d => NoDup (Dict.keys (Camera.object_status d))) owner).
  - intros l s d Hd. cbn. now apply NoDup_keys_set.
  - now apply uniq_keys_NoDup.
Qed.

(** The presence stage is idempotent: from a state whose status dict
    holds each key once, when the stage returns normally, running it
    again for the same tracked objects returns normally, publishes
    nothing and leaves the presence status of every label as it is. *)
Theorem presence_stage_idempotent E owner camera objs w :
  Dict.uniq_keys (Camera.object_status (camera_view w owner)) = true ->
  fst (report_presence E owner camera objs w) = Ok tt ->
  let w1 := snd (report_presence E owner camera objs w) in
  let r2 := report_presence E owner camera objs w1 in
  fst r2 = Ok tt /\
  published (snd r2) = published w1 /\
  forall l, presence_of (snd r2) owner l = presence_of w1 owner l.
Proof.
  intros Hu Hok. cbv zeta. apply report_presence_settled.
  - now apply report_presence_keeps_keys.
  - now apply report_presence_settles.
Qed.

(** ** A presence edge without a best record (lines 206-212) *)

(** A label that is counted, whose presence status is not ON, and
    for which the camera has no best-sighting record: the status is set
    to ON and the ON message is published, and then line 212 raises the
    KeyError of the label.  (A tracked object that was never seen on
    the frame of an item of its camera has more than one entry of
    history and no record.) *)
Theorem presence_edge_needs_record E owner camera l count w :
  (0 < count)%nat ->
  presence_of w owner l <> Some ON ->
  best_of w owner l = None ->
  let r := report_detected E owner camera (l, count) w in
  fst r = Raise (KeyError l) /\
  published (snd r) = published w ++ [presence_message E camera l ON] /\
  presence_of (snd r) owner l = Some ON.
Proof.
  intros Hc Hp Hb. cbv zeta.
  pose proof (report_detected_spec E owner camera l count w) as H.
  cbv zeta in H. apply Nat.ltb_lt in Hc. rewrite Hc in H.
  assert (Hd : status_differs ON (presence_of w owner l) = true).
  { destruct (presence_of w owner l) as [[|]|]; try reflexivity. now elim Hp. }
  rewrite Hd, Hb in H. destruct H as (Hv & Hf & Hpub).
  unfold transition_outcome, snapshot_outcome in Hf, Hpub. cbn in Hf, Hpub.
  split; [assumption|]. split; [assumption|].
  unfold presence_of. rewrite Hv, String.eqb_refl. cbn.
  apply get_set_same.
Qed.

(** ** The messages of a loop body *)

Lemma appends_weaken {A} (P Q : message -> Prop) (m : M A) :
  (forall x, P x -> Q x) -> appends P m -> appends Q m.
Proof.
  intros H Hm w. destruct (Hm w) as (rest & Hr & Hf).
  exists rest. split; auto. eapply Forall_impl; eauto.
Qed.

Ltac app_step prim :=
  lazymatch goal with
  | |- appends _ (bind _ _) => apply appends_bind; [|intros]
  | |- appends _ (for_each _ _) => apply appends_for_each; intros
  | |- appends _ (let _ := _ in _) => cbv zeta
  | |- appends _ (match ?x with _ => _ end) => destruct x
  | |- appends _ (publish _ _ _) => apply appends_publish; prim
  | |- appends _ _ => apply appends_unchanged; solve [keep]
  end.

(** What a loop body publishes, whatever the item and the state
    and whether or not the body raises: it only appends to what was
    published, and each message it appends is ON or OFF, not retained,
    on [{prefix}/{zone}/{label}] or [{prefix}/{camera}/{label}], or a
    retained JPEG on [{prefix}/{camera}/{label}/snapshot]. *)
Theorem loop_body_messages E item :
  appends (loop_message E) (process E item).
Proof.
  destruct item as [[owner t] objs]. unfold_process.
  repeat app_step
    ltac:(first
      [ left; do 3 eexists; split; [|reflexivity]; auto; fail
      | right; eexists; eexists; left; eexists; reflexivity
      | right; eexists; eexists; left; eexists; apply presence_message_eq
      | right; eexists; eexists; right; eexists; reflexivity ]).
Qed.

(** ** The colour table (lines 19-23) *)

Lemma find_app {A} (f : A -> bool) l1 l2 :
  find f (l1 ++ l2) =
  match find f l1 with Some x => Some x | None => find f l2 end.
Proof.
  induction l1 as [|x l1 IH]; cbn [app find]; auto.
  now destruct (f x).
Qed.

Lemma color_map_fold (color : Z -> rgb) l : forall items m,
  Dict.get l (fold_left (fun m kv => Dict.set (snd kv) (color (fst kv)) m)
                items m) =
  match find (fun kv => String.eqb l (snd kv)) (rev items) with
  | Some kv => Some (color (fst kv))
  | None => Dict.get l m
  end.
Proof.
  induction items as [|[key val] items IH]; intros m; cbn [fold_left rev].
  - reflexivity.
  - rewrite IH, find_app. cbn [fst snd find].
    destruct (find _ (rev items)); [reflexivity|].
    destruct (String.eqb_spec l val) as [->|Hne].
    + apply get_set_same.
    + apply get_set_other. congruence.
Qed.

(** The colour table the module builds from the label map: a
    label has a colour exactly when it is a label of the map, and its
    colour is the 'tab10' colour, for a palette of as many entries as
    the map has, of the last id the map gives that label. *)
Theorem color_map_of_labels B LABELS l :
  Dict.get l (color_map B LABELS) =
  match find (fun kv => String.eqb l (snd kv)) (rev LABELS) with
  | Some kv => Some (tab10 B (List.length LABELS) (fst kv))
  | None => None
  end /\
  (Dict.mem l (color_map B LABELS) = true <-> In l (map snd LABELS)).
Proof.
  unfold color_map.
  pose proof (color_map_fold (tab10 B (List.length LABELS)) l LABELS []) as H.
  cbn [Dict.get] in H. split; [exact H|].
  unfold Dict.mem. rewrite H.
  destruct (find _ (rev LABELS)) as [kv|] eqn:Hf.
  - split; auto. intros _. apply find_some in Hf as [Hin Heq].
    apply String.eqb_eq in Heq. subst. apply in_map. now apply in_rev.
  - split; [discriminate|]. intros Hin.
    apply in_map_iff in Hin as (kv & <- & Hin).
    apply in_rev in Hin. apply (find_none _ _ Hf) in Hin.
    now rewrite String.eqb_refl in Hin.
Qed.

(** ** The counter of the presence stage (lines 200-203) *)

Lemma count_fold l objs : forall c,
  Dict.get l
    (fold_left
       (fun c obj =>
          if (1 <? List.length (history obj))%nat
          then count_label (label obj) c else c) objs c) =
  match stable_count objs l, Dict.get l c with
  | O, v => v
  | n, Some k => Some (k + n)%nat
  | n, None => Some n
  end.
Proof.
  unfold stable_count.
  induction objs as [|obj objs IH]; intros c; cbn [fold_left filter].
  - reflexivity.
  - rewrite IH. clear IH.
    destruct (1 <? List.length (history obj))%nat; cbn [andb];
      [|reflexivity].
    unfold count_label.
    destruct (String.eqb_spec l (label obj)) as [->|Hne].
    + rewrite get_set_same. cbn [List.length].
      destruct (List.length (filter _ objs)) as [|n];
        destruct (Dict.get (label obj) c) as [k|]; f_equal; lia.
    + rewrite get_set_other by congruence. reflexivity.
Qed.

(** The counter of the presence stage: a label is a key of it
    exactly when some tracked object of the label has more than one
    entry of history, and its count is the number of such objects (so
    every count is positive, and the test [count > 0] of line 207 never
    yields OFF). *)
Theorem counter_counts_stable_objects objs l :
  Dict.get l (count_objects objs) =
  match stable_count (Dict.values objs) l with
  | O => None
  | n => Some n
  end.
Proof.
  unfold count_objects. rewrite count_fold. cbn [Dict.get].
  now destruct (stable_count (Dict.values objs) l).
Qed.

(** ** The picture of a best-sighting record (lines 153, 172, 175) *)

Lemma update_best_record E owner camera t key obj w :
  let w' := snd (update_best E owner camera t (key, obj) w) in
  Camera.current_frame (camera_view w' camera) =
  Camera.current_frame (camera_view w camera) /\
  forall l,
    best_of w' owner l = best_of w owner l \/
    (label obj = l /\ seen_at t obj = true /\
     best_of w' owner l =
     Some (set_frame (Camera.current_frame (camera_view w camera)) obj)).
Proof.
  cbv zeta. split.
  - enough (H : unchanged (fun w => Camera.current_frame (camera_view w camera))
                  (update_best E owner camera t (key, obj))) by apply H.
    unfold update_best, store_best. keep.
  - intros l. destruct (seen_at t obj) eqn:Hs.
    + rewrite (update_best_seen E owner camera t key obj w Hs).
      set (w1 := snd (camera_entry owner w)).
      set (w2 := set_clock_reads (S (clock_reads w)) w1).
      assert (Hv : forall c, camera_view w1 c = camera_view w c)
        by (intros c; apply camera_view_entry).
      assert (Hv2 : forall c, camera_view w2 c = camera_view w c)
        by (intros c; rewrite <- Hv; reflexivity).
      assert (Hstore : forall w0,
                (forall c, camera_view w0 c = camera_view w c) ->
                best_of (snd (store_best owner camera key obj w0)) owner l =
                best_of w owner l \/
                (label obj = l /\ true = true /\
                 best_of (snd (store_best owner camera key obj w0)) owner l =
                 Some (set_frame (Camera.current_frame (camera_view w camera))
                         obj))).
      { intros w0 H0.
        destruct (store_best_spec owner camera key obj w0)
          as (_ & Hnew & Hoth & _).
        cbv zeta in Hnew, Hoth. rewrite H0 in Hnew.
        destruct (string_dec (label obj) l) as [<-|Hne].
        - right. auto.
        - left. rewrite Hoth by (right; congruence).
          unfold best_of. now rewrite H0. }
      destruct (best_of w owner (label obj)) as [old|].
      * destruct (Qltb _ _ || Qltb _ _); [now apply Hstore|].
        left. cbn [snd]. unfold best_of. now rewrite Hv2.
      * now apply Hstore.
    + rewrite update_best_stale by assumption. now left.
Qed.

Lemma best_loop_records E owner camera t objs : forall w,
  let w' := snd (for_each objs (update_best E owner camera t) w) in
  forall l,
    best_of w' owner l = best_of w owner l \/
    exists key obj, In (key, obj) objs /\ label obj = l /\
      seen_at t obj = true /\
      best_of w' owner l =
      Some (set_frame (Camera.current_frame (camera_view w camera)) obj).
Proof.
  induction objs as [|[key obj] objs IH]; intros w; cbv zeta; intros l.
  - now left.
  - rewrite (for_each_cons_run _ _ _ _
               (update_best_ok E owner camera t (key, obj) w)).
    destruct (update_best_record E owner camera t key obj w) as [Hf H1].
    cbv zeta in Hf, H1.
    set (w1 := snd (update_best E owner camera t (key, obj) w)) in *.
    destruct (IH w1 l) as [H2|(key' & obj' & Hin & Hl & Hs & H2)].
    + rewrite H2. destruct (H1 l) as [H|(Hl & Hs & H)]; [now left|].
      right. exists key, obj. repeat split; auto. now left.
    + right. exists key', obj'. rewrite <- Hf. repeat split; auto. now right.
Qed.

(** Where the picture of a best-sighting record comes from.  A
    loop body that does not get past the drawing stage leaves the
    records as they were.  Otherwise the record of a label is, at the
    end of the body, either the record from before or a tracked object
    of the item with that label, seen on the item's frame, that carries
    as its 'frame' the frame composited for this item, or, when the
    store did not have the item's frame, the frame that was current for
    the camera before (the black frame when there was none). *)
Theorem record_carries_current_frame E owner t objs w :
  let w' := snd (process E (owner, t, objs) w) in
  match reaches_zones E (owner, t, objs) w with
  | None => forall l, best_of w' owner l = best_of w owner l
  | Some (_, camera) =>
      forall l,
        best_of w' owner l = best_of w owner l \/
        exists obj, In obj (Dict.values objs) /\ label obj = l /\
          frame_time obj == t /\
          best_of w' owner l =
          Some (set_frame (record_frame E (owner, t, objs) w camera) obj)
  end.
Proof.
  cbv zeta. rewrite process_stages. unfold reaches_zones, record_frame, composite.
  pose proof (begin_item_fst E owner t objs w) as Hfst.
  pose proof (begin_item_keeps E zone_data owner t objs (fun _ _ => eq_refl) w) as Hz.
  pose proof (begin_item_keeps E plasma owner t objs (fun _ _ => eq_refl) w) as Hpl.
  assert (Hb0 : forall c, Camera.best_objects
                   (camera_view (snd (begin_item E owner t objs w)) c) =
                 Camera.best_objects (camera_view w c)).
  { intros c. exact (begin_item_keeps_view E Camera.best_objects owner t objs c
                       (fun _ _ => eq_refl) (fun _ _ => eq_refl) w). }
  assert (Hf0 : forall c, Camera.current_frame
                   (camera_view (snd (begin_item E owner t objs w)) c) =
                 Camera.current_frame (camera_view w c)).
  { intros c. exact (begin_item_keeps_view E Camera.current_frame owner t objs c
                       (fun _ _ => eq_refl) (fun _ _ => eq_refl) w). }
  destruct (begin_item E owner t objs w) as [[settings|e] w0]; cbn [fst snd] in *;
    rewrite <- Hfst; [|intros l; unfold best_of; now rewrite Hb0].
  rewrite Hz.
  destruct (classify E (zone_data w) objs owner) as [[coiz camera]|e];
    [|intros l; unfold best_of; now rewrite Hb0].
  assert (Hlater : forall w1 l,
            best_of
              (snd ((for_each objs (update_best E owner camera t) ;;
                     report_zones E camera coiz ;;
                     report_presence E owner camera objs) w1)) owner l =
            best_of w1 owner l \/
            exists obj, In obj (Dict.values objs) /\ label obj = l /\
              frame_time obj == t /\
              best_of
                (snd ((for_each objs (update_best E owner camera t) ;;
                       report_zones E camera coiz ;;
                       report_presence E owner camera objs) w1)) owner l =
              Some (set_frame (Camera.current_frame (camera_view w1 camera)) obj)).
  { intros w1 l.
    pose proof (for_each_ok objs (update_best E owner camera t)
                  (update_best_ok E owner camera t) w1) as Hok.
    rewrite (bind_ok _ _ _ _ _ (run_ok _ _ _ Hok)).
    set (w2 := snd (for_each objs
                      (update_best E owner camera t) w1)).
    assert (Hk : best_of
                   (snd ((report_zones E camera coiz ;;
                          report_presence E owner camera objs) w2)) owner l =
                 best_of w2 owner l).
    { unfold best_of.
      enough (H : unchanged (fun w => Camera.best_objects (camera_view w owner))
                    (report_zones E camera coiz ;;
                     report_presence E owner camera objs)) by now rewrite H.
      unfold report_zones, report_zone, report_label, report_presence,
        report_detected, report_expired, publish_snapshot, set_presence.
      keep. }
    rewrite Hk.
    destruct (best_loop_records E owner camera t objs w1 l)
      as [H|(key & obj & Hin & Hl & Hs & H)]; [now left|].
    right. exists obj. repeat split; auto.
    - unfold Dict.values. apply in_map_iff. now exists (key, obj).
    - now apply Qeq_bool_iff. }
  destruct (plasma w (frame_key E camera t)) as [img|] eqn:Hget.
  - rewrite <- Hpl, <- Hz in *.
    destruct (annotate E settings (zone_data w0) camera t objs coiz img)
      as [img'|e] eqn:Hann.
    + destruct (update_current_frame_composites E settings camera t objs coiz
                  w0 img img' Hget Hann) as (Hok & Hv & _).
      destruct (update_current_frame E settings camera t objs coiz w0)
        as [[[]|e] w1]; cbn [fst snd] in *; [|discriminate].
      intros l. destruct (Hlater w1 l) as [H|(obj & Hin & Hl & Hs & H)].
      * left. rewrite H. unfold best_of. rewrite Hv.
        destruct (String.eqb_spec owner camera) as [->|]; cbn; now rewrite Hb0.
      * right. exists obj. repeat split; auto. rewrite H, Hv, String.eqb_refl.
        reflexivity.
    + rewrite (update_current_frame_raises E settings camera t objs coiz
                 w0 img e Hget Hann). cbn [snd].
      intros l. unfold best_of. now rewrite Hb0.
  - rewrite <- Hpl in Hget.
    rewrite (update_current_frame_unavailable E settings camera t objs coiz
               w0 Hget).
    intros l. destruct (Hlater w0 l) as [H|(obj & Hin & Hl & Hs & H)].
    + left. rewrite H. unfold best_of. now rewrite Hb0.
    + right. exists obj. repeat split; auto. now rewrite H, Hf0.
Qed.

(** ** The classification reads the contours only *)

Lemma obind_ok {A} (o : outcome A) : obind o Ok = o.
Proof. now destruct o. Qed.

Lemma ofold_append {A S} (body : S -> A -> outcome S) l1 l2 s :
  ofold body (l1 ++ l2) s = obind (ofold body l1 s) (ofold body l2).
Proof.
  revert s. induction l1 as [|x l1 IH]; intros s; cbn [app ofold obind]; auto.
  destruct (body s x) as [s1|e]; cbn [obind]; auto.
Qed.

Lemma classify_object_entry E zone zd vars obj :
  classify_object E (snd (Dict.get_default Zone.fresh zone zd)) vars obj =
  classify_object E zd vars obj.
Proof.
  unfold classify_object, Dict.get_default.
  destruct (Dict.get zone zd); cbn [snd]; auto.
  rewrite ofold_append. cbn [ofold classify_zone Zone.contours Zone.fresh].
  cbn [obind]. apply obind_ok.
Qed.

Lemma classify_object_status E zone os d zd : forall vars obj,
  Dict.get zone zd = Some d ->
  classify_object E (Dict.set zone (Zone.set_object_status os d) zd) vars obj =
  classify_object E zd vars obj.
Proof.
  unfold classify_object.
  induction zd as [|[k v] zd IH]; intros vars obj; cbn [Dict.get Dict.set];
    [discriminate|].
  destruct (String.eqb zone k).
  - intros [= ->]. reflexivity.
  - intros Hg. cbn [ofold].
    destruct (classify_zone E obj vars (k, v)) as [v1|e]; cbn [obind]; auto.
Qed.

Section ClassificationInvariant.

Variable E : env.
Variable zd0 : Dict.t Zone.data.

Lemma preserves_classification_with_status {A} zone
    (f : Dict.t (Dict.t status) -> A * Dict.t (Dict.t status)) :
  preserves
    (fun w => forall vars obj,
       classify_object E (zone_data w) vars obj = classify_object E zd0 vars obj)
    (with_zone_status zone f).
Proof.
  intros w Hw. unfold with_zone_status, zone_entry, bind, modify, ret.
  pose proof (get_default_present Zone.fresh zone (zone_data w)) as Hg.
  pose proof (fun vars obj =>
                classify_object_entry E zone (zone_data w) vars obj) as He.
  destruct (Dict.get_default Zone.fresh zone (zone_data w)) as [d zd].
  cbn [fst snd] in *.
  destruct (f (Zone.object_status d)) as [a os]. cbn [snd zone_data set_zone_data].
  intros vars obj. rewrite classify_object_status by assumption.
  now rewrite He.
Qed.

Lemma preserves_classification_unchanged {A} (m : M A) :
  unchanged zone_data m ->
  preserves
    (fun w => forall vars obj,
       classify_object E (zone_data w) vars obj = classify_object E zd0 vars obj)
    m.
Proof. intros H w Hw. now rewrite H. Qed.

Lemma preserves_classification_process item :
  preserves
    (fun w => forall vars obj,
       classify_object E (zone_data w) vars obj = classify_object E zd0 vars obj)
    (process E item).
Proof.
  destruct item as [[owner t] objs]. unfold_process.
  repeat pres_step
    ltac:(first [ apply preserves_classification_with_status
                | apply preserves_classification_unchanged; solve [keep] ]).
Qed.

End ClassificationInvariant.

Lemma ofold_ext {A S} (f g : S -> A -> outcome S) l :
  (forall s x, f s x = g s x) -> forall s, ofold f l s = ofold g l s.
Proof.
  intros H. induction l as [|x l IH]; intros s; cbn [ofold]; auto.
  rewrite H. destruct (g s x); cbn [obind]; auto.
Qed.

(** A loop body leaves the classification of every later item as it
    is: it changes no contour. *)
Lemma classify_after_process E item w objs owner :
  classify E (zone_data (snd (process E item w))) objs owner =
  classify E (zone_data w) objs owner.
Proof.
  unfold classify. apply ofold_ext.
  apply (preserves_classification_process E (zone_data w) item w).
  reflexivity.
Qed.

(** ** A repeated item *)

Lemma presence_settled_status w1 w owner objs :
  Camera.object_status (camera_view w1 owner) =
  Camera.object_status (camera_view w owner) ->
  presence_settled w owner objs -> presence_settled w1 owner objs.
Proof. intros H Hs l. unfold presence_of. rewrite H. apply Hs. Qed.

Lemma best_loop_keeps E owner camera t objs w :
  let w' := snd (for_each objs (update_best E owner camera t) w) in
  fst (for_each objs (update_best E owner camera t) w) = Ok tt /\
  zone_data w' = zone_data w /\
  published w' = published w /\
  Camera.object_status (camera_view w' owner) =
  Camera.object_status (camera_view w owner).
Proof.
  cbv zeta. split; [|split; [|split]].
  - apply for_each_ok. apply update_best_ok.
  - enough (H : unchanged zone_data (for_each objs (update_best E owner camera t)))
      by apply H.
    unfold update_best, store_best. keep.
  - enough (H : unchanged published (for_each objs (update_best E owner camera t)))
      by apply H.
    unfold update_best, store_best. keep.
  - enough (H : unchanged (fun w => Camera.object_status (camera_view w owner))
                  (for_each objs (update_best E owner camera t))) by apply H.
    unfold update_best, store_best. keep.
Qed.

Lemma report_zones_keeps_cameras E camera coiz w :
  camera_data (snd (report_zones E camera coiz w)) = camera_data w.
Proof.
  enough (H : unchanged camera_data (report_zones E camera coiz)) by apply H.
  unfold report_zones, report_zone, report_label. keep.
Qed.

Lemma report_presence_keeps_zones E owner camera objs w :
  zone_data (snd (report_presence E owner camera objs w)) = zone_data w.
Proof.
  enough (H : unchanged zone_data (report_presence E owner camera objs))
    by apply H.
  unfold report_presence, report_detected, report_expired, publish_snapshot,
    set_presence. keep.
Qed.

(** The stages after the drawing, as a sequence of three states. *)
Lemma later_stages_run E owner camera t objs coiz w :
  Dict.uniq_keys (zone_config E) = true ->
  let wb := snd (for_each objs (update_best E owner camera t) w) in
  let wz := snd (report_zones E camera coiz wb) in
  (for_each objs (update_best E owner camera t) ;;
   report_zones E camera coiz ;;
   report_presence E owner camera objs)%monad w =
  report_presence E owner camera objs wz.
Proof.
  intros Hu. cbv zeta.
  destruct (best_loop_keeps E owner camera t objs w) as (Hok & _).
  rewrite (bind_ok _ _ _ _ _ (run_ok _ _ _ Hok)).
  rewrite (bind_ok _ _ _ _ _
             (run_ok _ _ _ (proj1 (report_zones_spec E camera coiz _ Hu)))).
  reflexivity.
Qed.

Lemma later_stages_settle E owner camera t objs coiz w :
  Dict.uniq_keys (zone_config E) = true ->
  Dict.uniq_keys (Camera.object_status (camera_view w owner)) = true ->
  let r := (for_each objs (update_best E owner camera t) ;;
            report_zones E camera coiz ;;
            report_presence E owner camera objs)%monad w in
  fst r = Ok tt ->
  zones_settled E (snd r) camera coiz /\
  presence_settled (snd r) owner objs /\
  Dict.uniq_keys (Camera.object_status (camera_view (snd r) owner)) = true.
Proof.
  intros Hu Hs. cbv zeta. rewrite (later_stages_run E owner camera t objs coiz w Hu).
  destruct (best_loop_keeps E owner camera t objs w)
    as (_ & _ & _ & Hst).
  set (wb := snd (for_each objs (update_best E owner camera t) w)) in *.
  pose proof (report_zones_keeps_cameras E camera coiz wb) as Hcd.
  pose proof (report_zones_settles E camera coiz wb Hu) as Hzs.
  set (wz := snd (report_zones E camera coiz wb)) in *.
  assert (Hsz : Dict.uniq_keys (Camera.object_status (camera_view wz owner)) = true).
  { unfold camera_view. rewrite Hcd. fold (camera_view wb owner). now rewrite Hst. }
  intros Hok. split; [|split].
  - eapply zones_settled_data; [|exact Hzs].
    apply report_presence_keeps_zones.
  - now apply report_presence_settles.
  - now apply report_presence_keeps_keys.
Qed.

Lemma later_stages_silent E owner camera t objs coiz w :
  Dict.uniq_keys (zone_config E) = true ->
  Dict.uniq_keys (Camera.object_status (camera_view w owner)) = true ->
  zones_settled E w camera coiz ->
  presence_settled w owner objs ->
  let r := (for_each objs (update_best E owner camera t) ;;
            report_zones E camera coiz ;;
            report_presence E owner camera objs)%monad w in
  fst r = Ok tt /\ published (snd r) = published w.
Proof.
  intros Hu Hs Hz Hp. cbv zeta.
  rewrite (later_stages_run E owner camera t objs coiz w Hu).
  destruct (best_loop_keeps E owner camera t objs w)
    as (_ & Hzd & Hpub & Hst).
  set (wb := snd (for_each objs (update_best E owner camera t) w)) in *.
  pose proof (report_zones_keeps_cameras E camera coiz wb) as Hcd.
  destruct (report_zones_settled E camera coiz wb Hu
              (zones_settled_data E wb w camera coiz Hzd Hz))
    as (_ & Hpz & _).
  cbv zeta in Hpz.
  set (wz := snd (report_zones E camera coiz wb)) in *.
  assert (Hstz : Camera.object_status (camera_view wz owner) =
                 Camera.object_status (camera_view w owner)).
  { unfold camera_view. rewrite Hcd. fold (camera_view wb owner). exact Hst. }
  destruct (report_presence_settled E owner camera objs wz) as (Hok & Hpp & _).
  - now rewrite Hstz.
  - now apply (presence_settled_status wz w).
  - cbv zeta in Hpp. split; [assumption|]. now rewrite Hpp, Hpz.
Qed.

(** A loop body that returns leaves a state in which the same item is
    silent: taken again right away, it publishes nothing (the zone stage
    finds every aggregate as it left it, the presence stage every
    status).  The configuration names each zone once, and the status
    dict of the item's camera holds each key once, as it does in every
    reachable state. *)
Theorem repeated_item_is_silent E owner t objs w :
  Dict.uniq_keys (zone_config E) = true ->
  Dict.uniq_keys (Camera.object_status (camera_view w owner)) = true ->
  fst (process E (owner, t, objs) w) = Ok tt ->
  let w1 := snd (process E (owner, t, objs) w) in
  published (snd (process E (owner, t, objs) w1)) = published w1.
Proof.
  intros Hu Hs Hok. cbv zeta.
  pose proof (classify_after_process E (owner, t, objs) w objs owner) as Hcl.
  (* the first body *)
  assert (H1 : exists settings coiz camera,
            Dict.get owner (camera_config E) = Some settings /\
            classify E (zone_data w) objs owner = Ok (coiz, camera) /\
            zones_settled E (snd (process E (owner, t, objs) w)) camera coiz /\
            presence_settled (snd (process E (owner, t, objs) w)) owner objs /\
            Dict.uniq_keys
              (Camera.object_status
                 (camera_view (snd (process E (owner, t, objs) w)) owner)) = true).
  { revert Hok. rewrite process_stages.
    pose proof (begin_item_fst E owner t objs w) as Hfst.
    pose proof (begin_item_keeps E zone_data owner t objs (fun _ _ => eq_refl) w)
      as Hz.
    pose proof (begin_item_keeps_view E Camera.object_status owner t objs owner
                  (fun _ _ => eq_refl) (fun _ _ => eq_refl) w) as Hst.
    cbv beta in Hst.
    destruct (begin_item E owner t objs w) as [[settings|e] w0];
      cbn [fst snd] in *; [|discriminate].
    unfold index in Hfst.
    destruct (Dict.get owner (camera_config E)) as [settings'|] eqn:Hcfg;
      [|discriminate].
    rewrite Hz.
    destruct (classify E (zone_data w) objs owner) as [[coiz camera]|e];
      [|discriminate].
    pose proof (update_current_frame_keeps_view E Camera.object_status settings
                  camera t objs coiz owner (fun _ _ => eq_refl)
                  (fun _ _ => eq_refl) w0) as Hst1.
    cbv beta in Hst1.
    destruct (update_current_frame E settings camera t objs coiz w0)
      as [[[]|e] w1]; cbn [fst snd] in *; [|discriminate].
    intros Hok. exists settings', coiz, camera.
    split; [reflexivity|]. split; [reflexivity|].
    apply later_stages_settle; auto. now rewrite Hst1, Hst. }
  destruct H1 as (settings & coiz & camera & Hcfg & Hc & Hzs & Hps & Hs1).
  set (w1 := snd (process E (owner, t, objs) w)) in *.
  (* the second body *)
  rewrite process_stages.
  pose proof (begin_item_fst E owner t objs w1) as Hfst.
  pose proof (begin_item_keeps E zone_data owner t objs (fun _ _ => eq_refl) w1)
    as Hz.
  pose proof (begin_item_keeps E published owner t objs (fun _ _ => eq_refl) w1)
    as Hp.
  pose proof (begin_item_keeps_view E Camera.object_status owner t objs owner
                (fun _ _ => eq_refl) (fun _ _ => eq_refl) w1) as Hst.
  cbv beta in Hst.
  destruct (begin_item E owner t objs w1) as [[settings2|e] w0];
    cbn [fst snd] in *; [|exact Hp].
  rewrite Hz, Hcl, Hc.
  assert (Hk : forall {X} (p : world -> X),
            (forall v w, p (set_camera_data v w) = p w) ->
            (forall v w, p (set_plasma v w) = p w) ->
            p (snd (update_current_frame E settings2 camera t objs coiz w0)) =
            p w0).
  { intros X p Hcd Hpl.
    enough (H : unchanged p (update_current_frame E settings2 camera t objs coiz))
      by apply H.
    unfold update_current_frame.
    repeat first [ apply unchanged_update_camera; assumption
                 | apply unchanged_camera_entry; assumption
                 | apply unchanged_plasma_delete; assumption
                 | keep_step ]. }
  pose proof (Hk _ zone_data (fun _ _ => eq_refl) (fun _ _ => eq_refl)) as Hz1.
  pose proof (Hk _ published (fun _ _ => eq_refl) (fun _ _ => eq_refl)) as Hp1.
  pose proof (update_current_frame_keeps_view E Camera.object_status settings2
                camera t objs coiz owner (fun _ _ => eq_refl)
                (fun _ _ => eq_refl) w0) as Hst1.
  cbv beta in Hst1.
  destruct (update_current_frame E settings2 camera t objs coiz w0)
    as [[[]|e] wf]; cbn [fst snd] in *; [|now rewrite Hp1].
  destruct (later_stages_silent E owner camera t objs coiz wf Hu) as [_ Hsil].
  - now rewrite Hst1, Hst.
  - apply (zones_settled_data E wf w1); [now rewrite Hz1|assumption].
  - apply (presence_settled_status wf w1); [now rewrite Hst1|assumption].
  - cbv zeta in Hsil. now rewrite Hsil, Hp1.
Qed.

(** ** The filters of the configuration and the classification *)

Lemma get_some_In {V} k (v : V) d : Dict.get k d = Some v -> In (k, v) d.
Proof.
  induction d as [|[k' v'] d IH]; cbn [Dict.get]; [discriminate|].
  destruct (String.eqb_spec k k') as [->|].
  - intros [= ->]. now left.
  - intros H. right. auto.
Qed.

Lemma zone_filters_plain E name camera :
  filters_plain E = true ->
  exists f, zone_filters E name camera = PyDict f /\
            Dict.get "filters" f = None.
Proof.
  unfold filters_plain, zone_filters. intros Hp.
  destruct (Dict.get name (zone_config E)) as [config|] eqn:Hn;
    [|exists []; auto].
  destruct (Dict.get camera config) as [czc|] eqn:Hc; [|exists []; auto].
  apply get_some_In in Hn, Hc.
  rewrite forallb_forall in Hp. specialize (Hp _ Hn). cbn [snd] in Hp.
  rewrite forallb_forall in Hp. specialize (Hp _ Hc). cbn [snd] in Hp.
  unfold plain_filters in Hp.
  destruct (Dict.get "filters" czc) as [[| | | |f]|]; try discriminate.
  - exists f. split; auto. unfold Dict.mem in Hp.
    now destruct (Dict.get "filters" f).
  - exists []. auto.
Qed.

Lemma zone_filtered_plain obj f :
  Dict.get "filters" f = None -> zone_filtered obj (PyDict f) = Ok false.
Proof. intros H. unfold zone_filtered, py_get. rewrite H. reflexivity. Qed.

Lemma counts_in_plain E obj name cc :
  filters_plain E = true ->
  counts_in E obj name cc = inside E obj (snd cc).
Proof.
  intros Hp. unfold counts_in.
  destruct (zone_filters_plain E name (fst cc) Hp) as (f & -> & Hf).
  rewrite (zone_filtered_plain obj f Hf). apply andb_true_r.
Qed.

Lemma ofold_returns {A S} (body : S -> A -> outcome S) l :
  (forall s x, In x l -> exists s', body s x = Ok s') ->
  forall s, exists s', ofold body l s = Ok s'.
Proof.
  induction l as [|x l IH]; intros Hb s; cbn [ofold]; eauto.
  destruct (Hb s x (or_introl eq_refl)) as [s1 ->]. cbn [obind].
  apply IH. intros s0 y Hy. apply Hb. now right.
Qed.

(** With plain filters, one turn of the innermost loop returns unless
    the point test raises. *)
Lemma classify_contour_plain E obj name zone vars cc :
  filters_plain E = true ->
  zone_configured E (name, zone) ->
  In cc (Zone.contours zone) ->
  match pointPolygonTest E (snd cc) (bottom_center obj) with
  | Some _ => exists vars', classify_contour E obj name vars cc = Ok vars'
  | None => classify_contour E obj name vars cc = Raise (Other "cv2.error")
  end.
Proof.
  intros Hp [Hc _] Hin. destruct vars as [coiz cam], cc as [camera c].
  unfold classify_contour. cbn [snd].
  destruct (pointPolygonTest E c (bottom_center obj)) as [side|];
    [|reflexivity].
  destruct (Qle_bool 0 side); [|eauto].
  destruct (Hc camera) as (config & Hn & Hm).
  { apply mem_keys. unfold Dict.keys. apply in_map_iff. now exists (camera, c). }
  cbn [fst] in Hn. unfold index. rewrite Hn. cbn [obind].
  unfold Dict.mem in Hm.
  destruct (Dict.get camera config) as [czc|] eqn:Hcam; [|discriminate].
  cbn [obind].
  destruct (zone_filters_plain E name camera Hp) as (f & Hzf & Hf).
  unfold zone_filters in Hzf. rewrite Hn, Hcam in Hzf. rewrite Hzf.
  rewrite (zone_filtered_plain obj f Hf). cbn [obind negb]. eauto.
Qed.

Lemma classify_returns E zones objs owner :
  filters_plain E = true ->
  zones_configured E zones ->
  tests_return E zones objs = true ->
  exists vars, classify E zones objs owner = Ok vars.
Proof.
  intros Hp Hz Ht. unfold classify. apply ofold_returns.
  intros vars obj Hobj. unfold classify_object. apply ofold_returns.
  intros vars1 [name zone] Hin. unfold classify_zone. apply ofold_returns.
  intros vars2 cc Hcc.
  pose proof (classify_contour_plain E obj name zone vars2 cc Hp
                (proj1 (Forall_forall _ _) Hz _ Hin) Hcc) as H.
  pose proof (tests_return_all E zones objs obj (name, zone) cc Ht Hobj Hin Hcc)
    as Hsome.
  destruct (pointPolygonTest E (snd cc) (bottom_center obj));
    [exact H | now elim Hsome].
Qed.

Lemma classify_raises_plain E zones objs owner e :
  filters_plain E = true ->
  zones_configured E zones ->
  classify E zones objs owner = Raise e ->
  e = Other "cv2.error" /\ tests_return E zones objs = false.
Proof.
  intros Hp Hz Hc. unfold classify in Hc.
  refine (ofold_raises
            (fun e => e = Other "cv2.error" /\
                      tests_return E zones objs = false)
            _ _ _ _ _ Hc).
  intros vars obj e1 Hobj H1. unfold classify_object in H1.
  refine (ofold_raises
            (fun e => e = Other "cv2.error" /\
                      tests_return E zones objs = false)
            _ _ _ _ _ H1).
  intros vars1 [name zone] e2 Hin H2. unfold classify_zone in H2.
  refine (ofold_raises
            (fun e => e = Other "cv2.error" /\
                      tests_return E zones objs = false)
            _ _ _ _ _ H2).
  intros vars2 cc e3 Hcc H3.
  pose proof (classify_contour_plain E obj name zone vars2 cc Hp
                (proj1 (Forall_forall _ _) Hz _ Hin) Hcc) as H.
  destruct (pointPolygonTest E (snd cc) (bottom_center obj)) eqn:Hpt.
  - destruct H as [vars' H]. congruence.
  - split; [congruence|].
    destruct (tests_return E zones objs) eqn:Ht; auto. exfalso.
    exact (tests_return_all E zones objs obj (name, zone) cc Ht Hobj Hin Hcc
             Hpt).
Qed.

Lemma classify_lists E zones objs owner coiz camera :
  classify E zones objs owner = Ok (coiz, camera) ->
  forall name, labels_in name coiz = objects_in_zone E zones objs name.
Proof.
  unfold classify, objects_in_zone. intros H name.
  apply (ofold_app _ (fun s => labels_in name (fst s)) _ _
           (fun s x s' _ Hx => proj2 (classify_object_ok _ _ _ _ _ Hx) name)
           _ _ H).
Qed.

Lemma objects_in_zone_plain E zones objs name :
  filters_plain E = true ->
  objects_in_zone E zones objs name = objects_inside E zones objs name.
Proof.
  intros Hp. unfold objects_in_zone, objects_inside.
  apply flat_map_ext. intros obj. apply flat_map_ext. intros z.
  destruct (String.eqb name (fst z)); [|reflexivity].
  apply flat_map_ext. intros cc. now rewrite counts_in_plain.
Qed.

(** With filters as the configuration file gives them (a dict keyed by
    label under the key 'filters', or none), in a state whose contours
    are for configured cameras: when every point test returns, the
    classification returns; what it returns does not depend on the
    filters: the list of a zone holds the label of an object once for
    each contour of the zone that has the object's bottom centre inside
    or on its edge, whatever min_area, max_area and threshold the filters
    set for the label; and all it can raise is the cv2.error of a point
    test, which some test then does raise (as on the empty contour that
    [__init__] makes of an empty list of coordinates). *)
Theorem configured_filters_are_ignored E zones objs owner :
  filters_plain E = true ->
  zones_configured E zones ->
  (tests_return E zones objs = true ->
   exists coiz camera, classify E zones objs owner = Ok (coiz, camera)) /\
  (forall coiz camera,
     classify E zones objs owner = Ok (coiz, camera) ->
     forall name, labels_in name coiz = objects_inside E zones objs name) /\
  (forall e,
     classify E zones objs owner = Raise e ->
     e = Other "cv2.error" /\ tests_return E zones objs = false).
Proof.
  intros Hp Hz. split; [|split].
  - intros Ht.
    destruct (classify_returns E zones objs owner Hp Hz Ht) as [[coiz camera] Hc].
    now exists coiz, camera.
  - intros coiz camera Hc name.
    rewrite (classify_lists E zones objs owner coiz camera Hc name).
    now apply objects_in_zone_plain.
  - intros e. now apply classify_raises_plain.
Qed.

(** * The loop body as a whole *)

(** The state in which the best-sighting loop starts, when the body gets
    that far, and what the body leaves when it does not. *)
Lemma process_before_best E owner t objs w :
  match reaches_zones E (owner, t, objs) w with
  | Some (coiz, camera) =>
      exists w1,
        process E (owner, t, objs) w =
        (for_each objs (update_best E owner camera t) ;;
         report_zones E camera coiz ;;
         report_presence E owner camera objs)%monad w1 /\
        zone_data w1 = zone_data w /\ published w1 = published w /\
        clock_reads w1 = clock_reads w /\
        (forall c, Camera.best_objects (camera_view w1 c) =
                   Camera.best_objects (camera_view w c)) /\
        (forall c, Camera.object_status (camera_view w1 c) =
                   Camera.object_status (camera_view w c)) /\
        Camera.tracked_objects (camera_view w1 owner) = objs /\
        Camera.current_frame_time (camera_view w1 owner) = t /\
        Camera.current_frame (camera_view w1 camera) =
        record_frame E (owner, t, objs) w camera
  | None =>
      let r := process E (owner, t, objs) w in
      (exists e, fst r = Raise e) /\
      zone_data (snd r) = zone_data w /\ published (snd r) = published w /\
      clock_reads (snd r) = clock_reads w /\
      (forall c, Camera.best_objects (camera_view (snd r) c) =
                 Camera.best_objects (camera_view w c)) /\
      (forall c, Camera.object_status (camera_view (snd r) c) =
                 Camera.object_status (camera_view w c)) /\
      plasma (snd r) = plasma w
  end.
Proof.
  rewrite process_stages. unfold reaches_zones, record_frame, composite.
  destruct (Dict.get owner (camera_config E)) as [settings|] eqn:Hcfg.
  - destruct (begin_item_view E owner t objs w settings Hcfg) as [Hfst Hv0].
    pose proof (begin_item_keeps E zone_data owner t objs (fun _ _ => eq_refl) w)
      as Hz.
    pose proof (begin_item_keeps E plasma owner t objs (fun _ _ => eq_refl) w)
      as Hpl.
    pose proof (begin_item_keeps E published owner t objs (fun _ _ => eq_refl) w)
      as Hp.
    pose proof (begin_item_keeps E clock_reads owner t objs
                  (fun _ _ => eq_refl) w) as Hc.
    unfold index. rewrite Hcfg.
    destruct (begin_item E owner t objs w) as [[s|e] w0]; cbn [fst snd] in *;
      [|discriminate].
    injection Hfst as ->.
    assert (Hb0 : forall c, Camera.best_objects (camera_view w0 c) =
                            Camera.best_objects (camera_view w c)).
    { intros c. rewrite Hv0.
      destruct (String.eqb_spec c owner) as [->|]; reflexivity. }
    assert (Hs0 : forall c, Camera.object_status (camera_view w0 c) =
                            Camera.object_status (camera_view w c)).
    { intros c. rewrite Hv0.
      destruct (String.eqb_spec c owner) as [->|]; reflexivity. }
    assert (Hf0 : forall c, Camera.current_frame (camera_view w0 c) =
                            Camera.current_frame (camera_view w c)).
    { intros c. rewrite Hv0.
      destruct (String.eqb_spec c owner) as [->|]; reflexivity. }
    assert (Ht0 : Camera.tracked_objects (camera_view w0 owner) = objs).
    { now rewrite Hv0, String.eqb_refl. }
    assert (Hn0 : Camera.current_frame_time (camera_view w0 owner) = t).
    { now rewrite Hv0, String.eqb_refl. }
    rewrite Hz.
    destruct (classify E (zone_data w) objs owner) as [[coiz camera]|e];
      [|cbn [fst snd]; repeat split; eauto].
    destruct (plasma w (frame_key E camera t)) as [img|] eqn:Hget.
    + rewrite <- Hpl, <- Hz in *.
      destruct (annotate E settings (zone_data w0) camera t objs coiz img)
        as [img'|e] eqn:Hann.
      * destruct (update_current_frame_composites E settings camera t objs coiz
                    w0 img img' Hget Hann) as (Hok & Hv & _ & Hz1 & Hp1 & Hc1).
        destruct (update_current_frame E settings camera t objs coiz w0)
          as [[[]|e] w1]; cbn [fst snd] in *; [|discriminate].
        exists w1. split; [reflexivity|].
        split; [congruence|]. split; [congruence|]. split; [congruence|].
        split; [|split; [|split; [|split]]].
        -- intros c. rewrite Hv, <- Hb0.
           destruct (String.eqb_spec c camera) as [->|]; reflexivity.
        -- intros c. rewrite Hv, <- Hs0.
           destruct (String.eqb_spec c camera) as [->|]; reflexivity.
        -- rewrite Hv, <- Ht0.
           destruct (String.eqb_spec owner camera) as [->|]; reflexivity.
        -- rewrite Hv, <- Hn0.
           destruct (String.eqb_spec owner camera) as [->|]; reflexivity.
        -- rewrite Hv, String.eqb_refl. reflexivity.
      * rewrite (update_current_frame_raises E settings camera t objs coiz
                   w0 img e Hget Hann). cbn [fst snd].
        repeat split; eauto; congruence.
    + rewrite <- Hpl in Hget.
      rewrite (update_current_frame_unavailable E settings camera t objs coiz
                 w0 Hget).
      exists w0. split; [reflexivity|]. repeat split; auto.
  - unfold begin_item, lift, index. rewrite Hcfg. cbn. repeat split; eauto.
Qed.

(** ** Topics *)

Lemma append_cancel (a x y : string) :
  (a ++ x)%string = (a ++ y)%string -> x = y.
Proof.
  induction a as [|c a IH]; cbn [String.append]; [auto|].
  intros [= H]. auto.
Qed.

Lemma append_assoc3 (a b c : string) :
  (a ++ (b ++ c))%string = ((a ++ b) ++ c)%string.
Proof.
  induction a as [|x a IH]; cbn [String.append]; [reflexivity|].
  now rewrite IH.
Qed.

Lemma append_prefix_cases (a b x y : string) :
  (a ++ x)%string = (b ++ y)%string ->
  String.prefix a b = true \/ String.prefix b a = true.
Proof.
  revert b. induction a as [|c a IH]; intros b; [left; now destruct b|].
  destruct b as [|d b]; [now right|].
  cbn [String.append String.prefix]. intros [= -> H].
  destruct (IH b H) as [Hp|Hp]; [left | right];
    destruct (ascii_dec d d); auto; contradiction.
Qed.

(** Names that are apart have no topic in common, whatever follows
    them. *)
Lemma topic_apart E a b x y :
  apart a b = true ->
  (topic_prefix E ++ "/" ++ a ++ "/" ++ x)%string <>
  (topic_prefix E ++ "/" ++ b ++ "/" ++ y)%string.
Proof.
  unfold apart. intros Ha H. apply append_cancel in H.
  cbn [String.append] in H. injection H as H.
  change ((a ++ "/" ++ x)%string = (b ++ "/" ++ y)%string) in H.
  rewrite !append_assoc3 in H. apply append_prefix_cases in H.
  apply andb_true_iff in Ha as [H1 H2]. apply negb_true_iff in H1, H2.
  destruct H; congruence.
Qed.

Lemma topic_same_name E a x y :
  (topic_prefix E ++ "/" ++ a ++ "/" ++ x)%string =
  (topic_prefix E ++ "/" ++ a ++ "/" ++ y)%string -> x = y.
Proof.
  intros H. apply append_cancel in H. cbn [String.append] in H.
  injection H as H. apply append_cancel in H. cbn [String.append] in H.
  now injection H.
Qed.


Lemma filter_none {A} (p : A -> bool) l :
  (forall x, In x l -> p x = false) -> filter p l = [].
Proof.
  induction l as [|x l IH]; intros H; cbn [filter]; auto.
  rewrite H by now left. apply IH. intros y Hy. apply H. now right.
Qed.

Lemma filter_flat_map_none {A B} (p : B -> bool) (f : A -> list B) l :
  (forall x, In x l -> filter p (f x) = []) -> filter p (flat_map f l) = [].
Proof.
  induction l as [|x l IH]; intros H; cbn [flat_map]; auto.
  rewrite filter_app, H by now left. apply IH. intros y Hy. apply H. now right.
Qed.

(** Of a list without repetition, when only [a] contributes what [p]
    keeps. *)
Lemma filter_flat_map_one {A B} (p : B -> bool) (f : A -> list B) a l :
  (forall x y : A, {x = y} + {x <> y}) ->
  NoDup l ->
  (forall x, In x l -> x <> a -> filter p (f x) = []) ->
  filter p (f a) = f a ->
  (~ In a l -> f a = []) ->
  filter p (flat_map f l) = f a.
Proof.
  intros dec Hnd Hoff Hon Hout.
  induction Hnd as [|x l Hx Hnd IH]; cbn [flat_map filter].
  - symmetry. apply Hout. intros [].
  - rewrite filter_app. destruct (dec x a) as [->|Hne].
    + rewrite Hon, filter_flat_map_none; [apply app_nil_r|].
      intros y Hy. apply Hoff; [now right|]. intros ->. contradiction.
    + rewrite Hoff by (auto; now left). cbn [app]. apply IH.
      * intros y Hy. apply Hoff. now right.
      * intros Hn. apply Hout. intros [H|H]; [congruence | contradiction].
Qed.

Lemma edge_messages_on E zone l b b' :
  filter (on_topic (topic_prefix E ++ "/" ++ zone ++ "/" ++ l))
    (edge_messages E zone l b b') = edge_messages E zone l b b'.
Proof.
  unfold edge_messages, zone_message, on_topic.
  destruct (negb b && b'); [|destruct (b && negb b')]; cbn [filter topic];
    rewrite ?String.eqb_refl; reflexivity.
Qed.

Lemma edge_messages_off E z' l' t b b' :
  (topic_prefix E ++ "/" ++ z' ++ "/" ++ l')%string <> t ->
  filter (on_topic t) (edge_messages E z' l' b b') = [].
Proof.
  intros Hne. apply String.eqb_neq in Hne.
  unfold edge_messages, zone_message, on_topic.
  destruct (negb b && b'); [|destruct (b && negb b')]; cbn [filter topic];
    rewrite ?Hne; reflexivity.
Qed.

Lemma presence_stage_off E camera zone l rest :
  apart zone camera = true ->
  Forall (presence_stage_message E camera) rest ->
  filter (on_topic (topic_prefix E ++ "/" ++ zone ++ "/" ++ l)) rest = [].
Proof.
  intros Ha Hrest. apply filter_none. intros m Hm.
  apply (proj1 (Forall_forall _ _) Hrest) in Hm.
  destruct Hm as (l' & [(s & ->)|(jpg & ->)]);
    unfold on_topic, presence_message, snapshot_message; cbn [topic];
    apply String.eqb_neq; intros H; symmetry in H;
    exact (topic_apart E zone camera _ _ Ha H).
Qed.

Lemma relevant_zones_configured E camera z :
  In z (relevant_zones E camera) -> In z (Dict.keys (zone_config E)).
Proof.
  unfold relevant_zones, Dict.keys. intros H.
  apply in_map_iff in H as (zc & <- & Hin). apply filter_In in Hin as [Hin _].
  now apply in_map.
Qed.

Lemma reaches_zones_classify E owner t objs w coiz camera :
  reaches_zones E (owner, t, objs) w = Some (coiz, camera) ->
  classify E (zone_data w) objs owner = Ok (coiz, camera).
Proof.
  unfold reaches_zones.
  destruct (index owner (camera_config E)); [|discriminate].
  destruct (classify E (zone_data w) objs owner) as [[coiz' camera']|];
    [|discriminate].
  destruct (plasma w (frame_key E camera' t)).
  - destruct (annotate _ _ _ _ _ _ _ _); [|discriminate]. now intros [= -> ->].
  - now intros [= -> ->].
Qed.

(** The messages of one loop body: those of the zone stage, one edge
    for each examined pair whose aggregate changes, then those of the
    presence stage. *)
Lemma process_zone_messages E owner t objs w :
  Dict.uniq_keys (zone_config E) = true ->
  let w' := snd (process E (owner, t, objs) w) in
  match reaches_zones E (owner, t, objs) w with
  | Some (coiz, camera) =>
      let pairs := examined E w camera coiz in
      (exists rest,
         published w' =
         published w ++
         flat_map (fun zl => edge_messages E (fst zl) (snd zl)
                               (zone_or w (fst zl) (snd zl))
                               (zone_or w' (fst zl) (snd zl))) pairs ++ rest /\
         Forall (presence_stage_message E camera) rest) /\
      NoDup pairs /\
      (forall zone l, ~ In (zone, l) pairs ->
                      zone_or w' zone l = zone_or w zone l)
  | None =>
      published w' = published w /\
      forall zone l, zone_or w' zone l = zone_or w zone l
  end.
Proof.
  intros Hu. cbv zeta.
  pose proof (process_before_best E owner t objs w) as H.
  destruct (reaches_zones E (owner, t, objs) w) as [[coiz camera]|].
  - destruct H as (w1 & -> & Hz & Hp & _).
    pose proof (zones_within_later_stages E owner camera t objs coiz w1 Hu)
      as Hl.
    cbv zeta in Hl. rewrite (examined_data E w1 w) in Hl by assumption.
    rewrite Hp in Hl. destruct Hl as ((rest & Hpub & Hrest) & Hnd & Ho).
    split; [|split; [assumption|]].
    + exists rest. split; auto. rewrite Hpub. do 2 f_equal.
      apply flat_map_ext. intros [z l]. cbn [fst snd].
      now rewrite (zone_or_data w1 w).
    + intros zone l Hn. now rewrite Ho, (zone_or_data w1 w).
  - cbv zeta in H. destruct H as (_ & Hz & Hp & _). split; auto.
    intros zone l. now apply zone_or_data.
Qed.

(** What one loop body publishes on the topic of a (zone, label) pair
    whose topics are the zone's own. *)
Lemma process_on_zone_topic E owner t objs w zone l :
  Dict.uniq_keys (zone_config E) = true ->
  (forall coiz camera,
     classify E (zone_data w) objs owner = Ok (coiz, camera) ->
     topics_own E zone camera = true) ->
  let w' := snd (process E (owner, t, objs) w) in
  exists new,
    published w' = published w ++ new /\
    filter (on_topic (topic_prefix E ++ "/" ++ zone ++ "/" ++ l)) new =
    edge_messages E zone l (zone_or w zone l) (zone_or w' zone l).
Proof.
  intros Hu Hown. cbv zeta.
  pose proof (process_zone_messages E owner t objs w Hu) as H. cbv zeta in H.
  destruct (reaches_zones E (owner, t, objs) w) as [[coiz camera]|] eqn:Hr.
  - apply reaches_zones_classify in Hr. specialize (Hown _ _ Hr).
    unfold topics_own in Hown. apply andb_true_iff in Hown as [Hcam Hzones].
    rewrite forallb_forall in Hzones.
    destruct H as ((rest & Hpub & Hrest) & Hnd & Ho).
    eexists. split; [exact Hpub|].
    rewrite filter_app, (presence_stage_off E camera zone l rest Hcam Hrest),
      app_nil_r.
    apply (filter_flat_map_one _
             (fun zl => edge_messages E (fst zl) (snd zl)
                          (zone_or w (fst zl) (snd zl))
                          (zone_or (snd (process E (owner, t, objs) w))
                             (fst zl) (snd zl)))
             (zone, l)).
    + intros x y. decide equality; apply string_dec.
    + exact Hnd.
    + intros [z' l'] Hin Hne. cbn [fst snd]. apply edge_messages_off.
      destruct (string_dec z' zone) as [->|Hz].
      * intros Heq. apply topic_same_name in Heq. congruence.
      * apply in_pairs in Hin as [Hin _].
        apply relevant_zones_configured in Hin.
        specialize (Hzones _ Hin).
        apply String.eqb_neq in Hz. rewrite Hz in Hzones. cbn [orb] in Hzones.
        intros Heq. symmetry in Heq.
        exact (topic_apart E zone z' _ _ Hzones Heq).
    + cbn [fst snd]. apply edge_messages_on.
    + intros Hn. cbn [fst snd]. rewrite (Ho zone l Hn).
      apply edge_messages_same.
  - destruct H as [Hp Ho]. exists []. rewrite app_nil_r. split; auto.
    rewrite Ho. cbn [filter]. symmetry. apply edge_messages_same.
Qed.

(** C1, as amended: along any sequence of items the thread takes, from
    any state, for a configuration that names each zone once, and for a
    (zone, label) pair whose topic [{prefix}/{zone}/{label}] nothing else
    is published on: the zone's name is apart from the names of the other
    configured zones and from the camera name that the classification of
    each item leaves in the variable [camera], under which the presence
    stage publishes.  The messages the thread publishes on that topic
    are, in order, one for each item across which the OR of the cameras'
    entries for the label in the zone changes: "ON", not retained, when
    the OR is false before the item and true after it, "OFF", not
    retained, when it is true before and false after, and nothing for an
    item across which the OR is the same, whatever the entries of the
    single cameras became; the items count up to the one, if any, on
    which an exception ends the thread, that one included. *)
Theorem zone_publish_on_aggregate_edges E zone l items : forall w,
  Dict.uniq_keys (zone_config E) = true ->
  (forall owner t objs coiz camera,
     In (owner, t, objs) items ->
     classify E (zone_data w) objs owner = Ok (coiz, camera) ->
     topics_own E zone camera = true) ->
  exists new,
    published (snd (run E items w)) = published w ++ new /\
    filter (on_topic (topic_prefix E ++ "/" ++ zone ++ "/" ++ l)) new =
    aggregate_edges E zone l items w.
Proof.
  induction items as [|[[owner t] objs] items IH]; intros w Hu Hown.
  - exists []. now rewrite app_nil_r.
  - destruct (process_on_zone_topic E owner t objs w zone l Hu)
      as (new1 & Hp1 & Hf1).
    { intros coiz camera. apply (Hown owner t objs). now left. }
    cbv zeta in Hp1, Hf1. cbn [aggregate_edges].
    unfold run in *. cbn [for_each]. unfold bind.
    destruct (process E (owner, t, objs) w) as [[[]|e] w1] eqn:Hstep;
      cbn [fst snd] in *.
    + destruct (IH w1 Hu) as (new2 & Hp2 & Hf2).
      { intros owner' t' objs' coiz camera Hin.
        replace w1 with (snd (process E (owner, t, objs) w))
          by now rewrite Hstep.
        rewrite classify_after_process. apply (Hown owner' t' objs').
        now right. }
      exists (new1 ++ new2). split.
      * now rewrite Hp2, Hp1, app_assoc.
      * now rewrite filter_app, Hf1, Hf2.
    + exists new1. split; auto. now rewrite app_nil_r.
Qed.

(** ** Best sightings along a sequence of items *)

(** The stages after the best-sighting loop leave the records and the
    clock. *)
Lemma reports_keep_records E owner camera objs coiz c w :
  Camera.best_objects
    (camera_view (snd ((report_zones E camera coiz ;;
                        report_presence E owner camera objs)%monad w)) c) =
  Camera.best_objects (camera_view w c) /\
  Camera.tracked_objects
    (camera_view (snd ((report_zones E camera coiz ;;
                        report_presence E owner camera objs)%monad w)) c) =
  Camera.tracked_objects (camera_view w c) /\
  Camera.current_frame_time
    (camera_view (snd ((report_zones E camera coiz ;;
                        report_presence E owner camera objs)%monad w)) c) =
  Camera.current_frame_time (camera_view w c) /\
  clock_reads (snd ((report_zones E camera coiz ;;
                     report_presence E owner camera objs)%monad w)) =
  clock_reads w.
Proof.
  split; [|split; [|split]].
  - enough (H : unchanged (fun w => Camera.best_objects (camera_view w c))
                  (report_zones E camera coiz ;;
                   report_presence E owner camera objs)%monad) by apply H.
    unfold report_zones, report_zone, report_label, report_presence,
      report_detected, report_expired, publish_snapshot, set_presence.
    keep.
  - enough (H : unchanged (fun w => Camera.tracked_objects (camera_view w c))
                  (report_zones E camera coiz ;;
                   report_presence E owner camera objs)%monad) by apply H.
    unfold report_zones, report_zone, report_label, report_presence,
      report_detected, report_expired, publish_snapshot, set_presence.
    keep.
  - enough (H : unchanged (fun w => Camera.current_frame_time (camera_view w c))
                  (report_zones E camera coiz ;;
                   report_presence E owner camera objs)%monad) by apply H.
    unfold report_zones, report_zone, report_label, report_presence,
      report_detected, report_expired, publish_snapshot, set_presence.
    keep.
  - enough (H : unchanged clock_reads
                  (report_zones E camera coiz ;;
                   report_presence E owner camera objs)%monad) by apply H.
    unfold report_zones, report_zone, report_label, report_presence,
      report_detected, report_expired, publish_snapshot, set_presence.
    keep.
Qed.

(** The stages from the best-sighting loop on, as the loop followed by
    the two reports. *)
Lemma later_stages_split E owner camera t objs coiz w :
  (for_each objs (update_best E owner camera t) ;;
   report_zones E camera coiz ;;
   report_presence E owner camera objs)%monad w =
  (report_zones E camera coiz ;;
   report_presence E owner camera objs)%monad
    (snd (for_each objs (update_best E owner camera t) w)).
Proof.
  pose proof (for_each_ok objs (update_best E owner camera t)
                (update_best_ok E owner camera t) w) as Hok.
  now rewrite (bind_ok _ _ _ _ _ (run_ok _ _ _ Hok)).
Qed.

Lemma best_loop_other E owner camera t objs c w :
  c <> owner ->
  Camera.best_objects
    (camera_view (snd (for_each objs (update_best E owner camera t) w)) c) =
  Camera.best_objects (camera_view w c).
Proof.
  intros Hne.
  enough (H : unchanged (fun w => Camera.best_objects (camera_view w c))
                (for_each objs (update_best E owner camera t))) by apply H.
  unfold update_best, store_best.
  repeat first [ apply unchanged_view_update_other; assumption | keep_step ].
Qed.

Lemma process_window E owner' l owner t objs w old :
  best_of w owner' l = Some old ->
  let w' := snd (process E (owner, t, objs) w) in
  within_60 E (clock_reads w) (clock_reads w') (frame_time old) ->
  (owner = owner' -> within_60 E (clock_reads w) (clock_reads w') t) ->
  exists kept,
    best_of w' owner' l = Some kept /\ score old <= score kept /\
    (frame_time kept == frame_time old \/
     (owner = owner' /\ frame_time kept == t)).
Proof.
  intros Hold w'. subst w'.
  pose proof (process_before_best E owner t objs w) as H.
  destruct (reaches_zones E (owner, t, objs) w) as [[coiz camera]|].
  - destruct H as (w1 & -> & _ & _ & Hc & Hb & _).
    rewrite later_stages_split.
    set (w2 := snd (for_each objs (update_best E owner camera t) w1)).
    destruct (reports_keep_records E owner camera objs coiz owner' w2)
      as (Hb2 & _ & _ & Hc2).
    unfold best_of. rewrite Hb2, Hc2. fold (best_of w2 owner' l).
    intros Hwo Hwt.
    destruct (string_dec owner owner') as [<-|Hne].
    + assert (Hold1 : best_of w1 owner l = Some old)
        by (unfold best_of; now rewrite Hb).
      destruct (best_loop_window E owner camera t l objs w1 old Hold1)
        as (kept & Hk & Hs & Ht).
      * fold w2. now rewrite Hc.
      * fold w2. rewrite Hc. now apply Hwt.
      * exists kept. split; [exact Hk|]. split; [exact Hs|].
        destruct Ht; auto.
    + exists old. split; [|split; [apply Qle_refl | now left]].
      unfold best_of, w2. rewrite best_loop_other by congruence.
      now rewrite Hb.
  - cbv zeta in H. destruct H as (_ & _ & _ & _ & Hb & _).
    intros _ _. exists old. split; [|split; [apply Qle_refl | now left]].
    unfold best_of. now rewrite Hb.
Qed.

Lemma process_clock E item w :
  (clock_reads w <= clock_reads (snd (process E item w)))%nat.
Proof.
  destruct item as [[owner t] objs].
  pose proof (process_before_best E owner t objs w) as H.
  destruct (reaches_zones E (owner, t, objs) w) as [[coiz camera]|].
  - destruct H as (w1 & -> & _ & _ & Hc & _).
    rewrite later_stages_split.
    destruct (reports_keep_records E owner camera objs coiz owner
                (snd (for_each objs (update_best E owner camera t) w1)))
      as (_ & _ & _ & ->).
    pose proof (best_loop_clock E owner camera t objs w1) as Hl.
    cbv zeta in Hl. lia.
  - cbv zeta in H. destruct H as (_ & _ & _ & -> & _). lia.
Qed.

Lemma run_step E item items w :
  snd (run E (item :: items) w) =
  match fst (process E item w) with
  | Ok _ => snd (run E items (snd (process E item w)))
  | Raise _ => snd (process E item w)
  end.
Proof.
  unfold run. cbn [for_each]. unfold bind.
  now destruct (process E item w) as [[[]|e] w1].
Qed.

Lemma run_clock E items : forall w,
  (clock_reads w <= clock_reads (snd (run E items w)))%nat.
Proof.
  induction items as [|item items IH]; intros w; [apply le_n|].
  rewrite run_step. pose proof (process_clock E item w) as H1.
  destruct (fst (process E item w)); [|exact H1].
  specialize (IH (snd (process E item w))). lia.
Qed.

Lemma run_window E owner l items : forall w old,
  best_of w owner l = Some old ->
  let w' := snd (run E items w) in
  within_60 E (clock_reads w) (clock_reads w') (frame_time old) ->
  (forall o t objs, In (o, t, objs) items -> o = owner ->
     within_60 E (clock_reads w) (clock_reads w') t) ->
  exists kept,
    best_of w' owner l = Some kept /\ score old <= score kept /\
    (frame_time kept == frame_time old \/
     exists o t objs, In (o, t, objs) items /\ o = owner /\
                      frame_time kept == t).
Proof.
  induction items as [|[[o t] objs] items IH]; intros w old Hold w'.
  - intros _ _. exists old. split; [exact Hold|].
    split; [apply Qle_refl | now left].
  - subst w'. rewrite run_step.
    pose proof (process_clock E (o, t, objs) w) as Hc1.
    set (w1 := snd (process E (o, t, objs) w)) in *.
    assert (Hstep : forall hi, (clock_reads w1 <= hi)%nat ->
              within_60 E (clock_reads w) hi (frame_time old) ->
              (forall o' t' objs', In (o', t', objs') ((o, t, objs) :: items) ->
                 o' = owner -> within_60 E (clock_reads w) hi t') ->
              exists mid,
                best_of w1 owner l = Some mid /\ score old <= score mid /\
                (frame_time mid == frame_time old \/
                 (o = owner /\ frame_time mid == t))).
    { intros hi Hhi Hwo Hwt.
      apply (process_window E owner l o t objs w old Hold).
      - fold w1. apply (within_60_sub E (clock_reads w) hi); auto.
      - intros Ho. fold w1.
        apply (within_60_sub E (clock_reads w) hi); auto.
        apply (Hwt o t objs); auto. now left. }
    destruct (fst (process E (o, t, objs) w)).
    + pose proof (run_clock E items w1) as Hc2.
      intros Hwo Hwt.
      destruct (Hstep _ Hc2 Hwo Hwt) as (mid & Hmid & Hs1 & Ht1).
      destruct (IH w1 mid Hmid) as (kept & Hk & Hs2 & Ht2).
      * destruct Ht1 as [Heq|[Ho Heq]].
        -- apply (within_60_eq E _ _ (frame_time old)); [now symmetry|].
           apply (within_60_sub E (clock_reads w)
                    (clock_reads (snd (run E items w1)))); auto.
        -- apply (within_60_eq E _ _ t); [now symmetry|].
           apply (within_60_sub E (clock_reads w)
                    (clock_reads (snd (run E items w1)))); auto.
           apply (Hwt o t objs); auto. now left.
      * intros o' t' objs' Hin Ho.
        apply (within_60_sub E (clock_reads w)
                 (clock_reads (snd (run E items w1)))); auto.
        apply (Hwt o' t' objs'); auto. now right.
      * exists kept. split; [exact Hk|]. split.
        -- now apply Qle_trans with (score mid).
        -- destruct Ht2 as [Heq|(o' & t' & objs' & Hin & Ho & Heq)].
           ++ destruct Ht1 as [Heq1|[Ho Heq1]].
              ** left. now rewrite Heq.
              ** right. exists o, t, objs. split; [now left|].
                 split; auto. now rewrite Heq.
           ++ right. exists o', t', objs'. split; [now right|]. auto.
    + intros Hwo Hwt.
      destruct (Hstep _ (le_n _) Hwo Hwt) as (mid & Hmid & Hs1 & Ht1).
      exists mid. split; [exact Hmid|]. split; [exact Hs1|].
      destruct Ht1 as [Heq|[Ho Heq]]; [now left|].
      right. exists o, t, objs. split; [now left|]. auto.
Qed.

(** C4, as amended: the replacement policy of the best-sighting tracker.
    For one sighting, an object seen on the current frame: with no record
    for its label the object, carrying a copy of the current frame,
    becomes the record.  With a record, the object replaces it exactly
    when its score is strictly greater or the elapsed time is greater
    than 60, and the record stays as it was otherwise; the elapsed time
    is the difference of the clock reading and the record's [frame_time]
    as line 171 computes it, the float nearest to the exact difference.
    So a sighting more than 60 seconds after the record's time replaces
    it whenever that difference is a float, and the time never makes a
    sighting at most 60 seconds after it replace the record.  Records of
    other labels and of other cameras are not touched.  Hence, along any
    sequence of items the thread takes: while every reading of the clock
    is within 60 seconds of the time of the record held at the start and
    of the frame times of the camera's items, the label keeps a record
    and its score does not decrease. *)
Theorem best_sighting_policy E owner camera t key obj items l w :
  (frame_time obj == t ->
   let w' := snd (update_best E owner camera t (key, obj) w) in
   let new := set_frame (Camera.current_frame (camera_view w camera)) obj in
   let clock := now E (clock_reads w) in
   fst (update_best E owner camera t (key, obj) w) = Ok tt /\
   match best_of w owner (label obj) with
   | None => best_of w' owner (label obj) = Some new
   | Some old =>
       let elapsed := nearest_float E (clock - frame_time old) in
       (score old < score obj \/ 60 < elapsed ->
        best_of w' owner (label obj) = Some new) /\
       (~ (score old < score obj \/ 60 < elapsed) ->
        best_of w' owner (label obj) = Some old) /\
       (60 < elapsed -> best_of w' owner (label obj) = Some new) /\
       (elapsed == clock - frame_time old ->
        60 < clock - frame_time old ->
        best_of w' owner (label obj) = Some new) /\
       (clock - frame_time old <= 60 -> ~ 60 < elapsed)
   end /\
   forall c l, c <> owner \/ l <> label obj -> best_of w' c l = best_of w c l) /\
  (forall old,
     best_of w owner l = Some old ->
     let w' := snd (run E items w) in
     within_60 E (clock_reads w) (clock_reads w') (frame_time old) ->
     (forall o t' objs, In (o, t', objs) items -> o = owner ->
        within_60 E (clock_reads w) (clock_reads w') t') ->
     exists kept, best_of w' owner l = Some kept /\ score old <= score kept).
Proof.
  split.
  - intros Hseen.
    pose proof (update_best_policy E owner camera t key obj w Hseen) as H.
    cbv zeta in *. destruct H as (Hok & Hpol & Hoth).
    split; [exact Hok|]. split; [|exact Hoth].
    destruct (best_of w owner (label obj)) as [old|]; [|exact Hpol].
    destruct Hpol as (Hnew & Hkeep & _ & Hgap).
    split; [exact Hnew|]. split; [exact Hkeep|]. split; [exact Hgap|]. split.
    + intros Heq Hlt. apply Hgap. now rewrite Heq.
    + intros Hle Hlt. apply (nearest_float_within E) in Hle.
      exact (Qle_not_lt _ _ Hle Hlt).
  - intros old Hold w' Hwo Hwt.
    destruct (run_window E owner l items w old Hold Hwo Hwt)
      as (kept & Hk & Hs & _).
    exists kept. auto.
Qed.

(** ** The presence stage, whether or not it raises *)

Lemma for_each_cons_step {A} (x : A) l (body : A -> M unit) w :
  for_each (x :: l) body w =
  match fst (body x w) with
  | Ok _ => for_each l body (snd (body x w))
  | Raise e => (Raise e, snd (body x w))
  end.
Proof.
  cbn [for_each]. unfold bind. now destruct (body x w) as [[[]|e] w1].
Qed.

Lemma publish_until_app E records camera ts1 ts2 :
  publish_until E records camera (ts1 ++ ts2) =
  match fst (publish_until E records camera ts1) with
  | Ok _ =>
      (fst (publish_until E records camera ts2),
       snd (publish_until E records camera ts1)
       ++ snd (publish_until E records camera ts2))
  | Raise e => (Raise e, snd (publish_until E records camera ts1))
  end.
Proof.
  induction ts1 as [|[l s] ts1 IH]; cbn [app publish_until].
  - cbn [fst snd app]. now destruct (publish_until E records camera ts2).
  - destruct (transition_outcome E (Dict.get l records) camera l s)
      as [[[]|e] msgs]; cbn [fst snd]; [|reflexivity].
    rewrite IH.
    destruct (fst (publish_until E records camera ts1)); cbn [fst snd];
      [|reflexivity].
    now rewrite app_assoc.
Qed.

Lemma filter_ext_in' {A} (f g : A -> bool) l :
  (forall x, In x l -> f x = g x) -> filter f l = filter g l.
Proof.
  induction l as [|x l IH]; intros H; cbn [filter]; auto.
  rewrite H by now left. rewrite IH; auto. intros y Hy. apply H. now right.
Qed.

Lemma detect_trace E owner camera items : forall w,
  NoDup (map fst items) ->
  Forall (fun e => (0 < snd e)%nat) items ->
  let r := for_each items (report_detected E owner camera) w in
  let stage :=
    publish_until E (Camera.best_objects (camera_view w owner)) camera
      (map (fun e => (fst e, ON))
         (filter (fun e => status_differs ON (presence_of w owner (fst e)))
            items)) in
  fst r = fst stage /\
  published (snd r) = published w ++ snd stage.
Proof.
  induction items as [|[l n] items IH]; intros w Hnd Hpos; cbv zeta.
  - cbn. now rewrite app_nil_r.
  - inversion Hnd as [|? ? Hnotin Hnd']; subst.
    inversion Hpos as [|? ? Hn Hpos']; subst. cbn [snd] in Hn.
    pose proof (report_detected_spec E owner camera l n w) as H.
    cbv zeta in H. apply Nat.ltb_lt in Hn. rewrite Hn in H.
    rewrite for_each_cons_step. cbn [filter fst].
    set (w1 := snd (report_detected E owner camera (l, n) w)) in *.
    assert (Hrest : (forall c, Camera.best_objects (camera_view w1 c) =
                               Camera.best_objects (camera_view w c)) ->
                    (forall l', l' <> l ->
                       presence_of w1 owner l' = presence_of w owner l') ->
                    map (fun e : string * nat => (fst e, ON))
                      (filter (fun e => status_differs ON
                                          (presence_of w1 owner (fst e))) items) =
                    map (fun e : string * nat => (fst e, ON))
                      (filter (fun e => status_differs ON
                                          (presence_of w owner (fst e))) items)).
    { intros _ Hst. f_equal. apply filter_ext_in'. intros [l' n'] Hin.
      cbn [fst]. rewrite Hst; auto. intros ->. apply Hnotin.
      apply in_map_iff. now exists (l, n'). }
    destruct (status_differs ON (presence_of w owner l)) eqn:Hd.
    + destruct H as (Hv & Hf & Hp). cbn [map fst publish_until].
      fold (best_of w owner l). rewrite Hf.
      assert (Hb : forall c, Camera.best_objects (camera_view w1 c) =
                             Camera.best_objects (camera_view w c)).
      { intros c. rewrite Hv.
        destruct (String.eqb_spec c owner) as [->|]; reflexivity. }
      assert (Hst : forall l', l' <> l ->
                      presence_of w1 owner l' = presence_of w owner l').
      { intros l' Hne. unfold presence_of. rewrite Hv, String.eqb_refl.
        cbn. apply get_set_other. congruence. }
      specialize (Hrest Hb Hst).
      destruct (IH w1 Hnd' Hpos') as [Hf2 Hp2]. cbv zeta in Hf2, Hp2.
      rewrite Hb, Hrest in Hf2, Hp2.
      destruct (transition_outcome E (best_of w owner l) camera l ON)
        as [[[]|e] msgs]; cbn [fst snd] in *.
      * split; [exact Hf2|]. now rewrite Hp2, Hp, app_assoc.
      * split; [reflexivity | exact Hp].
    + destruct H as (Hv & Hf & Hp). rewrite Hf.
      assert (Hb : forall c, Camera.best_objects (camera_view w1 c) =
                             Camera.best_objects (camera_view w c))
        by (intros c; now rewrite Hv).
      assert (Hst : forall l', l' <> l ->
                      presence_of w1 owner l' = presence_of w owner l').
      { intros l' _. unfold presence_of. now rewrite Hv. }
      specialize (Hrest Hb Hst).
      destruct (IH w1 Hnd' Hpos') as [Hf2 Hp2]. cbv zeta in Hf2, Hp2.
      rewrite Hb, Hrest in Hf2, Hp2.
      split; [exact Hf2|]. now rewrite Hp2, Hp.
Qed.

Lemma expire_trace E owner camera ls : forall w,
  let r := for_each ls (report_expired E owner camera) w in
  let stage :=
    publish_until E (Camera.best_objects (camera_view w owner)) camera
      (map (fun l => (l, OFF)) ls) in
  fst r = fst stage /\
  published (snd r) = published w ++ snd stage.
Proof.
  induction ls as [|l ls IH]; intros w; cbv zeta.
  - cbn. now rewrite app_nil_r.
  - destruct (report_expired_spec E owner camera l w) as (Hv & Hf & Hp).
    rewrite for_each_cons_step. cbn [map publish_until].
    fold (best_of w owner l).
    set (w1 := snd (report_expired E owner camera l w)) in *.
    rewrite Hf.
    destruct (IH w1) as [Hf2 Hp2]. cbv zeta in Hf2, Hp2.
    assert (Hb : Camera.best_objects (camera_view w1 owner) =
                 Camera.best_objects (camera_view w owner)).
    { now rewrite Hv, String.eqb_refl. }
    rewrite Hb in Hf2, Hp2.
    destruct (transition_outcome E (best_of w owner l) camera l OFF)
      as [[[]|e] msgs]; cbn [fst snd] in *.
    + split; [exact Hf2|]. now rewrite Hp2, Hp, app_assoc.
    + split; [reflexivity | exact Hp].
Qed.

(** The presence stage publishes what its transitions publish, and ends
    as they end. *)
Lemma report_presence_trace E owner camera objs w :
  let r := report_presence E owner camera objs w in
  let stage :=
    publish_until E (Camera.best_objects (camera_view w owner)) camera
      (transitions (Camera.object_status (camera_view w owner)) objs) in
  fst r = fst stage /\
  published (snd r) = published w ++ snd stage.
Proof.
  cbv zeta. unfold transitions. rewrite publish_until_app.
  set (counter := count_objects objs).
  pose proof (count_objects_keys objs) as Hkeys. fold counter in Hkeys.
  pose proof (count_objects_positive objs) as Hpos. fold counter in Hpos.
  destruct (detect_trace E owner camera counter w Hkeys Hpos) as [Hf1 Hp1].
  cbv zeta in Hf1, Hp1. unfold presence_of in Hf1, Hp1.
  assert (Hrun : report_presence E owner camera objs w =
                 match for_each counter (report_detected E owner camera) w with
                 | (Ok _, w1) =>
                     for_each
                       (expired_objects
                          (Camera.object_status (camera_view w1 owner)) counter)
                       (report_expired E owner camera)
                       (snd (camera_entry owner w1))
                 | (Raise e, w1) => (Raise e, w1)
                 end).
  { unfold report_presence. fold counter. unfold bind at 1.
    destruct (for_each counter (report_detected E owner camera) w)
      as [[[]|e] w1]; [|reflexivity].
    now rewrite (bind_ok _ _ _ _ _ (camera_entry_value w1 owner)). }
  rewrite Hrun. clear Hrun.
  destruct (for_each counter (report_detected E owner camera) w)
    as [[[]|e] w1] eqn:Hloop; cbn [fst snd] in *; rewrite <- Hf1; [|auto].
  destruct (detect_loop E owner camera counter w Hkeys Hpos) as [_ Hv1].
  { now rewrite Hloop. }
  rewrite Hloop in Hv1. cbn [snd] in Hv1.
  set (w2 := snd (camera_entry owner w1)).
  assert (Hlist : expired_objects (Camera.object_status (camera_view w1 owner))
                    counter =
                  expired_objects (Camera.object_status (camera_view w owner))
                    counter).
  { rewrite Hv1, String.eqb_refl. cbn. apply expired_objects_fold.
    intros e He. apply mem_keys. unfold Dict.keys. now apply in_map. }
  rewrite Hlist.
  destruct (expire_trace E owner camera
              (expired_objects (Camera.object_status (camera_view w owner))
                 counter) w2) as [Hf2 Hp2].
  cbv zeta in Hf2, Hp2.
  assert (Hb : Camera.best_objects (camera_view w2 owner) =
               Camera.best_objects (camera_view w owner)).
  { unfold w2. now rewrite camera_view_entry, Hv1, String.eqb_refl. }
  assert (Hp : published w2 = published w1) by apply camera_entry_published.
  rewrite Hb in Hf2, Hp2. split; [exact Hf2|].
  now rewrite Hp2, Hp, Hp1, <- app_assoc.
Qed.




(** ** The handle of the current frame, step by step *)




(** ** The stages that do not depend on the frame *)

(** Every object seen on the frame leaves its label with a record. *)
Lemma best_loop_has_record E owner camera t objs : forall w key obj,
  In (key, obj) objs -> frame_time obj == t ->
  exists kept,
    best_of (snd (for_each objs (update_best E owner camera t) w)) owner
      (label obj) = Some kept.
Proof.
  induction objs as [|[key0 obj0] objs IH]; intros w key obj Hin Hseen;
    [contradiction|].
  rewrite (for_each_cons_run _ _ _ _
             (update_best_ok E owner camera t (key0, obj0) w)).
  set (w1 := snd (update_best E owner camera t (key0, obj0) w)).
  destruct Hin as [[= -> ->]|Hin]; [|now apply (IH w1 key obj)].
  assert (H1 : exists kept, best_of w1 owner (label obj) = Some kept).
  { destruct (update_best_policy E owner camera t key obj w Hseen)
      as (_ & Hp & _).
    destruct (update_best_record E owner camera t key obj w) as [_ Hr].
    cbv zeta in Hp, Hr. fold w1 in Hp, Hr.
    destruct (best_of w owner (label obj)) as [old|] eqn:Hold; [|eauto].
    destruct (Hr (label obj)) as [H|(_ & _ & H)]; rewrite H; eauto. }
  destruct H1 as [kept1 H1].
  destruct (best_loop_records E owner camera t objs w1 (label obj))
    as [H|(k & o & _ & _ & _ & H)]; rewrite H; eauto.
Qed.

(** The loop body from the best-sighting loop on: what it publishes, how
    it ends, and what it leaves in the zone status and in the records. *)
Lemma later_stages_trace E owner camera t objs coiz w1 :
  Dict.uniq_keys (zone_config E) = true ->
  let r := (for_each objs (update_best E owner camera t) ;;
            report_zones E camera coiz ;;
            report_presence E owner camera objs)%monad w1 in
  let w' := snd r in
  let w2 := snd (for_each objs (update_best E owner camera t) w1) in
  let pairs := examined E w1 camera coiz in
  let stage :=
    publish_until E (Camera.best_objects (camera_view w' owner)) camera
      (transitions (Camera.object_status (camera_view w1 owner)) objs) in
  fst r = fst stage /\
  published w' =
  published w1 ++
  flat_map (fun zl => edge_messages E (fst zl) (snd zl)
                        (zone_or w1 (fst zl) (snd zl))
                        (zone_or w' (fst zl) (snd zl))) pairs ++
  snd stage /\
  (forall zone l, In (zone, l) pairs ->
     camera_reads_on w' zone camera l =
     existsb (String.eqb l) (labels_in zone coiz)) /\
  (forall c, Camera.best_objects (camera_view w' c) =
             Camera.best_objects (camera_view w2 c)) /\
  (Dict.uniq_keys (Camera.object_status (camera_view w1 owner)) = true ->
   fst r = Ok tt ->
   forall l, presence_of w' owner l =
             if Dict.mem l (count_objects objs) then Some ON
             else match presence_of w1 owner l with
                  | Some ON => Some OFF
                  | s => s
                  end).
Proof.
  intros Hu. cbv zeta. rewrite later_stages_split.
  set (w2 := snd (for_each objs (update_best E owner camera t) w1)).
  destruct (best_loop_keeps E owner camera t objs w1) as (_ & Hz2 & Hp2 & Hs2).
  cbv zeta in Hz2, Hp2, Hs2. fold w2 in Hz2, Hp2, Hs2.
  destruct (report_zones_spec E camera coiz w2 Hu) as (Hok & Hpub & _ & _).
  cbv zeta in Hok, Hpub.
  rewrite (bind_ok _ _ _ _ _ (run_ok _ _ _ Hok)).
  set (w3 := snd (report_zones E camera coiz w2)) in *.
  assert (Hs3 : Camera.object_status (camera_view w3 owner) =
                Camera.object_status (camera_view w2 owner)).
  { enough (H : unchanged
                  (fun w => Camera.object_status (camera_view w owner))
                  (report_zones E camera coiz)) by apply H.
    unfold report_zones, report_zone, report_label. keep. }
  assert (Hb3 : forall c, Camera.best_objects (camera_view w3 c) =
                          Camera.best_objects (camera_view w2 c)).
  { intros c.
    enough (H : unchanged (fun w => Camera.best_objects (camera_view w c))
                  (report_zones E camera coiz)) by apply H.
    unfold report_zones, report_zone, report_label. keep. }
  destruct (report_presence_trace E owner camera objs w3) as [Hf Hp].
  cbv zeta in Hf, Hp.
  set (w' := snd (report_presence E owner camera objs w3)) in *.
  assert (Hb' : forall c, Camera.best_objects (camera_view w' c) =
                          Camera.best_objects (camera_view w3 c)).
  { intros c.
    enough (H : unchanged (fun w => Camera.best_objects (camera_view w c))
                  (report_presence E owner camera objs)) by apply H.
    unfold report_presence, report_detected, report_expired, publish_snapshot,
      set_presence.
    keep. }
  assert (Hz' : zone_data w' = zone_data w3).
  { enough (H : unchanged zone_data (report_presence E owner camera objs))
      by apply H.
    unfold report_presence, report_detected, report_expired, publish_snapshot,
      set_presence.
    keep. }
  rewrite Hs3, Hs2 in Hf, Hp. rewrite Hb'.
  split; [exact Hf|]. split; [|split; [|split]].
  - rewrite Hp, Hpub, Hp2, <- app_assoc. do 2 f_equal.
    rewrite (examined_data E w2 w1 camera coiz Hz2).
    apply flat_map_ext. intros [z l]. cbn [fst snd].
    now rewrite (zone_or_data w2 w1 z l Hz2), (zone_or_data w' w3 z l Hz').
  - intros zone l Hin.
    rewrite <- (examined_data E w2 w1 camera coiz Hz2) in Hin.
    unfold examined in Hin. apply in_pairs in Hin as [Hzn Hl].
    rewrite (camera_reads_on_view w' w3) by now apply zone_view_data.
    destruct (zone_loop_entries E camera coiz (relevant_zones E camera) w2
                (relevant_zones_NoDup E camera Hu)) as [Hin _].
    now apply Hin.
  - intros c. now rewrite Hb'.
  - intros Hus Hokr l.
    pose proof (report_presence_spec E owner camera objs w3) as Hspec.
    rewrite Hs3, Hs2 in Hspec. specialize (Hspec Hus Hokr).
    destruct Hspec as (_ & Hst & _). rewrite Hst.
    unfold presence_of. now rewrite Hs3, Hs2.
Qed.

(** C6: the loop body on an item whose frame the store does not have
    under the key of line 121, for a configured camera and a
    classification that returns.  Skipped: nothing is drawn, so whether
    the drawing would raise does not matter, and every key of the store
    and every camera's current frame and handle are as before.  Not
    skipped: the best-sighting update, after which every object seen on
    the item's frame leaves its label with a record, a new one when there
    was none, carrying as its frame the current frame the camera had
    before; the zone stage, after which the entry of the camera for each
    examined (zone, label) pair reads ON exactly when the label is in the
    zone's list, its ON and OFF messages being the first messages of the
    body, one for each examined pair whose OR over the cameras changes;
    and the presence stage, whose transitions publish the rest of the
    messages and give the body its outcome, the presence status of a
    label being ON exactly when it is counted once the body returns. *)
Theorem frame_unavailable_skips_only_frame E owner t objs w settings coiz
    camera :
  Dict.uniq_keys (zone_config E) = true ->
  Dict.uniq_keys (Camera.object_status (camera_view w owner)) = true ->
  Dict.get owner (camera_config E) = Some settings ->
  classify E (zone_data w) objs owner = Ok (coiz, camera) ->
  plasma w (camera ++ format_float E t)%string = None ->
  let r := process E (owner, t, objs) w in
  let w' := snd r in
  let pairs := examined E w camera coiz in
  let stage :=
    publish_until E (Camera.best_objects (camera_view w' owner)) camera
      (transitions (Camera.object_status (camera_view w owner)) objs) in
  (forall k, plasma w' k = plasma w k) /\
  (forall c,
     Camera.object_id (camera_view w' c) = Camera.object_id (camera_view w c) /\
     Camera.current_frame (camera_view w' c) =
     Camera.current_frame (camera_view w c)) /\
  (forall key obj, In (key, obj) objs -> frame_time obj == t ->
     exists kept,
       best_of w' owner (label obj) = Some kept /\
       (best_of w owner (label obj) = None ->
        exists key' obj',
          In (key', obj') objs /\ label obj' = label obj /\
          frame_time obj' == t /\
          kept = set_frame (Camera.current_frame (camera_view w camera))
                   obj')) /\
  (forall zone l, In (zone, l) pairs ->
     camera_reads_on w' zone camera l =
     existsb (String.eqb l) (labels_in zone coiz)) /\
  fst r = fst stage /\
  published w' =
  published w ++
  flat_map (fun zl => edge_messages E (fst zl) (snd zl)
                        (zone_or w (fst zl) (snd zl))
                        (zone_or w' (fst zl) (snd zl))) pairs ++
  snd stage /\
  (fst r = Ok tt ->
   forall l, presence_of w' owner l =
             if Dict.mem l (count_objects objs) then Some ON
             else match presence_of w owner l with
                  | Some ON => Some OFF
                  | s => s
                  end).
Proof.
  intros Hu Hus Hcfg Hcl Hget. cbv zeta.
  assert (Hnone : composite E (owner, t, objs) w = None).
  { unfold composite, frame_key. rewrite Hcl, Hget.
    now destruct (index owner (camera_config E)). }
  assert (Hreach : reaches_zones E (owner, t, objs) w = Some (coiz, camera)).
  { unfold reaches_zones, frame_key, index. now rewrite Hcfg, Hcl, Hget. }
  assert (Hframe : forall c,
            Camera.object_id (camera_view (snd (process E (owner, t, objs) w)) c)
            = Camera.object_id (camera_view w c) /\
            Camera.current_frame
              (camera_view (snd (process E (owner, t, objs) w)) c)
            = Camera.current_frame (camera_view w c) /\
            plasma (snd (process E (owner, t, objs) w)) = plasma w).
  { intros c. pose proof (process_frame E owner t objs w c) as H.
    cbv zeta in H. now rewrite Hnone in H. }
  split; [intros k; now rewrite (proj2 (proj2 (Hframe owner)))|].
  split; [intros c; split; apply Hframe|].
  pose proof (process_before_best E owner t objs w) as Hb.
  rewrite Hreach in Hb.
  destruct Hb as (w1 & Heq & Hz1 & Hp1 & _ & Hb1 & Hs1 & _ & _ & Hf1).
  unfold record_frame in Hf1. rewrite Hnone in Hf1.
  destruct (later_stages_trace E owner camera t objs coiz w1 Hu)
    as (Hfst & Hpub & Hent & Hbest & Hpres).
  cbv zeta in Hfst, Hpub, Hent, Hbest, Hpres. rewrite <- Heq in *.
  set (w' := snd (process E (owner, t, objs) w)) in *.
  rewrite Hs1 in Hfst, Hpub, Hpres.
  rewrite (examined_data E w1 w camera coiz Hz1) in Hpub, Hent.
  split; [|split; [exact Hent|split; [exact Hfst|split]]].
  - intros key obj Hin Hseen.
    destruct (best_loop_has_record E owner camera t objs w1 key obj Hin Hseen)
      as [kept Hk].
    unfold best_of in *. rewrite <- Hbest in Hk. exists kept.
    split; [exact Hk|]. intros Hold.
    destruct (best_loop_records E owner camera t objs w1 (label obj))
      as [H|(key' & obj' & Hin' & Hl & Hs & H)]; unfold best_of in H;
      rewrite <- Hbest, Hk in H.
    + rewrite Hb1, Hold in H. discriminate.
    + exists key', obj'. rewrite Hf1 in H. injection H as ->.
      repeat split; auto. now apply Qeq_bool_iff.
  - rewrite Hpub, Hp1. do 2 f_equal. apply flat_map_ext. intros [z l].
    cbn [fst snd]. now rewrite (zone_or_data w1 w z l Hz1).
  - intros Hok l. rewrite Hpres; auto.
    unfold presence_of. now rewrite Hs1.
Qed.

(** ** The tracked objects of an item, as the body leaves them *)

Lemma Forall2_same {A} (R : A -> A -> Prop) l :
  (forall a, In a l -> R a a) -> Forall2 R l l.
Proof.
  induction l as [|a l IH]; intros H; constructor.
  - apply H. now left.
  - apply IH. intros b Hb. apply H. now right.
Qed.

Lemma Forall2_compose {A} (R1 R2 R3 : A -> A -> Prop) l1 : forall l2 l3,
  (forall a b c, R1 a b -> R2 b c -> R3 a c) ->
  Forall2 R1 l1 l2 -> Forall2 R2 l2 l3 -> Forall2 R3 l1 l3.
Proof.
  induction l1 as [|a l1 IH]; intros l2 l3 Hc H12 H23.
  - inversion H12; subst. inversion H23; subst. constructor.
  - inversion H12 as [|? b ? l2' Hab H12']; subst.
    inversion H23 as [|? c ? l3' Hbc H23']; subst.
    constructor; eauto.
Qed.

Lemma Forall2_impl_in {A} (R R' : A -> A -> Prop) l : forall l',
  (forall a b, In a l -> R a b -> R' a b) ->
  Forall2 R l l' -> Forall2 R' l l'.
Proof.
  induction l as [|a l IH]; intros l' Hi H;
    inversion H as [|? b ? l2 Hab Hrest]; subst; constructor.
  - apply Hi; [now left | assumption].
  - apply IH; [|assumption]. intros u v Hu. apply Hi. now right.
Qed.

(** An assignment to a key the dict has keeps every entry in its place
    and changes the value of that key only. *)
Lemma set_Forall2 {V} key (v : V) (d : Dict.t V) :
  Dict.mem key d = true ->
  Forall2 (fun before after =>
             fst after = fst before /\
             (snd after = snd before \/ (fst before = key /\ snd after = v)))
    d (Dict.set key v d).
Proof.
  unfold Dict.mem. induction d as [|[k' v'] d IH]; cbn [Dict.get Dict.set];
    [discriminate|].
  destruct (String.eqb_spec key k') as [->|Hne]; intros Hm.
  - constructor; [cbn; auto|]. apply Forall2_same. auto.
  - constructor; [cbn; auto|]. now apply IH.
Qed.

Lemma update_best_tracked E owner camera t key obj w :
  let w' := snd (update_best E owner camera t (key, obj) w) in
  let tracked := Camera.tracked_objects (camera_view w owner) in
  Camera.tracked_objects (camera_view w' owner) = tracked \/
  (frame_time obj == t /\
   Camera.tracked_objects (camera_view w' owner) =
   Dict.set key (set_frame (Camera.current_frame (camera_view w camera)) obj)
     tracked).
Proof.
  cbv zeta. destruct (seen_at t obj) eqn:Hs.
  - rewrite (update_best_seen E owner camera t key obj w Hs).
    set (w1 := snd (camera_entry owner w)).
    set (w2 := set_clock_reads (S (clock_reads w)) w1).
    assert (Hv : forall c, camera_view w1 c = camera_view w c)
      by (intros c; apply camera_view_entry).
    assert (Hv2 : forall c, camera_view w2 c = camera_view w c)
      by (intros c; rewrite <- Hv; reflexivity).
    assert (Hstore : forall w0,
              (forall c, camera_view w0 c = camera_view w c) ->
              Camera.tracked_objects
                (camera_view (snd (store_best owner camera key obj w0)) owner) =
              Dict.set key
                (set_frame (Camera.current_frame (camera_view w camera)) obj)
                (Camera.tracked_objects (camera_view w owner))).
    { intros w0 H0.
      destruct (store_best_spec owner camera key obj w0) as (_ & _ & _ & Ht).
      cbv zeta in Ht. now rewrite Ht, String.eqb_refl, !H0. }
    apply Qeq_bool_iff in Hs.
    destruct (best_of w owner (label obj)) as [old|].
    + destruct (Qltb _ _ || Qltb _ _); [right; split; auto|].
      left. cbn [snd]. now rewrite Hv2.
    + right. split; auto.
  - rewrite update_best_stale by assumption. now left.
Qed.

(** The best-sighting loop over the entries [entries] of the dict the
    camera's entry holds: every entry stays in its place, and its object
    is the same or one of [entries] under the same key, seen on the frame,
    with its 'frame' written. *)
Lemma best_loop_tracked E owner camera t entries : forall w,
  (forall key obj, In (key, obj) entries ->
     Dict.mem key (Camera.tracked_objects (camera_view w owner)) = true) ->
  let w' := snd (for_each entries (update_best E owner camera t) w) in
  Forall2
    (fun before after =>
       fst after = fst before /\
       (snd after = snd before \/
        exists obj, In (fst before, obj) entries /\ frame_time obj == t /\
          snd after =
          set_frame (Camera.current_frame (camera_view w camera)) obj))
    (Camera.tracked_objects (camera_view w owner))
    (Camera.tracked_objects (camera_view w' owner)).
Proof.
  induction entries as [|[key obj] entries IH]; intros w Hkeys; cbv zeta.
  - cbn [for_each]. apply Forall2_same. auto.
  - rewrite (for_each_cons_run _ _ _ _
               (update_best_ok E owner camera t (key, obj) w)).
    destruct (update_best_record E owner camera t key obj w) as [Hf _].
    pose proof (update_best_tracked E owner camera t key obj w) as Hstep.
    cbv zeta in Hf, Hstep.
    set (w1 := snd (update_best E owner camera t (key, obj) w)) in *.
    assert (Hmem : Dict.mem key (Camera.tracked_objects (camera_view w owner))
                   = true) by (apply (Hkeys key obj); now left).
    assert (Hkeys1 : forall k o, In (k, o) entries ->
              Dict.mem k (Camera.tracked_objects (camera_view w1 owner)) = true).
    { intros k o Hin.
      assert (Hk : Dict.mem k (Camera.tracked_objects (camera_view w owner))
                   = true) by (apply (Hkeys k o); now right).
      destruct Hstep as [->|[_ ->]]; [exact Hk|].
      apply mem_keys. rewrite keys_set, Hmem. now apply mem_keys. }
    specialize (IH w1 Hkeys1). cbv zeta in IH. rewrite Hf in IH.
    refine (Forall2_compose
             (fun before after : string * tracked_object =>
                fst after = fst before /\
                (snd after = snd before \/
                 (fst before = key /\ frame_time obj == t /\
                  snd after =
                  set_frame (Camera.current_frame (camera_view w camera))
                    obj)))
             _ _ _ _ _ _ _ IH).
    + intros a b c [Hab1 Hab2] [Hbc1 Hbc2]. split; [congruence|].
      rewrite Hab1 in Hbc2.
      destruct Hbc2 as [Hbc2|(o & Hin & Hs & Hbc2)].
      * rewrite Hbc2. destruct Hab2 as [H|(H1 & H2 & H3)]; [now left|].
        right. exists obj. rewrite H1. split; [now left|]. auto.
      * right. exists o. split; [now right|]. auto.
    + destruct Hstep as [->|[Hs ->]].
      * apply Forall2_same. auto.
      * eapply Forall2_impl_in; [|apply set_Forall2; exact Hmem].
        cbv beta. intros a b _ [H1 [H2|[H2 H3]]]; split; auto.
Qed.

(** Lines 101-105 and what is left of them at the end of the
    body.  An item of a camera that [camera_config] does not name raises
    the KeyError of line 101 with the state untouched.  For a configured
    camera, whatever the later stages do and whether or not they raise,
    the camera's entry ends with the item's frame time and with the
    item's tracked objects, under the same keys in the same order: as
    they came when the body does not reach the best-sighting loop, and
    otherwise each of them either as it came or, for an object seen on
    the item's frame, with its 'frame' set by line 172 or 175 to the
    frame the loop copies.  The tracked objects of an item have each key
    once. *)
Theorem item_bookkeeping E owner t objs w :
  Dict.uniq_keys objs = true ->
  match Dict.get owner (camera_config E) with
  | None => process E (owner, t, objs) w = (Raise (KeyError owner), w)
  | Some _ =>
      let w' := snd (process E (owner, t, objs) w) in
      Camera.current_frame_time (camera_view w' owner) = t /\
      match reaches_zones E (owner, t, objs) w with
      | None => Camera.tracked_objects (camera_view w' owner) = objs
      | Some (_, camera) =>
          Forall2
            (same_but_frame t (record_frame E (owner, t, objs) w camera))
            objs (Camera.tracked_objects (camera_view w' owner))
      end
  end.
Proof.
  intros Huniq. apply uniq_keys_NoDup in Huniq.
  destruct (Dict.get owner (camera_config E)) as [settings|] eqn:Hs.
  2: { unfold process, begin_item, lift, index. rewrite Hs. reflexivity. }
  cbv zeta. destruct (begin_item_view E owner t objs w settings Hs) as [Hfst Hv].
  split.
  { rewrite (after_begin_view E Camera.current_frame_time);
      try (intros; first [reflexivity | repeat split; reflexivity]).
    now rewrite Hv, String.eqb_refl. }
  pose proof (process_before_best E owner t objs w) as Hb.
  destruct (reaches_zones E (owner, t, objs) w) as [[coiz camera]|] eqn:Hr.
  - destruct Hb as (w1 & -> & _ & _ & _ & _ & _ & Ht1 & _ & Hf1).
    rewrite later_stages_split.
    rewrite (proj1 (proj2 (reports_keep_records E owner camera objs coiz owner
                             _))).
    pose proof (best_loop_tracked E owner camera t objs w1) as Hl.
    cbv zeta in Hl. rewrite Ht1, Hf1 in Hl.
    eapply Forall2_impl_in; [|apply Hl].
    + cbv beta. intros a b Ha [H1 H2]. split; [exact H1|].
      destruct H2 as [H2|(o & Hin & Hseen & H2)]; [now left|].
      right. assert (o = snd a) as ->.
      { destruct a as [k v]. cbn [fst snd] in *.
        apply (get_In _ _ _ Huniq) in Hin, Ha. congruence. }
      auto.
    + intros key obj Hin. apply mem_keys. unfold Dict.keys.
      apply in_map_iff. now exists (key, obj).
  - clear Hb. rewrite process_stages. unfold reaches_zones, index in Hr.
    rewrite Hs in Hr.
    pose proof (begin_item_keeps E zone_data owner t objs (fun _ _ => eq_refl) w)
      as Hz.
    pose proof (begin_item_keeps E plasma owner t objs (fun _ _ => eq_refl) w)
      as Hpl.
    assert (Ht0 : Camera.tracked_objects
                    (camera_view (snd (begin_item E owner t objs w)) owner) =
                  objs) by now rewrite Hv, String.eqb_refl.
    destruct (begin_item E owner t objs w) as [[s|e] w0]; cbn [fst snd] in *;
      [|discriminate].
    injection Hfst as ->. rewrite Hz.
    destruct (classify E (zone_data w) objs owner) as [[coiz camera]|e];
      [|exact Ht0].
    destruct (plasma w (frame_key E camera t)) as [img|] eqn:Hget;
      [|discriminate].
    destruct (annotate E settings (zone_data w) camera t objs coiz img)
      as [img'|e] eqn:Hann; [discriminate|].
    rewrite <- Hpl in Hget. rewrite <- Hz in Hann.
    now rewrite (update_current_frame_raises E settings camera t objs coiz
                   w0 img e Hget Hann).
Qed.

(** ** The further properties on the scenarios *)

Lemma coordinate_formats_agree_witness :
  Cases.square_as_list <> [] /\
  Forall (fun p => List.length (str_split "," p) = 2%nat) Cases.square_as_list /\
  parse_coordinates Builtins.sample (PyStr "0,0,10,0,10,10,0,10") =
  Some (Done Sample.square) /\
  parse_coordinates Builtins.sample (PyList (map PyStr Cases.square_as_list)) =
  Some (Done Sample.square).
Proof.
  assert (H1 : Cases.square_as_list <> []) by discriminate.
  assert (H2 : Forall (fun p => List.length (str_split "," p) = 2%nat)
                 Cases.square_as_list) by (repeat constructor).
  split; [exact H1|]. split; [exact H2|]. split; [reflexivity|].
  exact (eq_trans
           (eq_sym (coordinate_formats_agree Builtins.sample
                      Cases.square_as_list H1 H2))
           eq_refl).
Defined.

Lemma string_coordinates_by_parity_witness :
  map (int_of Builtins.sample) (str_split "," "0,0,10") =
  map Some [0; 0; 10]%Z /\
  parse_coordinates Builtins.sample (PyStr "0,0,10") = Some (Failed IndexError).
Proof.
  split; [reflexivity|].
  exact (string_coordinates_by_parity Builtins.sample "0,0,10" [0; 0; 10]%Z
           eq_refl).
Defined.

Lemma init_contours_witness :
  let E := Scenario.front_yard in
  config_keys_unique E = true /\
  init E Builtins.sample (fun _ => None) = Done (Sample.initial ["front"], []) /\
  contour_of (zone_data (Sample.initial ["front"])) "yard" "front" =
  Some Sample.square /\
  contour_of (zone_data (Sample.initial ["front"])) "yard" "back" = None.
Proof.
  split; [reflexivity|]. split; [reflexivity|].
  pose proof (proj1 (init_contours Scenario.front_yard Builtins.sample
                       (fun _ => None) (Sample.initial ["front"]) []
                       eq_refl eq_refl)) as H.
  split; [exact (H "yard" "front") | exact (H "yard" "back")].
Defined.

Lemma configured_filters_are_ignored_witness :
  let E := Scenario.filtered_yard in
  let zones := zone_data (Sample.initial ["back"]) in
  let objs := [("1000.0-0", Scenario.small_person)] in
  filters_plain E = true /\
  zones_configured E zones /\
  tests_return E zones objs = true /\
  classify E zones objs "back" = Ok ([("yard", ["person"])], "back") /\
  objects_inside E zones objs "yard" = ["person"].
Proof.
  assert (Hz : zones_configured Scenario.filtered_yard
                 (zone_data (Sample.initial ["back"]))).
  { apply (init_configured Scenario.filtered_yard Builtins.sample (fun _ => None)
             (Sample.initial ["back"]) []); reflexivity. }
  split; [reflexivity|]. split; [exact Hz|]. split; [reflexivity|].
  split; [reflexivity|].
  exact (eq_sym
           (proj1 (proj2
              (configured_filters_are_ignored Scenario.filtered_yard
                 (zone_data (Sample.initial ["back"]))
                 [("1000.0-0", Scenario.small_person)] "back" eq_refl Hz))
              [("yard", ["person"])] "back" eq_refl "yard")).
Defined.

Lemma repeated_item_is_silent_witness :
  let E := Scenario.front_yard in
  let w := Sample.initial ["front"] in
  let item := Scenario.item_of "front" Scenario.small_person in
  let w1 := snd (process E item w) in
  Dict.uniq_keys (zone_config E) = true /\
  Dict.uniq_keys (Camera.object_status (camera_view w "front")) = true /\
  fst (process E item w) = Ok tt /\
  List.length (published w1) = 3%nat /\
  published (snd (process E item w1)) = published w1.
Proof.
  split; [reflexivity|]. split; [reflexivity|]. split; [reflexivity|].
  split; [reflexivity|].
  exact (repeated_item_is_silent Scenario.front_yard "front" 1000
           [("1000.0-0", Scenario.small_person)] (Sample.initial ["front"])
           eq_refl eq_refl eq_refl).
Defined.

Lemma classification_raises_no_key_error_witness :
  let E := Cases.no_points in
  let w := Cases.pointless in
  let objs := [("1000.0-0", Scenario.small_person)] in
  Dict.uniq_keys (zone_config E) = true /\
  live E Builtins.sample w /\
  classify E (zone_data w) objs "front" = Raise (Other "cv2.error") /\
  tests_return E (zone_data w) objs = false.
Proof.
  assert (Hl : live Cases.no_points Builtins.sample Cases.pointless).
  { apply (live_init _ _ (fun _ => None) _ []). reflexivity. }
  split; [reflexivity|]. split; [exact Hl|]. split; [reflexivity|].
  destruct (classification_raises_no_key_error Cases.no_points
              Builtins.sample Cases.pointless
              [("1000.0-0", Scenario.small_person)] "front"
              (Other "cv2.error") eq_refl Hl eq_refl)
    as [H|[H|[_ H]]]; [discriminate H | discriminate H | exact H].
Defined.

Lemma annotate_draws_witness :
  let E := Scenario.front_yard in
  let w := Sample.initial ["front"] in
  let obj := Scenario.small_person in
  zones_configured E (zone_data w) /\
  annotate E {| show_timestamp := true; draw_zones := true |} (zone_data w)
    "front" 1000 [("1000.0-0", obj)] [("yard", ["person"])] Cases.raw_frame =
  Ok {| base := raw [0; 0; 0]%Z;
        drawn :=
          [draw_box_with_label (box obj) "person" (score obj) (area obj) 2
             (31, 119, 180)%Z;
           rectangle (region obj) (0, 255, 0)%Z 1;
           putText "t=1000.0" (10, 30)%Z (255, 255, 255)%Z 2;
           drawContours Sample.square (31, 119, 180)%Z 8] |}.
Proof.
  assert (Hz : zones_configured Scenario.front_yard
                 (zone_data (Sample.initial ["front"]))).
  { apply (init_configured Scenario.front_yard Builtins.sample (fun _ => None)
             (Sample.initial ["front"]) []); reflexivity. }
  split; [exact Hz|].
  exact (eq_trans
           (annotate_draws Scenario.front_yard
              {| show_timestamp := true; draw_zones := true |}
              (zone_data (Sample.initial ["front"])) "front" 1000
              [("1000.0-0", Scenario.small_person)] [("yard", ["person"])]
              Cases.raw_frame Hz)
           eq_refl).
Defined.

Lemma classification_leaves_camera_witness :
  let E := Scenario.back_yard in
  let zones := zone_data (Sample.initial ["back"]) in
  let objs := [("1000.0-0", Scenario.small_person)] in
  classify E zones objs "front" = Ok ([("yard", ["person"])], "back") /\
  "back" = last (contour_cameras zones) "front".
Proof.
  split; [reflexivity|].
  exact (proj1 (classification_leaves_camera Scenario.back_yard
                  (zone_data (Sample.initial ["back"]))
                  [("1000.0-0", Scenario.small_person)] "front"
                  [("yard", ["person"])] "back" eq_refl)).
Defined.

Lemma classification_lists_objects_witness :
  let E := Scenario.two_cameras in
  let zones := zone_data (Sample.initial ["front"; "back"]) in
  let objs := [("1000.0-0", Scenario.small_person)] in
  classify E zones objs "front" =
  Ok ([("yard", ["person"; "person"])], "back") /\
  objects_in_zone E zones objs "yard" = ["person"; "person"].
Proof.
  split; [reflexivity|].
  exact (eq_sym
           (classification_lists_objects Scenario.two_cameras
              (zone_data (Sample.initial ["front"; "back"]))
              [("1000.0-0", Scenario.small_person)] "front"
              [("yard", ["person"; "person"])] "back" eq_refl "yard")).
Defined.

Lemma item_leaves_other_cameras_witness :
  let E := Scenario.back_yard in
  let w := Sample.initial ["back"] in
  let w' := snd (process E (Scenario.item_of "front" Scenario.small_person) w) in
  "back" <> "front" /\
  Camera.best_objects (camera_view w' "back") = [] /\
  Dict.keys (Camera.best_objects (camera_view w' "front")) = ["person"].
Proof.
  assert (H : "back" <> "front") by discriminate.
  split; [exact H|]. split; [|reflexivity].
  exact (proj1 (item_leaves_other_cameras Scenario.back_yard "front" 1000
                  [("1000.0-0", Scenario.small_person)]
                  (Sample.initial ["back"]) "back" H)).
Defined.

Lemma zone_stage_records_membership_witness :
  let E := Scenario.front_yard in
  let w := Sample.initial ["front"] in
  let coiz := [("yard", ["person"])] in
  Dict.uniq_keys (zone_config E) = true /\
  In ("yard", "person") (examined E w "front" coiz) /\
  camera_reads_on (snd (report_zones E "front" coiz w)) "yard" "front" "person"
  = true.
Proof.
  assert (Hin : In ("yard", "person")
                  (examined Scenario.front_yard (Sample.initial ["front"])
                     "front" [("yard", ["person"])])) by (now left).
  split; [reflexivity|]. split; [exact Hin|].
  exact (proj1 (zone_stage_records_membership Scenario.front_yard "front"
                  [("yard", ["person"])] (Sample.initial ["front"]) eq_refl)
           "yard" "person" Hin).
Defined.

Lemma zone_stage_idempotent_witness :
  let E := Scenario.front_yard in
  let w := Sample.initial ["front"] in
  let coiz := [("yard", ["person"])] in
  let w1 := snd (report_zones E "front" coiz w) in
  Dict.uniq_keys (zone_config E) = true /\
  published w1 = [zone_message E "yard" "person" "ON"] /\
  published (snd (report_zones E "front" coiz w1)) = published w1.
Proof.
  split; [reflexivity|]. split; [reflexivity|].
  exact (proj1 (zone_stage_idempotent Scenario.front_yard "front"
                  [("yard", ["person"])] (Sample.initial ["front"]) eq_refl)).
Defined.

Lemma reachable_entries_ok_witness :
  reachable Scenario.front_yard (Scenario.seen Scenario.front_yard) /\
  entry_ok (camera_view (Scenario.seen Scenario.front_yard) "front").
Proof.
  assert (H : reachable Scenario.front_yard (Scenario.seen Scenario.front_yard)).
  { apply reach_process, reach_init. reflexivity. }
  split; [exact H|].
  exact (reachable_entries_ok Scenario.front_yard
           (Scenario.seen Scenario.front_yard) H "front").
Defined.

Lemma presence_stage_idempotent_witness :
  let E := Scenario.front_yard in
  let w := Scenario.seen E in
  let w1 := snd (report_presence E "front" "front" [] w) in
  Dict.uniq_keys (Camera.object_status (camera_view w "front")) = true /\
  fst (report_presence E "front" "front" [] w) = Ok tt /\
  List.length (published w1) = (List.length (published w) + 2)%nat /\
  published (snd (report_presence E "front" "front" [] w1)) = published w1.
Proof.
  split; [reflexivity|]. split; [reflexivity|]. split; [reflexivity|].
  exact (proj1 (proj2 (presence_stage_idempotent Scenario.front_yard "front"
                         "front" [] (Scenario.seen Scenario.front_yard)
                         eq_refl eq_refl))).
Defined.

Lemma presence_edge_needs_record_witness :
  let E := Scenario.front_yard in
  let w := Sample.initial ["front"] in
  (0 < 1)%nat /\
  presence_of w "front" "person" <> Some ON /\
  best_of w "front" "person" = None /\
  fst (report_detected E "front" "front" ("person", 1%nat) w) =
  Raise (KeyError "person") /\
  fst (process E (Scenario.item_of "front" Scenario.stale_person) w) =
  Raise (KeyError "person").
Proof.
  assert (H1 : (0 < 1)%nat) by (constructor).
  assert (H2 : presence_of (Sample.initial ["front"]) "front" "person"
               <> Some ON) by discriminate.
  split; [exact H1|]. split; [exact H2|]. split; [reflexivity|].
  split; [|reflexivity].
  exact (proj1 (presence_edge_needs_record Scenario.front_yard "front" "front"
                  "person" 1 (Sample.initial ["front"]) H1 H2 eq_refl)).
Defined.

(** ** The claims on the scenarios *)

(** A person comes into the zone and is gone on the next item: the topic
    of the pair carries ON, then OFF. *)
Lemma zone_publish_on_aggregate_edges_witness :
  let E := Scenario.front_yard in
  let w := Sample.initial ["front"] in
  let items := [Scenario.item_of "front" Scenario.small_person;
                ("front", 1010, [])] in
  Dict.uniq_keys (zone_config E) = true /\
  topics_own E "yard" "front" = true /\
  aggregate_edges E "yard" "person" items w =
  [{| topic := "frigate/yard/person"; body := text "ON"; retain := false |};
   {| topic := "frigate/yard/person"; body := text "OFF"; retain := false |}] /\
  exists new,
    published (snd (run E items w)) = published w ++ new /\
    filter (on_topic "frigate/yard/person") new =
    aggregate_edges E "yard" "person" items w.
Proof.
  split; [reflexivity|]. split; [reflexivity|]. split; [reflexivity|].
  apply (zone_publish_on_aggregate_edges Scenario.front_yard "yard" "person"
           [Scenario.item_of "front" Scenario.small_person; ("front", 1010, [])]
           (Sample.initial ["front"]) eq_refl).
  intros owner t objs coiz camera [H|[H|[]]] Hc; injection H as <- <- <-;
    vm_compute in Hc; injection Hc as <- <-; reflexivity.
Defined.

(** C1, as stated, fails on the code: the camera has the name of its
    zone, "yard".  A person seen twice outside the polygon turns the
    whole-frame presence of the camera ON, and "ON" is published on
    [frigate/yard/person], the topic of the pair of the zone "yard" and
    the label "person", while the OR of that pair is false before the
    item and false after it. *)
Lemma zone_topic_carries_camera_presence :
  let E := Cases.yard_camera in
  let w := Sample.initial ["yard"] in
  let item := Scenario.item_of "yard" Cases.passer_by in
  let r := process E item w in
  fst r = Ok tt /\
  zone_or w "yard" "person" = false /\
  zone_or (snd r) "yard" "person" = false /\
  aggregate_edges E "yard" "person" [item] w = [] /\
  filter (on_topic (topic_prefix E ++ "/" ++ "yard" ++ "/" ++ "person"))
    (published (snd r)) =
  [{| topic := "frigate/yard/person"; body := text "ON"; retain := false |}].
Proof. repeat split; reflexivity. Qed.

(** A fainter sighting within the minute leaves the record, for the one
    sighting and along the run. *)
Lemma best_sighting_policy_witness :
  let E := Scenario.front_yard in
  let w := Scenario.seen E in
  let kept :=
    Some (set_frame (Camera.current_frame Camera.fresh) Scenario.small_person) in
  best_of w "front" "person" = kept /\
  best_of
    (snd (update_best E "front" "front" 1000
            ("1000.0-0", Scenario.faint_person) w)) "front" "person" = kept /\
  exists after,
    best_of
      (snd (run E [Scenario.item_of "front" Scenario.faint_person] w))
      "front" "person" = Some after /\
    9 # 10 <= score after.
Proof.
  split; [reflexivity|].
  pose proof (best_sighting_policy Scenario.front_yard "front" "front" 1000
                "1000.0-0" Scenario.faint_person
                [Scenario.item_of "front" Scenario.faint_person] "person"
                (Scenario.seen Scenario.front_yard)) as [H1 H2].
  split.
  - specialize (H1 (Qeq_refl 1000)). cbv zeta in H1.
    destruct H1 as (_ & H1 & _).
    change (best_of (Scenario.seen Scenario.front_yard) "front"
              (label Scenario.faint_person))
      with (Some (set_frame (Camera.current_frame Camera.fresh)
                    Scenario.small_person)) in H1.
    cbv beta iota in H1. destruct H1 as (_ & H1 & _).
    apply H1. intros [H|H]; vm_compute in H; discriminate.
  - apply (H2 (set_frame (Camera.current_frame Camera.fresh)
                 Scenario.small_person) eq_refl).
    + intros n Hn. vm_compute in Hn. destruct Hn as [_ Hn].
      assert (n = 0)%nat as -> by lia. vm_compute. discriminate.
    + intros o t' objs [H|[]] _. injection H as <- <- <-.
      intros n Hn. vm_compute in Hn. destruct Hn as [_ Hn].
      assert (n = 0)%nat as -> by lia. vm_compute. discriminate.
Defined.

(** The first item of the camera "front", whose frame the store does
    not have: the record, the zone entry, the three messages. *)
Lemma frame_unavailable_skips_only_frame_witness :
  let E := Scenario.front_yard in
  let w := Sample.initial ["front"] in
  let objs := [("1000.0-0", Scenario.small_person)] in
  let w' := snd (process E ("front", 1000, objs) w) in
  plasma w "front1000.0" = None /\
  classify E (zone_data w) objs "front" = Ok ([("yard", ["person"])], "front") /\
  (exists kept, best_of w' "front" "person" = Some kept) /\
  camera_reads_on w' "yard" "front" "person" = true /\
  published w' =
  [{| topic := "frigate/yard/person"; body := text "ON"; retain := false |};
   {| topic := "frigate/front/person"; body := text "ON"; retain := false |};
   {| topic := "frigate/front/person/snapshot";
      body := bytes [Byte.xff; Byte.xd8; Byte.xff; Byte.xd9];
      retain := true |}].
Proof.
  split; [reflexivity|]. split; [reflexivity|].
  pose proof (frame_unavailable_skips_only_frame Scenario.front_yard "front"
                1000 [("1000.0-0", Scenario.small_person)]
                (Sample.initial ["front"])
                {| show_timestamp := true; draw_zones := true |}
                [("yard", ["person"])] "front"
                eq_refl eq_refl eq_refl eq_refl eq_refl)
    as (_ & _ & Hbest & Hzone & _ & Hpub & _).
  split; [|split].
  - destruct (Hbest "1000.0-0" Scenario.small_person) as (kept & Hk & _);
      [now left | reflexivity | now exists kept].
  - apply (Hzone "yard" "person"). now left.
  - etransitivity; [exact Hpub | reflexivity].
Defined.




(** The first item of the camera "front": its one object, seen on the
    item's frame, is left with its 'frame' written. *)
Lemma item_bookkeeping_witness :
  let E := Scenario.front_yard in
  let w := Sample.initial ["front"] in
  let objs := [("1000.0-0", Scenario.small_person)] in
  let w' := snd (process E ("front", 1000, objs) w) in
  Dict.uniq_keys objs = true /\
  Camera.current_frame_time (camera_view w' "front") = 1000 /\
  Forall2 (same_but_frame 1000 (Camera.current_frame Camera.fresh)) objs
    (Camera.tracked_objects (camera_view w' "front")) /\
  Camera.tracked_objects (camera_view w' "front") =
  [("1000.0-0",
    set_frame (Camera.current_frame Camera.fresh) Scenario.small_person)].
Proof.
  split; [reflexivity|].
  pose proof (item_bookkeeping Scenario.front_yard "front" 1000
                [("1000.0-0", Scenario.small_person)]
                (Sample.initial ["front"]) eq_refl) as H.
  set (s := Dict.get "front" (camera_config Scenario.front_yard)) in H.
  vm_compute in s. subst s. cbv beta iota zeta in H.
  set (z := reaches_zones Scenario.front_yard
              ("front", 1000, [("1000.0-0", Scenario.small_person)])
              (Sample.initial ["front"])) in H.
  vm_compute in z. subst z. cbv beta iota in H.
  destruct H as [Ht Hf]. split; [exact Ht|]. split; [exact Hf|]. reflexivity.
Defined.

(** C4, as stated, fails on the code within two minutes of the epoch.
    The record of "person" was captured at time 0.1 with score 0.9; the
    clock reads 60.1; a person with score 0.5 is seen.  More than 60
    seconds have elapsed since the capture, by the floats themselves;
    the difference line 171 computes is the float 60.0, which is not
    greater than 60, and the record stays. *)
Lemma best_record_kept_past_60_seconds :
  let E := Cases.near_epoch in
  let w := Cases.early_record in
  let w' := snd (update_best E "front" "front" 60
                   ("60.0-0", Cases.late_sighting) w) in
  best_of w "front" "person" = Some Cases.early_sighting /\
  frame_time Cases.late_sighting == 60 /\
  score Cases.late_sighting < score Cases.early_sighting /\
  60 < now E (clock_reads w) - frame_time Cases.early_sighting /\
  nearest_float E (now E (clock_reads w) - frame_time Cases.early_sighting)
  == 60 /\
  best_of w' "front" "person" = Some Cases.early_sighting.
Proof. repeat split; reflexivity. Qed.
